(* ===== verification/_CoqProject ===== *)
-Q . S2P
Prelude.v
Words.v
MemSim.v
CacheModel.v
CacheRow.v
CacheSpec.v
CacheProps.v
MemQueueModel.v
MemQueueSpec.v
MemQueueProps.v
TraceFormat.v
Memtracer.v
CpuModel.v
BitArray.v
PrefetcherInterface.v
SimplePrefetchers.v
TablePrefetchers.v
HybridPrefetcher.v
PrefetcherProps.v
Simulator.v
SimParts.v
SimView.v
SimInvariant.v
SimProps.v
SimReport.v
SimTiming.v
PrefetcherEquiv.v
SimEquiv.v
PrefetcherRefs.v
EquivProps.v
Win32.v
Mathx.v
StopwatchStack.v
MathxProps.v
FloatProps.v
Machine.v
Experiment.v
CpuExperiments.v
ContextSwitch.v
MemoryExperiments.v
FakeKernelModel.v
FileSystemModel.v
FileSystemExperiments.v
NetworkExperiments.v
MicroBench.v
Effects.v
ExperimentEffects.v
MemoryNetworkEffects.v
DemoOs.v
StopwatchProps.v
FileSystemProps.v
ContextSwitchProps.v
Frames.v
Completion.v
Reports.v
FileRunProps.v
CpuProps.v
MemoryProps.v
FakeKernelProps.v
NetworkProps.v
ProfilerProps.v
StopwatchTypes.v
ChildProps.v
ByteMemory.v
TmallocModel.v
TmallocSpec.v
TmallocRefine.v
TmallocProps.v
TargetProps.v
ShellParser.v
ShellGrammar.v
ShellRefine.v
ShellRun.v
ShellEffects.v
ShellProps.v
NachosLib.v
NachosShell.v
NachosLibProps.v
NachosShellProps.v
NachosPrograms.v
