(* ===== verification/Prelude.v ===== *)
(** * Verification of the C++ programs of this repository

    The repository holds course work in many languages; its own C++ code is two
    programs, and both are modelled here in full. Of its C code the heap allocator and
    the target programs of a security course are modelled, the shell of an operating
    systems course, and the C library, the shell and the test programs that run on the
    Nachos kernel.

    ** The cache simulator (src/cse240a/project/cse240a-proj1)

    A tool for Pin writes the memory references of a program to a trace file; the
    simulator replays the trace against two levels of cache, three queues and one
    of seven prefetchers, cycle by cycle, and reports hit rates and access times.

    - Data: [MemSim] (mem-sim.h), [TraceFormat] (the line memtracer.cpp prints with
      [fprintf] and CPU.C reads with [fscanf]), [Words] (unsigned and [int]
      arithmetic at 32 bits, and [double], on the Standard Library's SpecFloat).
    - Set-associative cache, class [Cache] (cache.h, cache.C): [CacheModel]. [CacheRow]
      and [CacheSpec] relate its arrays to recency lists, [CacheProps] has the theorems.
    - Request queues, class [memQueue] (memQueue.h, memQueue.C): [MemQueueModel];
      [MemQueueSpec] relates the circular buffer to a bounded list; [MemQueueProps].
    - Trace generator (memtracer.cpp): [Memtracer].
    - Processor, class [CPU] (CPU.h, CPU.C): [CpuModel].
    - Prefetchers: the class interface and the laws its clients rely on are the type
      classes of [PrefetcherInterface]; its instances are the prefetcher.{h,C} pairs
      no_prefetch, sample-pf and basic_pf_2blk ([SimplePrefetchers]), tagged, rpt_pf
      and amalgam ([TablePrefetchers]) and the submitted one ([HybridPrefetcher]), the
      packed bit arrays of two of them in [BitArray]; [PrefetcherProps].
    - Main loop (main.C): [Simulator], for any instance of the interface. [SimParts] has
      the invariant of the parts, [SimView] an abstract machine (the processor's state and
      the gaps of its requests, the contents of the queues with their ready times, no
      caches) and its progress, [SimInvariant] the proof that every turn of the loop is
      defined and is a turn of that machine; [SimProps]. [SimTiming] is about the time the
      machine takes, [SimReport] about the counters and the report they make.
    - Prefetchers against one another: [PrefetcherEquiv] has simulations between two
      instances of the interface, and with fresh memory of any content; [SimEquiv] carries
      them through the main loop to the report; [PrefetcherRefs] has reference prefetchers
      on sets and maps and the simulations to them; [EquivProps] the theorems.

    Undefined behaviour (an index outside an array, a shift by the width of the type,
    signed overflow, reading the trace past its end) is [None] in the option monad.
    What uninitialised members hold is an argument. The C library's [rand] is the type
    class [CRand]: any generator that keeps the documented range.

    ** The profiler (src/cse220/Micro-Bench/code/Profiler, and MemSucker)

    A set of experiments that measure a Windows machine, on a stopwatch that keeps
    histories of times under tags.

    - The platform: [Win32] lists the system calls the sources make; a system is any
      state machine that answers them. [Machine] is the monad of the programs: a log
      of the calls and their answers, the stopwatch, the results, and the ways to end
      (a value, an exception, a thrown pointer, a failed assertion, undefined behaviour,
      out of fuel).
    - class [StopwatchStack] (StopwatchStack.h, .inl, .cpp): [StopwatchStack], and
      [Machine] for the members that read the clock; [StopwatchProps]. [Mathx] (Mathx.h)
      and [MathxProps]: the statistics; [FloatProps]: the conversion of times to ticks;
      [StopwatchTypes]: the type invariant of the stopwatch, through every program.
    - [Experiment] (Experiment.h, .cpp): results, reports. The experiments themselves:
      [CpuExperiments] (MeasurementOverhead, LoopOverhead, ProcedureOverhead,
      SystemCallOverhead, TaskCreation), [ContextSwitch] (ContextSwitchTime, its main
      thread and child process as programs, its threads as a step relation),
      [MemoryExperiments] (MemoryLatency, MemoryBandwidth, MemoryPageFault, and
      MemSucker/memSucker.cpp), [FakeKernelModel] (FakeKernel), [FileSystemModel]
      (FileSystemExperiment), [FileSystemExperiments] (FileSystemCacheSize, -LocalRead,
      -Contention, -RemoteRead), [NetworkExperiments] (NetworkPeakBandwidth with its
      server, NetworkSetupTeardown, NetworkRoundTripTime). [MicroBench] is main.cpp.
    - [Effects], [ExperimentEffects] and [MemoryNetworkEffects] say what a normal run of
      an experiment leaves in stopwatch and results; [Completion] is the logic of
      programs that end normally, [Reports] that of the names they report under, [Frames]
      says which static data they leave alone. [DemoOs] is the concrete system of the
      witnesses.
    - [CpuProps], [ContextSwitchProps], [MemoryProps], [FakeKernelProps],
      [FileSystemProps] (names, sizes, reading a file), [FileRunProps] (the experiments that
      read them), [NetworkProps], [ProfilerProps] and [ChildProps] have the theorems.

    ** The allocator and the target programs (src/cse127/pp1/targets)

    C programs for an i386, with casts between pointers and numbers: [ByteMemory] is their
    memory, a byte or a fault at every address.

    - [TmallocModel] is tmalloc.c, macro by macro: the chunk headers are words in memory and
      are followed whatever they hold. [TmallocSpec] says when the arena is a chain of chunks
      and what the header operations do to it; [TmallocRefine] has the allocator on lists of
      chunks and shows that [tmalloc] and [tfree] implement it; [TmallocProps] the theorems,
      for a client as a set of reachable states.
    - [TargetProps] has the functions with the memory errors of target1.c to target4.c, and
      says how far each of them writes.

    ** The shell (src/mit6.828/lecture_exercises/01/sh.c)

    - [ShellParser] is the parser on its buffer: [gettoken], [peek], the [parse...] functions
      on a heap of command nodes. [ShellGrammar] has a lexer, a grammar and a printer of
      commands as trees; [ShellRefine] shows that the parser implements them.
    - [ShellRun] is the system, processes that run programs of system calls, descriptors,
      pipes, and a step relation for every schedule; and [runcmd], [getcmd] and [main] as
      such programs. [ShellEffects] reasons about a parent that forks and waits under all
      schedules, and about the programs that are started. [ShellProps] has the theorems.

    ** The Nachos user programs (src/cse120/nachos/test)

    - [NachosLib] is the C library (strlen.c to memset.c, atoi.c, printf.c, stdio.c, readline.c) on
      arrays that are left only into undefined behaviour; [NachosLibProps].
    - [NachosShell] is sh.c: the tokenizer with its flags, [runline] and [main], over a kernel
      that answers [exec] and [join]; [NachosShellProps].
    - [NachosPrograms] is sort.c, matmult.c, and cp.c, mv.c, cat.c, rm.c and echo.c, over the
      file calls of syscall.h; what that file promises of them is a type class on what a process sees of
      the disk, and a disk that satisfies it is an instance.

    ** What the theorems show

    Components against specifications: the cache implements set-associative LRU for any
    trace of accesses ([cache_implements_lru]; [check] predicts [access], residency,
    inclusion between associativities), the queue a bounded list with duplicate merging
    ([queue_implements_list]; accepted processor requests are queued, one prefetch per
    block), the bit arrays sets, the statistics order statistics whatever
    [std::nth_element] does, the stopwatch the last entries of an unlimited history.

    The simulator as a whole: on every trace [fscanf] can read, with every lawful
    prefetcher, it performs no undefined operation ([simulator_never_undefined]), follows
    the abstract machine ([simulator_follows_machine]), and ends with its report
    ([simulator_ends]). The bound is [(n + 1) * 2 ^ 50] turns for [n] requests: a request
    passes through fewer than [2 ^ 18] stages (its position and the lengths of the queues,
    at most 20, 10 and 10), and from any cycle it is less than [2 ^ 32] turns to the last
    one before the counter wraps, in which every ready time is reached and a stage passed.
    [traced_program_is_simulated] joins tracer, file format and simulator.
    Before the counter wraps the bound is far smaller: [simulator_ends_in_time] counts at
    most 2735 cycles per request beyond the gaps of the trace (20 + 72 * 20 + 72 * 10 + 501
    + 54: the ready time of the front of the L2 queue, an entry of L2 queue or write buffer
    at a time with 20 or 50 cycles for its successor, the memory queue's backlog), and at
    least one. [report_counts_what_happened] says what the seven numbers of the report are
    quotients of and how these counts bound one another; that the hits in L2 can exceed the
    misses in L1 is [l2_hit_rate_above_one].

    Prefetchers: the simulator cannot tell related prefetchers apart
    ([equivalent_prefetchers_same_report]); six of the seven are related to a reference on
    sets and maps ([prefetchers_implement_references]), whatever is in the memory their
    constructors leave alone, but for one word
    ([uninitialised_memory_matters_in_one_word]; it changes a report in
    [uninitialised_word_changes_report]).

    The stopwatch is well formed in every state of every run of the profiler, however its
    calls are answered and however the run ends ([stopwatch_is_well_typed]).

    The experiments: from any state of a stopwatch that has room, each ends normally and
    leaves exactly the stated samples and results ([..._run_to_their_end]; for the file
    system, where the number of reads is up to the system, the names of the results), and
    [profiler_reports_what_it_runs] composes all sixteen; where an experiment depends on
    system calls the system is assumed to be [Cooperative] (Completion.v): calls that create
    something succeed, memory is not exhausted, peers answer; and to have [Files]
    (FileRunProps.v): they open, have a size, and a read brings something. [DemoOs] satisfies
    both. That a reported round trip time can be converted to ticks is proved, not assumed
    ([milliseconds_to_ticks_defined]). The
    threads of the context switch experiment are proved under every interleaving
    ([every_time_is_recorded_once]); parents and children agree on the command line
    ([context_switch_child_fills_its_slot], [bandwidth_server_serves]), and a reader of the
    contention experiment stops at its signal ([contention_reader_stops_at_the_signal]);
    [child_arguments_are_checked] is the error behaviour. Some theorems state what the code
    does where it can hardly be meant ([read_entire_file_never_returns],
    [main_runs_no_experiment]; the lemmas [single_set_is_undefined],
    [gap_wraps_after_2_32_instructions] and [created_files_are_not_the_files_read]).

    The allocator: for every client that writes inside its blocks and frees each once, no
    call faults, blocks stay apart and keep their contents ([allocator_serves_clients]), and
    the chain is first fit with consolidation ([allocator_implements_first_fit]). Requests of
    2 ^ 32 - 15 bytes and more are outside these theorems, and [huge_requests_wrap] says why;
    [tfree_writes_anywhere] says what a forged header does, and
    [target4_returns_into_the_buffer] is the attack on target4.

    The shells. The parser of sh.c ends on every line and builds the tree of the grammar, or
    reports its error ([shell_parser_implements_grammar]), and reads back what the printer
    writes ([shell_parser_reads_printed_commands]). Under every schedule the shell serves its
    lines, starts exactly their programs in order and ends ([shell_serves_its_input], when
    its calls do not fail, [malloc] succeeds and the shell is the only reader of its input);
    and since it waits for the left side of a pipe before it starts the right one, its
    programs run one at a time ([shell_runs_one_program_at_a_time]). Lemmas state where this
    cannot be meant ([first_redirection_wins], [exit_is_a_prefix],
    [failed_fork_prints_no_status], [missing_program_succeeds], [long_lines_are_split]).
    The shell of Nachos splits its lines as the reference grammar [words] does
    ([tokenizer_implements_words]) and serves every line that is typed
    ([nachos_shell_serves_its_lines], undefined only where a number or the name of a program
    is too long), on a [readline] that stays in its array ([readline_stays_in_its_array]) and
    a [printf] that writes the rendering of its format ([printf_writes_the_rendering]).
    [sort_program_succeeds], [matmult_returns_7220] and [file_programs_keep_the_contents] are
    about the programs;
    [mv_loses_the_file] says what happens when a write fails.

    ** Fuel

    [for] loops have a fixed number of turns. Only [while] loops take fuel: the simulator's
    main loop; the reads of [ReadEntireFile] (enough: one more than the size of the file, so
    for a whole run one more than that of the largest file);
    the server's loops (enough: one more than the connections, and than the chunks of a
    connection); a child of the contention experiment (enough: one more than the polls of its
    event that time out, and than the bytes of its file);
    MemSucker (enough: [2 ^ 30 + 1] turns); the search of the chain in [tmalloc] (enough: 8192,
    the chunks the arena can hold) and string functions (one more than the string); the parser of the shell (one more than the
    line), its [runcmd] (101: the lines have 100 characters) and the loops of the shells (one
    more than the lines, or than what is typed); the digits of a number (33) and a format
    (one more than its length); the copying of a file (one more than the file). The theorems say which fuel is enough, or that
    none is.

    ** Not modelled

    target5.c (its error is what [snprintf] makes of a format) and the exploits, which only
    execute a target. The Pin kit (pin-2.5-...) is third-party; the instruction count of memtracer is an
    input. FileSystemLocalReadA is compiled by no project and uses members that no longer
    exist. Destructors that only free memory, the text [std::wostream] gives a [double]
    (a parameter) and progress output of some prefetchers are left out. Of the Nachos tests
    halt.c and tester.c only make calls, and primes.c calls a [scanf] that does not exist;
    the Nachos kernel is Java. The other
    directories hold Java, C, C#, PHP, Perl and Python course work. *)

(** * Prelude: shared notation, automation and lemmas *)
From stdpp Require Export base list numbers option strings gmap.
From Stdlib Require Export ZArith Lia Bool.
#[global] Open Scope Z_scope.

(** ** Undefined behaviour

    A C++ expression is modelled in the option monad: [None] is undefined
    behaviour (an access outside an array, a shift by the width of the type,
    a signed overflow), [Some v] is the value.  The notation is stdpp's
    [x ← m; k]. *)

(** Reading [l[i]] and writing [l[i] = x] at a C index: outside the array both
    are undefined. *)
Definition zlookup {A} (l : list A) (i : Z) : option A :=
  if 0 <=? i then l !! Z.to_nat i else None.

Definition zupdate {A} (l : list A) (i : Z) (x : A) : option (list A) :=
  if (0 <=? i) && (i <? Z.of_nat (length l))
  then Some (<[Z.to_nat i := x]> l) else None.

Declare Scope cpp_scope.
Delimit Scope cpp_scope with cpp.
Notation "l .[ i ]" := (zlookup l i) (at level 1, i at level 200, format "l .[ i ]") : cpp_scope.
Notation "l .[ i := x ]" := (zupdate l i x) (at level 1, i at level 200, x at level 200) : cpp_scope.
#[global] Open Scope cpp_scope.

(** ** Loops

    The body of a [for] loop either goes on ([Next]) or leaves the loop
    ([Break]).  [for_loop n i body s] runs the iterations [i .. i+n-1]. *)
Inductive ctl (S : Type) : Type :=
| Next (s : S)
| Break (s : S).
Arguments Next {S} _.
Arguments Break {S} _.

Fixpoint for_loop {S} (n i : nat) (body : nat → S → option (ctl S)) (s : S) : option S :=
  match n with
  | O => Some s
  | Datatypes.S n' =>
      c ← body i s;
      match c with
      | Next s' => for_loop n' (Datatypes.S i) body s'
      | Break s' => Some s'
      end
  end.

(** [for (i = 0; i < n; ++i)] without a [break]. *)
Definition for_each {S} (n : nat) (body : nat → S → option S) (s : S) : option S :=
  for_loop n 0 (fun i s => s' ← body i s; Some (Next s')) s.

(** [while (cond) body], with a bound on the number of iterations. [None] is
    undefined behaviour or an exhausted bound; the termination lemmas of the
    clients exclude the latter. *)
Fixpoint while_loop {S} (fuel : nat) (cond : S → bool) (body : S → option S) (s : S) : option S :=
  if cond s then
    match fuel with
    | O => None
    | Datatypes.S fuel' => s' ← body s; while_loop fuel' cond body s'
    end
  else Some s.

(** ** Lemmas on checked arrays *)
Section arrays.
Context {A : Type}.
Implicit Types (l : list A) (i : Z) (x : A).

Lemma zlookup_nat l (n : nat) : zlookup l (Z.of_nat n) = l !! n.
Proof. unfold zlookup. destruct (Z.leb_spec 0 (Z.of_nat n)); [by rewrite Nat2Z.id | lia]. Qed.

Lemma zlookup_total `{!Inhabited A} l (n : nat) :
  (n < length l)%nat → zlookup l (Z.of_nat n) = Some (l !!! n).
Proof. intros. rewrite zlookup_nat. by apply list_lookup_lookup_total_lt. Qed.

(** Reading an updated array. *)
Lemma list_lookup_insert_Some' l (i j : nat) x y :
  <[i := x]> l !! j = Some y → (i = j ∧ y = x) ∨ (i ≠ j ∧ l !! j = Some y).
Proof. rewrite list_lookup_insert_Some. intros [(? & ? & ?)|[? ?]]; subst; auto. Qed.

Lemma zlookup_Some l i x :
  zlookup l i = Some x ↔ 0 <= i ∧ l !! Z.to_nat i = Some x.
Proof.
  unfold zlookup. destruct (Z.leb_spec 0 i); split.
  - done.
  - by intros [_ ?].
  - done.
  - intros [? _]. lia.
Qed.

Lemma zlookup_is_Some l i :
  is_Some (zlookup l i) ↔ 0 <= i < Z.of_nat (length l).
Proof.
  unfold zlookup. destruct (Z.leb_spec 0 i).
  - rewrite lookup_lt_is_Some. lia.
  - split; [by intros [? [=]] | lia].
Qed.

Lemma zlookup_lt l i : 0 <= i < Z.of_nat (length l) → ∃ x, zlookup l i = Some x.
Proof. intros H. by apply zlookup_is_Some. Qed.

Lemma zupdate_nat l (n : nat) x :
  (n < length l)%nat → zupdate l (Z.of_nat n) x = Some (<[n := x]> l).
Proof.
  intros. unfold zupdate. destruct (Z.leb_spec 0 (Z.of_nat n)); [|lia].
  destruct (Z.ltb_spec (Z.of_nat n) (Z.of_nat (length l))); [|lia].
  simpl. by rewrite Nat2Z.id.
Qed.

Lemma zupdate_in l i x :
  0 <= i < Z.of_nat (length l) → zupdate l i x = Some (<[Z.to_nat i := x]> l).
Proof.
  intros. unfold zupdate. destruct (Z.leb_spec 0 i); [|lia].
  destruct (Z.ltb_spec i (Z.of_nat (length l))); [done|lia].
Qed.

Lemma zupdate_Some l i x l' :
  zupdate l i x = Some l' ↔
  0 <= i < Z.of_nat (length l) ∧ l' = <[Z.to_nat i := x]> l.
Proof.
  unfold zupdate.
  destruct (Z.leb_spec 0 i), (Z.ltb_spec i (Z.of_nat (length l))); simpl;
    (split; [intros [=]; subst; split; lia || done | intros [? ->]; lia || done]).
Qed.

(** Reading back after a write. *)
Lemma zlookup_insert_eq l i x :
  0 <= i < Z.of_nat (length l) → zlookup (<[Z.to_nat i := x]> l) i = Some x.
Proof. intros. apply zlookup_Some. split; [lia|]. apply list_lookup_insert_eq. lia. Qed.

Lemma zlookup_insert_ne l i j x :
  0 <= i → i ≠ j → zlookup (<[Z.to_nat i := x]> l) j = zlookup l j.
Proof.
  intros. unfold zlookup. destruct (Z.leb_spec 0 j); [|done]. apply list_lookup_insert_ne. lia.
Qed.

Lemma zupdate_length l i x l' : zupdate l i x = Some l' → length l' = length l.
Proof. intros [_ ->]%zupdate_Some. apply length_insert. Qed.
End arrays.

(** ** Loop rules *)
Section loops.
Context {S : Type}.

(** A loop whose body keeps [P] and never breaks reaches its end. *)
Lemma for_loop_inv (P : nat → S → Prop) n body : ∀ i s,
  P i s →
  (∀ j s, (i <= j < i + n)%nat → P j s →
    ∃ s', body j s = Some (Next s') ∧ P (Datatypes.S j) s') →
  ∃ s', for_loop n i body s = Some s' ∧ P (i + n)%nat s'.
Proof.
  induction n as [|n IH]; intros i s HP Hbody; simpl.
  - exists s. rewrite Nat.add_0_r. done.
  - destruct (Hbody i s) as (s1 & Hs1 & HP1); [lia | done |].
    rewrite Hs1. simpl.
    destruct (IH (Datatypes.S i) s1 HP1) as (s2 & Hs2 & HP2).
    { intros j s' Hj. apply Hbody. lia. }
    exists s2. split; [done|]. by replace (i + Datatypes.S n)%nat with (Datatypes.S i + n)%nat by lia.
Qed.

Lemma for_each_inv (P : nat → S → Prop) n body s :
  P O s →
  (∀ j s, (j < n)%nat → P j s → ∃ s', body j s = Some s' ∧ P (Datatypes.S j) s') →
  ∃ s', for_each n body s = Some s' ∧ P n s'.
Proof.
  intros HP Hbody. unfold for_each.
  destruct (for_loop_inv P n (fun i s => s' ← body i s; Some (Next s')) 0 s HP) as (s' & ? & ?).
  - intros j s' Hj HPj. destruct (Hbody j s') as (s'' & Hs & ?); [lia|done|].
    exists s''. by rewrite Hs.
  - by exists s'.
Qed.

(** A [while] loop whose condition holds exactly [n] times. *)
Lemma while_loop_inv (P : nat → S → Prop) n cond body : ∀ i s fuel,
  P i s → (n <= fuel)%nat →
  (∀ j s, (i <= j < i + n)%nat → P j s →
    cond s = true ∧ ∃ s', body s = Some s' ∧ P (Datatypes.S j) s') →
  (∀ s, P (i + n)%nat s → cond s = false) →
  ∃ s', while_loop fuel cond body s = Some s' ∧ P (i + n)%nat s'.
Proof.
  induction n as [|n IH]; intros i s fuel HP Hf Hbody Hend.
  - rewrite Nat.add_0_r in *. exists s. destruct fuel; simpl; by rewrite (Hend s HP).
  - destruct (Hbody i s) as (Hc & s1 & Hs1 & HP1); [lia|done|].
    destruct fuel as [|fuel]; [lia|]. simpl. rewrite Hc, Hs1. simpl.
    replace (i + Datatypes.S n)%nat with (Datatypes.S i + n)%nat in * by lia.
    apply IH; [done|lia| |done]. intros j s' Hj. apply Hbody. lia.
Qed.
End loops.

(** ** Search loops *)

(** A loop that breaks at the first index passing a test. *)
Lemma for_loop_find (f : nat → bool) n (body : nat → option Z → option (ctl (option Z))) : ∀ i,
  (∀ j st, (i <= j < i + n)%nat →
    body j st = Some (if f j then Break (Some (Z.of_nat j)) else Next st)) →
  ∃ w, for_loop n i body None = Some w ∧
    match w with
    | Some z => ∃ j, z = Z.of_nat j ∧ (i <= j < i + n)%nat ∧ f j = true ∧
                  ∀ j', (i <= j' < j)%nat → f j' = false
    | None => ∀ j, (i <= j < i + n)%nat → f j = false
    end.
Proof.
  induction n as [|n IH]; intros i Hb; simpl.
  - exists None. split; [done|]. lia.
  - rewrite (Hb i None) by lia. simpl. destruct (f i) eqn:Hf.
    + eexists. split; [done|]. exists i. repeat split; [lia..|done|lia].
    + destruct (IH (S i)) as (w & Hw & H); [intros; apply Hb; lia|].
      exists w. split; [done|]. destruct w as [z|].
      * destruct H as (j & -> & ? & ? & Hmin). exists j. repeat split; [lia..|done|].
        intros j' ?. destruct (decide (j' = i)) as [->|]; [done|]. apply Hmin. lia.
      * intros j ?. destruct (decide (j = i)) as [->|]; [done|]. apply H. lia.
Qed.

(** ** Loops that update an array cell by cell *)
Section upto.
Context {A : Type} (g : nat → A → A).

(** The array once the cells before [m] have been updated. *)
Definition upto (m : nat) (l : list A) : list A :=
  imap (fun j x => if decide (j < m)%nat then g j x else x) l.

Lemma upto_0 l : upto 0 l = l.
Proof.
  unfold upto. apply list_eq. intros j. rewrite list_lookup_imap.
  by destruct (l !! j).
Qed.

Lemma length_upto m l : length (upto m l) = length l.
Proof. apply length_imap. Qed.

Lemma upto_full l : upto (length l) l = imap g l.
Proof.
  unfold upto. apply list_eq. intros j. rewrite !list_lookup_imap.
  destruct (l !! j) eqn:Hj; simpl; [|done].
  rewrite decide_True; [done|]. by eapply lookup_lt_Some.
Qed.

Lemma lookup_upto m l j :
  upto m l !! j = (if decide (j < m)%nat then g j else fun x => x) <$> l !! j.
Proof. unfold upto. rewrite list_lookup_imap. destruct (l !! j); simpl; [by case_decide | done]. Qed.

Lemma upto_step m l x :
  l !! m = Some x → <[m := g m x]> (upto m l) = upto (S m) l.
Proof.
  intros Hx. apply list_eq. intros j. destruct (decide (j = m)) as [->|Hne].
  - rewrite list_lookup_insert_eq by (rewrite length_upto; by eapply lookup_lt_Some).
    rewrite lookup_upto, Hx. simpl. rewrite decide_True by lia. done.
  - rewrite list_lookup_insert_ne by done. rewrite !lookup_upto.
    destruct (l !! j); simpl; [|done]. do 2 case_decide; done || lia.
Qed.

Lemma upto_skip m l x :
  l !! m = Some x → g m x = x → upto m l = upto (S m) l.
Proof.
  intros Hx Hg. rewrite <- (upto_step m l x Hx), Hg.
  symmetry. apply list_insert_id. rewrite lookup_upto, Hx. simpl. by rewrite decide_False by lia.
Qed.

(** Leaving a cell alone is updating it with its own value. *)
Lemma upto_same m l x :
  l !! m = Some x → Some (upto m l) = Some (<[m := x]> (upto m l)).
Proof.
  intros Hx. f_equal. symmetry. apply list_insert_id. rewrite lookup_upto, Hx. simpl.
  by rewrite decide_False by lia.
Qed.

Lemma for_each_imap n body l :
  length l = n →
  (∀ j x, l !! j = Some x →
    body j (upto j l) = Some (<[j := g j x]> (upto j l))) →
  for_each n body l = Some (imap g l).
Proof.
  intros Hn Hb.
  destruct (for_each_inv (fun m l' => l' = upto m l) n body l) as (l' & Hl & ->).
  - by rewrite upto_0.
  - intros j ? Hj ->. destruct (lookup_lt_is_Some_2 l j) as [x Hx]; [lia|].
    rewrite (Hb j x Hx). eexists. split; [done|]. by apply upto_step.
  - rewrite Hl. subst n. by rewrite upto_full.
Qed.
End upto.

(** ** Automation *)
Create HintDb cpp.
Create Rewrite HintDb cpp.
#[export] Hint Rewrite @zlookup_nat @length_insert : cpp.

(** [ub_inv] splits hypotheses [(x ← m; k) = Some y] of the option monad. *)
Ltac ub_inv :=
  repeat match goal with
  | H : (_ ≫= _) = Some _ |- _ =>
      let x := fresh "x" in let Hx := fresh "Hx" in
      apply bind_Some in H; destruct H as (x & Hx & H); simpl in H
  | H : Some _ = Some _ |- _ => injection H; clear H; intros
  | H : None = Some _ |- _ => discriminate H
  end.

(** [bool_cases] splits every boolean comparison of the goal. *)
Ltac bool_cases :=
  repeat match goal with
  | |- context [Z.leb ?a ?b] => destruct (Z.leb_spec a b)
  | |- context [Z.ltb ?a ?b] => destruct (Z.ltb_spec a b)
  | |- context [Z.eqb ?a ?b] => destruct (Z.eqb_spec a b)
  end.
