(* ===== verification/Words.v ===== *)
(** * Machine arithmetic: 32-bit unsigned and [int], and [double]

    Integers are [Z]; unsigned arithmetic wraps, a signed overflow and a shift by
    the width of the type or more are undefined ([None]). [double] is IEEE 754 binary64,
    from the Standard Library's SpecFloat: the conversion from integers, the four
    operations, comparison, and the truncating conversion back. *)
From Stdlib Require Export SpecFloat.
From S2P Require Import Prelude.

(** [u_int32_t]: arithmetic modulo 2^32. *)
Definition u32 (z : Z) : Z := z mod 2 ^ 32.

(** Conversion to [int], as the x86 compilers of the Makefiles do it. *)
Definition s32 (z : Z) : Z := (z + 2 ^ 31) mod 2 ^ 32 - 2 ^ 31.

Definition is_u32 (z : Z) : Prop := 0 <= z < 2 ^ 32.
Definition is_s32 (z : Z) : Prop := - 2 ^ 31 <= z < 2 ^ 31.

(** Signed addition: overflow is undefined. *)
Definition int_add (x y : Z) : option Z :=
  if (- 2 ^ 31 <=? x + y) && (x + y <? 2 ^ 31) then Some (x + y) else None.

(** [x << n] and [x >> n] on [u_int32_t]: undefined unless [0 <= n < 32]. *)
Definition shl32 (x n : Z) : option Z :=
  if (0 <=? n) && (n <? 32) then Some (u32 (Z.shiftl x n)) else None.

Definition shr32 (x n : Z) : option Z :=
  if (0 <=? n) && (n <? 32) then Some (Z.shiftr x n) else None.

(** [(int) log2((double) n)]: the integer part of the logarithm; converting
    [log2(0) = -inf] to [int] is undefined. *)
Definition log2_int (n : Z) : option Z :=
  if 0 <? n then Some (Z.log2 n) else None.

Lemma u32_range z : is_u32 (u32 z).
Proof. unfold is_u32, u32. apply Z.mod_pos_bound. lia. Qed.

Lemma u32_small z : is_u32 z → u32 z = z.
Proof. unfold is_u32, u32. intros. by apply Z.mod_small. Qed.

Lemma u32_idemp z : u32 (u32 z) = u32 z.
Proof. apply u32_small, u32_range. Qed.

Lemma s32_range z : is_s32 (s32 z).
Proof. unfold is_s32, s32. pose proof (Z.mod_pos_bound (z + 2^31) (2^32)). lia. Qed.

Lemma s32_small z : is_s32 z → s32 z = z.
Proof. unfold is_s32, s32. intros. rewrite Z.mod_small; lia. Qed.

Lemma int_add_ok x y : is_s32 (x + y) → int_add x y = Some (x + y).
Proof.
  unfold is_s32, int_add. intros.
  destruct (Z.leb_spec (- 2^31) (x + y)); [|lia].
  by destruct (Z.ltb_spec (x + y) (2^31)); [|lia].
Qed.

Lemma u32_add_u32_l a b : u32 (u32 a + b) = u32 (a + b).
Proof. unfold u32. by rewrite Zplus_mod_idemp_l. Qed.

Lemma shr32_ok x n : 0 <= n < 32 → shr32 x n = Some (x / 2 ^ n).
Proof.
  intros. unfold shr32. rewrite (proj2 (Z.leb_le 0 n)), (proj2 (Z.ltb_lt n 32)) by lia.
  simpl. by rewrite Z.shiftr_div_pow2 by lia.
Qed.

Lemma shl32_ok x n : 0 <= n < 32 → shl32 x n = Some (u32 (x * 2 ^ n)).
Proof.
  intros. unfold shl32. rewrite (proj2 (Z.leb_le 0 n)), (proj2 (Z.ltb_lt n 32)) by lia.
  simpl. by rewrite Z.shiftl_mul_pow2 by lia.
Qed.

(** Shifting the low [s] bits up to the top and back keeps exactly them. *)
Lemma u32_shift_mask x s :
  is_u32 x → 1 <= s <= 32 → u32 (x * 2 ^ (32 - s)) / 2 ^ (32 - s) = x mod 2 ^ s.
Proof.
  intros Hx Hs. unfold u32.
  replace (2 ^ 32) with (2 ^ s * 2 ^ (32 - s)) by (rewrite <- Z.pow_add_r by lia; f_equal; lia).
  rewrite Z.mul_mod_distr_r by (apply Z.pow_nonzero; lia).
  apply Z.div_mul, Z.pow_nonzero; lia.
Qed.

Lemma div_is_u32 x d : is_u32 x → 0 < d → is_u32 (x / d).
Proof.
  unfold is_u32. intros. split; [apply Z.div_pos; lia|].
  apply Z.le_lt_trans with x; [|lia].
  apply Z.div_le_upper_bound; nia.
Qed.

#[export] Hint Resolve u32_range s32_range : cpp.
#[export] Hint Rewrite u32_idemp u32_add_u32_l : cpp.

(** [char], signed as on x86. *)
Definition s8 (z : Z) : Z := (z + 128) mod 256 - 128.
Definition is_s8 (z : Z) : Prop := -128 <= z < 128.

Lemma s8_range z : is_s8 (s8 z).
Proof. unfold is_s8, s8. pose proof (Z.mod_pos_bound (z + 128) 256). lia. Qed.

Abbreviation double := spec_float.

Definition double_of (z : Z) : double := binary_normalize 53 1024 z 0 false.
Definition double_div (x y : double) : double := SFdiv 53 1024 x y.
Definition double_add (x y : double) : double := SFadd 53 1024 x y.
Definition double_mul (x y : double) : double := SFmul 53 1024 x y.
Definition double_ltb (x y : double) : bool := SFltb x y.

(** [static_cast<int64_t>(x)]: towards zero; undefined when the value does not
    fit. *)
Definition double_to_int64 (x : double) : option Z :=
  match x with
  | S754_zero _ => Some 0
  | S754_finite s m e =>
      let v := if 0 <=? e then Z.pos m * 2 ^ e else Z.pos m / 2 ^ (- e) in
      let v := if s then - v else v in
      if (- 2 ^ 63 <=? v) && (v <? 2 ^ 63) then Some v else None
  | _ => None
  end.
