(* ===== verification/MemSim.v ===== *)
(** * The data the simulator's parts exchange (src/cse240a/project/cse240a-proj1/mem-sim.h) *)
From S2P Require Import Prelude.
From S2P Require Import Words.

(** [enum cpuState]. *)
Inductive cpuState : Type :=
| IDLE        (** no requests at this time *)
| READY       (** request ready *)
| WAITING     (** waiting for request to be filled from L2 or mem *)
| STALLED_L2  (** stalled waiting for D-to-L2 bus *)
| STALLED_WB. (** stalled waiting for write_buffer *)

#[export] Instance cpuState_eq_dec : EqDecision cpuState.
Proof. solve_decision. Defined.

(** [struct Request]. *)
Record Request : Type := mkRequest {
  addr : Z;
  pc : Z;
  load : bool;
  fromCPU : bool;
  issuedAt : Z;
  HitL1 : bool;
  HitL2 : bool;
}.

#[export] Instance Request_eq_dec : EqDecision Request.
Proof. solve_decision. Defined.

(** The assignments [r.field = v] the code makes. *)
Definition set_addr (r : Request) (v : Z) : Request :=
  {| addr := v; pc := pc r; load := load r; fromCPU := fromCPU r;
     issuedAt := issuedAt r; HitL1 := HitL1 r; HitL2 := HitL2 r |}.
Definition set_load (r : Request) (v : bool) : Request :=
  {| addr := addr r; pc := pc r; load := v; fromCPU := fromCPU r;
     issuedAt := issuedAt r; HitL1 := HitL1 r; HitL2 := HitL2 r |}.
Definition set_fromCPU (r : Request) (v : bool) : Request :=
  {| addr := addr r; pc := pc r; load := load r; fromCPU := v;
     issuedAt := issuedAt r; HitL1 := HitL1 r; HitL2 := HitL2 r |}.
Definition set_issuedAt (r : Request) (v : Z) : Request :=
  {| addr := addr r; pc := pc r; load := load r; fromCPU := fromCPU r;
     issuedAt := v; HitL1 := HitL1 r; HitL2 := HitL2 r |}.
Definition set_HitL1 (r : Request) (v : bool) : Request :=
  {| addr := addr r; pc := pc r; load := load r; fromCPU := fromCPU r;
     issuedAt := issuedAt r; HitL1 := v; HitL2 := HitL2 r |}.
Definition set_HitL2 (r : Request) (v : bool) : Request :=
  {| addr := addr r; pc := pc r; load := load r; fromCPU := fromCPU r;
     issuedAt := issuedAt r; HitL1 := HitL1 r; HitL2 := v |}.

(** The all-zero request that [calloc] leaves in a queue slot. *)
Definition zeroRequest : Request :=
  {| addr := 0; pc := 0; load := false; fromCPU := false; issuedAt := 0;
     HitL1 := false; HitL2 := false |}.

(** A request whose address and program counter are 32-bit words. *)
Definition req_ok (r : Request) : Prop := is_u32 (addr r) ∧ is_u32 (pc r).

(** The C library's generator ([rand], [srand]): a state, the seeding and the
    next number, which the C standard bounds by [RAND_MAX]. *)
Class CRand := {
  rng : Type;
  srand : Z → rng;
  rand : rng → Z * rng;
  rand_range : ∀ g, 0 <= (rand g).1 <= 2 ^ 31 - 1;
}.

(** The portable generator the C standard prints (C99, 7.20.2.2). *)
Program Definition std_rand : CRand := {|
  rng := Z;
  srand := fun seed => seed;
  rand := fun g =>
    let g' := u32 (g * 1103515245 + 12345) in ((g' / 65536) mod 32768, g');
|}.
Next Obligation. intros g. simpl. pose proof (Z.mod_pos_bound (u32 (g * 1103515245 + 12345) / 65536) 32768). lia. Qed.
