(* ===== verification/CacheModel.v ===== *)
(** * The set-associative cache (src/cse240a/project/cse240a-proj1/cache.h, cache.C) *)
From S2P Require Import Prelude.
From S2P Require Import Words.
From S2P Require Import MemSim.

Module Cache.

(** The private members of [class Cache]: four two-dimensional arrays, one row
    per set, and the configuration. *)
Record Cache : Type := mkCache {
  tags : list (list Z);
  valid : list (list bool);
  dirty : list (list bool);
  lru : list (list Z);
  _blockSize : Z;
  _assoc : Z;
  _numSets : Z;
  _randReplacement : bool;
  _writeAlloc : bool;
  _writeThrough : bool;
}.

(** One row of the four arrays: what [tags[index]], [valid[index]],
    [dirty[index]] and [lru[index]] point to. *)
Record Row : Type := mkRow {
  r_tags : list Z;
  r_valid : list bool;
  r_dirty : list bool;
  r_lru : list Z;
}.

Definition get_row (c : Cache) (index : Z) : option Row :=
  t ← (tags c).[index]; v ← (valid c).[index];
  d ← (dirty c).[index]; l ← (lru c).[index];
  Some (mkRow t v d l).

Definition put_row (c : Cache) (index : Z) (r : Row) : option Cache :=
  t ← (tags c).[index := r_tags r]; v ← (valid c).[index := r_valid r];
  d ← (dirty c).[index := r_dirty r]; l ← (lru c).[index := r_lru r];
  Some (mkCache t v d l (_blockSize c) (_assoc c) (_numSets c)
          (_randReplacement c) (_writeAlloc c) (_writeThrough c)).

Section ops.
Context `{CRand}.

(** [Cache::reset]: every entry of every row zero and invalid, and the
    generator seeded. *)
Definition reset (c : Cache) : Cache * rng :=
  let rows {A} (x : A) := replicate (Z.to_nat (_numSets c)) (replicate (Z.to_nat (_assoc c)) x) in
  (mkCache (rows 0) (rows false) (rows false) (rows 0)
     (_blockSize c) (_assoc c) (_numSets c)
     (_randReplacement c) (_writeAlloc c) (_writeThrough c),
   srand 100).

(** The constructor: the arrays it allocates hold nothing before [reset]. *)
Definition Cache_new (numSets assoc blockSize : Z) (randRep writeAlloc writeThrough : bool) : Cache * rng :=
  reset (mkCache [] [] [] [] blockSize assoc numSets randRep writeAlloc writeThrough).

(** [int b = (int)log2((double)_blockSize)], [int s = (int)log2((double)_numSets)]. *)
Definition b_bits (c : Cache) : option Z := log2_int (_blockSize c).
Definition s_bits (c : Cache) : option Z := log2_int (_numSets c).

(** [addr >> (b + s)]. *)
Definition getTag (c : Cache) (addr : Z) : option Z :=
  b ← b_bits c; s ← s_bits c; shr32 addr (b + s).

(** [((addr >> b) << (32 - s)) >> (32 - s)]. *)
Definition getIndex (c : Cache) (addr : Z) : option Z :=
  b ← b_bits c; s ← s_bits c;
  x ← shr32 addr b; y ← shl32 x (32 - s); shr32 y (32 - s).

(** The loop both [check] and [access] begin with: the first way that is valid
    and holds the tag. The carried value is [Some i] once the loop has broken
    out at way [i]. *)
Definition find_way (r : Row) (tag : Z) (assoc : Z) : option (option Z) :=
  for_loop (Z.to_nat assoc) 0 (fun i st =>
    t ← (r_tags r).[Z.of_nat i]; v ← (r_valid r).[Z.of_nat i];
    Some (if (tag =? t) && v then Break (Some (Z.of_nat i)) else Next st)) None.

(** [Cache::check]: is the block in the cache? It modifies nothing. *)
Definition check (c : Cache) (addr : Z) (load : bool) : option bool :=
  i ← getIndex c addr; t ← getTag c addr;
  let index := s32 i in
  let tag := s32 t in
  r ← get_row c index;
  w ← find_way r tag (_assoc c);
  Some (bool_decide (is_Some w)).

(** "for all that had smaller LRU numbers, add 1 to them", then
    [lru[index][i] = 0]. *)
Definition lru_hit (valid : list bool) (assoc : Z) (i : Z) (lru : list Z) : option (list Z) :=
  l ← for_each (Z.to_nat assoc) (fun j l =>
        lj ← l.[Z.of_nat j]; li ← l.[i];
        if lj <? li then
          v ← valid.[Z.of_nat j];
          if (v : bool) then x ← int_add lj 1; l.[Z.of_nat j := x] else Some l
        else Some l) lru;
  l.[i := 0].

(** The open-slot case: every valid way is aged, then [lru[index][i] = 0]. *)
Definition lru_fill (valid : list bool) (assoc : Z) (i : Z) (lru : list Z) : option (list Z) :=
  l ← for_each (Z.to_nat assoc) (fun j l =>
        v ← valid.[Z.of_nat j];
        if (v : bool) then
          lj ← l.[Z.of_nat j]; x ← int_add lj 1; l.[Z.of_nat j := x]
        else Some l) lru;
  l.[i := 0].

(** [if(_assoc > 1 && !_randReplacement)]. *)
Definition uses_lru (c : Cache) : bool := (1 <? _assoc c) && negb (_randReplacement c).

(** What the first loop of [access] does to the way it found. *)
Definition hit_way (c : Cache) (load : bool) (i : Z) (r : Row) : option Row :=
  d ← (if load then Some (r_dirty r) else (r_dirty r).[i := true]);
  l ← (if uses_lru c then lru_hit (r_valid r) (_assoc c) i (r_lru r) else Some (r_lru r));
  Some (mkRow (r_tags r) (r_valid r) d l).

(** The search for an open slot: the first way that is not valid. *)
Definition find_empty (r : Row) (assoc : Z) : option (option Z) :=
  for_loop (Z.to_nat assoc) 0 (fun i st =>
    v ← (r_valid r).[Z.of_nat i];
    Some (if negb v then Break (Some (Z.of_nat i)) else Next st)) None.

Definition fill_way (c : Cache) (load : bool) (tag : Z) (i : Z) (r : Row) : option Row :=
  t ← (r_tags r).[i := tag];
  v ← (r_valid r).[i := true];
  d ← (if load then Some (r_dirty r) else (r_dirty r).[i := true]);
  l ← (if uses_lru c then lru_fill v (_assoc c) i (r_lru r) else Some (r_lru r));
  Some (mkRow t v d l).

(** [tags[index][i] = tag; valid[index][i] = true; dirty[index][i] = !load]. *)
Definition replace_way (load : bool) (tag : Z) (i : Z) (r : Row) : option Row :=
  t ← (r_tags r).[i := tag];
  v ← (r_valid r).[i := true];
  d ← (r_dirty r).[i := negb load];
  Some (mkRow t v d (r_lru r)).

(** The eviction loop "find LRU and kick him out". *)
Definition evict_lru (load : bool) (tag : Z) (assoc : Z) (r : Row) : option Row :=
  for_each (Z.to_nat assoc) (fun i r =>
    li ← (r_lru r).[Z.of_nat i];
    x ← int_add li 1;
    l ← (r_lru r).[Z.of_nat i := x];
    let r := mkRow (r_tags r) (r_valid r) (r_dirty r) l in
    if u32 x =? assoc then
      r ← replace_way load tag (Z.of_nat i) r;
      l ← (r_lru r).[Z.of_nat i := 0];
      Some (mkRow (r_tags r) (r_valid r) (r_dirty r) l)
    else Some r) r.

(** "if we couldn't find an empty spot, we need to kick out something old". *)
Definition evict (c : Cache) (load : bool) (tag : Z) (r : Row) (g : rng) : option (Row * rng) :=
  if _assoc c =? 1 then r' ← replace_way load tag 0 r; Some (r', g)
  else if _randReplacement c then
    let '(x, g') := rand g in
    if _assoc c =? 0 then None
    else r' ← replace_way load tag (x mod _assoc c) r; Some (r', g')
  else r' ← evict_lru load tag (_assoc c) r; Some (r', g).

(** [Cache::access]: returns the hit flag, the new cache and the generator. *)
Definition access (c : Cache) (addr : Z) (load : bool) (g : rng) : option (bool * Cache * rng) :=
  i ← getIndex c addr; t ← getTag c addr;
  let index := if _numSets c =? 1 then 0 else s32 i in
  let tag := s32 t in
  r ← get_row c index;
  w ← find_way r tag (_assoc c);
  match w with
  | Some i =>
      r' ← hit_way c load i r;
      c' ← put_row c index r'; Some (true, c', g)
  | None =>
      if load || _writeAlloc c then
        e ← find_empty r (_assoc c);
        '(r', g') ← match e with
             | Some i => r' ← fill_way c load tag i r; Some (r', g)
             | None => evict c load tag r g
             end;
        c' ← put_row c index r'; Some (false, c', g')
      else Some (false, c, g)
  end.

End ops.
End Cache.
