(* ===== verification/CacheRow.v ===== *)
(** * One set of the cache: the LRU bookkeeping refines a recency list

    The specification of a set is the list of its blocks, most recently used
    first.  [row_rep] says that the four array rows represent such a list, and
    the lemmas show that the hit, fill and eviction code act on the rows as
    move-to-front, push and push-and-drop-last act on the list. *)
From S2P Require Import Prelude.
From S2P Require Import Words.
From S2P Require Import MemSim.
From S2P Require Import CacheModel.
Import Cache.

(** A block of a set: its tag and whether it is dirty. *)
Abbreviation block := (prod Z bool).

(** The specification of one access to a set of [assoc] ways. *)
Definition lru_access (assoc : nat) (walloc : bool) (tag : Z) (load : bool)
    (l : list block) : bool * list block :=
  match list_find (fun e : block => e.1 = tag) l with
  | Some (k, e) => (true, (tag, e.2 || negb load) :: delete k l)
  | None =>
      if load || walloc then (false, take assoc ((tag, negb load) :: l))
      else (false, l)
  end.

(** [p] lists the valid ways of the row, most recently used first. *)
Record row_ways (assoc : nat) (r : Row) (p : list nat) : Prop := {
  rw_tags : length (r_tags r) = assoc;
  rw_valid : length (r_valid r) = assoc;
  rw_dirty : length (r_dirty r) = assoc;
  rw_lru : length (r_lru r) = assoc;
  rw_nodup : NoDup p;
  rw_elem : ∀ i, i ∈ p ↔ r_valid r !! i = Some true;
  rw_clean : ∀ i, r_valid r !! i = Some false → r_dirty r !! i = Some false;
  rw_range : ∀ i x, r_lru r !! i = Some x → 0 <= x < Z.of_nat assoc;
}.

(** With the LRU policy, the counter of a way is its position in the list. *)
Definition lru_order (r : Row) (p : list nat) : Prop :=
  ∀ k i, p !! k = Some i → r_lru r !! i = Some (Z.of_nat k).

Definition way (r : Row) (i : nat) : block := (r_tags r !!! i, r_dirty r !!! i).

Definition row_rep (assoc : nat) (r : Row) (l : list block) : Prop :=
  ∃ p, row_ways assoc r p ∧ (1 < assoc → lru_order r p)%nat ∧ l = way r <$> p ∧
       NoDup (l.*1).

Section row.
Context (assoc : nat).
Implicit Types (r : Row) (p : list nat) (tag : Z) (load : bool).

Lemma ways_lt r p i : row_ways assoc r p → i ∈ p → (i < assoc)%nat.
Proof.
  intros Hr Hi. apply (rw_elem _ _ _ Hr) in Hi. apply lookup_lt_Some in Hi.
  by rewrite (rw_valid _ _ _ Hr) in Hi.
Qed.

Lemma ways_length r p : row_ways assoc r p → (length p <= assoc)%nat.
Proof.
  intros Hr. enough (length p <= length (seq 0 assoc))%nat by (by rewrite length_seq in *).
  apply submseteq_length, NoDup_submseteq.
  - apply (rw_nodup _ _ _ Hr).
  - intros i Hi. apply elem_of_seq. pose proof (ways_lt r p i Hr Hi). lia.
Qed.

(** A full set lists every way. *)
Lemma ways_full r p :
  row_ways assoc r p → (∀ i, (i < assoc)%nat → r_valid r !! i = Some true) →
  length p = assoc.
Proof.
  intros Hr Hall. apply Nat.le_antisymm; [by eapply ways_length|].
  enough (length (seq 0 assoc) <= length p)%nat by (by rewrite length_seq in *).
  apply submseteq_length, NoDup_submseteq.
  - apply NoDup_seq.
  - intros i Hi%elem_of_seq. apply (rw_elem _ _ _ Hr), Hall. lia.
Qed.

(** A way outside the list leaves room. *)
Lemma ways_not_full r p i :
  row_ways assoc r p → (i ∉ p) → (i < assoc)%nat → (length p < assoc)%nat.
Proof.
  intros Hr Hi Hlt. enough (length (i :: p) <= length (seq 0 assoc))%nat as H.
  { rewrite length_seq in H. simpl in H. lia. }
  apply submseteq_length, NoDup_submseteq.
  - constructor; [done|]. apply (rw_nodup _ _ _ Hr).
  - intros j [->|Hj]%elem_of_cons; apply elem_of_seq; [lia|].
    pose proof (ways_lt r p j Hr Hj). lia.
Qed.

(** In a full set every way is listed. *)
Lemma full_elem r p :
  row_ways assoc r p → length p = assoc → ∀ i, (i < assoc)%nat → i ∈ p.
Proof.
  intros Hr Hfull i Hi. destruct (decide (i ∈ p)) as [|Hn]; [done|].
  pose proof (ways_not_full r p i Hr Hn Hi). lia.
Qed.

Lemma tags_lookup r p i :
  row_ways assoc r p → (i < assoc)%nat → r_tags r !! i = Some (r_tags r !!! i).
Proof. intros Hr ?. apply list_lookup_lookup_total_lt. by rewrite (rw_tags _ _ _ Hr). Qed.

Lemma valid_lookup r p i :
  row_ways assoc r p → (i < assoc)%nat → r_valid r !! i = Some (r_valid r !!! i).
Proof. intros Hr ?. apply list_lookup_lookup_total_lt. by rewrite (rw_valid _ _ _ Hr). Qed.

(** The search loop finds the way of the block with that tag. *)
Lemma find_way_ok r p tag :
  row_ways assoc r p →
  ∃ w, find_way r tag (Z.of_nat assoc) = Some w ∧
    match w with
    | Some z => ∃ i, z = Z.of_nat i ∧ i ∈ p ∧ r_tags r !!! i = tag
    | None => ∀ i, i ∈ p → r_tags r !!! i ≠ tag
    end.
Proof.
  intros Hr. unfold find_way. rewrite Nat2Z.id.
  destruct (for_loop_find (fun i => (tag =? r_tags r !!! i) && r_valid r !!! i) assoc
    (fun i st => t ← (r_tags r).[Z.of_nat i]; v ← (r_valid r).[Z.of_nat i];
      Some (if (tag =? t) && v then Break (Some (Z.of_nat i)) else Next st)) 0%nat)
    as (w & Hw & H).
  - intros j st Hj. rewrite !zlookup_nat, (tags_lookup r p), (valid_lookup r p) by (done || lia).
    done.
  - exists w. split; [done|]. destruct w as [z|].
    + destruct H as (j & -> & Hj & Ht & _). exists j. split; [done|].
      apply andb_true_iff in Ht as [Ht Hv]. apply Z.eqb_eq in Ht. split; [|done].
      apply (rw_elem _ _ _ Hr). rewrite (valid_lookup r p) by (done || lia). by rewrite Hv.
    + intros i Hi Ht. pose proof (ways_lt r p i Hr Hi) as Hlt.
      specialize (H i). rewrite Ht, Z.eqb_refl in H. simpl in H.
      apply (rw_elem _ _ _ Hr), list_lookup_total_correct in Hi. rewrite Hi in H.
      discriminate H. lia.
Qed.

(** The search for an open slot finds a way outside the list, and fails only
    when every way is valid. *)
Lemma find_empty_ok r p :
  row_ways assoc r p →
  ∃ w, find_empty r (Z.of_nat assoc) = Some w ∧
    match w with
    | Some z => ∃ i, z = Z.of_nat i ∧ (i ∉ p) ∧ (i < assoc)%nat
    | None => length p = assoc
    end.
Proof.
  intros Hr. unfold find_empty. rewrite Nat2Z.id.
  destruct (for_loop_find (fun i => negb (r_valid r !!! i)) assoc
    (fun i st => v ← (r_valid r).[Z.of_nat i];
      Some (if negb v then Break (Some (Z.of_nat i)) else Next st)) 0%nat) as (w & Hw & H).
  - intros j st Hj. by rewrite zlookup_nat, (valid_lookup r p) by (done || lia).
  - exists w. split; [done|]. destruct w as [z|].
    + destruct H as (j & -> & Hj & Hv & _). exists j. split; [done|]. split; [|lia].
      intros Hi%(rw_elem _ _ _ Hr)%list_lookup_total_correct.
      rewrite Hi in Hv. discriminate.
    + eapply ways_full; [done|]. intros i Hi. rewrite (valid_lookup r p) by done.
      specialize (H i). destruct (r_valid r !!! i); [done|]. simpl in H. discriminate H. lia.
Qed.

(** *** The counters *)

Lemma order_valid r p i :
  row_ways assoc r p → lru_order r p → r_valid r !! i = Some true →
  ∃ k, p !! k = Some i ∧ r_lru r !! i = Some (Z.of_nat k) ∧ (k < assoc)%nat.
Proof.
  intros Hr Ho Hv. apply (rw_elem _ _ _ Hr), list_elem_of_lookup in Hv as [k Hk].
  exists k. repeat split; [done|by apply Ho|].
  apply lookup_lt_Some in Hk. pose proof (ways_length r p Hr). lia.
Qed.

(** The loop of a hit ages exactly the valid ways in front of way [i]. *)
Lemma lru_hit_ok r p k i :
  Z.of_nat assoc < 2 ^ 31 → row_ways assoc r p → lru_order r p → p !! k = Some i →
  ∃ l, lru_hit (r_valid r) (Z.of_nat assoc) (Z.of_nat i) (r_lru r) = Some l ∧
    length l = assoc ∧ l !! i = Some 0 ∧
    (∀ j x, l !! j = Some x → 0 <= x < Z.of_nat assoc) ∧
    ∀ m j, p !! m = Some j → j ≠ i →
      l !! j = Some (if decide (m < k)%nat then Z.of_nat m + 1 else Z.of_nat m).
Proof.
  intros Hmax Hr Ho Hk. unfold lru_hit. rewrite Nat2Z.id.
  assert (Hi : i ∈ p) by (apply list_elem_of_lookup; eauto).
  pose proof (ways_lt r p i Hr Hi) as Hlt. pose proof (Ho k i Hk) as Hli.
  pose proof (rw_lru _ _ _ Hr) as Hlen.
  set (g := fun j x => if (x <? Z.of_nat k) && (r_valid r !!! j) then x + 1 else x).
  assert (Hg : g i (Z.of_nat k) = Z.of_nat k) by (unfold g; by rewrite Z.ltb_irrefl).
  rewrite (for_each_imap g); [| done |].
  - simpl. rewrite zupdate_nat by (rewrite length_imap; lia).
    eexists. split; [done|]. rewrite length_insert, length_imap. split; [done|].
    split; [apply list_lookup_insert_eq; rewrite length_imap; lia|]. split.
    { intros j x [[? ->]|[? Hx]]%list_lookup_insert_Some'; [lia|].
      apply list_lookup_imap_Some in Hx as (y & Hy & ->).
      pose proof (rw_range _ _ _ Hr j y Hy). pose proof (rw_range _ _ _ Hr i _ Hli).
      unfold g. destruct (Z.ltb_spec y (Z.of_nat k)); simpl; [|lia].
      destruct (r_valid r !!! j); lia. }
    intros m j Hm Hne. rewrite list_lookup_insert_ne by done.
    rewrite list_lookup_imap, (Ho m j Hm). simpl. f_equal. unfold g.
    assert (r_valid r !!! j = true) as ->.
    { apply list_lookup_total_correct, (rw_elem _ _ _ Hr), list_elem_of_lookup. eauto. }
    rewrite andb_true_r. destruct (Z.ltb_spec (Z.of_nat m) (Z.of_nat k)); case_decide; done || lia.
  - intros j x Hx. pose proof (lookup_lt_Some _ _ _ Hx) as Hj. rewrite !zlookup_nat, !lookup_upto, Hx.
    simpl. rewrite decide_False by lia.
    assert ((if decide (i < j)%nat then g i else (fun x => x)) <$> r_lru r !! i = Some (Z.of_nat k)) as ->.
    { rewrite Hli. simpl. case_decide; [by rewrite Hg|done]. }
    simpl. assert (Hgx : g j x = if (x <? Z.of_nat k) && (r_valid r !!! j) then x + 1 else x) by done.
    revert Hgx. generalize (g j x). intros gx ->.
    destruct (x <? Z.of_nat k); simpl; [rewrite (valid_lookup r p) by (done || lia); simpl|].
    + destruct (r_valid r !!! j); [|by apply upto_same].
      apply (rw_range _ _ _ Hr) in Hx. rewrite int_add_ok by (unfold is_s32; lia). simpl.
      by rewrite zupdate_nat by (rewrite length_upto; lia).
    + by apply upto_same.
Qed.

(** The loop of a fill ages every way of the list. *)
Lemma lru_fill_ok r p i :
  Z.of_nat assoc < 2 ^ 31 → row_ways assoc r p → lru_order r p →
  (i < assoc)%nat → i ∉ p →
  ∃ l, lru_fill (<[i := true]> (r_valid r)) (Z.of_nat assoc) (Z.of_nat i) (r_lru r) = Some l ∧
    length l = assoc ∧ l !! i = Some 0 ∧
    (∀ j x, l !! j = Some x → 0 <= x < Z.of_nat assoc) ∧
    ∀ m j, p !! m = Some j → l !! j = Some (Z.of_nat m + 1).
Proof.
  intros Hmax Hr Ho Hlt Hi. unfold lru_fill. rewrite Nat2Z.id.
  pose proof (rw_lru _ _ _ Hr) as Hlen. pose proof (rw_valid _ _ _ Hr) as Hvlen.
  set (g := fun j x => if ((<[i := true]> (r_valid r) : list bool) !!! j : bool) then x + 1 else x).
  rewrite (for_each_imap g); [| done |].
  - simpl. rewrite zupdate_nat by (rewrite length_imap; lia).
    eexists. split; [done|]. rewrite length_insert, length_imap. split; [done|].
    split; [apply list_lookup_insert_eq; rewrite length_imap; lia|]. split.
    { intros j x [[? ->]|[? Hx]]%list_lookup_insert_Some'; [lia|].
      apply list_lookup_imap_Some in Hx as (y & Hy & ->).
      pose proof (rw_range _ _ _ Hr j y Hy). unfold g.
      rewrite list_lookup_total_insert_ne by done.
      destruct (r_valid r !!! j) eqn:Hv; [|lia].
      destruct (order_valid r p j Hr Ho) as (m & Hm & Hm' & ?).
      { rewrite (valid_lookup r p) by (done || (apply lookup_lt_Some in Hy; lia)). by rewrite Hv. }
      apply lookup_lt_Some in Hm. pose proof (ways_not_full r p i Hr Hi Hlt).
      assert (y = Z.of_nat m) as -> by congruence. lia. }
    intros m j Hm.
    assert (Hj : j ∈ p) by (apply list_elem_of_lookup; eauto).
    assert (j ≠ i) by congruence. rewrite list_lookup_insert_ne by done.
    rewrite list_lookup_imap, (Ho m j Hm). simpl. unfold g.
    rewrite list_lookup_total_insert_ne by done.
    apply (rw_elem _ _ _ Hr), list_lookup_total_correct in Hj. by rewrite Hj.
  - intros j x Hx. pose proof (lookup_lt_Some _ _ _ Hx) as Hj.
    rewrite (zlookup_total (<[i := true]> (r_valid r))) by (rewrite length_insert; lia). simpl.
    assert (Hgx : g j x = if ((<[i := true]> (r_valid r) : list bool) !!! j : bool) then x + 1 else x) by done.
    revert Hgx. generalize (g j x). intros gx ->.
    destruct ((<[i := true]> (r_valid r) : list bool) !!! j); [|by apply upto_same].
    rewrite zlookup_nat, lookup_upto, Hx. simpl. rewrite decide_False by lia.
    apply (rw_range _ _ _ Hr) in Hx. rewrite int_add_ok by (unfold is_s32; lia). simpl.
    by rewrite zupdate_nat by (rewrite length_upto; lia).
Qed.

(** What one pass of the eviction loop does to the four rows: the cells whose
    counter reaches [assoc] are replaced, every other counter grows by one. *)
Definition evict_here (r : Row) (j : nat) : bool := (r_lru r !!! j) + 1 =? Z.of_nat assoc.
Definition evict_cell (r : Row) {A} (y : A) (j : nat) (x : A) : A := if evict_here r j then y else x.
Definition evict_count (r : Row) (j : nat) (x : Z) : Z := if evict_here r j then 0 else x + 1.

Lemma evict_here_iff r j x :
  r_lru r !! j = Some x → (evict_here r j = true ↔ x + 1 = Z.of_nat assoc).
Proof. intros Hx. unfold evict_here. by rewrite (list_lookup_total_correct _ _ _ Hx), Z.eqb_eq. Qed.

Lemma evict_cell_eq r {A} (y : A) j x :
  evict_cell r y j x = if evict_here r j then y else x.
Proof. done. Qed.

Lemma evict_count_eq r j x : evict_count r j x = if evict_here r j then 0 else x + 1.
Proof. done. Qed.

Lemma evict_loop r p load tag :
  Z.of_nat assoc < 2 ^ 31 → row_ways assoc r p →
  evict_lru load tag (Z.of_nat assoc) r =
    Some (mkRow (imap (evict_cell r tag) (r_tags r)) (imap (evict_cell r true) (r_valid r))
            (imap (evict_cell r (negb load)) (r_dirty r)) (imap (evict_count r) (r_lru r))).
Proof.
  intros Hmax Hr. unfold evict_lru. rewrite Nat2Z.id.
  pose proof (rw_lru _ _ _ Hr) as Hlen. pose proof (rw_tags _ _ _ Hr) as Htl.
  pose proof (rw_valid _ _ _ Hr) as Hvl. pose proof (rw_dirty _ _ _ Hr) as Hdl.
  rewrite <- !upto_full, Hlen, Htl, Hvl, Hdl.
  match goal with |- for_each _ ?body _ = _ =>
    destruct (for_each_inv (fun m r' =>
      r' = mkRow (upto (evict_cell r tag) m (r_tags r)) (upto (evict_cell r true) m (r_valid r))
             (upto (evict_cell r (negb load)) m (r_dirty r)) (upto (evict_count r) m (r_lru r)))
      assoc body r) as (r' & Hr' & ->); [..|exact Hr']
  end.
  - rewrite !upto_0. by destruct r.
  - intros j ? Hj ->. simpl.
    destruct (lookup_lt_is_Some_2 (r_lru r) j) as [x Hx]; [lia|].
    destruct (lookup_lt_is_Some_2 (r_tags r) j) as [t Ht]; [lia|].
    destruct (lookup_lt_is_Some_2 (r_valid r) j) as [v Hv]; [lia|].
    destruct (lookup_lt_is_Some_2 (r_dirty r) j) as [d Hd]; [lia|].
    pose proof (rw_range _ _ _ Hr j x Hx) as Hrange. pose proof (evict_here_iff r j x Hx) as Hh.
    rewrite zlookup_nat, lookup_upto, Hx. simpl. rewrite decide_False by lia. simpl.
    rewrite int_add_ok by (unfold is_s32; lia). simpl.
    rewrite zupdate_nat by (rewrite length_upto; lia). simpl.
    rewrite u32_small by (unfold is_u32; lia).
    rewrite <- (upto_step (evict_cell r tag) j _ _ Ht), <- (upto_step (evict_cell r true) j _ _ Hv),
      <- (upto_step (evict_cell r (negb load)) j _ _ Hd), <- (upto_step (evict_count r) j _ _ Hx).
    rewrite !evict_cell_eq, evict_count_eq.
    destruct (Z.eqb_spec (x + 1) (Z.of_nat assoc)) as [E|E].
    + apply Hh in E. rewrite E. unfold replace_way. simpl.
      do 4 (rewrite zupdate_nat by (rewrite ?length_insert, length_upto; lia); simpl).
      rewrite list_insert_insert_eq. by eexists.
    + assert (evict_here r j = false) as E'.
      { destruct (evict_here r j); [|done]. by destruct E; apply Hh. }
      rewrite E'. eexists. split; [done|].
      by f_equal; (rewrite list_insert_id; [done|]); rewrite lookup_upto, decide_False by lia;
        match goal with H : ?l !! j = Some _ |- _ <$> ?l !! j = _ => rewrite H end.
Qed.

Lemma imap_cell r {A} (y : A) (l : list A) i :
  (∀ j, (j < length l)%nat → evict_here r j = true ↔ j = i) →
  imap (evict_cell r y) l = <[i := y]> l.
Proof.
  intros Hi. apply list_eq. intros j. rewrite list_lookup_imap.
  destruct (l !! j) as [x|] eqn:Hx; simpl.
  - pose proof (lookup_lt_Some _ _ _ Hx) as Hj. pose proof (Hi j Hj) as Hh. unfold evict_cell.
    destruct (decide (j = i)) as [->|Hne].
    + rewrite (proj2 Hh) by done. by rewrite list_lookup_insert_eq.
    + rewrite list_lookup_insert_ne by done. destruct (evict_here r j); [|done].
      by destruct Hne; apply Hh.
  - symmetry. apply lookup_ge_None. rewrite length_insert. by apply lookup_ge_None.
Qed.

(** The eviction loop replaces exactly the way at the end of the list. *)
Lemma evict_lru_ok r p i load tag :
  Z.of_nat assoc < 2 ^ 31 → row_ways assoc r p → lru_order r p →
  length p = assoc → p !! (assoc - 1)%nat = Some i →
  ∃ l, evict_lru load tag (Z.of_nat assoc) r =
         Some (mkRow (<[i := tag]> (r_tags r)) (<[i := true]> (r_valid r))
                 (<[i := negb load]> (r_dirty r)) l) ∧
    length l = assoc ∧ l !! i = Some 0 ∧
    (∀ j x, l !! j = Some x → 0 <= x < Z.of_nat assoc) ∧
    ∀ m j, p !! m = Some j → j ≠ i → l !! j = Some (Z.of_nat m + 1).
Proof.
  intros Hmax Hr Ho Hfull Hlast.
  pose proof (rw_lru _ _ _ Hr) as Hlen. pose proof (rw_tags _ _ _ Hr) as Htl.
  pose proof (rw_valid _ _ _ Hr) as Hvl. pose proof (rw_dirty _ _ _ Hr) as Hdl.
  pose proof (lookup_lt_Some _ _ _ Hlast) as Hpos.
  assert (Hall : ∀ j, (j < assoc)%nat → ∃ m, p !! m = Some j ∧ r_lru r !! j = Some (Z.of_nat m)).
  { intros j Hj. assert (j ∈ p) as [m Hm]%list_elem_of_lookup.
    { apply (full_elem r p Hr Hfull j Hj). }
    exists m. split; [done|]. by apply Ho. }
  assert (Hi : ∀ j, (j < assoc)%nat → evict_here r j = true ↔ j = i).
  { intros j Hj. destruct (Hall j Hj) as (m & Hm & Hm'). rewrite (evict_here_iff r j _ Hm').
    split; [intros; assert (m = assoc - 1)%nat as -> by lia; congruence|].
    intros ->. rewrite (NoDup_lookup _ _ _ _ (rw_nodup _ _ _ Hr) Hm Hlast). lia. }
  rewrite (evict_loop r p) by done. rewrite !(imap_cell _ _ _ i) by (intros j; rewrite ?Hlen, ?Htl, ?Hvl, ?Hdl; apply Hi).
  eexists. split; [done|]. rewrite length_imap. split; [done|].
  assert (i < assoc)%nat as Hlt by (apply (ways_lt r p); [done|]; apply list_elem_of_lookup; eauto).
  split; [|split].
  - rewrite list_lookup_imap, (Ho _ _ Hlast). simpl. unfold evict_count. by rewrite (proj2 (Hi i Hlt)).
  - intros j x (y & Hy & ->)%list_lookup_imap_Some. pose proof (rw_range _ _ _ Hr j y Hy).
    pose proof (evict_here_iff r j y Hy) as Hh. unfold evict_count.
    destruct (evict_here r j); [lia|]. assert (y + 1 ≠ Z.of_nat assoc) by (intros ?%Hh; done). lia.
  - intros m j Hm Hne. rewrite list_lookup_imap, (Ho m j Hm). simpl. unfold evict_count.
    destruct (evict_here r j) eqn:E; [|done]. apply Hi in E; [done|].
    apply (ways_lt r p); [done|]. apply list_elem_of_lookup; eauto.
Qed.

(** *** From rows to recency lists *)

(** The configuration of the two caches of the simulator: LRU replacement. *)
Definition lru_config (c : Cache) : Prop :=
  _assoc c = Z.of_nat assoc ∧ (1 <= assoc)%nat ∧ Z.of_nat assoc < 2 ^ 31 ∧
  _randReplacement c = false.

Lemma uses_lru_spec c : lru_config c → uses_lru c = bool_decide (1 < assoc)%nat.
Proof.
  intros (Ha & ? & ? & Hr). unfold uses_lru. rewrite Ha, Hr, andb_true_r.
  case_bool_decide; [apply Z.ltb_lt | apply Z.ltb_ge]; lia.
Qed.

(** The block found is the only one with its tag. *)
Lemma find_block r p k i tag :
  NoDup ((way r <$> p).*1) → p !! k = Some i → r_tags r !!! i = tag →
  list_find (fun e : block => e.1 = tag) (way r <$> p) = Some (k, way r i).
Proof.
  intros Hnd Hk Ht. apply list_find_Some. rewrite list_lookup_fmap, Hk. split; [done|].
  split; [exact Ht|]. intros j y Hy Hj Hy1. enough (j = k) by lia.
  apply (NoDup_lookup _ j k tag Hnd).
  - by rewrite list_lookup_fmap, Hy; simpl; rewrite Hy1.
  - by rewrite !list_lookup_fmap, Hk; simpl; rewrite Ht.
Qed.

Lemma find_no_block r p tag :
  (∀ i, i ∈ p → r_tags r !!! i ≠ tag) →
  list_find (fun e : block => e.1 = tag) (way r <$> p) = None.
Proof.
  intros H. apply list_find_None, Forall_fmap, Forall_forall. intros i Hi. simpl. by apply H.
Qed.

(** Moving way [i] to the front of the list and rewriting its cells. *)
Lemma row_front r p q i (r' : Row) (e : block) :
  row_ways assoc r p → (i < assoc)%nat → NoDup (i :: q) →
  (∀ j, j ∈ i :: q ↔ j = i ∨ j ∈ p) →
  length (r_lru r') = assoc →
  (∀ j x, r_lru r' !! j = Some x → 0 <= x < Z.of_nat assoc) →
  r_tags r' = <[i := e.1]> (r_tags r) → r_valid r' = <[i := true]> (r_valid r) →
  r_dirty r' = <[i := e.2]> (r_dirty r) →
  row_ways assoc r' (i :: q) ∧ way r' <$> (i :: q) = e :: (way r <$> q).
Proof.
  intros Hr Hlt Hnd Hel Hlen Hrange Ht Hv Hd. destruct e as [et ed]. simpl in *.
  pose proof (rw_tags _ _ _ Hr) as Htl. pose proof (rw_valid _ _ _ Hr) as Hvl.
  pose proof (rw_dirty _ _ _ Hr) as Hdl. split.
  - split; rewrite ?Ht, ?Hv, ?Hd, ?length_insert; try done.
    + intros j. rewrite Hel. destruct (decide (j = i)) as [->|Hne].
      * rewrite list_lookup_insert_eq by lia. tauto.
      * rewrite list_lookup_insert_ne by done. rewrite <- (rw_elem _ _ _ Hr). tauto.
    + intros j. destruct (decide (j = i)) as [->|Hne].
      * rewrite list_lookup_insert_eq by lia. done.
      * rewrite !list_lookup_insert_ne by done. apply (rw_clean _ _ _ Hr).
  - simpl. f_equal.
    + unfold way. rewrite Ht, Hd. rewrite !list_lookup_total_insert_eq by lia. done.
    + apply list_fmap_ext. intros m j Hj. assert (j ≠ i).
      { intros ->. apply NoDup_cons in Hnd as [Hn _]. apply Hn, list_elem_of_lookup. eauto. }
      unfold way. rewrite Ht, Hd. by rewrite !list_lookup_total_insert_ne.
Qed.

Lemma delete_elem p k i :
  NoDup p → p !! k = Some i → NoDup (i :: delete k p) ∧ ∀ j, j ∈ i :: delete k p ↔ j ∈ p.
Proof.
  intros Hnd Hk. pose proof (delete_Permutation p k i Hk) as Hp. split.
  - by rewrite <- Hp.
  - intros j. by rewrite <- Hp.
Qed.

(** Positions after a move to the front. *)
Lemma order_front (l : list Z) p k i :
  NoDup p → p !! k = Some i → l !! i = Some 0 →
  (∀ m j, p !! m = Some j → j ≠ i →
     l !! j = Some (if decide (m < k)%nat then Z.of_nat m + 1 else Z.of_nat m)) →
  ∀ m j, (i :: delete k p) !! m = Some j → l !! j = Some (Z.of_nat m).
Proof.
  intros Hnd Hk Hi Hl [|m] j; simpl; [by intros [= <-]|].
  rewrite list_lookup_delete. intros Hj. case_decide as Hlt.
  - assert (j ≠ i) by (intros ->; pose proof (NoDup_lookup _ _ _ _ Hnd Hk Hj); lia).
    rewrite (Hl _ _ Hj) by done. rewrite decide_True by done. f_equal. lia.
  - assert (j ≠ i) by (intros ->; pose proof (NoDup_lookup _ _ _ _ Hnd Hk Hj); lia).
    rewrite (Hl _ _ Hj) by done. rewrite decide_False by lia. f_equal.
Qed.

Lemma nodup_tags_delete (l : list block) k e :
  l !! k = Some e → NoDup (l.*1) → NoDup (e.1 :: (delete k l).*1).
Proof.
  intros Hk Hnd. rewrite (delete_Permutation l k e Hk) in Hnd. done.
Qed.

(** *** The three cases of [access] *)

Lemma way_insert_same r i : (i < length (r_tags r))%nat →
  r_tags r = <[i := r_tags r !!! i]> (r_tags r).
Proof. intros. symmetry. by apply list_insert_id, list_lookup_lookup_total_lt. Qed.

Lemma hit_way_rep c r l load tag z :
  lru_config c → row_rep assoc r l →
  find_way r tag (Z.of_nat assoc) = Some (Some z) →
  ∃ k e r', list_find (fun e : block => e.1 = tag) l = Some (k, e) ∧
    hit_way c load z r = Some r' ∧
    row_rep assoc r' ((tag, e.2 || negb load) :: delete k l).
Proof.
  intros Hc (p & Hr & Ho & -> & Hnd) Hfind.
  destruct (find_way_ok r p tag Hr) as (w & Hw & Hp). rewrite Hfind in Hw.
  injection Hw as <-. destruct Hp as (i & -> & Hi & Ht).
  pose proof (ways_lt r p i Hr Hi) as Hlt.
  destruct (proj1 (list_elem_of_lookup _ _) Hi) as [k Hk].
  exists k, (way r i). pose proof (find_block r p k i tag Hnd Hk Ht) as Hf.
  destruct (delete_elem p k i (rw_nodup _ _ _ Hr) Hk) as [Hnd' Hel].
  assert (Hcnt : ∃ lr, (if uses_lru c then lru_hit (r_valid r) (_assoc c) (Z.of_nat i) (r_lru r)
       else Some (r_lru r)) = Some lr ∧ length lr = assoc ∧
     (∀ j x, lr !! j = Some x → 0 <= x < Z.of_nat assoc) ∧
     ((1 < assoc)%nat → ∀ m j, (i :: delete k p) !! m = Some j → lr !! j = Some (Z.of_nat m))).
  { rewrite (uses_lru_spec c Hc). destruct Hc as (-> & ? & ? & _). case_bool_decide as Hlru.
    - destruct (lru_hit_ok r p k i) as (lr & ? & ? & ? & ? & ?); [done|done|by apply Ho|done|].
      exists lr. split_and!; [done..|]. intros _. apply order_front; [apply (rw_nodup _ _ _ Hr)|done..].
    - exists (r_lru r). split_and!; [done|apply (rw_lru _ _ _ Hr)|apply (rw_range _ _ _ Hr)|done]. }
  destruct Hcnt as (lr & Hlr & Hll & Hrange & Hord).
  unfold hit_way. rewrite Hlr.
  set (d := (way r i).2 || negb load).
  exists (mkRow (r_tags r) (r_valid r) (<[i := d]> (r_dirty r)) lr). split; [done|]. split.
  { unfold d. pose proof (rw_dirty _ _ _ Hr) as Hdl. destruct load; simpl.
    - rewrite orb_false_r, list_insert_id; [done|]. apply list_lookup_lookup_total_lt. lia.
    - rewrite orb_true_r, zupdate_nat by lia. done. }
  assert (Hvi : r_valid r = <[i := true]> (r_valid r)).
  { symmetry. apply list_insert_id. by apply (rw_elem _ _ _ Hr). }
  assert (Hti : r_tags r = <[i := tag]> (r_tags r)).
  { rewrite <- Ht. apply way_insert_same. by rewrite (rw_tags _ _ _ Hr). }
  destruct (row_front r p (delete k p) i (mkRow (r_tags r) (r_valid r) (<[i := d]> (r_dirty r)) lr)
    (tag, d)) as [Hr' Hw']; try done.
  { intros j. rewrite Hel. split; [tauto|by intros [->|?]]. }
  exists (i :: delete k p). split; [done|]. split; [exact Hord|].
  rewrite Hw', list_fmap_delete. split; [done|].
  rewrite fmap_cons. simpl. rewrite <- Ht. apply (nodup_tags_delete (way r <$> p) k (way r i)); [|done].
  by rewrite list_lookup_fmap, Hk.
Qed.

Lemma fill_way_rep c r l load tag z :
  lru_config c → row_rep assoc r l → (∀ e, e ∈ l → e.1 ≠ tag) →
  find_empty r (Z.of_nat assoc) = Some (Some z) →
  ∃ r', fill_way c load tag z r = Some r' ∧
    row_rep assoc r' (take assoc ((tag, negb load) :: l)).
Proof.
  intros Hc (p & Hr & Ho & -> & Hnd) Hnew Hfind.
  destruct (find_empty_ok r p Hr) as (w & Hw & Hp). rewrite Hfind in Hw.
  injection Hw as <-. destruct Hp as (i & -> & Hi & Hlt).
  pose proof (ways_not_full r p i Hr Hi Hlt) as Hnf.
  assert (Hcnt : ∃ lr, (if uses_lru c then lru_fill (<[i := true]> (r_valid r)) (_assoc c) (Z.of_nat i) (r_lru r)
       else Some (r_lru r)) = Some lr ∧ length lr = assoc ∧
     (∀ j x, lr !! j = Some x → 0 <= x < Z.of_nat assoc) ∧
     ((1 < assoc)%nat → ∀ m j, (i :: p) !! m = Some j → lr !! j = Some (Z.of_nat m))).
  { rewrite (uses_lru_spec c Hc). destruct Hc as (-> & ? & ? & _). case_bool_decide as Hlru.
    - destruct (lru_fill_ok r p i) as (lr & ? & ? & ? & ? & Hm); [done|done|by apply Ho|done..|].
      exists lr. split_and!; [done..|]. intros _ [|m] j; simpl; [by intros [= <-]|].
      intros Hj. rewrite (Hm _ _ Hj). f_equal. lia.
    - exists (r_lru r). split_and!; [done|apply (rw_lru _ _ _ Hr)|apply (rw_range _ _ _ Hr)|done]. }
  destruct Hcnt as (lr & Hlr & Hll & Hrange & Hord).
  pose proof (rw_tags _ _ _ Hr). pose proof (rw_valid _ _ _ Hr) as Hvl. pose proof (rw_dirty _ _ _ Hr) as Hdl.
  unfold fill_way. rewrite !zupdate_nat by lia. simpl.
  exists (mkRow (<[i := tag]> (r_tags r)) (<[i := true]> (r_valid r)) (<[i := negb load]> (r_dirty r)) lr).
  split.
  { destruct load; simpl; [|by rewrite Hlr].
    rewrite Hlr. simpl. do 2 f_equal. symmetry. apply list_insert_id, (rw_clean _ _ _ Hr).
    rewrite (valid_lookup r p) by done. f_equal.
    destruct (r_valid r !!! i) eqn:E; [|done]. destruct Hi. apply (rw_elem _ _ _ Hr).
    rewrite (valid_lookup r p) by done. by rewrite E. }
  rewrite take_ge by (simpl; rewrite length_fmap; lia).
  destruct (row_front r p p i (mkRow (<[i := tag]> (r_tags r)) (<[i := true]> (r_valid r))
    (<[i := negb load]> (r_dirty r)) lr) (tag, negb load)) as [Hr' Hw']; try done.
  { constructor; [done|]. apply (rw_nodup _ _ _ Hr). }
  { intros j. by rewrite elem_of_cons. }
  exists (i :: p). split; [done|]. split; [exact Hord|]. rewrite Hw'. split; [done|].
  rewrite fmap_cons. constructor; [|done]. intros (e & He & Hel)%list_elem_of_fmap.
  by apply (Hnew e).
Qed.

Lemma evict_rep `{CRand} c r l load tag g :
  lru_config c → row_rep assoc r l → (∀ e, e ∈ l → e.1 ≠ tag) →
  find_empty r (Z.of_nat assoc) = Some None →
  ∃ r', evict c load tag r g = Some (r', g) ∧
    row_rep assoc r' (take assoc ((tag, negb load) :: l)).
Proof.
  intros Hc (p & Hr & Ho & -> & Hnd) Hnew Hfind.
  destruct (find_empty_ok r p Hr) as (w & Hw & Hfull). rewrite Hfind in Hw.
  injection Hw as <-. destruct Hc as (Ha & Hpos & Hmax & Hrand).
  destruct (lookup_lt_is_Some_2 p (assoc - 1)) as [i Hk]; [lia|].
  assert (Hi : i ∈ p) by (apply list_elem_of_lookup; eauto).
  pose proof (ways_lt r p i Hr Hi) as Hlt.
  destruct (delete_elem p _ i (rw_nodup _ _ _ Hr) Hk) as [Hnd' Hel].
  assert (Hrow : ∃ lr, evict c load tag r g = Some (mkRow (<[i := tag]> (r_tags r))
       (<[i := true]> (r_valid r)) (<[i := negb load]> (r_dirty r)) lr, g) ∧ length lr = assoc ∧
     (∀ j x, lr !! j = Some x → 0 <= x < Z.of_nat assoc) ∧
     ((1 < assoc)%nat → ∀ m j, (i :: delete (assoc - 1)%nat p) !! m = Some j → lr !! j = Some (Z.of_nat m))).
  { unfold evict. rewrite Ha, Hrand. destruct (Z.eqb_spec (Z.of_nat assoc) 1) as [E|E].
    - assert (assoc = 1)%nat as E1 by lia. assert (i = 0)%nat as -> by lia.
      pose proof (rw_tags _ _ _ Hr). pose proof (rw_valid _ _ _ Hr). pose proof (rw_dirty _ _ _ Hr).
      exists (r_lru r). split_and!; [|apply (rw_lru _ _ _ Hr)|apply (rw_range _ _ _ Hr)|lia].
      unfold replace_way. by rewrite !zupdate_in by lia.
    - destruct (evict_lru_ok r p i load tag) as (lr & -> & ? & ? & ? & Hm); [done|done|apply Ho; lia|done..|].
      exists lr. split_and!; [done..|]. intros _. apply order_front; [apply (rw_nodup _ _ _ Hr)|done..|].
      intros m j Hj Hne. rewrite decide_True; [by apply Hm|].
      pose proof (lookup_lt_Some _ _ _ Hj). assert (m ≠ assoc - 1)%nat by (intros ->; congruence). lia. }
  destruct Hrow as (lr & Hev & Hll & Hrange & Hord). eexists. split; [exact Hev|].
  destruct (row_front r p (delete (assoc - 1)%nat p) i (mkRow (<[i := tag]> (r_tags r))
    (<[i := true]> (r_valid r)) (<[i := negb load]> (r_dirty r)) lr) (tag, negb load)) as [Hr' Hw']; try done.
  { intros j. rewrite Hel. split; [tauto|by intros [->|?]]. }
  exists (i :: delete (assoc - 1)%nat p). split; [done|]. split; [exact Hord|]. rewrite Hw'.
  assert (Hcons : take assoc ((tag, negb load) :: (way r <$> p)) =
    (tag, negb load) :: delete (assoc - 1)%nat (way r <$> p)).
  { destruct assoc as [|n]; [lia|]. simpl. f_equal. rewrite Nat.sub_0_r, delete_take_drop.
    rewrite (drop_ge _ (S n)) by (rewrite length_fmap; lia). by rewrite app_nil_r. }
  rewrite Hcons, list_fmap_delete. split; [done|]. simpl. constructor.
  - intros (e & He & Hin)%list_elem_of_fmap. apply list_elem_of_delete_inv in Hin. by apply (Hnew e).
  - assert (Hl : (way r <$> p) !! (assoc - 1)%nat = Some (way r i)) by by rewrite list_lookup_fmap, Hk.
    pose proof (nodup_tags_delete _ _ _ Hl Hnd) as Hn. by apply NoDup_cons in Hn as [_ Hn].
Qed.

End row.
