(* ===== verification/CacheSpec.v ===== *)
(** * The cache refines a set-associative LRU cache

    The specification is a list of sets, each a recency list of blocks
    ([CacheRow.lru_access]).  [cache_rep] relates it to the arrays of
    [class Cache]; [access], [check] and [reset] implement it. *)
From S2P Require Import Prelude.
From S2P Require Import Words.
From S2P Require Import MemSim.
From S2P Require Import CacheModel.
From S2P Require Import CacheRow.
Import Cache.

(** ** Geometry: power-of-two block size and number of sets *)
Record geometry (c : Cache) (b s : Z) : Prop := {
  geo_block : _blockSize c = 2 ^ b;
  geo_sets : _numSets c = 2 ^ s;
  geo_b : 0 <= b;
  geo_s : 1 <= s;
  geo_bs : b + s < 32;
}.

Definition set_index (b s addr : Z) : Z := (addr / 2 ^ b) mod 2 ^ s.
Definition set_tag (b s addr : Z) : Z := addr / 2 ^ (b + s).

(** The block an address belongs to. *)
Definition block_of (b addr : Z) : Z := addr / 2 ^ b.

Lemma set_index_range b s addr : 0 <= s → 0 <= set_index b s addr < 2 ^ s.
Proof. intros. apply Z.mod_pos_bound. by apply Z.pow_pos_nonneg. Qed.

Lemma set_tag_range b s addr :
  is_u32 addr → 0 <= b → 1 <= s → 0 <= set_tag b s addr < 2 ^ 31.
Proof.
  intros [? ?] ? ?. unfold set_tag. split; [apply Z.div_pos; [lia|apply Z.pow_pos_nonneg; lia]|].
  apply Z.div_lt_upper_bound; [apply Z.pow_pos_nonneg; lia|].
  assert (2 ^ 1 <= 2 ^ (b + s)) by (apply Z.pow_le_mono_r; lia). lia.
Qed.

(** Tag and index together name the block. *)
Lemma tag_index_block b s addr :
  0 <= b → 0 <= s → set_tag b s addr * 2 ^ s + set_index b s addr = block_of b addr.
Proof.
  intros. unfold set_tag, set_index, block_of.
  rewrite Z.pow_add_r, <- Z.div_div by lia. rewrite (Z.mul_comm _ (2 ^ s)).
  symmetry. apply Z.div_mod. apply Z.pow_nonzero; lia.
Qed.

Section geometry.
Context (c : Cache) (b s : Z) (Hg : geometry c b s).

Lemma b_bits_ok : b_bits c = Some b.
Proof.
  unfold b_bits, log2_int. destruct Hg as [-> _ ? _ _].
  rewrite (proj2 (Z.ltb_lt _ _)) by (apply Z.pow_pos_nonneg; lia). by rewrite Z.log2_pow2.
Qed.

Lemma s_bits_ok : s_bits c = Some s.
Proof.
  unfold s_bits, log2_int. destruct Hg as [_ -> _ ? _].
  rewrite (proj2 (Z.ltb_lt _ _)) by (apply Z.pow_pos_nonneg; lia). rewrite Z.log2_pow2; [done|lia].
Qed.

Lemma getTag_ok addr : getTag c addr = Some (set_tag b s addr).
Proof.
  unfold getTag. rewrite b_bits_ok, s_bits_ok. simpl. destruct Hg. by rewrite shr32_ok by lia.
Qed.

Lemma getIndex_ok addr : is_u32 addr → getIndex c addr = Some (set_index b s addr).
Proof.
  intros Ha. unfold getIndex. rewrite b_bits_ok, s_bits_ok. simpl. destruct Hg.
  rewrite shr32_ok by lia. simpl. rewrite shl32_ok by lia. simpl. rewrite shr32_ok by lia.
  rewrite u32_shift_mask; [done| |lia]. apply div_is_u32; [done|]. by apply Z.pow_pos_nonneg.
Qed.
End geometry.

(** ** The representation relation *)
Record cache_rep (assoc : nat) (b s : Z) (c : Cache) (sets : list (list block)) : Prop := {
  rep_geo : geometry c b s;
  rep_cfg : lru_config assoc c;
  rep_ltags : length (tags c) = Z.to_nat (2 ^ s);
  rep_lvalid : length (valid c) = Z.to_nat (2 ^ s);
  rep_ldirty : length (dirty c) = Z.to_nat (2 ^ s);
  rep_llru : length (lru c) = Z.to_nat (2 ^ s);
  rep_lsets : length sets = Z.to_nat (2 ^ s);
  rep_row : ∀ i l, sets !! i = Some l →
    ∃ r, get_row c (Z.of_nat i) = Some r ∧ row_rep assoc r l;
}.

Definition same_config (c c' : Cache) : Prop :=
  _blockSize c' = _blockSize c ∧ _assoc c' = _assoc c ∧ _numSets c' = _numSets c ∧
  _randReplacement c' = _randReplacement c ∧ _writeAlloc c' = _writeAlloc c ∧
  _writeThrough c' = _writeThrough c.

Lemma put_row_ok c n (i : nat) r :
  length (tags c) = n → length (valid c) = n → length (dirty c) = n → length (lru c) = n →
  (i < n)%nat →
  ∃ c', put_row c (Z.of_nat i) r = Some c' ∧ same_config c c' ∧
    length (tags c') = n ∧ length (valid c') = n ∧ length (dirty c') = n ∧ length (lru c') = n ∧
    get_row c' (Z.of_nat i) = Some r ∧
    ∀ j : nat, j ≠ i → get_row c' (Z.of_nat j) = get_row c (Z.of_nat j).
Proof.
  intros Ht Hv Hd Hl Hi. unfold put_row. rewrite !zupdate_nat by lia. simpl.
  eexists. split; [done|]. simpl. rewrite !length_insert. split_and!; try done.
  - unfold get_row. simpl. rewrite !zlookup_nat, !list_lookup_insert_eq by lia. by destruct r.
  - intros j Hj. unfold get_row. simpl. by rewrite !zlookup_nat, !list_lookup_insert_ne by done.
Qed.

(** The specification of one access to the whole cache. *)
Definition spec_access (assoc : nat) (walloc : bool) (b s addr : Z) (load : bool)
    (sets : list (list block)) : bool * list (list block) :=
  let i := Z.to_nat (set_index b s addr) in
  let '(h, l) := lru_access assoc walloc (set_tag b s addr) load (default [] (sets !! i)) in
  (h, <[i := l]> sets).

Section refine.
Context `{CRand} (assoc : nat) (b s : Z).

Lemma rep_put c sets (i : nat) r l :
  cache_rep assoc b s c sets → (i < Z.to_nat (2 ^ s))%nat → row_rep assoc r l →
  ∃ c', put_row c (Z.of_nat i) r = Some c' ∧ same_config c c' ∧
    cache_rep assoc b s c' (<[i := l]> sets).
Proof.
  intros [[] (? & ? & ? & ?) Ht Hv Hd Hl Hs Hrows] Hi Hr.
  destruct (put_row_ok c _ i r Ht Hv Hd Hl Hi) as
    (c' & Hput & (? & ? & ? & ? & ? & ?) & ? & ? & ? & ? & Hget & Hother).
  exists c'. split; [done|]. split; [by unfold same_config|].
  split; try done; [by split; congruence|by unfold lru_config; split_and!; congruence|by rewrite length_insert|].
  intros j l' [[-> ->]|[Hne Hj]]%list_lookup_insert_Some'; [eauto|].
  rewrite Hother by done. by apply Hrows.
Qed.

Lemma row_of c sets addr :
  cache_rep assoc b s c sets → is_u32 addr →
  ∃ i r l, set_index b s addr = Z.of_nat i ∧ (i < Z.to_nat (2 ^ s))%nat ∧
    s32 (set_index b s addr) = Z.of_nat i ∧ s32 (set_tag b s addr) = set_tag b s addr ∧
    sets !! i = Some l ∧ get_row c (Z.of_nat i) = Some r ∧ row_rep assoc r l.
Proof.
  intros Hrep Ha. destruct (rep_geo _ _ _ _ _ Hrep) as [_ _ ? ? ?].
  pose proof (set_index_range b s addr) as Hi. pose proof (set_tag_range b s addr Ha) as Ht.
  assert (2 ^ s <= 2 ^ 31) by (apply Z.pow_le_mono_r; lia).
  destruct (lookup_lt_is_Some_2 sets (Z.to_nat (set_index b s addr))) as [l Hl].
  { rewrite (rep_lsets _ _ _ _ _ Hrep). lia. }
  destruct (rep_row _ _ _ _ _ Hrep _ _ Hl) as (r & Hr & ?).
  exists (Z.to_nat (set_index b s addr)), r, l. rewrite Z2Nat.id in * by lia.
  split_and!; try done; [lia|..]; apply s32_small; unfold is_s32; lia.
Qed.

(** Membership of the tag, as the two searches of the code see it. *)
Lemma find_way_list_find r l tag w :
  row_rep assoc r l → find_way r tag (Z.of_nat assoc) = Some w →
  is_Some w ↔ is_Some (list_find (fun e : block => e.1 = tag) l).
Proof.
  intros (p & Hr & _ & -> & Hnd) Hw. destruct (find_way_ok assoc r p tag Hr) as (w' & Hw' & Hp).
  rewrite Hw in Hw'. injection Hw' as <-. destruct w as [z|].
  - destruct Hp as (i & _ & [k Hk]%list_elem_of_lookup & Ht).
    rewrite (find_block r p k i tag) by done. split; eauto.
  - rewrite find_no_block by done. split; by intros [? ?].
Qed.

Lemma not_found_elem (l : list block) tag :
  list_find (fun e : block => e.1 = tag) l = None → ∀ e, e ∈ l → e.1 ≠ tag.
Proof. intros Hf e He. apply list_find_None in Hf. rewrite Forall_forall in Hf. by apply Hf. Qed.

Lemma access_rep c sets addr load g :
  cache_rep assoc b s c sets → is_u32 addr →
  ∃ c', access c addr load g =
      Some ((spec_access assoc (_writeAlloc c) b s addr load sets).1, c', g) ∧
    same_config c c' ∧
    cache_rep assoc b s c' (spec_access assoc (_writeAlloc c) b s addr load sets).2.
Proof.
  intros Hrep Ha. pose proof (rep_geo _ _ _ _ _ Hrep) as Hg.
  pose proof (rep_cfg _ _ _ _ _ Hrep) as Hc.
  destruct (row_of c sets addr Hrep Ha) as (i & r & l & Hidx & Hi & Hs & Ht & Hl & Hr & Hrow).
  unfold access. rewrite (getIndex_ok c b s), (getTag_ok c b s) by done. simpl.
  destruct (Z.eqb_spec (_numSets c) 1) as [E|_].
  { rewrite (geo_sets _ _ _ Hg) in E. destruct Hg.
    assert (2 ^ 1 <= 2 ^ s) by (apply Z.pow_le_mono_r; lia). lia. }
  rewrite Hs, Ht, Hr, (proj1 Hc). simpl.
  pose proof Hrow as Hrow'. destruct Hrow as (p & Hp & _).
  destruct (find_way_ok assoc r p (set_tag b s addr) Hp) as (w & Hw & _). rewrite Hw. simpl.
  unfold spec_access. rewrite Hidx, Nat2Z.id, Hl. simpl. unfold lru_access.
  pose proof (find_way_list_find r l _ w Hrow' Hw) as Hiff.
  destruct w as [z|].
  - destruct (hit_way_rep assoc c r l load _ z Hc Hrow' Hw) as (k & e & r' & Hf & -> & Hr').
    rewrite Hf. simpl. destruct (rep_put c sets i r' _ Hrep Hi Hr') as (c' & -> & ? & ?).
    exists c'. done.
  - destruct (list_find _ l) as [[k e]|] eqn:Hf.
    { destruct (proj2 Hiff) as [? ?]; [by eexists|done]. }
    destruct (load || _writeAlloc c); [|exists c; split_and!; [done|done|]; simpl; by rewrite list_insert_id].
    pose proof (not_found_elem l _ Hf) as Hnew.
    destruct (find_empty_ok assoc r p Hp) as (e & He & Hep). rewrite He. simpl.
    destruct e as [z|].
    + destruct (fill_way_rep assoc c r l load (set_tag b s addr) z Hc Hrow' Hnew He) as (r' & -> & Hr').
      simpl. destruct (rep_put c sets i r' _ Hrep Hi Hr') as (c' & -> & ? & ?). exists c'. done.
    + destruct (evict_rep assoc c r l load (set_tag b s addr) g Hc Hrow' Hnew He) as (r' & -> & Hr').
      simpl. destruct (rep_put c sets i r' _ Hrep Hi Hr') as (c' & -> & ? & ?). exists c'. done.
Qed.

(** [check] returns the hit flag of the specification. *)
Lemma check_rep c sets addr load :
  cache_rep assoc b s c sets → is_u32 addr →
  check c addr load = Some (spec_access assoc (_writeAlloc c) b s addr load sets).1.
Proof.
  intros Hrep Ha. pose proof (rep_geo _ _ _ _ _ Hrep) as Hg.
  destruct (row_of c sets addr Hrep Ha) as (i & r & l & Hidx & Hi & Hs & Ht & Hl & Hr & Hrow).
  unfold check. rewrite (getIndex_ok c b s), (getTag_ok c b s) by done. simpl.
  rewrite Hs, Ht, Hr, (proj1 (rep_cfg _ _ _ _ _ Hrep)). simpl.
  pose proof Hrow as (p & Hp & _).
  destruct (find_way_ok assoc r p (set_tag b s addr) Hp) as (w & Hw & _). rewrite Hw. simpl. f_equal.
  pose proof (find_way_list_find r l _ w Hrow Hw) as Hiff.
  unfold spec_access. rewrite Hidx, Nat2Z.id, Hl. simpl. unfold lru_access.
  destruct (list_find _ l) as [[k e]|]; simpl.
  - apply bool_decide_eq_true, Hiff. by eexists.
  - destruct (load || _writeAlloc c); apply bool_decide_eq_false; intros [? ?]%Hiff; done.
Qed.

(** The constructor leaves every set empty. *)
Lemma Cache_new_rep walloc wthrough :
  (1 <= assoc)%nat → Z.of_nat assoc < 2 ^ 31 → 0 <= b → 1 <= s → b + s < 32 →
  cache_rep assoc b s (Cache_new (2 ^ s) (Z.of_nat assoc) (2 ^ b) false walloc wthrough).1
    (replicate (Z.to_nat (2 ^ s)) []).
Proof.
  intros. unfold Cache_new, reset. simpl. rewrite Nat2Z.id.
  split; simpl; rewrite ?length_replicate; try done.
  intros i l [-> Hi]%lookup_replicate.
  eexists. unfold get_row. simpl. rewrite !zlookup_nat, !lookup_replicate_2 by done. split; [done|].
  exists []. split_and!; try done; [|apply NoDup_nil_2].
  assert (Hrep : ∀ A (x : A), length (replicate assoc x) = assoc) by (intros; apply length_replicate).
  split; simpl; try apply Hrep; [apply NoDup_nil_2| | |].
  - intros j. split; [by intros ?%elem_of_nil|]. by intros [? _]%lookup_replicate.
  - intros j [_ ?]%lookup_replicate. by rewrite lookup_replicate_2.
  - intros j x [-> ?]%lookup_replicate. lia.
Qed.

(** Running a trace of accesses, on the code and on the specification. *)
Fixpoint run_code (c : Cache) (g : rng) (tr : list (Z * bool)) : option (list bool * Cache * rng) :=
  match tr with
  | [] => Some ([], c, g)
  | (a, ld) :: tr =>
      '(h, c', g') ← access c a ld g;
      '(hs, c'', g'') ← run_code c' g' tr;
      Some (h :: hs, c'', g'')
  end.

Lemma run_code_app tr1 tr2 : ∀ c g,
  run_code c g (tr1 ++ tr2) =
    '(hs1, c1, g1) ← run_code c g tr1;
    '(hs2, c2, g2) ← run_code c1 g1 tr2;
    Some (hs1 ++ hs2, c2, g2).
Proof.
  induction tr1 as [|[a ld] tr1 IH]; intros c g; simpl.
  - by destruct (run_code c g tr2) as [[[? ?] ?]|].
  - destruct (access c a ld g) as [[[h c1] g1]|]; simpl; [|done]. rewrite IH.
    destruct (run_code c1 g1 tr1) as [[[hs1 c2] g2]|]; simpl; [|done].
    by destruct (run_code c2 g2 tr2) as [[[? ?] ?]|].
Qed.

End refine.

Fixpoint run_spec (assoc : nat) (walloc : bool) (b s : Z) (sets : list (list block))
    (tr : list (Z * bool)) : list bool * list (list block) :=
  match tr with
  | [] => ([], sets)
  | (a, ld) :: tr =>
      let '(h, sets') := spec_access assoc walloc b s a ld sets in
      let '(hs, sets'') := run_spec assoc walloc b s sets' tr in (h :: hs, sets'')
  end.

Definition trace_ok (tr : list (Z * bool)) : Prop := Forall (fun a => is_u32 a.1) tr.

Lemma run_refines `{CRand} assoc b s tr : ∀ c g sets,
  cache_rep assoc b s c sets → trace_ok tr →
  ∃ c', run_code c g tr = Some ((run_spec assoc (_writeAlloc c) b s sets tr).1, c', g) ∧
    same_config c c' ∧
    cache_rep assoc b s c' (run_spec assoc (_writeAlloc c) b s sets tr).2.
Proof.
  induction tr as [|[a ld] tr IH]; intros c g sets Hrep Htr; simpl.
  { exists c. by unfold same_config. }
  apply Forall_cons in Htr as [Ha Htr]. simpl in Ha.
  destruct (access_rep assoc b s c sets a ld g Hrep Ha) as (c1 & -> & Hcfg & Hrep1).
  destruct (spec_access assoc (_writeAlloc c) b s a ld sets) as [h sets1]. simpl in *.
  destruct (IH c1 g sets1 Hrep1 Htr) as (c2 & Hrun & Hcfg2 & Hrep2).
  assert (Hwa : _writeAlloc c1 = _writeAlloc c) by apply Hcfg. rewrite Hwa in *.
  rewrite Hrun. simpl. destruct (run_spec assoc (_writeAlloc c) b s sets1 tr) as [hs sets2].
  exists c2. split_and!; [done| |done]. unfold same_config in *. intuition congruence.
Qed.
