(* ===== verification/CacheProps.v ===== *)
(** * Correctness of the cache: inclusion of LRU stacks and the theorems on the code *)
From S2P Require Import Prelude.
From S2P Require Import Words.
From S2P Require Import MemSim.
From S2P Require Import CacheModel.
From S2P Require Import CacheRow.
From S2P Require Import CacheSpec.
Import Cache.

(** ** Inclusion of LRU stacks *)

Definition drop_tag (tag : Z) (ts : list Z) : list Z := filter (fun t => t ≠ tag) ts.

Lemma drop_tag_cons tag t ts :
  drop_tag tag (t :: ts) = if decide (t = tag) then drop_tag tag ts else t :: drop_tag tag ts.
Proof. unfold drop_tag. rewrite filter_cons. repeat case_decide; done. Qed.

Lemma drop_tag_id tag ts : (tag ∉ ts) → drop_tag tag ts = ts.
Proof.
  induction ts as [|t ts IH]; [done|]. rewrite not_elem_of_cons. intros [? ?].
  rewrite drop_tag_cons, decide_False by done. f_equal. by apply IH.
Qed.

Lemma delete_drop_tag (l : list block) k e tag :
  NoDup (l.*1) → l !! k = Some e → e.1 = tag → (delete k l).*1 = drop_tag tag (l.*1).
Proof.
  intros Hnd Hk He. revert k Hk. induction l as [|x l IH]; intros k Hk; [done|].
  simpl in Hnd. apply NoDup_cons in Hnd as [Hx Hnd].
  rewrite fmap_cons, drop_tag_cons. destruct k as [|k]; simpl in *.
  - injection Hk as ->. rewrite decide_True by done. rewrite drop_tag_id; [done|]. by rewrite <- He.
  - rewrite decide_False; [f_equal; by apply IH|]. intros E. apply Hx. rewrite E, <- He.
    apply list_elem_of_fmap. exists e. split; [done|]. apply list_elem_of_lookup. eauto.
Qed.

(** The tags of a set after an allocating access: the tag moves to the front. *)
Lemma lru_access_tags assoc walloc tag load l :
  (load || walloc = true) → NoDup (l.*1) → (length l <= assoc)%nat →
  (lru_access assoc walloc tag load l).2.*1 = take assoc (tag :: drop_tag tag (l.*1)).
Proof.
  intros Hal Hnd Hlen. unfold lru_access. destruct (list_find _ l) as [[k e]|] eqn:Hf.
  - apply list_find_Some in Hf as (Hk & He & _). simpl.
    rewrite <- (delete_drop_tag l k e tag), take_ge; try done.
    pose proof (lookup_lt_Some _ _ _ Hk) as Hlt.
    pose proof (delete_Permutation l k e Hk) as Hp%Permutation_length. simpl in *.
    rewrite length_fmap. lia.
  - rewrite Hal. simpl. rewrite fmap_take, drop_tag_id; [done|].
    intros (e & He & Hin)%list_elem_of_fmap. symmetry in He.
    by apply (not_found_elem l tag Hf e).
Qed.

Lemma lru_access_hit assoc walloc tag load l :
  (lru_access assoc walloc tag load l).1 = true ↔ tag ∈ l.*1.
Proof.
  unfold lru_access. destruct (list_find _ l) as [[k e]|] eqn:Hf.
  - simpl. split; [intros _|done]. apply list_find_Some in Hf as (Hk & <- & _).
    apply list_elem_of_fmap. exists e. split; [done|]. apply list_elem_of_lookup. eauto.
  - split; [by destruct (load || walloc)|].
    intros (e & He & Hin)%list_elem_of_fmap. symmetry in He. by destruct (not_found_elem l tag Hf e).
Qed.

Lemma take_drop_tag n tag ts :
  NoDup ts → take n (drop_tag tag (take (S n) ts)) = take n (drop_tag tag ts).
Proof.
  revert n. induction ts as [|t ts IH]; intros n Hnd; [done|].
  apply NoDup_cons in Hnd as [Ht Hnd]. simpl. rewrite !drop_tag_cons. case_decide as E.
  - subst t. rewrite !drop_tag_id; [by rewrite take_take, Nat.min_id|done|].
    intros (i & Hi & _)%elem_of_take. apply Ht, list_elem_of_lookup. eauto.
  - destruct n as [|n]; [done|]. simpl. f_equal. by apply IH.
Qed.

(** One set of the smaller cache holds the most recent tags of the larger. *)
Definition included (n1 : nat) (l1 l2 : list block) : Prop := l1.*1 = take n1 (l2.*1).

Lemma included_step n1 n2 walloc tag load l1 l2 :
  (n1 <= n2)%nat → (load || walloc = true) →
  NoDup (l1.*1) → NoDup (l2.*1) → (length l1 <= n1)%nat → (length l2 <= n2)%nat →
  included n1 l1 l2 →
  ((lru_access n1 walloc tag load l1).1 = true → (lru_access n2 walloc tag load l2).1 = true) ∧
  included n1 (lru_access n1 walloc tag load l1).2 (lru_access n2 walloc tag load l2).2.
Proof.
  intros Hn Hal Hnd1 Hnd2 Hlen1 Hlen2 Hinc. split.
  - rewrite !lru_access_hit, Hinc. intros (i & Hi & _)%elem_of_take. apply list_elem_of_lookup. eauto.
  - unfold included. rewrite !lru_access_tags by done. rewrite take_take, Nat.min_l by lia.
    destruct n1 as [|n1]; [done|]. simpl. f_equal. rewrite Hinc. by apply take_drop_tag.
Qed.

(** ** Residency: how long a block stays *)

Lemma drop_tag_take m t x ts : x ∈ take m ts → x ≠ t → x ∈ take m (drop_tag t ts).
Proof.
  intros Hx Hne. revert m Hx. induction ts as [|y ts IH]; intros [|m] Hx; simpl in *; try done.
  rewrite drop_tag_cons. apply elem_of_cons in Hx as [->|Hx].
  - rewrite decide_False by done. simpl. left.
  - case_decide; [|simpl; right; by apply IH].
    pose proof (IH m Hx) as (i & ? & ?)%elem_of_take. apply elem_of_take. exists i. split; [done|lia].
Qed.

(** An access pushes every other block back by at most one place. *)
Lemma lru_access_ages assoc walloc tag load l m x :
  NoDup (l.*1) → (length l <= assoc)%nat → (m < assoc)%nat → x ∈ take m (l.*1) →
  x ∈ take (S m) ((lru_access assoc walloc tag load l).2.*1).
Proof.
  intros Hnd Hlen Hm Hx.
  assert (Hfront : x ∈ take (S m) (take assoc (tag :: drop_tag tag (l.*1)))).
  { rewrite take_take, Nat.min_l by lia. simpl. apply elem_of_cons.
    destruct (decide (x = tag)); [by left|right; by apply drop_tag_take]. }
  destruct (load || walloc) eqn:Hal; [by rewrite lru_access_tags|].
  unfold lru_access. destruct (list_find _ l) as [[k e]|] eqn:Hf.
  - apply list_find_Some in Hf as (Hk & He & _). cbn [snd].
    rewrite fmap_cons, (delete_drop_tag l k e tag) by done.
    by rewrite take_take, Nat.min_l in Hfront by lia.
  - rewrite Hal. simpl. apply elem_of_take in Hx as (i & ? & ?). apply elem_of_take. exists i. split; [done|lia].
Qed.

Section sets.
Context `{CRand} (assoc : nat) (b s : Z).

Lemma rep_set_ok c sets i l :
  cache_rep assoc b s c sets → sets !! i = Some l → NoDup (l.*1) ∧ (length l <= assoc)%nat.
Proof.
  intros Hrep Hi. destruct (rep_row _ _ _ _ _ Hrep i l Hi) as (r & _ & (p & Hr & _ & -> & Hnd)).
  split; [done|]. rewrite length_fmap. by apply (ways_length assoc r p).
Qed.

(** The tag of [x] is among the [m] most recent of its set. *)
Definition recent (sets : list (list block)) (x : Z) (m : nat) : Prop :=
  ∃ l, sets !! Z.to_nat (set_index b s x) = Some l ∧ set_tag b s x ∈ take m (l.*1).

Lemma recent_step c sets x m a ld :
  cache_rep assoc b s c sets → (m < assoc)%nat → recent sets x m →
  recent (spec_access assoc (_writeAlloc c) b s a ld sets).2 x (S m).
Proof.
  intros Hrep Hm (l & Hl & Hx). unfold spec_access.
  destruct (lru_access _ _ _ _ _) as [h l'] eqn:E. simpl.
  destruct (decide (set_index b s a = set_index b s x)) as [Heq|Hne].
  - rewrite Heq, Hl in *. exists l'. simpl in E. rewrite list_lookup_insert_eq by (by eapply lookup_lt_Some).
    split; [done|]. destruct (rep_set_ok c sets _ l Hrep Hl).
    pose proof (lru_access_ages assoc (_writeAlloc c) (set_tag b s a) ld l m (set_tag b s x)) as Hag.
    rewrite E in Hag. by apply Hag.
  - exists l. pose proof (set_index_range b s a). pose proof (set_index_range b s x).
    destruct (rep_geo _ _ _ _ _ Hrep).
    rewrite list_lookup_insert_ne by lia. split; [done|].
    apply elem_of_take in Hx as (i & ? & ?). apply elem_of_take. exists i. split; [done|lia].
Qed.

Lemma recent_run tr : ∀ c sets x m (g : rng),
  cache_rep assoc b s c sets → trace_ok tr → (m + length tr <= assoc)%nat → recent sets x m →
  recent (run_spec assoc (_writeAlloc c) b s sets tr).2 x (m + length tr).
Proof.
  induction tr as [|[a ld] tr IH]; intros c sets x m g Hrep Htr Hm Hrec; simpl in *.
  - by rewrite Nat.add_0_r.
  - apply Forall_cons in Htr as [Ha Htr].
    destruct (access_rep assoc b s c sets a ld g Hrep Ha) as (c1 & _ & (_ & _ & _ & _ & Hwa & _) & Hrep1).
    pose proof (recent_step c sets x m a ld Hrep ltac:(lia) Hrec) as Hrec1.
    destruct (spec_access assoc (_writeAlloc c) b s a ld sets) as [h sets1]. simpl in *.
    pose proof (IH c1 sets1 x (S m) g Hrep1 Htr ltac:(lia) Hrec1) as Hrun. rewrite Hwa in Hrun.
    destruct (run_spec assoc (_writeAlloc c) b s sets1 tr) as [hs sets2]. simpl in *.
    by replace (m + S (length tr))%nat with (S (m + length tr)) by lia.
Qed.

Lemma recent_check c sets x m ld :
  cache_rep assoc b s c sets → is_u32 x → recent sets x m → check c x ld = Some true.
Proof.
  intros Hrep Hx (l & Hl & Hin). rewrite (check_rep assoc b s c sets) by done. f_equal.
  unfold spec_access. rewrite Hl. simpl.
  destruct (lru_access assoc (_writeAlloc c) (set_tag b s x) ld l) as [h l'] eqn:E. simpl.
  change h with (h, l').1. rewrite <- E. apply lru_access_hit.
  apply elem_of_take in Hin as (i & Hi & _). apply list_elem_of_lookup. eauto.
Qed.

Lemma access_recent c sets x ld :
  cache_rep assoc b s c sets → is_u32 x → (ld || _writeAlloc c = true) →
  recent (spec_access assoc (_writeAlloc c) b s x ld sets).2 x 1.
Proof.
  intros Hrep Hx Hal. destruct (row_of assoc b s c sets x Hrep Hx) as (i & _ & l & Hidx & Hi & _ & _ & Hl & _).
  destruct (rep_set_ok c sets i l Hrep Hl) as [Hnd Hlen].
  destruct (rep_cfg _ _ _ _ _ Hrep) as (_ & Hpos & _).
  unfold spec_access. rewrite Hidx, Nat2Z.id, Hl. simpl.
  destruct (lru_access assoc (_writeAlloc c) (set_tag b s x) ld l) as [h l'] eqn:E. simpl.
  exists l'. rewrite Hidx, Nat2Z.id, list_lookup_insert_eq by (by eapply lookup_lt_Some). split; [done|].
  change l' with (h, l').2. rewrite <- E, lru_access_tags by done.
  destruct assoc; [lia|]. simpl. left.
Qed.

End sets.

(** ** The theorems on [class Cache] *)

(** The configurations the theorems cover: LRU replacement (as both caches of
    main.C), power-of-two block size, at least two sets. *)
Definition geometry_args (assoc : nat) (b s : Z) : Prop :=
  (1 <= assoc)%nat ∧ Z.of_nat assoc < 2 ^ 31 ∧ 0 <= b ∧ 1 <= s ∧ b + s < 32.

(** A cache as its constructor leaves it. *)
Definition fresh `{CRand} (assoc : nat) (b s : Z) (wa wt : bool) : Cache :=
  (Cache_new (2 ^ s) (Z.of_nat assoc) (2 ^ b) false wa wt).1.

Definition empty_sets (s : Z) : list (list block) := replicate (Z.to_nat (2 ^ s)) [].

Lemma fresh_rep `{CRand} assoc b s wa wt :
  geometry_args assoc b s → cache_rep assoc b s (fresh assoc b s wa wt) (empty_sets s).
Proof. intros (? & ? & ? & ? & ?). by apply Cache_new_rep. Qed.

Lemma fresh_run `{CRand} assoc b s wa wt tr g :
  geometry_args assoc b s → trace_ok tr →
  ∃ c, run_code (fresh assoc b s wa wt) g tr =
         Some ((run_spec assoc wa b s (empty_sets s) tr).1, c, g) ∧
    cache_rep assoc b s c (run_spec assoc wa b s (empty_sets s) tr).2 ∧ _writeAlloc c = wa.
Proof.
  intros Hg Htr.
  destruct (run_refines assoc b s tr (fresh assoc b s wa wt) g (empty_sets s)) as (c & Hc & Hcfg & Hrep);
    [by apply fresh_rep|done|].
  exists c. split_and!; [done|done|]. apply Hcfg.
Qed.

(** C4: run from its constructor on any trace of accesses, the cache never
    leaves its arrays, and its hits and misses are those of a set-associative
    cache with true LRU replacement (dirty bits included, in the final state). *)
Theorem cache_implements_lru `{CRand} assoc b s wa wt tr (g : rng)
    (Hg : geometry_args assoc b s) (Htr : trace_ok tr) :
  ∃ c, run_code (fresh assoc b s wa wt) g tr =
         Some ((run_spec assoc wa b s (empty_sets s) tr).1, c, g) ∧
    cache_rep assoc b s c (run_spec assoc wa b s (empty_sets s) tr).2.
Proof. destruct (fresh_run assoc b s wa wt tr g Hg Htr) as (c & ? & ? & _). by exists c. Qed.

(** C32: in every state the cache can reach, [check] answers exactly what the
    next [access] of that address answers, and [access] succeeds. *)
Theorem check_predicts_access `{CRand} assoc b s wa wt tr (g : rng) a ld hs c g'
    (Hg : geometry_args assoc b s) (Htr : trace_ok tr) (Ha : is_u32 a)
    (Hrun : run_code (fresh assoc b s wa wt) g tr = Some (hs, c, g')) :
  ∃ h c', check c a ld = Some h ∧ access c a ld g' = Some (h, c', g').
Proof.
  destruct (fresh_run assoc b s wa wt tr g Hg Htr) as (c1 & Hc1 & Hrep & _).
  rewrite Hrun in Hc1. injection Hc1 as -> -> ->.
  destruct (access_rep assoc b s c1 _ a ld g Hrep Ha) as (c' & Hac & _).
  eexists _, c'. split; [by apply (check_rep assoc b s)|done].
Qed.

(** A block just brought in by an allocating access stays in the cache for
    the next [assoc - 1] accesses, whatever they are. *)
Theorem lru_residency `{CRand} assoc b s wa wt tr1 tr2 (g : rng) x ld ld'
    (Hg : geometry_args assoc b s) (Htr1 : trace_ok tr1) (Htr2 : trace_ok tr2)
    (Hx : is_u32 x) (Hal : ld || wa = true) (Hlen : (length tr2 < assoc)%nat) :
  ∃ hs c, run_code (fresh assoc b s wa wt) g (tr1 ++ (x, ld) :: tr2) = Some (hs, c, g) ∧
    check c x ld' = Some true.
Proof.
  destruct (fresh_run assoc b s wa wt tr1 g Hg Htr1) as (c1 & Hc1 & Hrep1 & Hwa).
  set (sets1 := (run_spec assoc wa b s (empty_sets s) tr1).2) in *.
  destruct (access_rep assoc b s c1 sets1 x ld g Hrep1 Hx) as (c2 & Hc2 & Hcfg & Hrep2).
  assert (Hwa2 : _writeAlloc c2 = wa) by (rewrite <- Hwa; apply Hcfg).
  destruct (run_refines assoc b s tr2 c2 g _ Hrep2 Htr2) as (c3 & Hc3 & _ & Hrep3).
  eexists _, c3. split.
  - rewrite (run_code_app tr1), Hc1. simpl. rewrite Hc2. simpl. rewrite Hc3. done.
  - eapply (recent_check assoc b s); [exact Hrep3|done|].
    apply (recent_run assoc b s tr2 c2 _ x 1 g Hrep2 Htr2); [lia|].
    apply (access_recent assoc b s c1); [done|done|by rewrite Hwa].
Qed.

(** Two caches that differ only in associativity, accessed in lockstep. *)
Lemma inclusion_run `{CRand} n1 n2 wa b s tr : ∀ c1 c2 g sets1 sets2,
  (n1 <= n2)%nat → cache_rep n1 b s c1 sets1 → cache_rep n2 b s c2 sets2 →
  _writeAlloc c1 = wa → _writeAlloc c2 = wa →
  trace_ok tr → Forall (fun a => a.2 || wa = true) tr →
  (∀ i l1 l2, sets1 !! i = Some l1 → sets2 !! i = Some l2 → included n1 l1 l2) →
  ∃ hs1 hs2 c1' c2', run_code c1 g tr = Some (hs1, c1', g) ∧ run_code c2 g tr = Some (hs2, c2', g) ∧
    Forall2 (fun h1 h2 => h1 = true → h2 = true) hs1 hs2.
Proof.
  induction tr as [|[a ld] tr IH]; intros c1 c2 g sets1 sets2 Hn Hrep1 Hrep2 Hw1 Hw2 Htr Hal Hinc.
  { by exists [], [], c1, c2. }
  apply Forall_cons in Htr as [Ha Htr]. apply Forall_cons in Hal as [Hald Hal]. simpl in Ha, Hald.
  destruct (access_rep n1 b s c1 sets1 a ld g Hrep1 Ha) as (d1 & E1 & Hcfg1 & Hr1).
  destruct (access_rep n2 b s c2 sets2 a ld g Hrep2 Ha) as (d2 & E2 & Hcfg2 & Hr2).
  destruct (row_of n1 b s c1 sets1 a Hrep1 Ha) as (i & _ & l1 & Hidx & _ & _ & _ & Hl1 & _).
  destruct (row_of n2 b s c2 sets2 a Hrep2 Ha) as (i2 & _ & l2 & Hidx2 & _ & _ & _ & Hl2 & _).
  assert (i2 = i) as -> by lia.
  destruct (rep_set_ok n1 b s c1 sets1 i l1 Hrep1 Hl1) as [Hnd1 Hlen1].
  destruct (rep_set_ok n2 b s c2 sets2 i l2 Hrep2 Hl2) as [Hnd2 Hlen2].
  destruct (included_step n1 n2 wa (set_tag b s a) ld l1 l2 Hn Hald Hnd1 Hnd2 Hlen1 Hlen2
    (Hinc i l1 l2 Hl1 Hl2)) as [Hhit Hinc'].
  unfold spec_access in *. rewrite Hidx, Nat2Z.id, Hl1, ?Hl2, ?Hw1, ?Hw2 in *. simpl in *.
  rewrite ?Hl2, ?Nat2Z.id in *. simpl in *.
  destruct (lru_access n1 wa (set_tag b s a) ld l1) as [h1 l1'].
  destruct (lru_access n2 wa (set_tag b s a) ld l2) as [h2 l2']. simpl in *.
  destruct (IH d1 d2 g _ _ Hn Hr1 Hr2) as (hs1 & hs2 & c1' & c2' & R1 & R2 & Hall);
    [rewrite <- Hw1; apply Hcfg1|rewrite <- Hw2; apply Hcfg2|done|done| |].
  { intros j m1 m2 [[? ->]|[? Hj1]]%list_lookup_insert_Some' [[? ->]|[? Hj2]]%list_lookup_insert_Some';
      [done|done|done|by eapply Hinc]. }
  exists (h1 :: hs1), (h2 :: hs2), c1', c2'. rewrite E1, E2. simpl. rewrite R1, R2. simpl.
  split_and!; [done|done|]. by constructor.
Qed.

(** The LRU inclusion property. On a trace all of whose accesses allocate
    (loads, or any access of a write-allocate cache), every access that hits in
    a cache also hits in the cache with the same sets and at least as many ways. *)
Theorem lru_inclusion `{CRand} n1 n2 b s wa wt tr (g : rng)
    (Hg1 : geometry_args n1 b s) (Hg2 : geometry_args n2 b s) (Hn : (n1 <= n2)%nat)
    (Htr : trace_ok tr) (Hal : Forall (fun a => a.2 || wa = true) tr) :
  ∃ hs1 hs2 c1 c2, run_code (fresh n1 b s wa wt) g tr = Some (hs1, c1, g) ∧
    run_code (fresh n2 b s wa wt) g tr = Some (hs2, c2, g) ∧
    Forall2 (fun h1 h2 => h1 = true → h2 = true) hs1 hs2.
Proof.
  apply (inclusion_run n1 n2 wa b s tr _ _ g (empty_sets s) (empty_sets s)); try done;
    [by apply fresh_rep..|].
  intros i l1 l2 [-> _]%lookup_replicate [-> _]%lookup_replicate. unfold included. simpl.
  by rewrite take_nil.
Qed.

(** [getTag] and [getIndex] are defined on every address, and together they
    name the block: two addresses agree on both exactly when they lie in the
    same block. *)
Theorem tag_and_index_name_the_block c b s a1 a2
    (Hg : geometry c b s) (H1 : is_u32 a1) (H2 : is_u32 a2) :
  ∃ t1 t2 i1 i2, getTag c a1 = Some t1 ∧ getTag c a2 = Some t2 ∧
    getIndex c a1 = Some i1 ∧ getIndex c a2 = Some i2 ∧ 0 <= i1 < _numSets c ∧
    (t1 = t2 ∧ i1 = i2 ↔ a1 / _blockSize c = a2 / _blockSize c).
Proof.
  exists (set_tag b s a1), (set_tag b s a2), (set_index b s a1), (set_index b s a2).
  rewrite !(getTag_ok c b s), !(getIndex_ok c b s) by done. rewrite (geo_block _ _ _ Hg), (geo_sets _ _ _ Hg).
  destruct Hg as [_ _ ? ? _]. split_and!; try done; [apply set_index_range; lia..|].
  pose proof (tag_index_block b s a1) as E1. pose proof (tag_index_block b s a2) as E2.
  unfold block_of in *. split; [intros [Ht Hi]; rewrite <- E1, <- E2 by lia; congruence|].
  intros Hb. split; [|unfold set_index; by rewrite Hb].
  unfold set_tag. rewrite !Z.pow_add_r, <- !Z.div_div by lia. by rewrite Hb.
Qed.

(** With a single set (the "fully associative" configuration main.C
    computes for [assoc == 0]) every [check] and every [access] shifts a 32-bit
    word by 32, which is undefined: the override [index = 0] of [access] comes
    after the shift, and [check] has none. *)
Theorem single_set_is_undefined `{CRand} c a ld (g : rng) (Hs : _numSets c = 1) :
  check c a ld = None ∧ access c a ld g = None.
Proof.
  assert (Hi : getIndex c a = None).
  { unfold getIndex, s_bits. rewrite Hs. change (log2_int 1) with (Some 0). simpl.
    destruct (b_bits c); simpl; [|done]. destruct (shr32 a z); done. }
  unfold check, access. by rewrite Hi.
Qed.

(** ** Witnesses *)
#[local] Existing Instance std_rand.

Definition demo_trace : list (Z * bool) := [(0, true); (64, true); (4, false); (4096, true)].

Lemma demo_geometry : geometry_args 2 4 2.
Proof. unfold geometry_args. split_and!; lia. Qed.

Lemma demo_trace_ok : trace_ok demo_trace.
Proof. unfold trace_ok, demo_trace, is_u32. repeat constructor; simpl; lia. Qed.

Definition demo_hits : list bool := [false; false; true; false].

Lemma demo_spec : (run_spec 2 true 4 2 (empty_sets 2) demo_trace).1 = demo_hits.
Proof. vm_compute. reflexivity. Qed.

Lemma cache_implements_lru_witness :
  ∃ c, run_code (fresh 2 4 2 true false) (srand 7) demo_trace = Some (demo_hits, c, srand 7) ∧
    cache_rep 2 4 2 c (run_spec 2 true 4 2 (empty_sets 2) demo_trace).2.
Proof.
  rewrite <- demo_spec.
  exact (cache_implements_lru 2 4 2 true false demo_trace (srand 7) demo_geometry demo_trace_ok).
Defined.

Lemma check_predicts_access_witness :
  ∃ c h c', run_code (fresh 2 4 2 true false) (srand 7) demo_trace = Some (demo_hits, c, srand 7) ∧
    check c 8 true = Some h ∧ access c 8 true (srand 7) = Some (h, c', srand 7).
Proof.
  destruct (fresh_run 2 4 2 true false demo_trace (srand 7) demo_geometry demo_trace_ok) as (c & Hc & _).
  rewrite demo_spec in Hc.
  destruct (check_predicts_access 2 4 2 true false demo_trace (srand 7) 8 true demo_hits c (srand 7)
    demo_geometry demo_trace_ok ltac:(unfold is_u32; lia) Hc) as (h & c' & H1 & H2).
  exists c, h, c'. split_and!; assumption.
Defined.

Lemma lru_residency_witness :
  ∃ hs c, run_code (fresh 2 4 2 true false) (srand 7) (demo_trace ++ [(32, true); (96, true)]) = Some (hs, c, (srand 7)) ∧
    check c 32 true = Some true.
Proof.
  exact (lru_residency 2 4 2 true false demo_trace [(96, true)] (srand 7) 32 true true demo_geometry demo_trace_ok
    ltac:(unfold trace_ok, is_u32; repeat constructor; simpl; lia) ltac:(unfold is_u32; lia) eq_refl ltac:(simpl; lia)).
Defined.

Lemma lru_inclusion_witness :
  ∃ hs1 hs2 c1 c2, run_code (fresh 1 4 2 true false) (srand 7) demo_trace = Some (hs1, c1, (srand 7)) ∧
    run_code (fresh 2 4 2 true false) (srand 7) demo_trace = Some (hs2, c2, (srand 7)) ∧
    Forall2 (fun h1 h2 => h1 = true → h2 = true) hs1 hs2.
Proof.
  exact (lru_inclusion 1 2 4 2 true false demo_trace (srand 7)
    ltac:(unfold geometry_args; split_and!; lia) demo_geometry ltac:(lia) demo_trace_ok
    ltac:(repeat constructor)).
Defined.

Lemma tag_and_index_name_the_block_witness :
  ∃ t1 t2 i1 i2, getTag (fresh 2 4 2 true false) 100 = Some t1 ∧ getTag (fresh 2 4 2 true false) 111 = Some t2 ∧
    getIndex (fresh 2 4 2 true false) 100 = Some i1 ∧ getIndex (fresh 2 4 2 true false) 111 = Some i2 ∧
    0 <= i1 < 4 ∧ (t1 = t2 ∧ i1 = i2 ↔ 100 / 16 = 111 / 16).
Proof.
  exact (tag_and_index_name_the_block (fresh 2 4 2 true false) 4 2 100 111
    ltac:(by constructor) ltac:(unfold is_u32; lia) ltac:(unfold is_u32; lia)).
Defined.

Lemma single_set_is_undefined_witness :
  _numSets (Cache_new 1 4 16 false false true).1 = 1 ∧
  check (Cache_new 1 4 16 false false true).1 40 true = None ∧
  access (Cache_new 1 4 16 false false true).1 40 true (srand 7) = None.
Proof. split; [reflexivity|]. exact (single_set_is_undefined (Cache_new 1 4 16 false false true).1 40 true (srand 7) eq_refl). Defined.
