(* ===== verification/MemQueueModel.v ===== *)
(** * The request queues (src/cse240a/project/cse240a-proj1/memQueue.h, memQueue.C)

    The two read queues (L1 to L2, L2 to memory) and the write buffer are
    objects of one class: a circular buffer in four parallel arrays. *)
From S2P Require Import Prelude.
From S2P Require Import Words.
From S2P Require Import MemSim.
From S2P Require Import CacheModel.

Module memQueue.

(** The private members of [class memQueue]. The pointer [_source] is the
    cache the operations take as an argument: the queue never changes it. *)
Record memQueue : Type := mkQueue {
  _id : Ascii.ascii;
  _capacity : Z;
  _latency : Z;
  _write : bool;
  _pipelined : bool;
  _front : Z;
  _rear : Z;
  _size : Z;
  _queue : list Request;
  _readyTime : list Z;
  _tags : list Z;
  _indexes : list Z;
}.

(** The constructor: the arrays come from [calloc]. *)
Definition memQueue_new (capacity latency : Z) (pipelined write : bool) (name : Ascii.ascii) : memQueue :=
  let cells {A} (x : A) := replicate (Z.to_nat capacity) x in
  {| _id := name; _capacity := capacity; _latency := latency;
     _write := write; _pipelined := pipelined;
     _front := 0; _rear := 0; _size := 0;
     _queue := cells zeroRequest; _readyTime := cells 0;
     _tags := cells 0; _indexes := cells 0 |}.

(** [i++; if(i == _capacity) i = 0;] on an [int]. *)
Definition next_slot (q : memQueue) (i : Z) : option Z :=
  i ← int_add i 1;
  Some (if u32 i =? _capacity q then 0 else i).

(** [while(i != _rear)]: the comparison is unsigned. The walk visits at most
    [_capacity] slots, the bound of the loop. *)
Definition walk {S} (q : memQueue) (body : Z → S → option S) (s : S) : option S :=
  r ← while_loop (Z.to_nat (_capacity q))
        (fun st => negb (u32 st.1 =? _rear q))
        (fun st => s ← body st.1 st.2; i ← next_slot q st.1; Some (i, s))
        (s32 (_front q), s);
  Some r.2.

(** [printQueue]: the (address, ready time) pairs it prints. *)
Definition printQueue (q : memQueue) : option (list (Z * Z)) :=
  walk q (fun i out =>
    r ← (_queue q).[i]; t ← (_readyTime q).[i];
    Some (out ++ [(addr r, t)])) [].

(** [findDup]: the slot of the last entry with this tag and index, or -1. *)
Definition findDup (q : memQueue) (tag index : Z) : option Z :=
  walk q (fun i dupLoc =>
    t ← (_tags q).[i];
    x ← (if t =? tag then x ← (_indexes q).[i]; Some (x =? index) else Some false);
    Some (if x : bool then i else dupLoc)) (-1).

(** The ready time of a new entry: [_latency] cycles from now, or from the
    ready time of the entry before it. *)
Definition ready_at (q : memQueue) (cycle : Z) : option Z :=
  if _pipelined q || (_size q =? 0) then Some (u32 (cycle + _latency q))
  else
    let i := s32 (u32 (_rear q - 1)) in
    let i := if i <? 0 then s32 (u32 (_capacity q - 1)) else i in
    t ← (_readyTime q).[i];
    Some (u32 (_latency q + t)).

(** The branch of [add] that stores the request at [_rear]. *)
Definition enqueue (q : memQueue) (req : Request) (tag index cycle : Z) : option memQueue :=
  rs ← (_queue q).[_rear q := req];
  ts ← (_tags q).[_rear q := tag];
  xs ← (_indexes q).[_rear q := index];
  t ← ready_at q cycle;
  rts ← (_readyTime q).[_rear q := t];
  let rear := u32 (_rear q + 1) in
  Some {| _id := _id q; _capacity := _capacity q; _latency := _latency q;
          _write := _write q; _pipelined := _pipelined q;
          _front := _front q;
          _rear := if rear =? _capacity q then 0 else rear;
          _size := u32 (_size q + 1);
          _queue := rs; _readyTime := rts; _tags := ts; _indexes := xs |}.

(** [_queue[dupLoc] = req]. *)
Definition set_slot (q : memQueue) (i : Z) (req : Request) : option memQueue :=
  rs ← (_queue q).[i := req];
  Some {| _id := _id q; _capacity := _capacity q; _latency := _latency q;
          _write := _write q; _pipelined := _pipelined q;
          _front := _front q; _rear := _rear q; _size := _size q;
          _queue := rs; _readyTime := _readyTime q; _tags := _tags q; _indexes := _indexes q |}.

(** [memQueue::add]. *)
Definition add (source : Cache.Cache) (q : memQueue) (req : Request) (cycle : Z) : option (bool * memQueue) :=
  if _size q =? _capacity q then Some (false, q)
  else
    index ← Cache.getIndex source (addr req);
    tag ← Cache.getTag source (addr req);
    dupLoc ← findDup q tag index;
    fresh ← (if dupLoc =? -1 then Some true
             else r ← (_queue q).[dupLoc]; Some (fromCPU r));
    if fresh : bool then q' ← enqueue q req tag index cycle; Some (true, q')
    else if fromCPU req then q' ← set_slot q dupLoc req; Some (true, q')
    else Some (true, q).

(** [memQueue::remove]. *)
Definition remove (q : memQueue) : bool * memQueue :=
  if _size q =? 0 then (false, q)
  else
    let front := u32 (_front q + 1) in
    (true, {| _id := _id q; _capacity := _capacity q; _latency := _latency q;
              _write := _write q; _pipelined := _pipelined q;
              _front := if front =? _capacity q then 0 else front;
              _rear := _rear q; _size := u32 (_size q - 1);
              _queue := _queue q; _readyTime := _readyTime q;
              _tags := _tags q; _indexes := _indexes q |}).

Definition getSize (q : memQueue) : Z := _size q.

(** [memQueue::frontReady]. *)
Definition frontReady (q : memQueue) (cycle : Z) : option bool :=
  if 0 <? _size q then t ← (_readyTime q).[_front q]; Some (t <=? cycle)
  else Some false.

(** [memQueue::getFront]: whatever the front slot holds, also when the queue is empty. *)
Definition getFront (q : memQueue) : option Request := (_queue q).[_front q].

End memQueue.
