(* ===== verification/MemQueueSpec.v ===== *)
(** * The request queue refines a bounded list of entries

    [queue_rep] relates the circular buffer to the list of its entries, front
    first; [add], [remove], [frontReady], [getFront], [findDup] and
    [printQueue] implement list operations. *)
From S2P Require Import Prelude.
From S2P Require Import Words.
From S2P Require Import MemSim.
From S2P Require Import CacheModel.
From S2P Require Import CacheSpec.
From S2P Require Import MemQueueModel.
Import memQueue.

Record entry : Type := mkEntry {
  e_req : Request;
  e_ready : Z;
  e_tag : Z;
  e_index : Z;
}.

(** One slot of the four arrays. *)
Definition cell (q : memQueue) (i : Z) : option entry :=
  r ← (_queue q).[i]; t ← (_readyTime q).[i]; g ← (_tags q).[i]; x ← (_indexes q).[i];
  Some (mkEntry r t g x).

(** The slot of the [k]-th entry. *)
Definition slot (q : memQueue) (k : nat) : Z := (_front q + Z.of_nat k) mod _capacity q.

Record queue_rep (q : memQueue) (l : list entry) : Prop := {
  qr_cap : 0 < _capacity q < 2 ^ 31;
  qr_queue : Z.of_nat (length (_queue q)) = _capacity q;
  qr_ready : Z.of_nat (length (_readyTime q)) = _capacity q;
  qr_tags : Z.of_nat (length (_tags q)) = _capacity q;
  qr_indexes : Z.of_nat (length (_indexes q)) = _capacity q;
  qr_front : 0 <= _front q < _capacity q;
  qr_rear : _rear q = slot q (length l);
  qr_size : _size q = Z.of_nat (length l);
  qr_le : Z.of_nat (length l) <= _capacity q;
  qr_cell : ∀ k e, l !! k = Some e → cell q (slot q k) = Some e;
}.

(** ** Slots *)
Lemma mod_succ x c : 0 < c → (x + 1) mod c = if x mod c + 1 =? c then 0 else x mod c + 1.
Proof.
  intros Hc. pose proof (Z.mod_pos_bound x c Hc) as Hb.
  rewrite <- Zplus_mod_idemp_l. destruct (Z.eqb_spec (x mod c + 1) c) as [E|E].
  - by rewrite E, Z.mod_same by lia.
  - apply Z.mod_small. lia.
Qed.

Section slots.
Context (q : memQueue) (Hc : 0 < _capacity q < 2 ^ 31).

Lemma slot_range k : 0 <= slot q k < _capacity q.
Proof. apply Z.mod_pos_bound. lia. Qed.

Lemma slot_S k : slot q (S k) = if slot q k + 1 =? _capacity q then 0 else slot q k + 1.
Proof. unfold slot. rewrite <- mod_succ by lia. f_equal. lia. Qed.

Lemma slot_inj j k :
  (Z.of_nat j < _capacity q) → (Z.of_nat k < _capacity q) → slot q j = slot q k → j = k.
Proof.
  unfold slot. intros Hj Hk E.
  pose proof (Z.div_mod (_front q + Z.of_nat j) (_capacity q)).
  pose proof (Z.div_mod (_front q + Z.of_nat k) (_capacity q)).
  assert ((_front q + Z.of_nat j) / _capacity q = (_front q + Z.of_nat k) / _capacity q) by nia.
  lia.
Qed.

Lemma next_slot_ok k : next_slot q (slot q k) = Some (slot q (S k)).
Proof.
  pose proof (slot_range k). unfold next_slot. rewrite int_add_ok by (unfold is_s32; lia). simpl.
  rewrite u32_small by (unfold is_u32; lia). by rewrite slot_S.
Qed.
End slots.

Section rep.
Context (q : memQueue) (l : list entry) (Hq : queue_rep q l).

Lemma front_slot : _front q = slot q 0.
Proof. unfold slot. destruct Hq. rewrite Z.add_0_r. by rewrite Z.mod_small. Qed.

Lemma cell_parts k e : l !! k = Some e →
  (_queue q).[slot q k] = Some (e_req e) ∧ (_readyTime q).[slot q k] = Some (e_ready e) ∧
  (_tags q).[slot q k] = Some (e_tag e) ∧ (_indexes q).[slot q k] = Some (e_index e).
Proof.
  intros He. apply (qr_cell _ _ Hq) in He. unfold cell in He. ub_inv. subst e. simpl. by rewrite Hx, Hx0, Hx1, Hx2.
Qed.

(** The [while] loops of the class visit the entries in order, once each. *)
Lemma walk_ok {S} (P : nat → S → Prop) (body : Z → S → option S) s :
  Z.of_nat (length l) < _capacity q →
  P O s →
  (∀ k e st, l !! k = Some e → P k st →
    ∃ st', body (slot q k) st = Some st' ∧ P (Datatypes.S k) st') →
  ∃ s', walk q body s = Some s' ∧ P (length l) s'.
Proof.
  intros Hfull H0 Hbody. pose proof (qr_cap _ _ Hq) as Hcap.
  unfold walk. rewrite s32_small, front_slot by (pose proof (qr_front _ _ Hq); unfold is_s32; lia).
  destruct (while_loop_inv (fun k (st : Z * S) => st.1 = slot q k ∧ P k st.2) (length l)
    (fun st => negb (u32 st.1 =? _rear q))
    (fun st => s ← body st.1 st.2; i ← next_slot q st.1; Some (i, s)) 0 (slot q 0, s)
    (Z.to_nat (_capacity q))) as ([i s'] & Hrun & Hi & HP); simpl in *; [done|lia| | |].
  - intros k [i st] Hk [-> HP]. simpl in *. destruct (lookup_lt_is_Some_2 l k) as [e He]; [lia|].
    pose proof (slot_range q Hcap k). split.
    + rewrite u32_small by (unfold is_u32; lia). apply negb_true_iff, Z.eqb_neq.
      rewrite (qr_rear _ _ Hq). intros E%slot_inj; lia.
    + destruct (Hbody k e st He HP) as (st' & -> & HP'). simpl. rewrite next_slot_ok by done. simpl.
      by eexists.
  - intros [i st] [-> _]. simpl. rewrite (qr_rear _ _ Hq).
    pose proof (slot_range q Hcap (length l)). rewrite u32_small by (unfold is_u32; lia).
    by rewrite Z.eqb_refl.
  - rewrite Hrun. by exists s'.
Qed.
End rep.

(** ** The duplicate search *)
Definition matches (tag index : Z) (e : entry) : bool := (e_tag e =? tag) && (e_index e =? index).

(** The position of the last entry with this tag and index. *)
Fixpoint last_dup (tag index : Z) (l : list entry) : option nat :=
  match l with
  | [] => None
  | e :: l' =>
      match last_dup tag index l' with
      | Some k => Some (S k)
      | None => if matches tag index e then Some O else None
      end
  end.

Lemma last_dup_snoc tag index l e :
  last_dup tag index (l ++ [e]) = if matches tag index e then Some (length l) else last_dup tag index l.
Proof.
  induction l as [|e' l IH]; simpl; [done|]. rewrite IH.
  destruct (matches tag index e); [done|]. by destruct (last_dup tag index l).
Qed.

Lemma last_dup_Some tag index l k :
  last_dup tag index l = Some k →
  (∃ e, l !! k = Some e ∧ matches tag index e = true) ∧
  ∀ j e, l !! j = Some e → matches tag index e = true → (j <= k)%nat.
Proof.
  revert k. induction l as [|e l IH]; simpl; intros k; [done|].
  destruct (last_dup tag index l) as [k'|] eqn:E.
  - intros [= <-]. destruct (IH k' eq_refl) as [He Hmax]. split; [done|].
    intros [|j] e' Hj Hm; [lia|]. simpl in Hj. specialize (Hmax j e' Hj Hm). lia.
  - destruct (matches tag index e) eqn:Hm; intros [= <-]. split; [by exists e|].
    intros [|j] e' Hj Hm'; [lia|]. simpl in Hj. exfalso. clear IH.
    revert j e' Hj Hm' E. induction l as [|e2 l IH]; intros j e' Hj Hm'; simpl; [done|].
    destruct (last_dup tag index l) eqn:E; [done|].
    destruct j as [|j]; simpl in Hj; [injection Hj as ->; by rewrite Hm'|].
    by destruct (IH j e' Hj Hm').
Qed.

Lemma last_dup_None tag index l e :
  last_dup tag index l = None → e ∈ l → matches tag index e = false.
Proof.
  induction l as [|e' l IH]; simpl; [by intros _ ?%elem_of_nil|].
  destruct (last_dup tag index l) eqn:E; [done|].
  destruct (matches tag index e') eqn:Hm; [done|]. intros _ [->|?]%elem_of_cons; auto.
Qed.

(** How [findDup] returns a position: the slot, or -1. *)
Definition dup_loc (q : memQueue) (d : option nat) : Z :=
  match d with Some k => slot q k | None => -1 end.

Lemma findDup_ok q l tag index :
  queue_rep q l → Z.of_nat (length l) < _capacity q →
  findDup q tag index = Some (dup_loc q (last_dup tag index l)).
Proof.
  intros Hq Hfull.
  destruct (walk_ok q l Hq (fun k d => d = dup_loc q (last_dup tag index (take k l)))
    (fun i dupLoc =>
      t ← (_tags q).[i];
      x ← (if t =? tag then x ← (_indexes q).[i]; Some (x =? index) else Some false);
      Some (if x : bool then i else dupLoc)) (-1)) as (d & Hw & ->); [done|done| |].
  - intros k e st He ->. destruct (cell_parts q l Hq k e He) as (_ & _ & -> & ->). simpl.
    exists (if matches tag index e then slot q k else dup_loc q (last_dup tag index (take k l))).
    split; [unfold matches; by destruct (e_tag e =? tag), (e_index e =? index)|].
    rewrite (take_S_r _ _ _ He), last_dup_snoc, length_take_le by (apply lookup_lt_Some in He; lia).
    by destruct (matches tag index e).
  - unfold findDup. by rewrite Hw, firstn_all.
Qed.

(** [printQueue] prints every entry of a queue that is not full. *)
Lemma printQueue_ok q l :
  queue_rep q l → Z.of_nat (length l) < _capacity q →
  printQueue q = Some ((fun e => (addr (e_req e), e_ready e)) <$> l).
Proof.
  intros Hq Hfull.
  destruct (walk_ok q l Hq (fun k out => out = (fun e => (addr (e_req e), e_ready e)) <$> take k l)
    (fun i out => r ← (_queue q).[i]; t ← (_readyTime q).[i]; Some (out ++ [(addr r, t)])) [])
    as (d & Hw & ->); [done|done| |].
  - intros k e st He ->. destruct (cell_parts q l Hq k e He) as (-> & -> & _). simpl.
    eexists. split; [done|]. by rewrite (take_S_r _ _ _ He), fmap_app.
  - unfold printQueue. by rewrite Hw, firstn_all.
Qed.

(** In a full queue [_front] and [_rear] coincide: the loop does not start. *)
Lemma printQueue_full q l :
  queue_rep q l → Z.of_nat (length l) = _capacity q → printQueue q = Some [].
Proof.
  intros Hq Hfull. unfold printQueue, walk. pose proof (qr_cap _ _ Hq). pose proof (qr_front _ _ Hq).
  assert (Hr : _rear q = _front q).
  { rewrite (qr_rear _ _ Hq). unfold slot. rewrite Hfull.
    by rewrite <- Zplus_mod_idemp_r, Z.mod_same, Z.add_0_r, Z.mod_small by lia. }
  rewrite s32_small, Hr by (unfold is_s32; lia).
  destruct (Z.to_nat (_capacity q)); simpl; rewrite u32_small by (unfold is_u32; lia);
    by rewrite Z.eqb_refl.
Qed.

(** ** The operations on the list *)

(** The ready time of an entry added to [l] at [cycle]. *)
Definition spec_ready (lat : Z) (pip : bool) (l : list entry) (cycle : Z) : Z :=
  match last l with
  | Some e => if pip then u32 (cycle + lat) else u32 (lat + e_ready e)
  | None => u32 (cycle + lat)
  end.

(** Replacing the request of the [k]-th entry. *)
Definition set_req (req : Request) (e : entry) : entry :=
  mkEntry req (e_ready e) (e_tag e) (e_index e).

Definition spec_add (cap lat : Z) (pip : bool) (tag index : Z) (req : Request) (cycle : Z)
    (l : list entry) : bool * list entry :=
  if Z.of_nat (length l) =? cap then (false, l)
  else
    let new := mkEntry req (spec_ready lat pip l cycle) tag index in
    match last_dup tag index l ≫= fun k => l !! k with
    | None => (true, l ++ [new])
    | Some e =>
        if fromCPU (e_req e) then (true, l ++ [new])
        else if fromCPU req then (true, alter (set_req req) (default O (last_dup tag index l)) l)
        else (true, l)
    end.

Definition same_queue_config (q q' : memQueue) : Prop :=
  _id q' = _id q ∧ _capacity q' = _capacity q ∧ _latency q' = _latency q ∧
  _write q' = _write q ∧ _pipelined q' = _pipelined q.

(** Give the result of a run a name. *)
Ltac name_result x :=
  match goal with |- ∃ _, Some ?v = _ ∧ _ => exists v; set (x := v); split; [reflexivity|] end.

Lemma ready_at_ok q l cycle :
  queue_rep q l → ready_at q cycle = Some (spec_ready (_latency q) (_pipelined q) l cycle).
Proof.
  intros Hq. pose proof (qr_cap _ _ Hq) as Hcap. unfold ready_at, spec_ready.
  rewrite (qr_size _ _ Hq), (qr_rear _ _ Hq).
  destruct (last l) as [e0|] eqn:El; [|apply last_None in El as ->; by rewrite orb_true_r].
  apply last_Some in El as [l1 ->]. rewrite length_app. simpl.
  destruct (Z.eqb_spec (Z.of_nat (length l1 + 1)) 0); [lia|]. rewrite orb_false_r.
  destruct (_pipelined q); [done|].
  replace (length l1 + 1)%nat with (S (length l1)) by lia.
  destruct (cell_parts q _ Hq (length l1) e0) as (_ & Ht & _); [by rewrite lookup_app_r, Nat.sub_diag by lia|].
  pose proof (slot_range q Hcap (length l1)). rewrite slot_S by done.
  destruct (Z.eqb_spec (slot q (length l1) + 1) (_capacity q)) as [E|E].
  - change (s32 (u32 (0 - 1)) <? 0) with true. cbv iota.
    rewrite u32_small, s32_small by (unfold is_s32, is_u32; lia).
    replace (_capacity q - 1) with (slot q (length l1)) by lia. by rewrite Ht.
  - rewrite u32_small, s32_small by (unfold is_s32, is_u32; lia).
    destruct (Z.ltb_spec (slot q (length l1) + 1 - 1) 0); [lia|].
    rewrite Z.add_simpl_r. by rewrite Ht.
Qed.

Lemma enqueue_ok q l req tag index cycle :
  queue_rep q l → Z.of_nat (length l) < _capacity q →
  ∃ q', enqueue q req tag index cycle = Some q' ∧ same_queue_config q q' ∧
    queue_rep q' (l ++ [mkEntry req (spec_ready (_latency q) (_pipelined q) l cycle) tag index]).
Proof.
  intros Hq Hfull. pose proof (qr_cap _ _ Hq) as Hcap. pose proof (slot_range q Hcap (length l)) as Hr.
  pose proof (qr_queue _ _ Hq). pose proof (qr_ready _ _ Hq).
  pose proof (qr_tags _ _ Hq). pose proof (qr_indexes _ _ Hq).
  unfold enqueue. rewrite (ready_at_ok q l) by done. rewrite (qr_rear _ _ Hq).
  rewrite !zupdate_in by lia. simpl. rewrite zupdate_in by lia. simpl. name_result q'. split; [split_and!; done|].
  assert (Hs : ∀ k, slot q' k = slot q k) by done.
  split; simpl; rewrite ?length_insert; try done; rewrite ?length_app; simpl.
  - apply (qr_front _ _ Hq).
  - rewrite Hs, Nat.add_1_r, slot_S by done.
    rewrite u32_small by (unfold is_u32; lia). done.
  - rewrite (qr_size _ _ Hq), u32_small by (unfold is_u32; lia). lia.
  - lia.
  - intros k e He. rewrite Hs. unfold cell. simpl.
    apply lookup_app_Some in He as [He|[Hk He]].
    + pose proof (lookup_lt_Some _ _ _ He).
      rewrite !zlookup_insert_ne by (lia || intros E%slot_inj; lia).
      apply (qr_cell _ _ Hq k e He).
    + destruct (k - length l)%nat eqn:Ek; simpl in He; [|done]. injection He as <-.
      replace k with (length l) by lia. by rewrite !zlookup_insert_eq by lia.
Qed.

Lemma set_slot_ok q l k req :
  queue_rep q l → (k < length l)%nat →
  ∃ q', set_slot q (slot q k) req = Some q' ∧ same_queue_config q q' ∧
    queue_rep q' (alter (set_req req) k l).
Proof.
  intros Hq Hk. pose proof (qr_cap _ _ Hq) as Hcap. pose proof (slot_range q Hcap k) as Hr.
  pose proof (qr_queue _ _ Hq). unfold set_slot. rewrite zupdate_in by lia. simpl.
  name_result q'. split; [split_and!; done|].
  assert (Hs : ∀ k, slot q' k = slot q k) by done.
  destruct Hq. split; simpl; rewrite ?length_insert, ?length_alter; try done.
  intros j e He. rewrite Hs. unfold cell. simpl.
  destruct (decide (j = k)) as [->|Hne].
  - rewrite list_lookup_alter_eq in He. apply fmap_Some in He as (e0 & He & ->).
    specialize (qr_cell0 _ _ He). unfold cell in qr_cell0. ub_inv. subst e0.
    rewrite zlookup_insert_eq, Hx0, Hx1, Hx2 by lia. done.
  - rewrite list_lookup_alter_ne in He by done. pose proof (lookup_lt_Some _ _ _ He).
    rewrite zlookup_insert_ne by (lia || intros E%slot_inj; lia). apply (qr_cell0 _ _ He).
Qed.

Lemma last_dup_dup_loc q l tag index :
  queue_rep q l → last_dup tag index l = None ↔ dup_loc q (last_dup tag index l) = -1.
Proof.
  intros Hq. destruct (last_dup tag index l) as [k|]; simpl; [|done].
  pose proof (slot_range q (qr_cap _ _ Hq) k). split; [done|lia].
Qed.

(** [add] implements [spec_add], with the tag and index of the request's address. *)
Lemma add_ok source b s q l req cycle :
  geometry source b s → is_u32 (addr req) → queue_rep q l →
  let r := spec_add (_capacity q) (_latency q) (_pipelined q)
             (set_tag b s (addr req)) (set_index b s (addr req)) req cycle l in
  ∃ q', add source q req cycle = Some (r.1, q') ∧ same_queue_config q q' ∧ queue_rep q' r.2.
Proof.
  intros Hg Ha Hq. unfold add, spec_add. rewrite (qr_size _ _ Hq).
  destruct (Z.eqb_spec (Z.of_nat (length l)) (_capacity q)) as [Hf|Hf].
  { exists q. split_and!; done. }
  pose proof (qr_le _ _ Hq). rewrite (getIndex_ok source b s), (getTag_ok source b s) by done. simpl.
  rewrite (findDup_ok q l) by (done || lia). simpl.
  set (tag := set_tag b s (addr req)). set (index := set_index b s (addr req)).
  assert (Hf' : Z.of_nat (length l) < _capacity q) by lia.
  destruct (enqueue_ok q l req tag index cycle Hq Hf') as (qe & He & Hce & Hre).
  destruct (last_dup tag index l) as [k|] eqn:Hd; simpl.
  - destruct (last_dup_Some _ _ _ _ Hd) as [(e & Hk & _) _]. rewrite Hk.
    destruct (cell_parts q l Hq k e Hk) as (-> & _). simpl.
    pose proof (slot_range q (qr_cap _ _ Hq) k).
    destruct (Z.eqb_spec (slot q k) (-1)); [lia|]. simpl.
    destruct (fromCPU (e_req e)); [rewrite He; by exists qe|].
    destruct (fromCPU req); [|by exists q].
    destruct (set_slot_ok q l k req Hq) as (qs & -> & ? & ?); [by eapply lookup_lt_Some|]. by exists qs.
  - rewrite He. by exists qe.
Qed.

(** [remove] drops the front entry. *)
Lemma remove_ok q l :
  queue_rep q l →
  ∃ q', remove q = (bool_decide (l ≠ []), q') ∧ same_queue_config q q' ∧ queue_rep q' (tail l).
Proof.
  intros Hq. unfold remove. pose proof (qr_cap _ _ Hq) as Hcap. rewrite (qr_size _ _ Hq).
  destruct l as [|e l]; simpl length; [by exists q|].
  destruct (Z.eqb_spec (Z.of_nat (S (length l))) 0); [lia|].
  rewrite bool_decide_true by done. eexists. split; [reflexivity|]. split; [split_and!; done|].
  match goal with |- queue_rep ?x _ => set (q' := x) end.
  pose proof (qr_front _ _ Hq) as Hf. pose proof (qr_le _ _ Hq) as Hl. simpl length in Hl.
  assert (Hfr : _front q' = slot q 1).
  { simpl. rewrite u32_small by (unfold is_u32; lia). change 1%nat with (S 0).
    rewrite slot_S, <- (front_slot q _ Hq) by done. done. }
  assert (Hs : ∀ k, slot q' k = slot q (S k)).
  { intros k. unfold slot at 1. rewrite Hfr. change (_capacity q') with (_capacity q). unfold slot.
    rewrite Zplus_mod_idemp_l. f_equal. lia. }
  split; try apply Hq; simpl tail.
  - change (_capacity q') with (_capacity q). rewrite Hfr. by apply slot_range.
  - rewrite Hs. apply (qr_rear _ _ Hq).
  - change (u32 (Z.of_nat (S (length l)) - 1) = Z.of_nat (length l)). rewrite u32_small by (unfold is_u32; lia). lia.
  - change (_capacity q') with (_capacity q). lia.
  - intros k e' He. rewrite Hs. apply (qr_cell _ _ Hq (S k) e' He).
Qed.

Lemma frontReady_ok q l cycle :
  queue_rep q l →
  frontReady q cycle = Some (match l with e :: _ => e_ready e <=? cycle | [] => false end).
Proof.
  intros Hq. unfold frontReady. rewrite (qr_size _ _ Hq).
  destruct l as [|e l]; simpl; [done|].
  rewrite (front_slot q _ Hq). by destruct (cell_parts q _ Hq 0 e eq_refl) as (_ & -> & _).
Qed.

Lemma getFront_ok q e l : queue_rep q (e :: l) → getFront q = Some (e_req e).
Proof.
  intros Hq. unfold getFront. rewrite (front_slot q _ Hq).
  by destruct (cell_parts q _ Hq 0 e eq_refl) as (-> & _).
Qed.

(** [getFront] never reads outside the array, empty queue included. *)
Lemma getFront_total q l : queue_rep q l → is_Some (getFront q).
Proof.
  intros Hq. apply zlookup_is_Some. rewrite (qr_queue _ _ Hq). apply (qr_front _ _ Hq).
Qed.

Lemma getSize_ok q l : queue_rep q l → getSize q = Z.of_nat (length l).
Proof. apply qr_size. Qed.

Lemma new_queue_ok capacity latency pip write name :
  0 < capacity < 2 ^ 31 → queue_rep (memQueue_new capacity latency pip write name) [].
Proof.
  intros. unfold memQueue_new. split; simpl; rewrite ?length_replicate; try lia.
  all: first [by rewrite Z.mod_small by (simpl; lia)|done|by rewrite Z2Nat.id by lia|idtac].
Qed.
