(* ===== verification/MemQueueProps.v ===== *)
(** * Properties of the request queue

    Any sequence of [add]s and [remove]s from the constructor runs as on a
    bounded list; the list view then gives what the simulator relies on:
    accepted processor requests stay queued, prefetches are not duplicated and
    entries leave in the order they become ready. *)
From Stdlib Require Import Ascii.
From S2P Require Import Prelude.
From S2P Require Import Words.
From S2P Require Import MemSim.
From S2P Require Import CacheModel.
From S2P Require Import CacheSpec.
From S2P Require Import CacheProps.
From S2P Require Import MemQueueModel.
From S2P Require Import MemQueueSpec.
Import memQueue.

Inductive qop : Type :=
| OpAdd (req : Request) (cycle : Z)
| OpRemove.

(** The operations on the code and on the list. *)
Definition step_queue (c : Cache.Cache) (q : memQueue) (o : qop) : option (bool * memQueue) :=
  match o with
  | OpAdd req cycle => add c q req cycle
  | OpRemove => Some (remove q)
  end.

Definition step_list (b s cap lat : Z) (pip : bool) (l : list entry) (o : qop) : bool * list entry :=
  match o with
  | OpAdd req cycle =>
      spec_add cap lat pip (set_tag b s (addr req)) (set_index b s (addr req)) req cycle l
  | OpRemove => (bool_decide (l ≠ []), tail l)
  end.

Fixpoint run_queue (c : Cache.Cache) (q : memQueue) (ops : list qop) : option (list bool * memQueue) :=
  match ops with
  | [] => Some ([], q)
  | o :: ops => '(r, q) ← step_queue c q o; '(rs, q) ← run_queue c q ops; Some (r :: rs, q)
  end.

Fixpoint run_list (b s cap lat : Z) (pip : bool) (l : list entry) (ops : list qop) : list bool * list entry :=
  match ops with
  | [] => ([], l)
  | o :: ops =>
      let '(r, l) := step_list b s cap lat pip l o in
      let '(rs, l) := run_list b s cap lat pip l ops in (r :: rs, l)
  end.

Definition op_ok (o : qop) : Prop :=
  match o with OpAdd req _ => is_u32 (addr req) | OpRemove => True end.

(** The entries of a queue, read off its arrays. *)
Definition contents (q : memQueue) : list entry :=
  omap (fun k => cell q (slot q k)) (seq 0 (Z.to_nat (_size q))).

Lemma contents_rep q l : queue_rep q l → contents q = l.
Proof.
  intros Hq. unfold contents. rewrite (qr_size _ _ Hq), Nat2Z.id.
  assert (H : ∀ l2 l1, l = l1 ++ l2 →
    omap (fun k => cell q (slot q k)) (seq (length l1) (length l2)) = l2).
  { induction l2 as [|e l2 IH]; intros l1 El; simpl; [done|].
    rewrite (qr_cell _ _ Hq (length l1) e) by (by rewrite El, lookup_app_r, Nat.sub_diag by lia).
    f_equal. specialize (IH (l1 ++ [e])). rewrite length_app, Nat.add_comm in IH. simpl in IH.
    apply IH. by rewrite <- app_assoc. }
  by apply (H l []).
Qed.

Section run.
Context (c : Cache.Cache) (b s : Z) (Hg : geometry c b s).

Lemma step_refines q l o :
  op_ok o → queue_rep q l →
  let r := step_list b s (_capacity q) (_latency q) (_pipelined q) l o in
  ∃ q', step_queue c q o = Some (r.1, q') ∧ same_queue_config q q' ∧ queue_rep q' r.2.
Proof.
  intros Ho Hq. destruct o as [req cyc|]; simpl; [by apply add_ok|].
  destruct (remove_ok q l Hq) as (q' & -> & ? & ?). by exists q'.
Qed.

Lemma run_queue_refines ops : ∀ q l,
  Forall op_ok ops → queue_rep q l →
  let r := run_list b s (_capacity q) (_latency q) (_pipelined q) l ops in
  ∃ q', run_queue c q ops = Some (r.1, q') ∧ same_queue_config q q' ∧ queue_rep q' r.2.
Proof.
  induction ops as [|o ops IH]; intros q l Hops Hq; simpl.
  { exists q. done. }
  apply Forall_cons in Hops as [Ho Hops].
  destruct (step_refines q l o Ho Hq) as (q1 & -> & Hc1 & Hq1). simpl.
  destruct (step_list b s (_capacity q) (_latency q) (_pipelined q) l o) as [r l1]. simpl in *.
  destruct (IH q1 l1 Hops Hq1) as (q2 & Hr & Hc2 & Hq2).
  destruct Hc1 as (E1 & E2 & E3 & E4 & E5). rewrite E2, E3, E5 in Hr, Hq2. rewrite Hr. simpl.
  destruct (run_list b s (_capacity q) (_latency q) (_pipelined q) l1 ops) as [rs l2]. simpl in *.
  exists q2. split_and!; try done. destruct Hc2 as (? & ? & ? & ? & ?). split_and!; congruence.
Qed.
End run.

(** ** Invariants of the list *)

(** An invariant of the steps is an invariant of the runs. *)
Lemma run_list_inv (P : list entry → Prop) (Q : qop → Prop) b s cap lat pip :
  (∀ l o, Q o → P l → P (step_list b s cap lat pip l o).2) →
  ∀ ops l, Forall Q ops → P l → P (run_list b s cap lat pip l ops).2.
Proof.
  intros Hstep. induction ops as [|o ops IH]; intros l Hops Hl; simpl; [done|].
  apply Forall_cons in Hops as [Ho Hops]. specialize (Hstep l o Ho Hl).
  destruct (step_list b s cap lat pip l o) as [r l1]. simpl in Hstep.
  specialize (IH l1 Hops Hstep). by destruct (run_list b s cap lat pip l1 ops).
Qed.

(** Every entry carries the tag and the index of its address. *)
Definition tagged_entries (b s : Z) (l : list entry) : Prop :=
  Forall (fun e => e_tag e = set_tag b s (addr (e_req e)) ∧ e_index e = set_index b s (addr (e_req e))) l.

(** Of the entries of one block, all but the last come from the processor. *)
Definition prefetch_is_last (l : list entry) : Prop :=
  ∀ i j e e', l !! i = Some e → l !! j = Some e' → (i < j)%nat →
    e_tag e = e_tag e' → e_index e = e_index e' → fromCPU (e_req e) = true.

Lemma matches_true tag index e : matches tag index e = true ↔ e_tag e = tag ∧ e_index e = index.
Proof. unfold matches. by rewrite andb_true_iff, !Z.eqb_eq. Qed.

(** The three ways an [add] changes the list. *)
Lemma spec_add_cases cap lat pip tag index req cycle l (P : bool * list entry → Prop) :
  let new := mkEntry req (spec_ready lat pip l cycle) tag index in
  (Z.of_nat (length l) = cap → P (false, l)) →
  (Z.of_nat (length l) ≠ cap →
    (∀ k e, last_dup tag index l = Some k → l !! k = Some e → fromCPU (e_req e) = true) →
    P (true, l ++ [new])) →
  (∀ k e, last_dup tag index l = Some k → l !! k = Some e → fromCPU (e_req e) = false →
    matches tag index e = true → fromCPU req = true → P (true, alter (set_req req) k l)) →
  (∀ k e, last_dup tag index l = Some k → l !! k = Some e → fromCPU (e_req e) = false →
    fromCPU req = false → P (true, l)) →
  P (spec_add cap lat pip tag index req cycle l).
Proof.
  intros new Hfull Happ Halt Hskip. unfold spec_add. fold new.
  destruct (Z.eqb_spec (Z.of_nat (length l)) cap) as [Hf|Hf]; [by apply Hfull|].
  destruct (last_dup tag index l) as [k|] eqn:Hd; simpl; [|by apply Happ].
  destruct (last_dup_Some _ _ _ _ Hd) as [(e & He & Hm) _]. rewrite He.
  destruct (fromCPU (e_req e)) eqn:Hcpu.
  - apply Happ; [done|]. intros k' e' [= <-]. rewrite He. by intros [= <-].
  - destruct (fromCPU req) eqn:Hr; [by apply (Halt k e)|by apply (Hskip k e)].
Qed.

Lemma Forall_alter_req (P : entry → Prop) req k l e :
  Forall P l → l !! k = Some e → P (set_req req e) → Forall P (alter (set_req req) k l).
Proof.
  intros Hl He HP. apply Forall_lookup. intros j e' Hj. destruct (decide (j = k)) as [->|Hne].
  - rewrite list_lookup_alter_eq, He in Hj. by injection Hj as <-.
  - rewrite list_lookup_alter_ne in Hj by done. by eapply Forall_lookup.
Qed.

Lemma tagged_step b s cap lat pip l o :
  tagged_entries b s l → tagged_entries b s (step_list b s cap lat pip l o).2.
Proof.
  intros Hl. destruct o as [req cycle|]; simpl; [|by apply Forall_tail].
  apply spec_add_cases; simpl; try done.
  - intros _ _. apply Forall_app. split; [done|]. by apply Forall_singleton.
  - intros k e Hd He _ Hm _. unfold tagged_entries. apply (Forall_alter_req _ _ _ _ e Hl He).
    by apply matches_true in Hm.
Qed.

Lemma prefetch_step b s cap lat pip l o :
  prefetch_is_last l → prefetch_is_last (step_list b s cap lat pip l o).2.
Proof.
  intros Hl. destruct o as [req cycle|]; simpl.
  2:{ intros i j e e' Hi Hj Hlt. rewrite !lookup_tail in Hi, Hj. apply (Hl _ _ _ _ Hi Hj). lia. }
  apply spec_add_cases; simpl; try done.
  - intros _ Hlast i j e e' Hi Hj Hlt Ht Hx.
    apply lookup_app_Some in Hj as [Hj|[Hge Hj]].
    { rewrite lookup_app_l in Hi by (apply lookup_lt_Some in Hj; lia). by eapply (Hl i j). }
    apply list_lookup_singleton_Some in Hj as [Hj0 <-]. simpl in *.
    rewrite lookup_app_l in Hi by lia.
    destruct (last_dup (set_tag b s (addr req)) (set_index b s (addr req)) l) as [k|] eqn:Hd.
    + destruct (last_dup_Some _ _ _ _ Hd) as [(ek & Hk & [? ?]%matches_true) Hmax].
      assert (i <= k)%nat by (by apply (Hmax i e Hi), matches_true).
      destruct (decide (i = k)) as [->|]; [by eapply Hlast|].
      eapply (Hl i k); [done|done|lia|congruence..].
    + exfalso. assert (Hin : e ∈ l) by (by eapply list_elem_of_lookup_2).
      pose proof (last_dup_None _ _ _ e Hd Hin) as Hn.
      by rewrite (proj2 (matches_true _ _ e)) in Hn.
  - intros k ek Hd Hk _ _ Hreq i j e e' Hi Hj Hlt Ht Hx.
    destruct (decide (i = k)) as [->|Hik].
    { rewrite list_lookup_alter_eq, Hk in Hi. by injection Hi as <-. }
    rewrite list_lookup_alter_ne in Hi by done.
    destruct (decide (j = k)) as [->|Hjk].
    + rewrite list_lookup_alter_eq, Hk in Hj. injection Hj as <-. by eapply (Hl i k).
    + rewrite list_lookup_alter_ne in Hj by done. by eapply (Hl i j).
Qed.

(** The last entry of the queue is the duplicate [findDup] returns for its block. *)
Lemma last_entry_dup_at tag index l' e :
  matches tag index e = true → last_dup tag index (l' ++ [e]) = Some (length l').
Proof. intros Hm. by rewrite last_dup_snoc, Hm. Qed.

(** A request accepted from the processor is in the queue. *)
Lemma add_keeps_cpu cap lat pip tag index req cycle l :
  fromCPU req = true → (spec_add cap lat pip tag index req cycle l).1 = true →
  ∃ e, e ∈ (spec_add cap lat pip tag index req cycle l).2 ∧ e_req e = req.
Proof.
  intros Hreq. apply spec_add_cases; simpl; try done; try congruence.
  - intros _ _ _. eexists. split; [apply elem_of_app; right; by apply list_elem_of_singleton|done].
  - intros k e _ He _ _ _ _. exists (set_req req e). split; [|done].
    apply (list_elem_of_lookup_2 _ k). by rewrite list_lookup_alter_eq, He.
Qed.

(** The ready times of a non-pipelined queue: each entry is served [lat]
    cycles after the one before it. *)
Definition serial (lat : Z) (l : list entry) : Prop :=
  ∀ k e e', l !! k = Some e → l !! S k = Some e' → e_ready e' = u32 (lat + e_ready e).

Lemma alter_ready req k (l : list entry) (j : nat) e :
  alter (set_req req) k l !! j = Some e → ∃ e0, l !! j = Some e0 ∧ e_ready e = e_ready e0.
Proof.
  destruct (decide (j = k)) as [->|Hne].
  - rewrite list_lookup_alter_eq. intros (e0 & He & ->)%fmap_Some. by exists e0.
  - rewrite list_lookup_alter_ne by done. by exists e.
Qed.

Lemma serial_step b s cap lat l o :
  serial lat l → serial lat (step_list b s cap lat false l o).2.
Proof.
  intros Hl. destruct o as [req cycle|]; simpl.
  2:{ intros k e e'. rewrite !lookup_tail. apply Hl. }
  apply spec_add_cases; simpl; try done.
  - intros _ _ k e e' Hk Hk'. apply lookup_app_Some in Hk' as [Hk'|[Hge Hk']].
    { rewrite lookup_app_l in Hk by (apply lookup_lt_Some in Hk'; lia). by eapply Hl. }
    apply list_lookup_singleton_Some in Hk' as [Hk0 <-]. rewrite lookup_app_l in Hk by lia.
    unfold spec_ready. simpl. rewrite last_lookup. replace (Nat.pred (length l)) with k by lia. by rewrite Hk.
  - intros k ek _ _ _ _ _ j e e' (e0 & He & ->)%alter_ready (e1 & He' & ->)%alter_ready. by eapply Hl.
Qed.

(** A pipelined queue fed at cycles that do not go back, without overflow. *)
Fixpoint fed_in_order (lat now : Z) (ops : list qop) : Prop :=
  match ops with
  | [] => True
  | OpAdd _ cycle :: ops => now <= cycle ∧ cycle + lat < 2 ^ 32 ∧ fed_in_order lat cycle ops
  | OpRemove :: ops => fed_in_order lat now ops
  end.

Definition ready_sorted (bound : Z) (l : list entry) : Prop :=
  (∀ i j e e', l !! i = Some e → l !! j = Some e' → (i <= j)%nat → e_ready e <= e_ready e') ∧
  Forall (fun e => e_ready e <= bound) l.

Lemma ready_sorted_weaken B B' l : B <= B' → ready_sorted B l → ready_sorted B' l.
Proof. intros ? [? HB]. split; [done|]. eapply Forall_impl; [exact HB|]. simpl. lia. Qed.

Lemma sorted_step b s cap lat now l req cycle :
  0 <= now → 0 <= lat → now <= cycle → cycle + lat < 2 ^ 32 → ready_sorted (now + lat) l →
  ready_sorted (cycle + lat) (step_list b s cap lat true l (OpAdd req cycle)).2.
Proof.
  intros Hn Hlat Hnow Hov [Hs HB]. simpl.
  assert (Hw : ready_sorted (cycle + lat) l) by (apply (ready_sorted_weaken (now + lat)); [lia|done]).
  apply spec_add_cases; simpl; try done.
  - intros _ _.
    assert (Hr : spec_ready lat true l cycle = cycle + lat).
    { unfold spec_ready. rewrite u32_small by (unfold is_u32; lia). by destruct (last l). }
    rewrite Hr. destruct Hw as [_ HB']. split.
    2:{ apply Forall_app. split; [done|]. by apply Forall_singleton. }
    intros i j e e' Hi Hj Hle. apply lookup_app_Some in Hj as [Hj|[Hge Hj]].
    { rewrite lookup_app_l in Hi by (apply lookup_lt_Some in Hj; lia). by eapply Hs. }
    apply list_lookup_singleton_Some in Hj as [Hj0 <-]. simpl.
    apply lookup_app_Some in Hi as [Hi|[_ Hi]]; [by apply (Forall_lookup_1 _ _ _ _ HB' Hi)|].
    apply list_lookup_singleton_Some in Hi as [_ <-]. done.
  - intros k ek _ Hk _ _ _. destruct Hw as [_ HB']. split.
    + intros i j e e' (e0 & He & ->)%alter_ready (e1 & He' & ->)%alter_ready. by apply Hs.
    + apply (Forall_alter_req _ _ _ _ ek); [done|done|]. by apply (Forall_lookup_1 _ _ _ _ HB' Hk).
Qed.

Lemma sorted_run b s cap lat ops : ∀ now l,
  0 <= now → 0 <= lat → fed_in_order lat now ops → ready_sorted (now + lat) l →
  ∃ B, ready_sorted B (run_list b s cap lat true l ops).2.
Proof.
  induction ops as [|o ops IH]; intros now l Hn Hlat Hops Hl; simpl; [by eexists|].
  destruct o as [req cycle|].
  - destruct Hops as (Hc & Hov & Hops).
    pose proof (sorted_step b s cap lat now l req cycle Hn Hlat Hc Hov Hl) as H1.
    destruct (step_list b s cap lat true l (OpAdd req cycle)) as [r l1]. simpl in H1.
    destruct (IH cycle l1) as [B HB]; [lia|done..|].
    destruct (run_list b s cap lat true l1 ops). by exists B.
  - simpl. destruct (IH now (tail l)) as [B HB]; [done..| |].
    + destruct Hl as [Hs HB]. split; [|by apply Forall_tail].
      intros i j e e' Hi Hj Hle. rewrite lookup_tail in Hi, Hj. apply (Hs _ _ _ _ Hi Hj). lia.
    + destruct (run_list b s cap lat true (tail l) ops). by exists B.
Qed.

(** ** The properties *)
Section properties.
Context (capacity latency : Z) (pip write : bool) (name : Ascii.ascii) (c : Cache.Cache) (b s : Z).

Definition fresh_queue : memQueue := memQueue_new capacity latency pip write name.

Definition queue_args : Prop := 0 < capacity < 2 ^ 31 ∧ geometry c b s.

Lemma fresh_queue_run ops :
  queue_args → Forall op_ok ops →
  let r := run_list b s capacity latency pip [] ops in
  ∃ q, run_queue c fresh_queue ops = Some (r.1, q) ∧ same_queue_config fresh_queue q ∧ queue_rep q r.2.
Proof.
  intros [Hcap Hg] Hops.
  exact (run_queue_refines c b s Hg ops fresh_queue [] Hops (new_queue_ok capacity latency pip write name Hcap)).
Qed.

Lemma fresh_run_tagged ops : tagged_entries b s (run_list b s capacity latency pip [] ops).2.
Proof.
  apply (run_list_inv _ (fun _ => True)); [intros; by apply tagged_step|by apply Forall_true|by apply Forall_nil].
Qed.

(** Addresses of one block have the same tag and index. *)
Lemma same_block_keys a a' :
  geometry c b s → block_of b a = block_of b a' → set_tag b s a = set_tag b s a' ∧ set_index b s a = set_index b s a'.
Proof.
  intros Hg Hb. pose proof (geo_b _ _ _ Hg). pose proof (geo_s _ _ _ Hg).
  unfold set_tag, set_index, block_of in *. by rewrite !Z.pow_add_r, <- !Z.div_div, Hb by lia.
Qed.

(** C5: from its constructor, every sequence of [add]s and [remove]s (with the
    [while] loop of [findDup] it contains) terminates inside the arrays and
    does what the bounded list does; size, front and readiness are the list's. *)
Theorem queue_implements_list ops cycle (Hargs : queue_args) (Hops : Forall op_ok ops) :
  ∃ q, run_queue c fresh_queue ops = Some ((run_list b s capacity latency pip [] ops).1, q) ∧
    contents q = (run_list b s capacity latency pip [] ops).2 ∧
    getSize q = Z.of_nat (length (contents q)) ∧ getSize q <= capacity ∧
    frontReady q cycle = Some (match contents q with e :: _ => e_ready e <=? cycle | [] => false end) ∧
    (∀ e l, contents q = e :: l → getFront q = Some (e_req e)).
Proof.
  destruct (fresh_queue_run ops Hargs Hops) as (q & Hrun & Hcfg & Hq). exists q.
  rewrite (contents_rep q _ Hq). split_and!; try done.
  - by apply getSize_ok.
  - rewrite (getSize_ok _ _ Hq). destruct Hcfg as (_ & Hc & _). simpl in Hc.
    pose proof (qr_le _ _ Hq). lia.
  - by apply frontReady_ok.
  - intros e l El. rewrite El in Hq. by eapply getFront_ok.
Qed.

(** A processor request that [add] accepts is in the queue afterwards,
    whatever the queue held: it is appended, or it takes the place of a pending
    prefetch of its block; and its tag and index are those of its address. *)
Theorem accepted_processor_request_is_queued ops req cycle rs q q'
    (Hargs : queue_args) (Hops : Forall op_ok ops) (Hreq : is_u32 (addr req)) (Hcpu : fromCPU req = true)
    (Hrun : run_queue c fresh_queue ops = Some (rs, q)) (Hadd : add c q req cycle = Some (true, q')) :
  ∃ e, e ∈ contents q' ∧ e_req e = req ∧
    e_tag e = set_tag b s (addr req) ∧ e_index e = set_index b s (addr req).
Proof.
  destruct (fresh_queue_run ops Hargs Hops) as (q0 & Hrun0 & _ & Hq).
  rewrite Hrun in Hrun0. injection Hrun0 as -> ->.
  destruct (add_ok c b s q0 _ req cycle (proj2 Hargs) Hreq Hq) as (q1 & Hadd1 & _ & Hq1).
  rewrite Hadd in Hadd1. injection Hadd1 as Hacc ->. rewrite (contents_rep _ _ Hq1).
  destruct (add_keeps_cpu _ _ _ _ _ req cycle _ Hcpu (eq_sym Hacc)) as (e & He & Ee).
  exists e. split; [done|]. split; [done|]. rewrite <- Ee.
  pose proof (fresh_run_tagged ops) as Ht.
  pose proof (tagged_step b s (_capacity q0) (_latency q0) (_pipelined q0) _ (OpAdd req cycle) Ht) as H1.
  by apply (proj1 (Forall_forall _ _) H1).
Qed.

(** At any time at most one prefetch per block waits in a queue: two
    distinct entries for addresses of one block include a processor request. *)
Theorem one_prefetch_per_block ops rs q i j e e'
    (Hargs : queue_args) (Hops : Forall op_ok ops)
    (Hrun : run_queue c fresh_queue ops = Some (rs, q))
    (Hi : contents q !! i = Some e) (Hj : contents q !! j = Some e') (Hij : i ≠ j)
    (Hblock : block_of b (addr (e_req e)) = block_of b (addr (e_req e'))) :
  fromCPU (e_req e) = true ∨ fromCPU (e_req e') = true.
Proof.
  destruct (fresh_queue_run ops Hargs Hops) as (q0 & Hrun0 & _ & Hq).
  rewrite Hrun in Hrun0. injection Hrun0 as -> ->. rewrite (contents_rep _ _ Hq) in Hi, Hj.
  set (l := (run_list b s capacity latency pip [] ops).2) in *.
  assert (Hp : prefetch_is_last l).
  { apply (run_list_inv _ (fun _ => True)); [intros; by apply prefetch_step|by apply Forall_true|done]. }
  assert (Ht : tagged_entries b s l) by apply fresh_run_tagged.
  destruct (Forall_lookup_1 _ _ _ _ Ht Hi) as [T1 X1]. destruct (Forall_lookup_1 _ _ _ _ Ht Hj) as [T2 X2].
  assert (Hsame : e_tag e = e_tag e' ∧ e_index e = e_index e').
  { rewrite T1, X1, T2, X2. by apply same_block_keys; [apply Hargs|]. }
  destruct Hsame. destruct (decide (i < j)%nat).
  - left. by apply (Hp i j e e').
  - right. apply (Hp j i e' e); [done|done|lia|done|done].
Qed.

(** In a pipelined queue fed in time order, the front is always the first
    entry to become ready: when [frontReady] says no, nothing is ready. *)
Theorem front_is_first_ready ops rs q cycle
    (Hpip : pip = true) (Hlat : 0 <= latency) (Hargs : queue_args) (Hops : Forall op_ok ops)
    (Hfed : fed_in_order latency 0 ops)
    (Hrun : run_queue c fresh_queue ops = Some (rs, q)) (Hno : frontReady q cycle = Some false) :
  ∀ e, e ∈ contents q → cycle < e_ready e.
Proof.
  destruct (fresh_queue_run ops Hargs Hops) as (q0 & Hrun0 & _ & Hq).
  rewrite Hrun in Hrun0. injection Hrun0 as -> ->. rewrite (contents_rep _ _ Hq).
  rewrite (frontReady_ok _ _ cycle Hq) in Hno. rewrite Hpip in *.
  destruct (sorted_run b s capacity latency ops 0 []) as [B [Hs _]]; [done..| |].
  { split; [by intros i j e e' [=]|by apply Forall_nil]. }
  intros e [k Hk]%list_elem_of_lookup.
  destruct (run_list b s capacity latency true [] ops).2 as [|e0 l]; [done|].
  injection Hno as Hno%Z.leb_gt. specialize (Hs 0%nat k e0 e eq_refl Hk). lia.
Qed.

(** In a queue that is not pipelined, each entry becomes ready exactly
    [_latency] cycles after the one before it. *)
Theorem serial_queue_spacing ops rs q k e e'
    (Hpip : pip = false) (Hargs : queue_args) (Hops : Forall op_ok ops)
    (Hrun : run_queue c fresh_queue ops = Some (rs, q))
    (Hk : contents q !! k = Some e) (Hk' : contents q !! S k = Some e') :
  e_ready e' = u32 (latency + e_ready e).
Proof.
  destruct (fresh_queue_run ops Hargs Hops) as (q0 & Hrun0 & _ & Hq).
  rewrite Hrun in Hrun0. injection Hrun0 as -> ->. rewrite (contents_rep _ _ Hq), Hpip in *.
  assert (Hs : serial latency (run_list b s capacity latency false [] ops).2).
  { apply (run_list_inv _ (fun _ => True)); [intros; by apply serial_step|by apply Forall_true|done]. }
  by apply (Hs k).
Qed.

(** A duplicate of a pending processor request is not ignored: while there
    is room, adding any request for its block lengthens the queue by one. *)
Theorem processor_duplicate_is_queued_again ops rs q e req cycle
    (Hargs : queue_args) (Hops : Forall op_ok ops) (Hreq : is_u32 (addr req))
    (Hrun : run_queue c fresh_queue ops = Some (rs, q)) (Hroom : getSize q < capacity)
    (Hlast : last (contents q) = Some e) (Hcpu : fromCPU (e_req e) = true)
    (Hblock : block_of b (addr (e_req e)) = block_of b (addr req)) :
  ∃ q' e', add c q req cycle = Some (true, q') ∧ contents q' = contents q ++ [e'] ∧ e_req e' = req.
Proof.
  destruct (fresh_queue_run ops Hargs Hops) as (q0 & Hrun0 & (_ & Hcap & _) & Hq).
  rewrite Hrun in Hrun0. injection Hrun0 as -> ->. rewrite (contents_rep _ _ Hq) in *.
  rewrite (getSize_ok _ _ Hq) in Hroom. simpl in Hcap.
  set (l := (run_list b s capacity latency pip [] ops).2) in *.
  apply last_Some in Hlast as [l' El].
  assert (Hdup : last_dup (set_tag b s (addr req)) (set_index b s (addr req)) l = Some (length l')).
  { rewrite El. apply last_entry_dup_at, matches_true.
    assert (Ht : tagged_entries b s l) by apply fresh_run_tagged.
    rewrite El in Ht. apply Forall_app in Ht as [_ [-> ->]%Forall_singleton].
    apply same_block_keys; [apply Hargs|done]. }
  assert (Hkey : ∀ k ek, last_dup (set_tag b s (addr req)) (set_index b s (addr req)) l = Some k →
    l !! k = Some ek → fromCPU (e_req ek) = true).
  { intros k ek. rewrite Hdup, El. intros [= <-].
    rewrite lookup_app_r, Nat.sub_diag by lia. by intros [= <-]. }
  destruct (add_ok c b s q0 _ req cycle (proj2 Hargs) Hreq Hq) as (q1 & Hadd1 & _ & Hq1).
  revert Hadd1 Hq1. apply spec_add_cases; simpl; [lia| | |].
  - intros _ _ Hadd Hq1. exists q1. eexists. rewrite Hadd, (contents_rep _ _ Hq1). done.
  - intros k ek Hd Hk Hne. by rewrite (Hkey k ek) in Hne.
  - intros k ek Hd Hk Hne. by rewrite (Hkey k ek) in Hne.
Qed.

(** [printQueue] lists the entries of every queue that is not full, and
    nothing at all when the queue is full ([_front] and [_rear] then coincide). *)
Theorem printQueue_misses_full_queue ops rs q
    (Hargs : queue_args) (Hops : Forall op_ok ops) (Hrun : run_queue c fresh_queue ops = Some (rs, q)) :
  printQueue q = Some (if getSize q <? capacity
                       then (fun e => (addr (e_req e), e_ready e)) <$> contents q else []).
Proof.
  destruct (fresh_queue_run ops Hargs Hops) as (q0 & Hrun0 & (_ & Hcap & _) & Hq).
  rewrite Hrun in Hrun0. injection Hrun0 as -> ->.
  rewrite (contents_rep _ _ Hq), (getSize_ok _ _ Hq). simpl in Hcap. rewrite <- Hcap.
  pose proof (qr_le _ _ Hq). rewrite Hcap in *.
  destruct (Z.ltb_spec (Z.of_nat (length (run_list b s capacity latency pip [] ops).2)) capacity).
  - apply printQueue_ok; [done|lia].
  - by apply (printQueue_full q0 _ Hq); lia.
Qed.
End properties.

(** ** Witnesses: a queue of four entries, latency ten, 16-byte blocks in four sets *)
#[local] Existing Instance std_rand.

Definition demo_req (a : Z) (cpu : bool) : Request := set_fromCPU (set_addr zeroRequest a) cpu.
Definition demo_source : Cache.Cache := fresh 2 4 2 true false.
Definition demo_ops : list qop :=
  [OpAdd (demo_req 0 false) 5; OpAdd (demo_req 64 true) 6; OpRemove;
   OpAdd (demo_req 32 false) 7; OpAdd (demo_req 36 false) 8; OpAdd (demo_req 96 true) 9].

Lemma demo_queue_args : queue_args 4 demo_source 4 2.
Proof. split; [lia|by constructor]. Qed.

Lemma demo_ops_ok : Forall op_ok demo_ops.
Proof. repeat constructor; simpl; unfold is_u32; lia. Qed.

Definition demo_queue (pip : bool) : memQueue :=
  match run_queue demo_source (fresh_queue 4 10 pip false "A"%char) demo_ops with
  | Some (_, q) => q
  | None => fresh_queue 4 10 pip false "A"%char
  end.
Definition demo_results : list bool := [true; true; true; true; true; true].

Lemma demo_run pip :
  run_queue demo_source (fresh_queue 4 10 pip false "A"%char) demo_ops = Some (demo_results, demo_queue pip).
Proof. destruct pip; vm_compute; reflexivity. Qed.

Lemma queue_implements_list_witness :
  ∃ q, run_queue demo_source (fresh_queue 4 10 true false "A"%char) demo_ops =
      Some ((run_list 4 2 4 10 true [] demo_ops).1, q) ∧
    contents q = (run_list 4 2 4 10 true [] demo_ops).2 ∧
    getSize q = Z.of_nat (length (contents q)) ∧ getSize q <= 4 ∧
    frontReady q 16 = Some (match contents q with e :: _ => e_ready e <=? 16 | [] => false end) ∧
    (∀ e l, contents q = e :: l → getFront q = Some (e_req e)).
Proof. exact (queue_implements_list 4 10 true false "A"%char demo_source 4 2 demo_ops 16 demo_queue_args demo_ops_ok). Defined.

Definition demo_added (q : memQueue) (r : Request) (cycle : Z) : memQueue :=
  match add demo_source q r cycle with Some (_, q') => q' | None => q end.

Lemma accepted_processor_request_is_queued_witness :
  ∃ e, e ∈ contents (demo_added (demo_queue true) (demo_req 44 true) 10) ∧ e_req e = demo_req 44 true ∧
    e_tag e = set_tag 4 2 44 ∧ e_index e = set_index 4 2 44.
Proof.
  exact (accepted_processor_request_is_queued 4 10 true false "A"%char demo_source 4 2 demo_ops (demo_req 44 true) 10
    demo_results (demo_queue true) (demo_added (demo_queue true) (demo_req 44 true) 10) demo_queue_args demo_ops_ok
    ltac:(unfold is_u32; simpl; lia) eq_refl (demo_run true) ltac:(vm_compute; reflexivity)).
Defined.

Definition demo_entry (q : memQueue) (k : nat) : entry := default (mkEntry zeroRequest 0 0 0) (contents q !! k).

(** A prefetch queued behind a processor request of its block. *)
Definition demo_ops_dup : list qop := [OpAdd (demo_req 64 true) 6; OpAdd (demo_req 68 false) 7].
Definition demo_queue_dup : memQueue :=
  demo_added (demo_added (fresh_queue 4 10 true false "A"%char) (demo_req 64 true) 6) (demo_req 68 false) 7.

Lemma one_prefetch_per_block_witness :
  fromCPU (e_req (demo_entry demo_queue_dup 0)) = true ∨ fromCPU (e_req (demo_entry demo_queue_dup 1)) = true.
Proof.
  exact (one_prefetch_per_block 4 10 true false "A"%char demo_source 4 2 demo_ops_dup [true; true] demo_queue_dup 0 1
    (demo_entry demo_queue_dup 0) (demo_entry demo_queue_dup 1) demo_queue_args
    ltac:(repeat constructor; simpl; unfold is_u32; lia) ltac:(vm_compute; reflexivity)
    ltac:(vm_compute; reflexivity) ltac:(vm_compute; reflexivity) ltac:(lia) ltac:(vm_compute; reflexivity)).
Defined.

Lemma front_is_first_ready_witness :
  length (contents (demo_queue true)) = 3%nat ∧ ∀ e, e ∈ contents (demo_queue true) → 15 < e_ready e.
Proof.
  split; [vm_compute; reflexivity|].
  exact (front_is_first_ready 4 10 true false "A"%char demo_source 4 2 demo_ops demo_results (demo_queue true) 15
    eq_refl ltac:(lia) demo_queue_args demo_ops_ok ltac:(simpl; lia) (demo_run true) ltac:(vm_compute; reflexivity)).
Defined.

Lemma serial_queue_spacing_witness :
  e_ready (demo_entry (demo_queue false) 1) = u32 (10 + e_ready (demo_entry (demo_queue false) 0)).
Proof.
  exact (serial_queue_spacing 4 10 false false "A"%char demo_source 4 2 demo_ops demo_results (demo_queue false) 0
    (demo_entry (demo_queue false) 0) (demo_entry (demo_queue false) 1) eq_refl demo_queue_args demo_ops_ok
    (demo_run false) ltac:(vm_compute; reflexivity) ltac:(vm_compute; reflexivity)).
Defined.

Lemma processor_duplicate_is_queued_again_witness :
  ∃ q' e', add demo_source (demo_queue true) (demo_req 100 true) 10 = Some (true, q') ∧
    contents q' = contents (demo_queue true) ++ [e'] ∧ e_req e' = demo_req 100 true.
Proof.
  exact (processor_duplicate_is_queued_again 4 10 true false "A"%char demo_source 4 2 demo_ops demo_results
    (demo_queue true) (demo_entry (demo_queue true) 2) (demo_req 100 true) 10 demo_queue_args demo_ops_ok
    ltac:(unfold is_u32; simpl; lia) (demo_run true) ltac:(vm_compute; reflexivity) ltac:(vm_compute; reflexivity)
    ltac:(vm_compute; reflexivity) ltac:(vm_compute; reflexivity)).
Defined.

Lemma printQueue_misses_full_queue_witness :
  printQueue (demo_queue true) =
    Some (if getSize (demo_queue true) <? 4
          then (fun e => (addr (e_req e), e_ready e)) <$> contents (demo_queue true) else []).
Proof.
  exact (printQueue_misses_full_queue 4 10 true false "A"%char demo_source 4 2 demo_ops demo_results (demo_queue true)
    demo_queue_args demo_ops_ok (demo_run true)).
Defined.
