(* ===== verification/TraceFormat.v ===== *)
(** * The trace file format

    One line per memory access.  memtracer.cpp writes it with
    [fprintf(trace, "l %p %p %u\n", ...)], CPU.C reads it with
    [fscanf(_trace, "%c %x %x %u\n", ...)].  The two library functions are
    modelled on these formats, over the list of the characters of the file. *)
From Stdlib Require Export Ascii.
From S2P Require Import Prelude.
From S2P Require Import Words.

Abbreviation chars := (list ascii).

(** ** Printing *)

(** The digit [d] of a number, [0 <= d < 16]. *)
Definition digit (d : Z) : ascii :=
  ascii_of_nat (Z.to_nat (if d <? 10 then 48 + d else 87 + d)).

(** The digits of [z] in the given base, in front of [acc]. *)
Fixpoint digits (fuel : nat) (base z : Z) (acc : chars) : chars :=
  match fuel with
  | O => digit z :: acc
  | S fuel => if z <? base then digit z :: acc else digits fuel base (z / base) (digit (z mod base) :: acc)
  end.

(** [%u] and [%p]; the latter, as the GNU C library prints it. *)
Definition print_u (z : Z) : chars := digits 32 10 z [].
Definition print_p (z : Z) : chars :=
  if z =? 0 then ["("; "n"; "i"; "l"; ")"]%char else "0"%char :: "x"%char :: digits 32 16 z [].

(** ["l %p %p %u\n"] and ["s %p %p %u\n"]. *)
Definition print_record (kind : ascii) (ip addr since : Z) : chars :=
  kind :: " "%char :: print_p ip ++ " "%char :: print_p addr ++ " "%char :: print_u since ++ ["010"%char].

(** ** Scanning

    The result is [None] when the behaviour is undefined (a number that does not
    fit [unsigned int]); otherwise the converted value, or [None] when the
    conversion fails, and the characters not consumed. *)
Definition scan (A : Type) : Type := chars → option (option A * chars).

Definition scan_ret {A} (x : A) : scan A := fun s => Some (Some x, s).
Definition scan_bind {A B} (m : scan A) (f : A → scan B) : scan B := fun s =>
  r ← m s;
  match r with
  | (Some x, s') => f x s'
  | (None, s') => Some (None, s')
  end.

(** The white space a directive " " or "\n" of the format skips. *)
Definition is_space (c : ascii) : bool :=
  let n := nat_of_ascii c in (n =? 32)%nat || ((9 <=? n)%nat && (n <=? 13)%nat).

Fixpoint skip_ws (s : chars) : chars :=
  match s with
  | c :: s' => if is_space c then skip_ws s' else s
  | [] => []
  end.

Definition scan_ws : scan unit := fun s => Some (Some tt, skip_ws s).

(** [%c]: the next character, whatever it is. *)
Definition scan_c : scan ascii := fun s =>
  match s with
  | c :: s' => Some (Some c, s')
  | [] => Some (None, [])
  end.

Definition digit_val (base : Z) (c : ascii) : option Z :=
  let n := Z.of_nat (nat_of_ascii c) in
  let v := if (48 <=? n) && (n <=? 57) then n - 48
           else if (97 <=? n) && (n <=? 102) then n - 87
           else if (65 <=? n) && (n <=? 70) then n - 55 else 99 in
  if v <? base then Some v else None.

(** The digits read so far have the value [acc]. *)
Fixpoint read_digits (base acc : Z) (s : chars) : Z * chars :=
  match s with
  | c :: s' =>
      match digit_val base c with
      | Some d => read_digits base (acc * base + d) s'
      | None => (acc, s)
      end
  | [] => (acc, [])
  end.

(** At least one digit is needed. *)
Definition scan_digits (base : Z) (neg : bool) : scan Z := fun s =>
  match s with
  | c :: _ =>
      match digit_val base c with
      | Some _ =>
          let '(v, s') := read_digits base 0 s in
          if (v <? 2 ^ 32) && (negb neg || (v =? 0)) then Some (Some v, s') else None
      | None => Some (None, s)
      end
  | [] => Some (None, [])
  end.

(** The optional sign. *)
Definition read_sign (s : chars) : bool * chars :=
  match s with
  | "-"%char :: s' => (true, s')
  | "+"%char :: s' => (false, s')
  | _ => (false, s)
  end.

(** [%u]. *)
Definition scan_u : scan Z := fun s =>
  let '(neg, s) := read_sign (skip_ws s) in scan_digits 10 neg s.

(** [%x], with its optional prefix. *)
Definition scan_x : scan Z := fun s =>
  let '(neg, s) := read_sign (skip_ws s) in
  match s with
  | "0"%char :: "x"%char :: s' | "0"%char :: "X"%char :: s' => scan_digits 16 neg s'
  | _ => scan_digits 16 neg s
  end.

(** One line: [fscanf(_trace, "%c %x %x %u\n", &ld, &pc, &addr, &cycles_since_last)],
    which returns 4 exactly when every conversion succeeds. *)
Record line : Type := mkLine { ld : ascii; l_pc : Z; l_addr : Z; cycles_since_last : Z }.

Definition scan_line : scan line :=
  scan_bind scan_c (fun c =>
  scan_bind scan_ws (fun _ =>
  scan_bind scan_x (fun p =>
  scan_bind scan_ws (fun _ =>
  scan_bind scan_x (fun a =>
  scan_bind scan_ws (fun _ =>
  scan_bind scan_u (fun n =>
  scan_bind scan_ws (fun _ =>
  scan_ret (mkLine c p a n))))))))).

Definition print_line (l : line) : chars := print_record (ld l) (l_pc l) (l_addr l) (cycles_since_last l).

(** ** Reading back what was printed *)
Lemma digit_val_digit base d :
  0 <= d < base → base = 10 ∨ base = 16 → digit_val base (digit d) = Some d.
Proof.
  intros Hd Hb.
  assert (E : ∀ n, (n < 16)%nat → digit_val 16 (digit (Z.of_nat n)) = Some (Z.of_nat n) ∧
    ((n < 10)%nat → digit_val 10 (digit (Z.of_nat n)) = Some (Z.of_nat n))).
  { intros n Hn. do 16 (destruct n as [|n]; [split; [reflexivity|intros; first [reflexivity|lia]]|]). lia. }
  destruct (E (Z.to_nat d)) as [E16 E10]; [lia|]. rewrite Z2Nat.id in * by lia.
  destruct Hb as [->| ->]; [apply E10; lia|done].
Qed.

Lemma read_digits_cons base acc d s :
  0 <= d < base → base = 10 ∨ base = 16 →
  read_digits base acc (digit d :: s) = read_digits base (acc * base + d) s.
Proof. intros. simpl. by rewrite digit_val_digit. Qed.

Lemma read_digits_digits base : base = 10 ∨ base = 16 → ∀ fuel z s,
  0 <= z < base ^ (Z.of_nat fuel + 1) →
  read_digits base 0 (digits fuel base z s) = read_digits base z s ∧
  ∃ d t, digits fuel base z s = digit d :: t ∧ 0 <= d < base.
Proof.
  intros Hb. assert (Hb0 : 10 <= base) by lia.
  induction fuel as [|fuel IH]; intros z s Hz.
  - change (Z.of_nat 0 + 1) with 1 in Hz. rewrite Z.pow_1_r in Hz. simpl digits.
    rewrite read_digits_cons by done. split; [f_equal; lia|]. by eexists _, _.
  - simpl. destruct (Z.ltb_spec z base) as [Hlt|Hge].
    + rewrite read_digits_cons by (done || lia). split; [f_equal; lia|].
      eexists _, _. split; [done|]. lia.
    + pose proof (Z.mod_pos_bound z base). pose proof (Z.div_mod z base).
      destruct (IH (z / base) (digit (z mod base) :: s)) as [E ?].
      { replace (Z.of_nat (S fuel) + 1) with (Z.succ (Z.of_nat fuel + 1)) in Hz by lia.
        rewrite Z.pow_succ_r in Hz by lia.
        split; [apply Z.div_pos; lia|apply Z.div_lt_upper_bound; lia]. }
      split; [|done]. rewrite E, read_digits_cons by (done || lia). f_equal. lia.
Qed.

Lemma digits_app base fuel : ∀ z acc s, digits fuel base z (acc ++ s) = digits fuel base z acc ++ s.
Proof.
  induction fuel as [|fuel IH]; intros z acc s; simpl; [done|].
  destruct (z <? base); [done|]. by rewrite <- IH.
Qed.

#[local] Opaque digits.

(** What a number may be followed by. *)
Definition stops (base : Z) (s : chars) : Prop :=
  match s with c :: _ => digit_val base c = None | [] => True end.

Lemma read_digits_stops base z s : stops base s → read_digits base z s = (z, s).
Proof. destruct s as [|c s]; simpl; [done|]. by intros ->. Qed.

Lemma digit_plain d : 0 <= d < 16 →
  is_space (digit d) = false ∧ ∀ t, read_sign (digit d :: t) = (false, digit d :: t).
Proof.
  intros Hd. rewrite <- (Z2Nat.id d) by lia.
  assert (Hn : (Z.to_nat d < 16)%nat) by lia. revert Hn. generalize (Z.to_nat d) as n. intros n Hn.
  do 16 (destruct n as [|n]; [split; reflexivity|]). lia.
Qed.

Lemma u32_digits base z : base = 10 ∨ base = 16 → is_u32 z → 0 <= z < base ^ (Z.of_nat 32 + 1).
Proof. unfold is_u32. intros [->| ->] ?; simpl; lia. Qed.

Lemma scan_digits_print base z s :
  base = 10 ∨ base = 16 → is_u32 z → stops base s →
  scan_digits base false (digits 32 base z [] ++ s) = Some (Some z, s).
Proof.
  intros Hb Hz Hs. rewrite <- (digits_app base 32 z [] s), app_nil_l.
  destruct (read_digits_digits base Hb 32 z s (u32_digits base z Hb Hz)) as (E & d & t & Et & Hd).
  unfold scan_digits. rewrite Et in *.
  rewrite (digit_val_digit base d Hd Hb), E, (read_digits_stops base z s Hs).
  destruct (Z.ltb_spec z (2 ^ 32)); [done|]. unfold is_u32 in Hz. lia.
Qed.

Lemma scan_u_print z s : is_u32 z → stops 10 s → scan_u (print_u z ++ s) = Some (Some z, s).
Proof.
  intros Hz Hs. rewrite <- (scan_digits_print 10 z s) by auto. unfold scan_u, print_u.
  destruct (read_digits_digits 10 (or_introl eq_refl) 32 z [] (u32_digits 10 z (or_introl eq_refl) Hz))
    as (_ & d & t & Et & Hd).
  destruct (digit_plain d) as [Hsp Hsg]; [lia|]. rewrite Et. simpl. by rewrite Hsp, Hsg.
Qed.

Lemma scan_x_print z s : is_u32 z → z ≠ 0 → stops 16 s → scan_x (print_p z ++ s) = Some (Some z, s).
Proof.
  intros Hz Hnz Hs. unfold scan_x, print_p. rewrite (proj2 (Z.eqb_neq z 0)) by done. simpl.
  apply scan_digits_print; auto.
Qed.

(** A null pointer is printed in a form [%x] does not read. *)
Lemma scan_x_null s : scan_x (print_p 0 ++ s) = Some (None, print_p 0 ++ s).
Proof. done. Qed.

Definition line_ok (l : line) : Prop :=
  is_space (ld l) = false ∧ is_u32 (l_pc l) ∧ l_pc l ≠ 0 ∧ is_u32 (l_addr l) ∧ l_addr l ≠ 0 ∧
  is_u32 (cycles_since_last l).

Lemma scan_ws_bind {A} (f : unit → scan A) s : scan_bind scan_ws f s = f tt (skip_ws s).
Proof. done. Qed.

Lemma scan_bind_ok {A B} (m : scan A) (f : A → scan B) s x s' :
  m s = Some (Some x, s') → scan_bind m f s = f x s'.
Proof. unfold scan_bind. by intros ->. Qed.

Lemma scan_x_bind {A} (f : Z → scan A) z c s :
  is_u32 z → z ≠ 0 → digit_val 16 c = None →
  scan_bind scan_x f (print_p z ++ c :: s) = f z (c :: s).
Proof. intros. by apply scan_bind_ok, scan_x_print. Qed.

Lemma scan_u_bind {A} (f : Z → scan A) z c s :
  is_u32 z → digit_val 10 c = None → scan_bind scan_u f (print_u z ++ c :: s) = f z (c :: s).
Proof. intros. by apply scan_bind_ok, scan_u_print. Qed.

Lemma skip_space s : skip_ws (" "%char :: s) = skip_ws s.
Proof. done. Qed.

(** Printed numbers do not begin with white space. *)
Lemma skip_ws_print_p z s : is_u32 z → skip_ws (print_p z ++ s) = print_p z ++ s.
Proof. intros. unfold print_p. by destruct (z =? 0). Qed.

Lemma skip_ws_print_u z s : is_u32 z → skip_ws (print_u z ++ s) = print_u z ++ s.
Proof.
  intros Hz. unfold print_u.
  destruct (read_digits_digits 10 (or_introl eq_refl) 32 z [] (u32_digits 10 z (or_introl eq_refl) Hz))
    as (_ & d & t & -> & Hd).
  destruct (digit_plain d) as [Hsp _]; [lia|]. simpl. by rewrite Hsp.
Qed.

Lemma scan_line_print l s : line_ok l → scan_line (print_line l ++ s) = Some (Some l, skip_ws s).
Proof.
  intros (Hk & Hp & Hp0 & Ha & Ha0 & Hn). destruct l as [k p a n]. simpl in *.
  unfold scan_line, print_line, print_record. simpl.
  repeat first [rewrite <- app_assoc | rewrite <- app_comm_cons].
  erewrite scan_bind_ok by done. rewrite scan_ws_bind, skip_space, skip_ws_print_p by done.
  rewrite scan_x_bind, scan_ws_bind, skip_space, skip_ws_print_p by done.
  rewrite scan_x_bind, scan_ws_bind, skip_space, skip_ws_print_u by done.
  simpl app. by rewrite scan_u_bind.
Qed.

(** Reading line after line, until [fscanf] does not return 4. *)
Fixpoint read_lines (fuel : nat) (s : chars) : option (list line) :=
  match fuel with
  | O => None
  | S fuel =>
      r ← scan_line s;
      match r with
      | (Some l, s') => ls ← read_lines fuel s'; Some (l :: ls)
      | (None, _) => Some []
      end
  end.

Lemma skip_ws_print_line l s : line_ok l → skip_ws (print_line l ++ s) = print_line l ++ s.
Proof. intros [Hk _]. simpl. by rewrite Hk. Qed.

Lemma read_lines_print ls : ∀ fuel,
  Forall line_ok ls → (length ls < fuel)%nat → read_lines fuel (ls ≫= print_line) = Some ls.
Proof.
  induction ls as [|l ls IH]; intros [|fuel] Hls Hf; simpl in Hf; try lia; [done|].
  apply Forall_cons in Hls as [Hl Hls].
  change ((l :: ls) ≫= print_line) with (print_line l ++ (ls ≫= print_line)).
  change (read_lines (S fuel) ?x) with
    (r ← scan_line x; match r with (Some l, s') => ls ← read_lines fuel s'; Some (l :: ls) | (None, _) => Some [] end).
  rewrite scan_line_print by done. simpl.
  assert (E : skip_ws (ls ≫= print_line) = ls ≫= print_line).
  { destruct ls as [|l' ls]; [done|].
    change ((l' :: ls) ≫= print_line) with (print_line l' ++ (ls ≫= print_line)).
    apply skip_ws_print_line. by inversion Hls. }
  rewrite E, IH by (done || lia). done.
Qed.
