(* ===== verification/Memtracer.v ===== *)
(** * The trace generator (src/cse240a/project/cse240a-proj1/memtracer.cpp)

    A Pin tool: callbacks over global variables.  The instruction counter
    [icount.CountWithREP()] belongs to Pin's instrumentation library; a callback
    takes the 64-bit count it returns as an argument (no instruction of the
    traced program runs during the callback). *)
From S2P Require Import Prelude.
From S2P Require Import Words.
From S2P Require Import TraceFormat.

Module Tracer.

(** A stdio stream: what has been written, and whether it is still open. *)
Record file : Type := mkFile { written : chars; is_open : bool }.

(** Writing to or closing a stream that is closed is undefined. *)
Definition fprintf (f : file) (s : chars) : option file :=
  if is_open f then Some (mkFile (written f ++ s) true) else None.
Definition fclose (f : file) : option file :=
  if is_open f then Some (mkFile (written f) false) else None.

(** The global variables, and whether [PIN_Detach] has been called. *)
Record globals : Type := mkGlobals {
  trace : file;
  icount_lastmem : Z;
  sincelast : Z;
  memrefs : Z;
  doinst : bool;
  detached : bool;
}.

Definition MAX_REFS : Z := 2000000.

(** The two record functions differ in the letter they print. *)
Definition RecordMem (kind : ascii) (count ip addr : Z) (g : globals) : option globals :=
  let '(since, last) :=
    if count =? icount_lastmem g then (0, icount_lastmem g)
    else (u32 (count - icount_lastmem g - 1), u32 count) in
  f ← fprintf (trace g) (print_record kind ip addr since);
  let refs := u32 (memrefs g + 1) in
  if MAX_REFS <? refs then
    f ← fclose f; Some (mkGlobals f last since refs (doinst g) true)
  else Some (mkGlobals f last since refs (doinst g) (detached g)).

Definition RecordMemRead (count ip addr : Z) (g : globals) : option globals :=
  RecordMem "l"%char count ip addr g.
Definition RecordMemWrite (count ip addr : Z) (g : globals) : option globals :=
  RecordMem "s"%char count ip addr g.

(** [Instruction]: the predicated calls inserted before an instruction, in order. *)
Inductive inserted : Type := CallRecordMemRead | CallRecordMemWrite.

Definition Instruction (IsMemoryRead IsMemoryWrite : bool) (g : globals) : list inserted :=
  if doinst g then
    (if IsMemoryRead then [CallRecordMemRead] else []) ++
    (if IsMemoryWrite then [CallRecordMemWrite] else [])
  else [].

(** [Handler]: [None] in the default case is the failing [ASSERTX]. *)
Inductive CONTROL_EVENT : Type := CONTROL_START | CONTROL_STOP | CONTROL_OTHER.

Definition Handler (ev : CONTROL_EVENT) (count : Z) (g : globals) : option globals :=
  match ev with
  | CONTROL_START => Some (mkGlobals (trace g) (u32 count) (sincelast g) (memrefs g) true (detached g))
  | CONTROL_STOP => Some (mkGlobals (trace g) (icount_lastmem g) (sincelast g) (memrefs g) false (detached g))
  | CONTROL_OTHER => None
  end.

Definition Fini (g : globals) : option globals :=
  f ← fclose (trace g);
  Some (mkGlobals f (icount_lastmem g) (sincelast g) (memrefs g) (doinst g) (detached g)).

(** [main], up to [PIN_StartProgram]: the file opened, the counters set. *)
Definition main : globals := mkGlobals (mkFile [] true) 1 0 1 false false.

(** One memory access of the traced program: the count of the instruction that
    makes it, its address, the address accessed, and the access's kind. *)
Record access : Type := mkAccess { a_count : Z; a_ip : Z; a_addr : Z; a_write : bool }.

Definition record (a : access) (g : globals) : option globals :=
  if a_write a then RecordMemWrite (a_count a) (a_ip a) (a_addr a) g
  else RecordMemRead (a_count a) (a_ip a) (a_addr a) g.

Fixpoint record_all (l : list access) (g : globals) : option globals :=
  match l with
  | [] => Some g
  | a :: l => g' ← record a g; record_all l g'
  end.

(** A run of the tool: instrumentation is switched on when the program has
    executed [start] instructions, then the accesses, then the end. *)
Definition traced_run (start : Z) (l : list access) : option chars :=
  g ← Handler CONTROL_START start main;
  g ← record_all l g;
  g ← Fini g;
  Some (written (trace g)).

(** ** What the file holds *)

(** The lines for accesses whose last predecessor had count [last]. *)
Fixpoint lines_of (last : Z) (l : list access) : list line :=
  match l with
  | [] => []
  | a :: l =>
      mkLine (if a_write a then "s" else "l")%char (a_ip a) (a_addr a)
        (if a_count a =? last then 0 else a_count a - last - 1) :: lines_of (a_count a) l
  end.

(** Counts do not go back and fit 32 bits; no address is null. *)
Fixpoint accesses_ok (last : Z) (l : list access) : Prop :=
  match l with
  | [] => True
  | a :: l =>
      last <= a_count a < 2 ^ 32 ∧ is_u32 (a_ip a) ∧ a_ip a ≠ 0 ∧ is_u32 (a_addr a) ∧ a_addr a ≠ 0 ∧
      accesses_ok (a_count a) l
  end.

Lemma lines_of_ok l : ∀ last, 0 <= last → accesses_ok last l → Forall line_ok (lines_of last l).
Proof.
  induction l as [|a l IH]; intros last Hl Hok; simpl; [by constructor|].
  destruct Hok as (Hc & ? & ? & ? & ? & Hok). constructor; [|apply IH; [lia|done]].
  unfold line_ok. simpl. split_and!; try done; [by destruct (a_write a)|].
  unfold is_u32. destruct (Z.eqb_spec (a_count a) last); lia.
Qed.

Lemma record_ok a l last g :
  0 <= last → accesses_ok last (a :: l) → is_open (trace g) = true → icount_lastmem g = last →
  0 <= memrefs g < MAX_REFS →
  ∃ g', record a g = Some g' ∧ is_open (trace g') = true ∧ icount_lastmem g' = a_count a ∧
    memrefs g' = memrefs g + 1 ∧
    ∃ ln, lines_of last (a :: l) = ln :: lines_of (a_count a) l ∧
      written (trace g') = written (trace g) ++ print_line ln.
Proof.
  intros Hl0 (Hc & _) Ho Hl Hm. unfold MAX_REFS in *.
  assert (E : ∃ since, (if a_count a =? icount_lastmem g then (0, icount_lastmem g)
       else (u32 (a_count a - icount_lastmem g - 1), u32 (a_count a))) = (since, a_count a) ∧
     since = if a_count a =? last then 0 else a_count a - last - 1).
  { rewrite Hl. destruct (Z.eqb_spec (a_count a) last) as [<-|]; [by eexists|].
    rewrite !u32_small by (unfold is_u32; lia). by eexists. }
  destruct E as (since & E & Es).
  assert (Hr : u32 (memrefs g + 1) = memrefs g + 1) by (apply u32_small; unfold is_u32; lia).
  assert (H : ∀ k, ∃ g', RecordMem k (a_count a) (a_ip a) (a_addr a) g = Some g' ∧ is_open (trace g') = true ∧
    icount_lastmem g' = a_count a ∧ memrefs g' = memrefs g + 1 ∧
    written (trace g') = written (trace g) ++ print_record k (a_ip a) (a_addr a) since).
  { intros k. unfold RecordMem. rewrite E. unfold fprintf. rewrite Ho, Hr. simpl.
    unfold MAX_REFS. destruct (Z.ltb_spec 2000000 (memrefs g + 1)); [lia|]. by eexists. }
  unfold record, RecordMemRead, RecordMemWrite.
  destruct (H (if a_write a then "s"%char else "l"%char)) as (g' & Hg & ? & ? & ? & Hw).
  exists g'. split; [by destruct (a_write a)|]. split_and!; try done.
  simpl. eexists. split; [done|]. by rewrite Hw, Es.
Qed.

Lemma record_all_ok l : ∀ last g,
  0 <= last → accesses_ok last l → is_open (trace g) = true → icount_lastmem g = last →
  0 <= memrefs g → memrefs g + Z.of_nat (length l) <= MAX_REFS →
  ∃ g', record_all l g = Some g' ∧ is_open (trace g') = true ∧
    written (trace g') = written (trace g) ++ (lines_of last l ≫= print_line).
Proof.
  induction l as [|a l IH]; intros last g Hl0 Hok Ho Hlast Hm Hlen.
  { exists g. split_and!; try done. simpl. by rewrite app_nil_r. }
  simpl length in Hlen.
  destruct (record_ok a l last g Hl0 Hok Ho Hlast) as (g1 & Hg1 & Ho1 & Hc1 & Hm1 & ln & Eln & Hw1); [lia|].
  destruct Hok as (Hc & _ & _ & _ & _ & Hok).
  destruct (IH (a_count a) g1) as (g2 & Hg2 & Ho2 & Hw2); [lia|done..|lia|lia|].
  exists g2. rewrite Eln. simpl record_all. rewrite Hg1. simpl. rewrite Hg2, Hw2, Hw1.
  split_and!; try done. by rewrite <- app_assoc.
Qed.

(** ** Properties *)

Lemma length_lines_of l : ∀ last, length (lines_of last l) = length l.
Proof. induction l as [|a l IH]; intros last; simpl; [done|]. by rewrite IH. Qed.

(** The file of a run below the limit. *)
Lemma traced_run_ok start l :
  is_u32 start → accesses_ok start l → 1 + Z.of_nat (length l) <= MAX_REFS →
  traced_run start l = Some (lines_of start l ≫= print_line).
Proof.
  intros Hs Hok Hlen. unfold is_u32 in Hs. unfold traced_run. simpl Handler. rewrite (u32_small start) by done.
  cbn [mbind option_bind].
  destruct (record_all_ok l start (mkGlobals (mkFile [] true) start 0 1 true false))
    as (g & -> & Ho & Hw); [lia|done..|simpl; lia|].
  cbn [mbind option_bind]. unfold Fini, fclose. rewrite Ho. simpl. by rewrite Hw.
Qed.

(** C38: what the tracer writes, the simulator reads: for every run of fewer
    than [MAX_REFS] accesses whose instruction counts fit 32 bits, scanning the
    file line by line with the simulator's format gives back one line per
    access, with the number of instructions executed in between. *)
Theorem tracer_reader_roundtrip start l
    (Hs : is_u32 start) (Hok : accesses_ok start l) (Hlen : 1 + Z.of_nat (length l) <= MAX_REFS) :
  ∃ s, traced_run start l = Some s ∧ read_lines (S (length l)) s = Some (lines_of start l).
Proof.
  exists (lines_of start l ≫= print_line). split; [by apply traced_run_ok|].
  apply (read_lines_print (lines_of start l) (S (length l))); [|rewrite length_lines_of; lia].
  apply lines_of_ok; [|done]. by destruct Hs.
Qed.

(** The instruction counts a reader of the trace can rebuild: a line adds its
    gap, and one for the accessing instruction when it is a new one. *)
Fixpoint rebuilt (last : Z) (l : list access) (lines : list line) : list Z :=
  match l, lines with
  | a :: l, ln :: lines =>
      let c := last + cycles_since_last ln + (if a_count a =? last then 0 else 1) in
      c :: rebuilt c l lines
  | _, _ => []
  end.

(** The gaps lose nothing: the counts rebuilt from the lines are the
    counts of the accesses. *)
Theorem gaps_rebuild_counts start l (Hok : accesses_ok start l) :
  rebuilt start l (lines_of start l) = a_count <$> l.
Proof.
  revert start Hok. induction l as [|a l IH]; intros last Hok; simpl; [done|].
  destruct Hok as (_ & _ & _ & _ & _ & Hok).
  assert (E : last + (if a_count a =? last then 0 else a_count a - last - 1) +
    (if a_count a =? last then 0 else 1) = a_count a) by (destruct (Z.eqb_spec (a_count a) last); lia).
  rewrite E. f_equal. by apply IH.
Qed.

Lemma RecordMem_new kind count ip addr g :
  count ≠ icount_lastmem g → is_open (trace g) = true → 0 <= memrefs g < MAX_REFS →
  ∃ g', RecordMem kind count ip addr g = Some g' ∧ is_open (trace g') = true ∧
    memrefs g' = memrefs g + 1 ∧ icount_lastmem g' = u32 count ∧
    sincelast g' = u32 (count - icount_lastmem g - 1).
Proof.
  intros Hne Ho Hm. unfold MAX_REFS in Hm. unfold RecordMem.
  rewrite (proj2 (Z.eqb_neq count (icount_lastmem g))) by done.
  unfold fprintf. rewrite Ho. simpl. rewrite (u32_small (memrefs g + 1)) by (unfold is_u32; lia).
  unfold MAX_REFS. destruct (Z.ltb_spec 2000000 (memrefs g + 1)); [lia|]. by eexists.
Qed.

(** From the 2^32-th instruction on, the 32-bit [icount_lastmem] never
    equals the 64-bit count: a second access of one instruction is recorded
    2^32 - 1 instructions after the first, instead of 0. *)
Theorem gap_wraps_after_2_32_instructions kind kind' count ip addr ip' addr' g
    (Hc : 2 ^ 32 <= count < 2 ^ 64) (Hl : is_u32 (icount_lastmem g))
    (Ho : is_open (trace g) = true) (Hm : 0 <= memrefs g < MAX_REFS - 1) :
  ∃ g1 g2, RecordMem kind count ip addr g = Some g1 ∧ RecordMem kind' count ip' addr' g1 = Some g2 ∧
    sincelast g2 = 2 ^ 32 - 1.
Proof.
  pose proof (u32_range count) as Hr. unfold is_u32 in *.
  destruct (RecordMem_new kind count ip addr g) as (g1 & E1 & Ho1 & Hm1 & Hl1 & _); [lia|done|lia|].
  destruct (RecordMem_new kind' count ip' addr' g1) as (g2 & E2 & _ & _ & _ & Hs2); [lia|done|lia|].
  exists g1, g2. split_and!; [done..|]. rewrite Hs2, Hl1. unfold u32 at 1.
  pose proof (Z.div_mod count (2 ^ 32)) as Hd. unfold u32.
  replace (count - count mod 2 ^ 32 - 1) with (2 ^ 32 - 1 + (count / 2 ^ 32 - 1) * 2 ^ 32) by lia.
  by rewrite Z.mod_add by lia.
Qed.

(** The log is limited to exactly [MAX_REFS] lines: the access that
    brings [memrefs] above the limit is still written, then the file is closed
    and the tool detached; a callback after that writes to a closed file. *)
Theorem log_limit a last g
    (Hl : 0 <= last) (Ha : accesses_ok last [a]) (Ho : is_open (trace g) = true)
    (Hlast : icount_lastmem g = last) (Hm : memrefs g = MAX_REFS) :
  ∃ g', record a g = Some g' ∧ is_open (trace g') = false ∧ detached g' = true ∧
    written (trace g') = written (trace g) ++ (lines_of last [a] ≫= print_line) ∧
    (∀ a', record a' g' = None) ∧ Fini g' = None.
Proof.
  destruct Ha as (Hc & _). simpl lines_of. unfold MAX_REFS in Hm.
  assert (H : ∀ k, ∃ g', RecordMem k (a_count a) (a_ip a) (a_addr a) g = Some g' ∧
    is_open (trace g') = false ∧ detached g' = true ∧
    written (trace g') = written (trace g) ++ print_record k (a_ip a) (a_addr a)
      (if a_count a =? last then 0 else a_count a - last - 1)).
  { intros k. unfold RecordMem. rewrite Hlast.
    destruct (Z.eqb_spec (a_count a) last); unfold fprintf; rewrite Ho, Hm; simpl;
      [|rewrite (u32_small (a_count a - last - 1)) by (unfold is_u32; lia)]; by eexists. }
  destruct (H (if a_write a then "s"%char else "l"%char)) as (g' & Hg & Hclosed & ? & Hw).
  exists g'. split; [unfold record, RecordMemRead, RecordMemWrite; by destruct (a_write a)|].
  split_and!; try done.
  - rewrite Hw. simpl. by rewrite app_nil_r.
  - intros a'. unfold record, RecordMemRead, RecordMemWrite, RecordMem, fprintf. rewrite Hclosed.
    by destruct (a_write a'), (a_count a' =? icount_lastmem g').
  - unfold Fini, fclose. by rewrite Hclosed.
Qed.

(** ** Witnesses *)
Definition demo_accesses : list access :=
  [mkAccess 12 0x8048000 0xbfff0010 false; mkAccess 12 0x8048000 0xbfff0010 true; mkAccess 20 0x8048004 64 false].

Lemma demo_accesses_ok : accesses_ok 10 demo_accesses.
Proof. simpl. unfold is_u32. lia. Qed.

Lemma tracer_reader_roundtrip_witness :
  ∃ s, traced_run 10 demo_accesses = Some s ∧ read_lines 4 s = Some (lines_of 10 demo_accesses).
Proof.
  exact (tracer_reader_roundtrip 10 demo_accesses ltac:(unfold is_u32; lia) demo_accesses_ok
    ltac:(unfold MAX_REFS; simpl; lia)).
Defined.

Lemma gaps_rebuild_counts_witness : rebuilt 10 demo_accesses (lines_of 10 demo_accesses) = [12; 12; 20].
Proof. exact (gaps_rebuild_counts 10 demo_accesses demo_accesses_ok). Defined.

Definition demo_globals (refs : Z) : globals := mkGlobals (mkFile [] true) 7 0 refs true false.

Lemma gap_wraps_after_2_32_instructions_witness :
  ∃ g1 g2, RecordMem "l" (2 ^ 32 + 5) 4 8 (demo_globals 1) = Some g1 ∧
    RecordMem "s" (2 ^ 32 + 5) 4 8 g1 = Some g2 ∧ sincelast g2 = 2 ^ 32 - 1.
Proof.
  exact (gap_wraps_after_2_32_instructions "l" "s" (2 ^ 32 + 5) 4 8 4 8 (demo_globals 1)
    ltac:(lia) ltac:(unfold is_u32; simpl; lia) eq_refl ltac:(unfold MAX_REFS; simpl; lia)).
Defined.

Lemma log_limit_witness :
  ∃ g', record (mkAccess 9 4 8 false) (demo_globals MAX_REFS) = Some g' ∧ is_open (trace g') = false ∧
    detached g' = true ∧
    written (trace g') = written (trace (demo_globals MAX_REFS)) ++ (lines_of 7 [mkAccess 9 4 8 false] ≫= print_line) ∧
    (∀ a', record a' g' = None) ∧ Fini g' = None.
Proof.
  exact (log_limit (mkAccess 9 4 8 false) 7 (demo_globals MAX_REFS) ltac:(lia)
    ltac:(simpl; unfold is_u32; lia) eq_refl eq_refl eq_refl).
Defined.
End Tracer.
