(* ===== verification/CpuModel.v ===== *)
(** * The processor (src/cse240a/project/cse240a-proj1/CPU.h, CPU.C) *)
From S2P Require Import Prelude.
From S2P Require Import Words.
From S2P Require Import MemSim.
From S2P Require Import TraceFormat.

Module CPU.

(** The private members of [class CPU]; [_trace] is what is left to read of the
    trace file, [None] when [fopen] failed. *)
Record CPU : Type := mkCPU {
  _trace : option chars;
  _currReq : Request;
  _state : cpuState;
  _readyAt : Z;
  _done : bool;
  nRequests : Z;
  hitsL1 : Z;
  hitsL2 : Z;
  totalAccessTime : Z;
}.

(** Assignments to single members. *)
Definition set_state (c : CPU) (s : cpuState) : CPU :=
  mkCPU (_trace c) (_currReq c) s (_readyAt c) (_done c) (nRequests c) (hitsL1 c) (hitsL2 c) (totalAccessTime c).
Definition set_req (c : CPU) (r : Request) : CPU :=
  mkCPU (_trace c) r (_state c) (_readyAt c) (_done c) (nRequests c) (hitsL1 c) (hitsL2 c) (totalAccessTime c).
Definition set_hitsL1 (c : CPU) (h : Z) : CPU :=
  mkCPU (_trace c) (_currReq c) (_state c) (_readyAt c) (_done c) (nRequests c) h (hitsL2 c) (totalAccessTime c).
Definition set_hitsL2 (c : CPU) (h : Z) : CPU :=
  mkCPU (_trace c) (_currReq c) (_state c) (_readyAt c) (_done c) (nRequests c) (hitsL1 c) h (totalAccessTime c).
Definition set_total (c : CPU) (t : Z) : CPU :=
  mkCPU (_trace c) (_currReq c) (_state c) (_readyAt c) (_done c) (nRequests c) (hitsL1 c) (hitsL2 c) t.

(** [isDone]. *)
Definition isDone (c : CPU) : bool := _done c.

(** [readNextRequest]. Reading from a null [FILE*] is undefined. *)
Definition readNextRequest (c : CPU) (cycle : Z) : option CPU :=
  f ← _trace c;
  '(r, f') ← scan_line f;
  Some (match r with
  | Some l =>
      let q := _currReq c in
      mkCPU (Some f')
        {| addr := l_addr l; pc := l_pc l; load := Ascii.eqb (ld l) "l"; fromCPU := fromCPU q;
           issuedAt := issuedAt q; HitL1 := false; HitL2 := false |}
        (_state c) (u32 (cycle + cycles_since_last l + 1)) (_done c)
        (u32 (nRequests c + 1)) (hitsL1 c) (hitsL2 c) (totalAccessTime c)
  | None =>
      mkCPU (Some f') (_currReq c) (_state c) (_readyAt c) true
        (nRequests c) (hitsL1 c) (hitsL2 c) (totalAccessTime c)
  end).

(** The constructor. [junk_req] and [junk_ready] are what the members the
    constructor does not set hold. *)
Definition CPU_new (trace_file : option chars) (junk_req : Request) (junk_ready : Z) : option CPU :=
  readNextRequest
    (mkCPU trace_file (set_fromCPU junk_req true) IDLE junk_ready false 0 0 0 0) 0.

(** [issueRequest]: the request returned, and the processor. *)
Definition issueRequest (c : CPU) (cycle : Z) : Request * CPU :=
  let r := set_issuedAt (_currReq c) cycle in (r, set_req c r).

Definition getRequest (c : CPU) : Request := _currReq c.

(** [completeRequest]. *)
Definition completeRequest (c : CPU) (cycle : Z) : option CPU :=
  let c := set_state c IDLE in
  let c := set_total c ((totalAccessTime c + u32 (cycle - issuedAt (_currReq c) + 1)) mod 2 ^ 64) in
  let c := if HitL1 (_currReq c) then set_hitsL1 c (u32 (hitsL1 c + 1))
           else if HitL2 (_currReq c) then set_hitsL2 c (u32 (hitsL2 c + 1)) else c in
  readNextRequest c cycle.

Definition hitL1 (c : CPU) (isHit : bool) : CPU := set_req c (set_HitL1 (_currReq c) isHit).
Definition loadHitL2 (c : CPU) (isHit : bool) : CPU := set_req c (set_HitL2 (_currReq c) isHit).
Definition storeHitL2 (c : CPU) (isHit : bool) : CPU :=
  if isHit then set_hitsL2 c (u32 (hitsL2 c + 1)) else c.

(** [getStatus]: the state returned, and the processor. *)
Definition getStatus (c : CPU) (cycle : Z) : cpuState * CPU :=
  let c := if bool_decide (_state c = IDLE) && (_readyAt c <=? cycle) then set_state c READY else c in
  (_state c, c).

Definition setStatus (c : CPU) (new_state : cpuState) : CPU := set_state c new_state.

(** The statistics. *)
Definition getHitRateL1 (c : CPU) : double := double_div (double_of (hitsL1 c)) (double_of (nRequests c)).
Definition getHitRateL2 (c : CPU) : double :=
  let nRequestsL2 := u32 (nRequests c - hitsL1 c) in
  double_div (double_of (hitsL2 c)) (double_of nRequestsL2).
Definition getAMAT (c : CPU) : double := double_div (double_of (totalAccessTime c)) (double_of (nRequests c)).

End CPU.
