(* ===== verification/BitArray.v ===== *)
(** * The bit arrays of the prefetchers
    (src/cse240a/project/cse240a-proj1/prefetcher.C, tagged/prefetcher.C)

    One bit per block, packed in an array of [char].  The model keeps the code's
    signed arithmetic; the specification is the set of the bits that are on. *)
From S2P Require Import Prelude.
From S2P Require Import Words.

Definition BITS_PER_CHAR : Z := 8.

(** [bit_index = addr % (size * sizeof(char))]. *)
Definition bit_index (addr size : Z) : Z := addr mod size.

(** [selector = 1; selector = selector << rem_bits]: a [char]. *)
Definition selector (rem_bits : Z) : Z := s8 (Z.shiftl 1 rem_bits).

Definition checkBit (addr : Z) (bitArray : list Z) (size : Z) : option bool :=
  let char_index := bit_index addr size / BITS_PER_CHAR in
  let rem_bits := bit_index addr size - char_index * BITS_PER_CHAR in
  section ← bitArray.[char_index];
  let result := s8 (Z.land section (selector rem_bits)) in
  Some (0 <? result).

Definition markBit (addr : Z) (bitArray : list Z) (size : Z) : option (list Z) :=
  let char_index := bit_index addr size / BITS_PER_CHAR in
  let rem_bits := bit_index addr size - char_index * BITS_PER_CHAR in
  section ← bitArray.[char_index];
  bitArray.[char_index := s8 (Z.lor section (selector rem_bits))].

Definition unmarkBit (addr : Z) (bitArray : list Z) (size : Z) : option (list Z) :=
  let char_index := bit_index addr size / BITS_PER_CHAR in
  let rem_bits := bit_index addr size - char_index * BITS_PER_CHAR in
  section ← bitArray.[char_index];
  bitArray.[char_index := s8 (Z.land section (Z.lnot (selector rem_bits)))].

(** ** One byte, by enumeration *)
Definition bytes : list Z := (fun n => Z.of_nat n - 128) <$> seq 0 256.
Definition bits8 : list Z := Z.of_nat <$> seq 0 8.

Lemma elem_bytes x : is_s8 x → x ∈ bytes.
Proof.
  unfold is_s8. intros. apply list_elem_of_fmap. exists (Z.to_nat (x + 128)). split; [lia|].
  apply elem_of_seq. lia.
Qed.

Lemma elem_bits8 r : 0 <= r < 8 → r ∈ bits8.
Proof.
  intros. apply list_elem_of_fmap. exists (Z.to_nat r). split; [lia|]. apply elem_of_seq. lia.
Qed.

Definition check_byte_at (x r : Z) : bool :=
  Bool.eqb (0 <? s8 (Z.land x (selector r))) (Z.testbit x r && negb (r =? 7)).

Definition mark_byte_at (x r i : Z) : bool :=
  Bool.eqb (Z.testbit (s8 (Z.lor x (selector r))) i) ((i =? r) || Z.testbit x i).

Definition unmark_byte_at (x r i : Z) : bool :=
  Bool.eqb (Z.testbit (s8 (Z.land x (Z.lnot (selector r)))) i) (negb (i =? r) && Z.testbit x i).

Lemma forallb_elem {A} (f : A → bool) l x : forallb f l = true → x ∈ l → f x = true.
Proof. intros Hf Hx. by apply (proj1 (forallb_forall f l) Hf), list_elem_of_In. Qed.

Lemma forallb_bits (f : Z → Z → bool) :
  forallb (fun r => forallb (f r) bits8) bits8 = true →
  ∀ r i, 0 <= r < 8 → 0 <= i < 8 → f r i = true.
Proof.
  intros H r i Hr Hi. pose proof (forallb_elem _ _ _ H (elem_bits8 r Hr)) as H1. cbv beta in H1.
  exact (forallb_elem _ _ _ H1 (elem_bits8 i Hi)).
Qed.

Lemma check_bytes : forallb (fun x => forallb (check_byte_at x) bits8) bytes = true.
Proof. vm_compute. reflexivity. Qed.

Lemma mark_bytes :
  forallb (fun x => forallb (fun r => forallb (mark_byte_at x r) bits8) bits8) bytes = true.
Proof. vm_compute. reflexivity. Qed.

Lemma unmark_bytes :
  forallb (fun x => forallb (fun r => forallb (unmark_byte_at x r) bits8) bits8) bytes = true.
Proof. vm_compute. reflexivity. Qed.

(** Bit 7 selects the sign: the test [result > 0] never sees it. *)
Lemma check_byte x r :
  is_s8 x → 0 <= r < 8 → (0 <? s8 (Z.land x (selector r))) = Z.testbit x r && negb (r =? 7).
Proof.
  intros Hx Hr. apply eqb_prop. change (check_byte_at x r = true).
  pose proof (forallb_elem _ _ _ check_bytes (elem_bytes x Hx)) as H1. cbv beta in H1.
  exact (forallb_elem _ _ _ H1 (elem_bits8 r Hr)).
Qed.

Lemma mark_byte x r i :
  is_s8 x → 0 <= r < 8 → 0 <= i < 8 →
  Z.testbit (s8 (Z.lor x (selector r))) i = (i =? r) || Z.testbit x i.
Proof.
  intros Hx Hr Hi. apply eqb_prop. change (mark_byte_at x r i = true).
  pose proof (forallb_elem _ _ _ mark_bytes (elem_bytes x Hx)) as H1. cbv beta in H1.
  by apply (forallb_bits (mark_byte_at x)).
Qed.

Lemma unmark_byte x r i :
  is_s8 x → 0 <= r < 8 → 0 <= i < 8 →
  Z.testbit (s8 (Z.land x (Z.lnot (selector r)))) i = negb (i =? r) && Z.testbit x i.
Proof.
  intros Hx Hr Hi. apply eqb_prop. change (unmark_byte_at x r i = true).
  pose proof (forallb_elem _ _ _ unmark_bytes (elem_bytes x Hx)) as H1. cbv beta in H1.
  by apply (forallb_bits (unmark_byte_at x)).
Qed.

(** ** The array as a set of bits *)

(** Bit [i] of the array. *)
Definition bit (arr : list Z) (i : Z) : bool :=
  match arr.[i / 8] with Some x => Z.testbit x (i mod 8) | None => false end.

(** An array of [char] large enough for the indices the functions compute. *)
Record array_ok (arr : list Z) (size : Z) : Prop := {
  arr_size : 0 < size < 2 ^ 31;
  arr_len : size <= 8 * Z.of_nat (length arr);
  arr_bytes : Forall is_s8 arr;
}.

Section array.
Context (arr : list Z) (size : Z) (Ha : array_ok arr size).

Lemma index_parts addr :
  let i := bit_index addr size in
  0 <= i < size ∧ 0 <= i / 8 < Z.of_nat (length arr) ∧ 0 <= i mod 8 < 8 ∧
  i - i / BITS_PER_CHAR * BITS_PER_CHAR = i mod 8.
Proof.
  simpl. unfold bit_index, BITS_PER_CHAR. destruct Ha as [Hs Hl _].
  pose proof (Z.mod_pos_bound addr size). pose proof (Z.mod_pos_bound (addr mod size) 8).
  pose proof (Z.div_mod (addr mod size) 8).
  split_and!; try lia.
Qed.

Lemma byte_at i : 0 <= i < Z.of_nat (length arr) → ∃ x, arr.[i] = Some x ∧ is_s8 x.
Proof.
  intros Hi. destruct (zlookup_lt arr i Hi) as [x Hx]. exists x. split; [done|].
  apply zlookup_Some in Hx as [_ Hx]. destruct Ha as [_ _ Hb]. by apply (Forall_lookup_1 _ _ _ _ Hb Hx).
Qed.

Lemma checkBit_ok addr :
  checkBit addr arr size = Some (bit arr (bit_index addr size) && negb (bit_index addr size mod 8 =? 7)).
Proof.
  destruct (index_parts addr) as (_ & Hc & Hr & E). unfold checkBit, bit. rewrite E.
  change BITS_PER_CHAR with 8. destruct (byte_at _ Hc) as (x & -> & Hx). simpl. by rewrite check_byte.
Qed.

(** The bits of an array in which one byte has been replaced. *)
Lemma bit_insert c y i :
  0 <= c < Z.of_nat (length arr) →
  bit (<[Z.to_nat c := y]> arr) i = if i / 8 =? c then Z.testbit y (i mod 8) else bit arr i.
Proof.
  intros Hc. unfold bit. destruct (Z.eqb_spec (i / 8) c) as [->|Hne].
  - by rewrite zlookup_insert_eq.
  - by rewrite zlookup_insert_ne by lia.
Qed.

Lemma array_ok_insert c y : is_s8 y → array_ok (<[c := y]> arr) size.
Proof.
  intros Hy. destruct Ha as [? Hl Hb]. split; [done|by rewrite length_insert|by apply Forall_insert].
Qed.

(** Two bit numbers are equal when their byte and their place in it are. *)
Lemma bit_number_eq i j : (i =? j) = (i / 8 =? j / 8) && (i mod 8 =? j mod 8).
Proof.
  pose proof (Z.div_mod i 8 ltac:(lia)). pose proof (Z.div_mod j 8 ltac:(lia)).
  destruct (Z.eqb_spec i j) as [->|]; [by rewrite !Z.eqb_refl|].
  destruct (Z.eqb_spec (i / 8) (j / 8)), (Z.eqb_spec (i mod 8) (j mod 8)); simpl; (done || lia).
Qed.

Lemma update_ok (f : Z → Z → Z) (on : bool) addr :
  (∀ x r i, is_s8 x → 0 <= r < 8 → 0 <= i < 8 →
    Z.testbit (s8 (f x (selector r))) i = if i =? r then on else Z.testbit x i) →
  ∃ arr', (let char_index := bit_index addr size / BITS_PER_CHAR in
           let rem_bits := bit_index addr size - char_index * BITS_PER_CHAR in
           section ← arr.[char_index];
           arr.[char_index := s8 (f section (selector rem_bits))]) = Some arr' ∧
    array_ok arr' size ∧ length arr' = length arr ∧
    ∀ i, bit arr' i = if i =? bit_index addr size then on else bit arr i.
Proof.
  intros Hf. destruct (index_parts addr) as (_ & Hc & Hr & E). cbv zeta. rewrite E.
  change BITS_PER_CHAR with 8. destruct (byte_at _ Hc) as (x & Hx & Hbx). rewrite Hx. simpl.
  rewrite zupdate_in by done. eexists. split; [done|].
  split; [apply array_ok_insert, s8_range|]. split; [apply length_insert|].
  intros i. rewrite bit_insert by done. rewrite (bit_number_eq i).
  destruct (Z.eqb_spec (i / 8) (bit_index addr size / 8)) as [Ei|]; simpl; [|done].
  rewrite Hf by (done || apply Z.mod_pos_bound; lia). unfold bit. rewrite Ei, Hx. done.
Qed.

Lemma markBit_ok addr :
  ∃ arr', markBit addr arr size = Some arr' ∧ array_ok arr' size ∧ length arr' = length arr ∧
    ∀ i, bit arr' i = if i =? bit_index addr size then true else bit arr i.
Proof.
  apply update_ok. intros x r i Hx Hr Hi. rewrite mark_byte by done. by destruct (i =? r).
Qed.

Lemma unmarkBit_ok addr :
  ∃ arr', unmarkBit addr arr size = Some arr' ∧ array_ok arr' size ∧ length arr' = length arr ∧
    ∀ i, bit arr' i = if i =? bit_index addr size then false else bit arr i.
Proof.
  apply (update_ok (fun x s => Z.land x (Z.lnot s))).
  intros x r i Hx Hr Hi. rewrite unmark_byte by done. by destruct (i =? r).
Qed.
End array.

Lemma zero_array_ok n size : 0 < size < 2 ^ 31 → size <= 8 * Z.of_nat n → array_ok (replicate n 0) size.
Proof.
  intros. split; [done|by rewrite length_replicate|]. apply Forall_replicate. unfold is_s8. lia.
Qed.

Lemma bit_zero n i : bit (replicate n 0) i = false.
Proof.
  unfold bit. destruct (zlookup (replicate n 0) (i / 8)) as [x|] eqn:E; [|done].
  apply zlookup_Some in E as [_ [-> _]%lookup_replicate]. apply Z.testbit_0_l.
Qed.
