(* ===== verification/PrefetcherInterface.v ===== *)
(** * What a prefetcher promises to the simulator

    The seven prefetcher.{h,C} pairs declare the same class interface; main.C is
    compiled against one of them.  [Prefetcher] is that interface, with the
    operations as total functions into [option] ([None] is undefined behaviour),
    and [PrefetcherOk] the laws the simulator's proofs use. *)
From S2P Require Import Prelude.
From S2P Require Import Words.
From S2P Require Import MemSim.

Class Prefetcher `{CRand} := {
  pf : Type;
  hasRequest : pf → Z → bool;
  getRequest : pf → Z → Request;
  completeRequest : pf → Z → option pf;
  cpuRequest : pf → Request → rng → option (pf * rng);
}.

(** A state invariant under which no operation is undefined and every request
    made has a 32-bit address. [completeRequest] is called only on a pending
    request. *)
Class PrefetcherOk `{Prefetcher} := {
  pf_ok : pf → Prop;
  getRequest_ok p cycle : pf_ok p → hasRequest p cycle = true → is_u32 (addr (getRequest p cycle));
  completeRequest_ok p cycle : pf_ok p → hasRequest p cycle = true →
    ∃ p', completeRequest p cycle = Some p' ∧ pf_ok p';
  cpuRequest_ok p r g : pf_ok p → req_ok r →
    ∃ p' g', cpuRequest p r g = Some (p', g') ∧ pf_ok p';
}.

(** The calls the simulator makes, as sequences. *)
Inductive pf_call : Type :=
| CallComplete (cycle : Z)
| CallCpu (r : Request).

Section calls.
Context `{P : Prefetcher}.

(** A completion is only called when a request is pending. *)
Definition pf_step (p : pf) (g : rng) (c : pf_call) : option (pf * rng) :=
  match c with
  | CallComplete cycle =>
      if hasRequest p cycle then p' ← completeRequest p cycle; Some (p', g) else Some (p, g)
  | CallCpu r => cpuRequest p r g
  end.

Fixpoint pf_run (p : pf) (g : rng) (l : list pf_call) : option (pf * rng) :=
  match l with
  | [] => Some (p, g)
  | c :: l => '(p', g') ← pf_step p g c; pf_run p' g' l
  end.

Definition call_ok (c : pf_call) : Prop :=
  match c with CallComplete _ => True | CallCpu r => req_ok r end.

Lemma pf_run_ok `{!PrefetcherOk} l : ∀ p g,
  pf_ok p → Forall call_ok l → ∃ p' g', pf_run p g l = Some (p', g') ∧ pf_ok p'.
Proof.
  induction l as [|c l IH]; intros p g Hp Hl; simpl; [by exists p, g|].
  apply Forall_cons in Hl as [Hc Hl].
  assert (∃ p' g', pf_step p g c = Some (p', g') ∧ pf_ok p') as (p' & g' & -> & Hp').
  { destruct c as [cycle|r]; simpl; [|by apply cpuRequest_ok].
    destruct (hasRequest p cycle) eqn:Hh; [|by exists p, g].
    destruct (completeRequest_ok p cycle Hp Hh) as (p' & -> & Hp'). by exists p', g. }
  simpl. by apply IH.
Qed.

(** The requests a prefetcher makes when each is completed at once, at most [n]. *)
Fixpoint drain (n : nat) (p : pf) (cycle : Z) : option (list Z * pf) :=
  match n with
  | O => Some ([], p)
  | S n =>
      if hasRequest p cycle then
        p' ← completeRequest p cycle;
        '(l, p'') ← drain n p' cycle;
        Some (addr (getRequest p cycle) :: l, p'')
      else Some ([], p)
  end.
End calls.
