(* ===== verification/SimplePrefetchers.v ===== *)
(** * The prefetchers without tables
    (no_prefetch, sample-pf and basic_pf_2blk of src/cse240a/project/cse240a-proj1) *)
From S2P Require Import Prelude.
From S2P Require Import Words.
From S2P Require Import MemSim.
From S2P Require Import PrefetcherInterface.

(** ** no_prefetch *)
Module NoPrefetch.

Record Prefetcher : Type := mkPf { _ready : bool; _nextReq : Request }.

(** [junk] is what the request, which no constructor sets, holds. *)
Definition Prefetcher_new (junk : Request) : Prefetcher := mkPf false junk.
Definition hasRequest (p : Prefetcher) (cycle : Z) : bool := _ready p.
Definition getRequest (p : Prefetcher) (cycle : Z) : Request := _nextReq p.
Definition completeRequest (p : Prefetcher) (cycle : Z) : Prefetcher := mkPf false (_nextReq p).
(** The body is commented out. *)
Definition cpuRequest (p : Prefetcher) (req : Request) : Prefetcher := p.

#[export] Instance ops `{CRand} : PrefetcherInterface.Prefetcher := {|
  PrefetcherInterface.pf := Prefetcher;
  PrefetcherInterface.hasRequest := hasRequest;
  PrefetcherInterface.getRequest := getRequest;
  PrefetcherInterface.completeRequest := fun p cycle => Some (completeRequest p cycle);
  PrefetcherInterface.cpuRequest := fun p r g => Some (cpuRequest p r, g) |}.

(** It never has a request. *)
#[export] Program Instance laws `{CRand} : PrefetcherOk := {|
  pf_ok := fun p : @pf _ ops => _ready p = false |}.
Next Obligation. simpl. unfold hasRequest. congruence. Qed.
Next Obligation. simpl. intros. by eexists. Qed.
Next Obligation. simpl. intros ? p r g Hp _. by exists p, g. Qed.

Lemma none_new_ok `{CRand} junk : pf_ok (Prefetcher_new junk : @pf _ ops).
Proof. done. Qed.

End NoPrefetch.

(** ** sample-pf: after a miss, the address 16 bytes further *)
Module SamplePf.

Record Prefetcher : Type := mkPf { _ready : bool; _nextReq : Request }.

Definition Prefetcher_new (junk : Request) : Prefetcher := mkPf false junk.
Definition hasRequest (p : Prefetcher) (cycle : Z) : bool := _ready p.
Definition getRequest (p : Prefetcher) (cycle : Z) : Request := _nextReq p.
Definition completeRequest (p : Prefetcher) (cycle : Z) : Prefetcher := mkPf false (_nextReq p).
Definition cpuRequest (p : Prefetcher) (req : Request) : Prefetcher :=
  if negb (_ready p) && negb (HitL1 req)
  then mkPf true (set_addr (_nextReq p) (u32 (addr req + 16)))
  else p.

#[export] Instance ops `{CRand} : PrefetcherInterface.Prefetcher := {|
  PrefetcherInterface.pf := Prefetcher;
  PrefetcherInterface.hasRequest := hasRequest;
  PrefetcherInterface.getRequest := getRequest;
  PrefetcherInterface.completeRequest := fun p cycle => Some (completeRequest p cycle);
  PrefetcherInterface.cpuRequest := fun p r g => Some (cpuRequest p r, g) |}.

#[export] Program Instance laws `{CRand} : PrefetcherOk := {|
  pf_ok := fun p : @pf _ ops => _ready p = true → is_u32 (addr (_nextReq p)) |}.
Next Obligation. simpl. intros ? p cycle Hp Hr. by apply Hp. Qed.
Next Obligation. simpl. intros. by eexists. Qed.
Next Obligation.
  simpl. intros ? p r g Hp _. eexists _, g. split; [done|]. unfold cpuRequest.
  destruct (negb (_ready p) && negb (HitL1 r)); simpl; [|done]. intros _. apply u32_range.
Qed.

Lemma sample_new_ok `{CRand} junk : pf_ok (Prefetcher_new junk : @pf _ ops).
Proof. done. Qed.

End SamplePf.

(** ** basic_pf_2blk: after a miss, the next block *)
Module BasicPf.

Definition L2_BLOCK_SIZE : Z := 32.
Definition NUM_REQS_PER_MISS : Z := 1.

Record Prefetcher : Type := mkPf { _ready : bool; _nextReq : Request; _req_left : Z }.

Definition Prefetcher_new (junk : Request) (junk_left : Z) : Prefetcher := mkPf false junk junk_left.
Definition hasRequest (p : Prefetcher) (cycle : Z) : bool := _ready p.
Definition getRequest (p : Prefetcher) (cycle : Z) : Request := _nextReq p.
Definition completeRequest (p : Prefetcher) (cycle : Z) : option Prefetcher :=
  if _req_left p =? 0 then Some (mkPf false (_nextReq p) (_req_left p))
  else
    left ← int_add (_req_left p) (-1);
    Some (mkPf (_ready p) (set_addr (_nextReq p) (u32 (addr (_nextReq p) + L2_BLOCK_SIZE))) left).
Definition cpuRequest (p : Prefetcher) (req : Request) : Prefetcher :=
  if negb (_ready p) && negb (HitL1 req)
  then mkPf true (set_addr (_nextReq p) (u32 (addr req + L2_BLOCK_SIZE))) (NUM_REQS_PER_MISS - 1)
  else p.

#[export] Instance ops `{CRand} : PrefetcherInterface.Prefetcher := {|
  PrefetcherInterface.pf := Prefetcher;
  PrefetcherInterface.hasRequest := hasRequest;
  PrefetcherInterface.getRequest := getRequest;
  PrefetcherInterface.completeRequest := completeRequest;
  PrefetcherInterface.cpuRequest := fun p r g => Some (cpuRequest p r, g) |}.

#[export] Program Instance laws `{CRand} : PrefetcherOk := {|
  pf_ok := fun p : @pf _ ops =>
    _ready p = true → is_u32 (addr (_nextReq p)) ∧ 0 <= _req_left p < 2 ^ 31 |}.
Next Obligation. simpl. intros ? p cycle Hp Hr. by apply Hp. Qed.
Next Obligation.
  simpl. intros ? p cycle Hp Hr. destruct (Hp Hr) as [Ha Hl]. unfold completeRequest.
  destruct (Z.eqb_spec (_req_left p) 0); [by eexists|].
  rewrite int_add_ok by (unfold is_s32; lia). simpl. eexists. split; [done|]. simpl.
  intros _. split; [apply u32_range|lia].
Qed.
Next Obligation.
  simpl. intros ? p r g Hp _. eexists _, g. split; [done|]. unfold cpuRequest.
  destruct (negb (_ready p) && negb (HitL1 r)); simpl; [|done]. intros _.
  split; [apply u32_range|]. unfold NUM_REQS_PER_MISS. lia.
Qed.

Lemma basic_new_ok `{CRand} junk junk_left : pf_ok (Prefetcher_new junk junk_left : @pf _ ops).
Proof. done. Qed.

End BasicPf.
