(* ===== verification/TablePrefetchers.v ===== *)
(** * The prefetchers with tables
    (tagged, rpt_pf and amalgam of src/cse240a/project/cse240a-proj1)

    The file-scope tables of each prefetcher.C are part of the state here: the
    program has one [Prefetcher]. The lines some of them print are not modelled. *)
From S2P Require Import Prelude.
From S2P Require Import Words.
From S2P Require Import MemSim.
From S2P Require Import PrefetcherInterface.
From S2P Require Import BitArray.

(** ** One row of a reference prediction table *)
Record rpt_row_entry : Type := mkRow { r_pc : Z; last_mem : Z; last_stride : Z }.
Definition zero_row : rpt_row_entry := mkRow 0 0 0.

Definition row_ok (r : rpt_row_entry) : Prop := is_s32 (last_stride r).

(** [curr_stride = req.addr - curr_row->last_mem]: an [int]. *)
Definition stride_from (a : Z) (r : rpt_row_entry) : Z := s32 (u32 (a - last_mem r)).

(** A table of [n] rows, with strides that fit [int]. *)
Definition table_ok (n : Z) (t : list rpt_row_entry) : Prop :=
  Z.of_nat (length t) = n ∧ Forall row_ok t.

Lemma table_row n t i : table_ok n t → 0 <= i < n → ∃ r, t.[i] = Some r ∧ row_ok r.
Proof.
  intros [Hl Ht] Hi. destruct (zlookup_lt t i) as [r Hr]; [lia|]. exists r. split; [done|].
  apply zlookup_Some in Hr as [_ Hr]. by apply (Forall_lookup_1 _ _ _ _ Ht Hr).
Qed.

Lemma table_update n t i r :
  table_ok n t → 0 <= i < n → row_ok r → ∃ t', t.[i := r] = Some t' ∧ table_ok n t' ∧
    t' = <[Z.to_nat i := r]> t.
Proof.
  intros [Hl Ht] Hi Hr. rewrite zupdate_in by lia. eexists. split; [done|]. split; [|done].
  split; [by rewrite length_insert|by apply Forall_insert].
Qed.

Lemma zero_table n : 0 <= n → table_ok n (replicate (Z.to_nat n) zero_row).
Proof.
  intros. split; [rewrite length_replicate; lia|]. apply Forall_replicate. unfold row_ok, is_s32. simpl. lia.
Qed.

Lemma stride_from_ok a r : is_s32 (stride_from a r).
Proof. apply s32_range. Qed.

(** [_req_left--] on a positive [int]. *)
Lemma dec_ok n : 0 <= n < 2 ^ 31 → n ≠ 0 → int_add n (-1) = Some (n - 1).
Proof. intros. rewrite int_add_ok by (unfold is_s32; lia). done. Qed.

(** ** tagged *)
Module TaggedPf.

Definition STATE_SIZE : Z := 4096.
Definition L2_BLOCK_SIZE : Z := 16.
Definition NUM_REQS_PER_MISS : Z := 2.

Record Prefetcher : Type := mkPf { tags : list Z; _ready : bool; _nextReq : Request; _req_left : Z }.

Definition checkPrefetched (a : Z) (t : list Z) : option bool := checkBit a t STATE_SIZE.
Definition markPrefetched (a : Z) (t : list Z) : option (list Z) := markBit a t STATE_SIZE.
Definition markUnPrefetched (a : Z) (t : list Z) : option (list Z) := unmarkBit a t STATE_SIZE.

Definition zero_tags : list Z := replicate (Z.to_nat STATE_SIZE) 0.

(** [bitArrayTest]: the three loops over the first 32 bits; the result and the
    array it leaves. *)
Definition bitArrayTest : option (bool * list Z) :=
  '(ok, t) ← for_loop 16 0 (fun k st =>
      b ← checkPrefetched (2 * Z.of_nat k) st.2;
      if b : bool then Some (Break (false, st.2))
      else t ← markPrefetched (2 * Z.of_nat k) st.2; Some (Next (true, t))) (true, zero_tags);
  if negb ok then Some (false, t) else
  t ← for_each 11 (fun k t => markUnPrefetched (3 * Z.of_nat k) t) t;
  '(ok, t) ← for_loop 32 0 (fun k st =>
      let i := Z.of_nat k in
      b ← checkPrefetched i st.2;
      let expected := (i mod 2 =? 0) && negb (i mod 6 =? 0) in
      Some (if Bool.eqb b expected then Next st else Break (false, st.2))) (true, t);
  Some (ok, t).

Definition Prefetcher_new (junk : Request) (junk_left : Z) : Prefetcher :=
  mkPf zero_tags false junk junk_left.
Definition hasRequest (p : Prefetcher) (cycle : Z) : bool := _ready p.
Definition getRequest (p : Prefetcher) (cycle : Z) : Request := _nextReq p.

Definition completeRequest (p : Prefetcher) (cycle : Z) : option Prefetcher :=
  if _req_left p =? 0 then Some (mkPf (tags p) false (_nextReq p) (_req_left p))
  else
    left ← int_add (_req_left p) (-1);
    let next := set_addr (_nextReq p) (u32 (addr (_nextReq p) + L2_BLOCK_SIZE)) in
    t ← markPrefetched (addr next) (tags p);
    Some (mkPf t (_ready p) next left).

(** The two cases in which [cpuRequest] makes a request: a hit on a prefetched
    address, or a miss. *)
Definition request_next (p : Prefetcher) (req : Request) : option Prefetcher :=
  let next := set_addr (_nextReq p) (u32 (addr req + L2_BLOCK_SIZE)) in
  tagged ← (if HitL1 req then checkPrefetched (addr req) (tags p) else Some false);
  if (tagged : bool) && negb (_ready p) then
    t ← markPrefetched (addr next) (tags p);
    Some (mkPf t true next (NUM_REQS_PER_MISS - 1))
  else if negb (_ready p) && negb (HitL1 req) then
    Some (mkPf (tags p) true next (NUM_REQS_PER_MISS - 1))
  else Some p.

Definition cpuRequest (p : Prefetcher) (req : Request) : option Prefetcher :=
  p ← request_next p req;
  t ← markUnPrefetched (addr req) (tags p);
  Some (mkPf t (_ready p) (_nextReq p) (_req_left p)).

Definition wf (p : Prefetcher) : Prop :=
  array_ok (tags p) STATE_SIZE ∧
  (_ready p = true → is_u32 (addr (_nextReq p)) ∧ 0 <= _req_left p < 2 ^ 31).

Lemma tagged_new_wf junk junk_left : wf (Prefetcher_new junk junk_left).
Proof. split; [|done]. apply zero_array_ok; unfold STATE_SIZE; lia. Qed.

Lemma tagged_completeRequest_wf p cycle :
  wf p → _ready p = true → ∃ p', completeRequest p cycle = Some p' ∧ wf p'.
Proof.
  intros [Ht Hp] Hr. destruct (Hp Hr) as [Ha Hl]. unfold completeRequest.
  destruct (Z.eqb_spec (_req_left p) 0); [by eexists|].
  rewrite dec_ok by done. simpl. unfold markPrefetched.
  destruct (markBit_ok _ _ Ht (u32 (addr (_nextReq p) + L2_BLOCK_SIZE))) as (t & -> & Ht' & _).
  eexists. split; [done|]. split; simpl; [done|]. intros _. split; [apply u32_range|lia].
Qed.

Lemma request_next_wf p req : wf p → ∃ p', request_next p req = Some p' ∧ wf p'.
Proof.
  intros Hwf. pose proof (proj1 Hwf) as Ht. unfold request_next, checkPrefetched, markPrefetched.
  set (next := set_addr (_nextReq p) (u32 (addr req + L2_BLOCK_SIZE))).
  assert (Hn : ∀ t, array_ok t STATE_SIZE → wf (mkPf t true next (NUM_REQS_PER_MISS - 1))).
  { intros t0 ?. split; simpl; [done|]. intros _. split; [apply u32_range|unfold NUM_REQS_PER_MISS; lia]. }
  destruct (markBit_ok _ _ Ht (addr next)) as (t & Hm & Ht' & _). rewrite Hm.
  rewrite (checkBit_ok _ _ Ht). destruct (HitL1 req); simpl.
  - case_match; simpl; [eexists; split; [done|by apply Hn]|]. rewrite andb_false_r. by exists p.
  - rewrite andb_true_r. destruct (_ready p); simpl; [by exists p|]. eexists. split; [done|by apply Hn].
Qed.

Lemma tagged_cpuRequest_wf p req : wf p → ∃ p', cpuRequest p req = Some p' ∧ wf p'.
Proof.
  intros Hwf. unfold cpuRequest. destruct (request_next_wf p req Hwf) as (p' & -> & Ht & Hp). simpl.
  unfold markUnPrefetched. destruct (unmarkBit_ok _ _ Ht (addr req)) as (t & -> & Ht' & _).
  eexists. split; [done|]. by split.
Qed.

#[export] Instance ops `{CRand} : PrefetcherInterface.Prefetcher := {|
  PrefetcherInterface.pf := Prefetcher;
  PrefetcherInterface.hasRequest := hasRequest;
  PrefetcherInterface.getRequest := getRequest;
  PrefetcherInterface.completeRequest := completeRequest;
  PrefetcherInterface.cpuRequest := fun p r g => p' ← cpuRequest p r; Some (p', g) |}.

#[export] Program Instance laws `{CRand} : PrefetcherOk := {| pf_ok := wf : @pf _ ops → Prop |}.
Next Obligation. simpl. intros ? p cycle [_ Hp] Hr. by apply Hp. Qed.
Next Obligation. simpl. intros ? p cycle Hp Hr. by apply tagged_completeRequest_wf. Qed.
Next Obligation.
  simpl. intros ? p r g Hp _. destruct (tagged_cpuRequest_wf p r Hp) as (p' & -> & ?). by exists p', g.
Qed.

End TaggedPf.

(** ** Training a row *)

(** What a miss at address [a] by instruction [pc] does to its row: the row, and
    how far ahead of [a] the prefetch is ([block] bytes, or the stride when it
    has been seen twice in a row and exceeds [worth]). *)
Definition WORTHWHILE_RPT : Z := 128.

Definition rpt_train (block pc a : Z) (r : rpt_row_entry) : rpt_row_entry * Z :=
  if r_pc r =? pc then
    let curr_stride := stride_from a r in
    if (curr_stride =? last_stride r) && (WORTHWHILE_RPT <? curr_stride)
    then (mkRow pc a (last_stride r), curr_stride)
    else (mkRow pc a curr_stride, block)
  else (mkRow pc a 0, block).

Lemma rpt_train_ok block pc a r : row_ok r → row_ok (rpt_train block pc a r).1.
Proof.
  intros Hr. unfold rpt_train, row_ok in *. destruct (r_pc r =? pc); simpl; [|unfold is_s32; lia].
  case_match; simpl; [done|apply s32_range].
Qed.

(** ** rpt_pf *)
Module RptPf.

Definition L2_BLOCK_SIZE : Z := 32.
Definition NUM_REQS_PER_MISS : Z := 4.
Definition NUM_RPT_ENTRIES : Z := 256.

Record Prefetcher : Type := mkPf {
  rpt_table : list rpt_row_entry; _ready : bool; _nextReq : Request; _req_left : Z }.

Definition Prefetcher_new (junk : Request) (junk_left : Z) : Prefetcher :=
  mkPf (replicate (Z.to_nat NUM_RPT_ENTRIES) zero_row) false junk junk_left.
Definition hasRequest (p : Prefetcher) (cycle : Z) : bool := _ready p.
Definition getRequest (p : Prefetcher) (cycle : Z) : Request := _nextReq p.

Definition completeRequest (p : Prefetcher) (cycle : Z) : option Prefetcher :=
  if _req_left p =? 0 then Some (mkPf (rpt_table p) false (_nextReq p) (_req_left p))
  else
    left ← int_add (_req_left p) (-1);
    let rpt_row_num := pc (_nextReq p) mod NUM_RPT_ENTRIES in
    curr_row ← (rpt_table p).[rpt_row_num];
    if negb (last_stride curr_row =? 0) then
      let next := set_addr (_nextReq p) (u32 (addr (_nextReq p) + last_stride curr_row)) in
      t ← (rpt_table p).[rpt_row_num := mkRow (r_pc curr_row) (addr next) (last_stride curr_row)];
      Some (mkPf t (_ready p) next left)
    else
      let next := set_addr (_nextReq p) (u32 (addr (_nextReq p) + L2_BLOCK_SIZE)) in
      Some (mkPf (rpt_table p) (_ready p) next left).

Definition cpuRequest (p : Prefetcher) (req : Request) : option Prefetcher :=
  if negb (_ready p) && negb (HitL1 req) then
    let rpt_row_num := pc req mod NUM_RPT_ENTRIES in
    curr_row ← (rpt_table p).[rpt_row_num];
    let '(row, ahead) := rpt_train L2_BLOCK_SIZE (pc req) (addr req) curr_row in
    t ← (rpt_table p).[rpt_row_num := row];
    Some (mkPf t true (set_addr (_nextReq p) (u32 (addr req + ahead))) (NUM_REQS_PER_MISS - 1))
  else Some p.

Definition wf (p : Prefetcher) : Prop :=
  table_ok NUM_RPT_ENTRIES (rpt_table p) ∧
  (_ready p = true → is_u32 (addr (_nextReq p)) ∧ 0 <= _req_left p < 2 ^ 31).

Lemma rpt_new_wf junk junk_left : wf (Prefetcher_new junk junk_left).
Proof. split; [|done]. apply zero_table. unfold NUM_RPT_ENTRIES. lia. Qed.

Lemma rpt_row_num a : 0 <= a mod NUM_RPT_ENTRIES < NUM_RPT_ENTRIES.
Proof. apply Z.mod_pos_bound. unfold NUM_RPT_ENTRIES. lia. Qed.

Lemma rpt_completeRequest_wf p cycle :
  wf p → _ready p = true → ∃ p', completeRequest p cycle = Some p' ∧ wf p'.
Proof.
  intros [Ht Hp] Hr. destruct (Hp Hr) as [Ha Hl]. unfold completeRequest.
  destruct (Z.eqb_spec (_req_left p) 0); [by eexists|]. rewrite dec_ok by done. simpl.
  destruct (table_row _ _ _ Ht (rpt_row_num (pc (_nextReq p)))) as (r & -> & Hrow). simpl.
  destruct (last_stride r =? 0); simpl.
  - eexists. split; [done|]. split; simpl; [done|]. intros _. split; [apply u32_range|lia].
  - destruct (table_update _ _ _ (mkRow (r_pc r) (u32 (addr (_nextReq p) + last_stride r)) (last_stride r))
      Ht (rpt_row_num (pc (_nextReq p))) Hrow) as (t & -> & Ht' & _).
    eexists. split; [done|]. split; simpl; [done|]. intros _. split; [apply u32_range|lia].
Qed.

Lemma rpt_cpuRequest_wf p req : wf p → ∃ p', cpuRequest p req = Some p' ∧ wf p'.
Proof.
  intros [Ht Hp]. unfold cpuRequest. destruct (negb (_ready p) && negb (HitL1 req)); [|by exists p].
  destruct (table_row _ _ _ Ht (rpt_row_num (pc req))) as (r & -> & Hrow). simpl.
  pose proof (rpt_train_ok L2_BLOCK_SIZE (pc req) (addr req) r Hrow) as Hr'.
  destruct (rpt_train L2_BLOCK_SIZE (pc req) (addr req) r) as [row ahead]. simpl in Hr'.
  destruct (table_update _ _ _ row Ht (rpt_row_num (pc req)) Hr') as (t & -> & Ht' & _).
  eexists. split; [done|]. split; simpl; [done|].
  intros _. split; [apply u32_range|unfold NUM_REQS_PER_MISS; lia].
Qed.

#[export] Instance ops `{CRand} : PrefetcherInterface.Prefetcher := {|
  PrefetcherInterface.pf := Prefetcher;
  PrefetcherInterface.hasRequest := hasRequest;
  PrefetcherInterface.getRequest := getRequest;
  PrefetcherInterface.completeRequest := completeRequest;
  PrefetcherInterface.cpuRequest := fun p r g => p' ← cpuRequest p r; Some (p', g) |}.

#[export] Program Instance laws `{CRand} : PrefetcherOk := {| pf_ok := wf : @pf _ ops → Prop |}.
Next Obligation. simpl. intros ? p cycle [_ Hp] Hr. by apply Hp. Qed.
Next Obligation. simpl. intros ? p cycle Hp Hr. by apply rpt_completeRequest_wf. Qed.
Next Obligation.
  simpl. intros ? p r g Hp _. destruct (rpt_cpuRequest_wf p r Hp) as (p' & -> & ?). by exists p', g.
Qed.

End RptPf.

(** ** amalgam: a fully associative table with random replacement *)
Module AmalgamPf.

Definition L2_BLOCK_SIZE : Z := 32.
Definition NUM_REQS_PER_MISS : Z := 4.
Definition NUM_RPT_ENTRIES : Z := 256.

Record Prefetcher : Type := mkPf {
  rpt_table : list rpt_row_entry; free_rpt_entries : Z;
  _ready : bool; _nextReq : Request; _req_left : Z }.

(** [checkInRPT]: the first row with this pc, or -1. *)
Definition checkInRPT (pc : Z) (t : list rpt_row_entry) : option Z :=
  w ← for_loop (Z.to_nat NUM_RPT_ENTRIES) 0 (fun i st =>
        r ← t.[Z.of_nat i];
        Some (if r_pc r =? pc then Break (Some (Z.of_nat i)) else Next st)) None;
  Some (default (-1) w).

Section ops.
Context `{CRand}.

(** The constructor also seeds the generator with the time. *)
Definition Prefetcher_new (time : Z) (junk : Request) (junk_left : Z) : Prefetcher * rng :=
  (mkPf (replicate (Z.to_nat NUM_RPT_ENTRIES) zero_row) NUM_RPT_ENTRIES false junk junk_left,
   srand (u32 time)).
Definition hasRequest (p : Prefetcher) (cycle : Z) : bool := _ready p.
Definition getRequest (p : Prefetcher) (cycle : Z) : Request := _nextReq p.

Definition completeRequest (p : Prefetcher) (cycle : Z) : option Prefetcher :=
  if _req_left p =? 0 then
    Some (mkPf (rpt_table p) (free_rpt_entries p) false (_nextReq p) (_req_left p))
  else
    left ← int_add (_req_left p) (-1);
    Some (mkPf (rpt_table p) (free_rpt_entries p) (_ready p)
            (set_addr (_nextReq p) (u32 (addr (_nextReq p) + L2_BLOCK_SIZE))) left).

(** The row for an instruction that has none: a free one, or a random victim. *)
Definition new_row (free : Z) (g : rng) : option (Z * Z * rng) :=
  if 0 <? free then
    row ← int_add NUM_RPT_ENTRIES (- free); free' ← int_add free (-1); Some (row, free', g)
  else
    let '(x, g') := rand g in Some (Z.rem x NUM_RPT_ENTRIES, free, g').

Definition cpuRequest (p : Prefetcher) (req : Request) (g : rng) : option (Prefetcher * rng) :=
  if negb (_ready p) && negb (HitL1 req) then
    found ← checkInRPT (pc req) (rpt_table p);
    '(rpt_row_num, free, g) ←
      (if 0 <=? found then Some (found, free_rpt_entries p, g) else new_row (free_rpt_entries p) g);
    curr_row ← (rpt_table p).[rpt_row_num];
    let '(row, ahead) :=
      if 0 <=? found then rpt_train L2_BLOCK_SIZE (pc req) (addr req) curr_row
      else (mkRow (pc req) (addr req) 0, L2_BLOCK_SIZE) in
    t ← (rpt_table p).[rpt_row_num := row];
    Some (mkPf t free true (set_addr (_nextReq p) (u32 (addr req + ahead))) (NUM_REQS_PER_MISS - 1), g)
  else Some (p, g).

Definition wf (p : Prefetcher) : Prop :=
  table_ok NUM_RPT_ENTRIES (rpt_table p) ∧ 0 <= free_rpt_entries p <= NUM_RPT_ENTRIES ∧
  (_ready p = true → is_u32 (addr (_nextReq p)) ∧ 0 <= _req_left p < 2 ^ 31).

Lemma amalgam_new_wf time junk junk_left : wf (Prefetcher_new time junk junk_left).1.
Proof.
  split; [by apply zero_table|]. simpl. unfold NUM_RPT_ENTRIES. split; [lia|done].
Qed.

Lemma amalgam_completeRequest_wf p cycle :
  wf p → _ready p = true → ∃ p', completeRequest p cycle = Some p' ∧ wf p'.
Proof.
  intros (Ht & Hf & Hp) Hr. destruct (Hp Hr) as [Ha Hl]. unfold completeRequest.
  destruct (Z.eqb_spec (_req_left p) 0); [by eexists|]. rewrite dec_ok by done. simpl.
  eexists. split; [done|]. split; [done|]. split; [done|]. simpl.
  intros _. split; [apply u32_range|lia].
Qed.

(** [checkInRPT] finds the first row with the pc. *)
Lemma checkInRPT_ok pc t :
  table_ok NUM_RPT_ENTRIES t →
  ∃ i, checkInRPT pc t = Some i ∧
    (i = -1 ∧ Forall (fun r => r_pc r ≠ pc) t ∨
     0 <= i < NUM_RPT_ENTRIES ∧ ∃ r, t.[i] = Some r ∧ r_pc r = pc).
Proof.
  intros Ht. pose proof (proj1 Ht) as Hlen. unfold checkInRPT.
  destruct (for_loop_find (fun j => match t !! j with Some r => r_pc r =? pc | None => false end)
    (Z.to_nat NUM_RPT_ENTRIES)
    (fun i st => r ← t.[Z.of_nat i]; Some (if r_pc r =? pc then Break (Some (Z.of_nat i)) else Next st)) 0)
    as (w & -> & Hw).
  { intros j st Hj. rewrite zlookup_nat. destruct (lookup_lt_is_Some_2 t j) as [r Hr]; [lia|]. by rewrite Hr. }
  destruct w as [z|]; simpl.
  - destruct Hw as (j & -> & Hj & Hfound & _). exists (Z.of_nat j). split; [done|]. right.
    split; [lia|]. destruct (t !! j) as [r|] eqn:Hr; [|done]. exists r.
    rewrite zlookup_nat. split; [done|]. by apply Z.eqb_eq.
  - exists (-1). split; [done|]. left. split; [done|]. apply Forall_lookup. intros j r Hr.
    specialize (Hw j). rewrite Hr in Hw. apply Z.eqb_neq, Hw. apply lookup_lt_Some in Hr. lia.
Qed.

Lemma new_row_ok free g :
  0 <= free <= NUM_RPT_ENTRIES →
  ∃ row free' g', new_row free g = Some (row, free', g') ∧ 0 <= row < NUM_RPT_ENTRIES ∧
    0 <= free' <= NUM_RPT_ENTRIES.
Proof.
  unfold NUM_RPT_ENTRIES. intros Hf. unfold new_row, NUM_RPT_ENTRIES. destruct (Z.ltb_spec 0 free).
  - rewrite !int_add_ok by (unfold is_s32; lia). simpl. eexists _, _, _. split; [done|]. lia.
  - pose proof (rand_range g). destruct (rand g) as [x g']. simpl in *. eexists _, _, _. split; [done|].
    rewrite Z.rem_mod_nonneg by lia. pose proof (Z.mod_pos_bound x 256). lia.
Qed.

Lemma amalgam_cpuRequest_wf p req g : wf p → ∃ p' g', cpuRequest p req g = Some (p', g') ∧ wf p'.
Proof.
  intros (Ht & Hf & Hp). unfold cpuRequest. destruct (negb (_ready p) && negb (HitL1 req)); [|by exists p, g].
  destruct (checkInRPT_ok (pc req) (rpt_table p) Ht) as (i & -> & Hi). simpl.
  assert (∃ row free g', (if 0 <=? i then Some (i, free_rpt_entries p, g) else new_row (free_rpt_entries p) g)
    = Some (row, free, g') ∧ 0 <= row < NUM_RPT_ENTRIES ∧ 0 <= free <= NUM_RPT_ENTRIES)
    as (row & free & g' & -> & Hrow & Hfree).
  { destruct (Z.leb_spec 0 i); [eexists _, _, _; split; [done|]; lia|by apply new_row_ok]. }
  simpl. destruct (table_row _ _ _ Ht Hrow) as (r & -> & Hr). simpl.
  assert (∃ r' ahead, (if 0 <=? i then rpt_train L2_BLOCK_SIZE (pc req) (addr req) r
    else (mkRow (pc req) (addr req) 0, L2_BLOCK_SIZE)) = (r', ahead) ∧ row_ok r') as (r' & ahead & -> & Hr').
  { destruct (0 <=? i); [|eexists _, _; split; [done|]; unfold row_ok, is_s32; simpl; lia].
    pose proof (rpt_train_ok L2_BLOCK_SIZE (pc req) (addr req) r Hr) as E.
    destruct (rpt_train L2_BLOCK_SIZE (pc req) (addr req) r). by eexists _, _. }
  destruct (table_update _ _ _ r' Ht Hrow Hr') as (t & -> & Ht' & _).
  eexists _, _. split; [done|]. split; [done|]. split; [done|]. simpl.
  intros _. split; [apply u32_range|unfold NUM_REQS_PER_MISS; lia].
Qed.

#[export] Instance ops : PrefetcherInterface.Prefetcher := {|
  PrefetcherInterface.pf := Prefetcher;
  PrefetcherInterface.hasRequest := hasRequest;
  PrefetcherInterface.getRequest := getRequest;
  PrefetcherInterface.completeRequest := completeRequest;
  PrefetcherInterface.cpuRequest := cpuRequest |}.

#[export] Program Instance laws : PrefetcherOk := {| pf_ok := wf : @pf _ ops → Prop |}.
Next Obligation. simpl. intros p cycle (_ & _ & Hp) Hr. by apply Hp. Qed.
Next Obligation. simpl. intros p cycle Hp Hr. by apply amalgam_completeRequest_wf. Qed.
Next Obligation. simpl. intros p r g Hp _. by apply amalgam_cpuRequest_wf. Qed.

End ops.
End AmalgamPf.
