(* ===== verification/HybridPrefetcher.v ===== *)
(** * The submitted prefetcher (src/cse240a/project/cse240a-proj1/prefetcher.h, prefetcher.C)

    Tagged next-block prefetching combined with a reference prediction table of
    strides. The three file-scope arrays are part of the state. *)
From S2P Require Import Prelude.
From S2P Require Import Words.
From S2P Require Import MemSim.
From S2P Require Import PrefetcherInterface.
From S2P Require Import BitArray.
From S2P Require Import TablePrefetchers.

Module HybridPf.

Definition STATE_SIZE : Z := 2048.
Definition L2_BLOCK_SIZE : Z := 32.
Definition NUM_REQS_PER_MISS : Z := 3.
Definition NUM_RPT_ENTRIES : Z := 128.

(** [NUM_RPT_ENTRIES/8 + 1]: the size of [rpt_check], in [char]s. *)
Definition CHECK_SIZE : Z := NUM_RPT_ENTRIES / 8 + 1.

Record Prefetcher : Type := mkPf {
  tags : list Z;
  rpt_check : list Z;
  rpt_table : list rpt_row_entry;
  _ready : bool;
  _nextReq : Request;
  _req_left : Z;
}.

(** The constructor: [rpt_check] is a static array, zero before it. *)
Definition Prefetcher_new (junk : Request) (junk_left : Z) : option Prefetcher :=
  let check0 := replicate (Z.to_nat CHECK_SIZE) 0 in
  check ← for_each (Z.to_nat NUM_RPT_ENTRIES) (fun i c => unmarkBit (Z.of_nat i) c CHECK_SIZE) check0;
  Some (mkPf (replicate (Z.to_nat STATE_SIZE) 0) check
          (replicate (Z.to_nat NUM_RPT_ENTRIES) zero_row) false junk junk_left).

Definition hasRequest (p : Prefetcher) (cycle : Z) : bool := _ready p.
Definition getRequest (p : Prefetcher) (cycle : Z) : Request := _nextReq p.

(** [curr_row->pc == pc && checkBit(rpt_row_num, rpt_check, ...)]: how far ahead
    of an address the instruction [pc] prefetches. *)
Definition stride_or_block (p : Prefetcher) (pc : Z) : option Z :=
  let rpt_row_num := pc mod NUM_RPT_ENTRIES in
  curr_row ← (rpt_table p).[rpt_row_num];
  strong ← (if r_pc curr_row =? pc then checkBit rpt_row_num (rpt_check p) CHECK_SIZE else Some false);
  Some (if strong : bool then last_stride curr_row else L2_BLOCK_SIZE).

Definition completeRequest (p : Prefetcher) (cycle : Z) : option Prefetcher :=
  if _req_left p =? 0 then
    Some (mkPf (tags p) (rpt_check p) (rpt_table p) false (_nextReq p) (_req_left p))
  else
    left ← int_add (_req_left p) (-1);
    ahead ← stride_or_block p (pc (_nextReq p));
    let next := set_addr (_nextReq p) (u32 (addr (_nextReq p) + ahead)) in
    t ← markBit (addr next) (tags p) STATE_SIZE;
    Some (mkPf t (rpt_check p) (rpt_table p) (_ready p) next left).

(** The branch of [cpuRequest] for a hit on a prefetched block. *)
Definition tagged_hit (p : Prefetcher) (req : Request) : option Prefetcher :=
  ahead ← stride_or_block p (pc req);
  let next := set_addr (_nextReq p) (u32 (addr req + ahead)) in
  t ← markBit (addr next) (tags p) STATE_SIZE;
  Some (mkPf t (rpt_check p) (rpt_table p) true next (NUM_REQS_PER_MISS - 1)).

(** The stride is the one of the last miss of this instruction, and worth it. *)
Definition repeated_stride (req : Request) (r : rpt_row_entry) : bool :=
  (r_pc r =? pc req) && (stride_from (addr req) r =? last_stride r) && (WORTHWHILE_RPT <? stride_from (addr req) r).

(** The branch for a miss: the row, the bit of [rpt_check], and the distance. *)
Definition train (p : Prefetcher) (req : Request) (rpt_row_num : Z) (curr_row : rpt_row_entry)
    : option (rpt_row_entry * list Z * Z) :=
  let '(row, ahead) := rpt_train L2_BLOCK_SIZE (pc req) (addr req) curr_row in
  if repeated_stride req curr_row
  then c ← markBit rpt_row_num (rpt_check p) CHECK_SIZE; Some (row, c, ahead)
  else c ← unmarkBit rpt_row_num (rpt_check p) CHECK_SIZE; Some (row, c, ahead).

Definition miss (p : Prefetcher) (req : Request) : option Prefetcher :=
  let rpt_row_num := pc req mod NUM_RPT_ENTRIES in
  curr_row ← (rpt_table p).[rpt_row_num];
  '(row, c, ahead) ← train p req rpt_row_num curr_row;
  t ← (rpt_table p).[rpt_row_num := row];
  Some (mkPf (tags p) c t true (set_addr (_nextReq p) (u32 (addr req + ahead))) (NUM_REQS_PER_MISS - 1)).

Definition cpuRequest (p : Prefetcher) (req : Request) : option Prefetcher :=
  tagged ← (if HitL1 req then checkBit (addr req) (tags p) STATE_SIZE else Some false);
  p ← (if (tagged : bool) && negb (_ready p) then tagged_hit p req
       else if negb (HitL1 req) then miss p req else Some p);
  t ← unmarkBit (addr req) (tags p) STATE_SIZE;
  Some (mkPf t (rpt_check p) (rpt_table p) (_ready p) (_nextReq p) (_req_left p)).

(** ** The state invariant *)
Record wf (p : Prefetcher) : Prop := {
  wf_tags : array_ok (tags p) STATE_SIZE;
  wf_check : array_ok (rpt_check p) CHECK_SIZE;
  wf_table : table_ok NUM_RPT_ENTRIES (rpt_table p);
  wf_ready : _ready p = true → is_u32 (addr (_nextReq p)) ∧ 0 <= _req_left p < NUM_REQS_PER_MISS;
}.

Lemma row_num a : 0 <= a mod NUM_RPT_ENTRIES < NUM_RPT_ENTRIES.
Proof. apply Z.mod_pos_bound. unfold NUM_RPT_ENTRIES. lia. Qed.

Lemma new_wf junk junk_left :
  ∃ p, Prefetcher_new junk junk_left = Some p ∧ wf p ∧ _ready p = false ∧ pc (_nextReq p) = pc junk ∧
    (∀ i, bit (tags p) i = false) ∧ (∀ i, bit (rpt_check p) i = false).
Proof.
  unfold Prefetcher_new.
  destruct (for_each_inv (fun _ c => array_ok c CHECK_SIZE ∧ ∀ i, bit c i = false) (Z.to_nat NUM_RPT_ENTRIES)
    (fun i c => unmarkBit (Z.of_nat i) c CHECK_SIZE) (replicate (Z.to_nat CHECK_SIZE) 0)) as (c & -> & Hc & Hz).
  - split; [|intros; apply bit_zero].
    change CHECK_SIZE with 17. apply zero_array_ok; lia.
  - intros j c _ [Hc Hz]. destruct (unmarkBit_ok c CHECK_SIZE Hc (Z.of_nat j)) as (c' & -> & Hc' & _ & Hb).
    exists c'. split_and!; try done; [apply Hc'..|]. intros i. rewrite Hb, Hz. by destruct (i =? _).
  - eexists. split; [done|]. split_and!; try done; [|intros; apply bit_zero].
    split; cbn [tags rpt_check rpt_table _ready]; [|done| |done].
    + apply zero_array_ok; unfold STATE_SIZE; lia.
    + apply zero_table. unfold NUM_RPT_ENTRIES. lia.
Qed.

(** The stride of a strong row of that instruction, else one block. *)
Definition is_strong (p : Prefetcher) (row : Z) : bool :=
  bit (rpt_check p) (bit_index row CHECK_SIZE) && negb (bit_index row CHECK_SIZE mod 8 =? 7).

Lemma stride_or_block_ok p pc' :
  wf p → ∃ r, (rpt_table p).[pc' mod NUM_RPT_ENTRIES] = Some r ∧ row_ok r ∧
    stride_or_block p pc' = Some (if (r_pc r =? pc') && is_strong p (pc' mod NUM_RPT_ENTRIES)
                                  then last_stride r else L2_BLOCK_SIZE).
Proof.
  intros [_ Hc Ht _]. unfold stride_or_block.
  destruct (table_row _ _ _ Ht (row_num pc')) as (r & -> & Hr). exists r. split_and!; [done..|]. simpl.
  rewrite (checkBit_ok _ _ Hc). by destruct (r_pc r =? pc').
Qed.

Lemma completeRequest_wf p cycle :
  wf p → _ready p = true → ∃ p', completeRequest p cycle = Some p' ∧ wf p'.
Proof.
  intros Hwf Hr. destruct (wf_ready p Hwf Hr) as [Ha Hl]. unfold NUM_REQS_PER_MISS in Hl. unfold completeRequest.
  destruct (Z.eqb_spec (_req_left p) 0).
  { eexists. split; [done|]. destruct Hwf. by split. }
  rewrite dec_ok by lia. simpl.
  destruct (stride_or_block_ok p (pc (_nextReq p)) Hwf) as (r & _ & _ & ->). simpl.
  destruct Hwf as [Ht Hc Htab Hp].
  destruct (markBit_ok _ _ Ht (u32 (addr (_nextReq p) +
    (if (r_pc r =? pc (_nextReq p)) && is_strong p (pc (_nextReq p) mod NUM_RPT_ENTRIES)
     then last_stride r else L2_BLOCK_SIZE)))) as (t & -> & Ht' & _).
  eexists. split; [done|]. split; simpl; try done. intros _. unfold NUM_REQS_PER_MISS.
  split; [apply u32_range|lia].
Qed.

Lemma tagged_hit_wf p req : wf p → ∃ p', tagged_hit p req = Some p' ∧ wf p'.
Proof.
  intros Hwf. unfold tagged_hit. destruct (stride_or_block_ok p (pc req) Hwf) as (r & _ & _ & ->). simpl.
  destruct Hwf as [Ht Hc Htab Hp].
  match goal with |- context [markBit ?a] => destruct (markBit_ok _ _ Ht a) as (t & -> & Ht' & _) end.
  eexists. split; [done|]. split; simpl; try done. intros _. unfold NUM_REQS_PER_MISS. split; [apply u32_range|lia].
Qed.

Lemma miss_ok p req :
  wf p → ∃ r c, (rpt_table p).[pc req mod NUM_RPT_ENTRIES] = Some r ∧ row_ok r ∧
    array_ok c CHECK_SIZE ∧
    (∀ i, bit c i = if i =? bit_index (pc req mod NUM_RPT_ENTRIES) CHECK_SIZE
                    then repeated_stride req r else bit (rpt_check p) i) ∧
    miss p req = Some (mkPf (tags p) c
      (<[Z.to_nat (pc req mod NUM_RPT_ENTRIES) := (rpt_train L2_BLOCK_SIZE (pc req) (addr req) r).1]> (rpt_table p))
      true (set_addr (_nextReq p) (u32 (addr req + (rpt_train L2_BLOCK_SIZE (pc req) (addr req) r).2)))
      (NUM_REQS_PER_MISS - 1)).
Proof.
  intros [Ht Hc Htab Hp]. unfold miss, train.
  destruct (table_row _ _ _ Htab (row_num (pc req))) as (r & Hr & Hrow). rewrite Hr. simpl. exists r.
  pose proof (rpt_train_ok L2_BLOCK_SIZE (pc req) (addr req) r Hrow) as Hrow'.
  destruct (rpt_train L2_BLOCK_SIZE (pc req) (addr req) r) as [row ahead]. simpl in *.
  destruct (table_update _ _ _ row Htab (row_num (pc req)) Hrow') as (t & Hup & _ & Et).
  destruct (markBit_ok _ _ Hc (pc req mod NUM_RPT_ENTRIES)) as (c1 & Hm & Hc1 & _ & Hb1).
  destruct (unmarkBit_ok _ _ Hc (pc req mod NUM_RPT_ENTRIES)) as (c2 & Hu & Hc2 & _ & Hb2).
  rewrite Hm, Hu. destruct (repeated_stride req r); simpl; rewrite Hup; simpl; subst t;
    [exists c1|exists c2]; by do 4 (split; [done|]).
Qed.

Lemma miss_wf p req : wf p → ∃ p', miss p req = Some p' ∧ wf p'.
Proof.
  intros Hwf. destruct (miss_ok p req Hwf) as (r & c & Hr & Hrow & Hc & _ & ->). eexists. split; [done|].
  destruct Hwf as [Ht _ [Hlen Htab] _]. split; simpl; try done.
  - split; [by rewrite length_insert|]. apply Forall_insert; [done|]. by apply rpt_train_ok.
  - intros _. unfold NUM_REQS_PER_MISS. split; [apply u32_range|lia].
Qed.

Lemma cpuRequest_wf p req : wf p → ∃ p', cpuRequest p req = Some p' ∧ wf p'.
Proof.
  intros Hwf. unfold cpuRequest. rewrite (checkBit_ok _ _ (wf_tags p Hwf)).
  assert (Hun : ∀ p, wf p → ∃ p', (t ← unmarkBit (addr req) (tags p) STATE_SIZE;
    Some (mkPf t (rpt_check p) (rpt_table p) (_ready p) (_nextReq p) (_req_left p))) = Some p' ∧ wf p').
  { intros q [Ht Hc Htab Hp]. destruct (unmarkBit_ok _ _ Ht (addr req)) as (t & -> & Ht' & _).
    eexists. split; [done|]. by split. }
  destruct (tagged_hit_wf p req Hwf) as (p1 & H1 & Hwf1). destruct (miss_wf p req Hwf) as (p2 & H2 & Hwf2).
  rewrite H1, H2. destruct (HitL1 req); simpl; [|by apply Hun]. case_match; simpl; by apply Hun.
Qed.

#[export] Instance ops `{CRand} : PrefetcherInterface.Prefetcher := {|
  PrefetcherInterface.pf := Prefetcher;
  PrefetcherInterface.hasRequest := hasRequest;
  PrefetcherInterface.getRequest := getRequest;
  PrefetcherInterface.completeRequest := completeRequest;
  PrefetcherInterface.cpuRequest := fun p r g => p' ← cpuRequest p r; Some (p', g) |}.

#[export] Program Instance laws `{CRand} : PrefetcherOk := {| pf_ok := wf : @pf _ ops → Prop |}.
Next Obligation. simpl. intros ? p cycle Hp Hr. by apply (wf_ready p Hp). Qed.
Next Obligation. simpl. intros ? p cycle Hp Hr. by apply completeRequest_wf. Qed.
Next Obligation.
  simpl. intros ? p r g Hp _. destruct (cpuRequest_wf p r Hp) as (p' & -> & ?). by exists p', g.
Qed.

End HybridPf.
