(* ===== verification/PrefetcherProps.v ===== *)
(** * Properties of the prefetchers *)
From S2P Require Import Prelude.
From S2P Require Import Words.
From S2P Require Import MemSim.
From S2P Require Import PrefetcherInterface.
From S2P Require Import BitArray.
From S2P Require Import SimplePrefetchers.
From S2P Require Import TablePrefetchers.
From S2P Require Import HybridPrefetcher.

(** A run of calls that stays defined, after which a pending request has a
    32-bit address. *)
Definition safe_run `{Prefetcher} (p : pf) (g : rng) (l : list pf_call) : Prop :=
  ∃ p' g', pf_run p g l = Some (p', g') ∧
    ∀ cycle, hasRequest p' cycle = true → is_u32 (addr (getRequest p' cycle)).

Lemma safe_run_ok `{PrefetcherOk} p g l : pf_ok p → Forall call_ok l → safe_run p g l.
Proof.
  intros Hp Hl. destruct (pf_run_ok l p g Hp Hl) as (p' & g' & Hr & Hp').
  exists p', g'. split; [done|]. intros cycle. by apply getRequest_ok.
Qed.

(** C28: in each of the seven prefetchers, any sequence of notifications and
    completions from the constructor is free of undefined behaviour (array
    bounds, shifts, signed overflow), whatever the uninitialised members hold. *)
Theorem prefetchers_never_undefined `{CRand} junk junk_left time (g : rng) l (Hl : Forall call_ok l) :
  safe_run (H0 := NoPrefetch.ops) (NoPrefetch.Prefetcher_new junk) g l ∧
  safe_run (H0 := SamplePf.ops) (SamplePf.Prefetcher_new junk) g l ∧
  safe_run (H0 := BasicPf.ops) (BasicPf.Prefetcher_new junk junk_left) g l ∧
  safe_run (H0 := TaggedPf.ops) (TaggedPf.Prefetcher_new junk junk_left) g l ∧
  safe_run (H0 := RptPf.ops) (RptPf.Prefetcher_new junk junk_left) g l ∧
  safe_run (H0 := AmalgamPf.ops) (AmalgamPf.Prefetcher_new time junk junk_left).1
    (AmalgamPf.Prefetcher_new time junk junk_left).2 l ∧
  ∃ p, HybridPf.Prefetcher_new junk junk_left = Some p ∧ safe_run (H0 := HybridPf.ops) p g l.
Proof.
  split; [exact (safe_run_ok _ g l (NoPrefetch.none_new_ok junk) Hl)|].
  split; [exact (safe_run_ok _ g l (SamplePf.sample_new_ok junk) Hl)|].
  split; [exact (safe_run_ok _ g l (BasicPf.basic_new_ok junk junk_left) Hl)|].
  split; [exact (safe_run_ok (H1 := TaggedPf.laws) _ g l (TaggedPf.tagged_new_wf junk junk_left) Hl)|].
  split; [exact (safe_run_ok (H1 := RptPf.laws) _ g l (RptPf.rpt_new_wf junk junk_left) Hl)|].
  split; [exact (safe_run_ok (H1 := AmalgamPf.laws) _ _ l (AmalgamPf.amalgam_new_wf time junk junk_left) Hl)|].
  destruct (HybridPf.new_wf junk junk_left) as (p & Hp & Hwf & _).
  exists p. split; [done|]. exact (safe_run_ok (H1 := HybridPf.laws) _ g l Hwf Hl).
Qed.

(** ** Bit arrays *)

(** [markBit] and [unmarkBit] set and clear exactly one bit of the array,
    the one numbered by the address modulo the size, and [checkBit] reads it
    back, except that a bit in the sign position of its [char] reads as off. *)
Theorem bit_array_is_a_set arr size a (Ha : array_ok arr size) :
  ∃ on off, markBit a arr size = Some on ∧ unmarkBit a arr size = Some off ∧
    array_ok on size ∧ array_ok off size ∧
    ∀ a', let i := a' mod size in
      checkBit a' on size = Some ((bool_decide (i = a mod size) || bit arr i) && negb (i mod 8 =? 7)) ∧
      checkBit a' off size = Some (negb (bool_decide (i = a mod size)) && bit arr i && negb (i mod 8 =? 7)).
Proof.
  destruct (markBit_ok arr size Ha a) as (on & Hon & Aon & _ & Bon).
  destruct (unmarkBit_ok arr size Ha a) as (off & Hoff & Aoff & _ & Boff).
  exists on, off. do 4 (split; [done|]).
  intros a' i. rewrite (checkBit_ok on size Aon), (checkBit_ok off size Aoff), Bon, Boff.
  unfold bit_index. subst i. destruct (Z.eqb_spec (a' mod size) (a mod size)) as [E|E].
  - by rewrite bool_decide_true.
  - by rewrite bool_decide_false.
Qed.

(** One address in eight can never be recorded as prefetched: in an array
    of any contents, a bit whose number is 7 modulo 8 reads as off, also right
    after it has been marked. *)
Theorem sign_bit_is_never_seen arr size a (Ha : array_ok arr size) (H7 : a mod size mod 8 = 7) :
  ∃ on, markBit a arr size = Some on ∧ checkBit a on size = Some false ∧ checkBit a arr size = Some false.
Proof.
  destruct (markBit_ok arr size Ha a) as (on & Hon & Aon & _). exists on.
  rewrite (checkBit_ok on size Aon), (checkBit_ok arr size Ha). unfold bit_index. rewrite H7. simpl.
  by rewrite !andb_false_r.
Qed.

(** The self test of the tagged prefetcher passes all the same: it marks
    even bits only, and the sign bit of a [char] is odd. *)
Theorem bitArrayTest_passes_despite_sign_bit :
  (∃ t, TaggedPf.bitArrayTest = Some (true, t)) ∧
  (t ← TaggedPf.markPrefetched 7 TaggedPf.zero_tags; TaggedPf.checkPrefetched 7 t) = Some false.
Proof.
  split; [|vm_compute; reflexivity].
  assert (E : fst <$> TaggedPf.bitArrayTest = Some true) by (vm_compute; reflexivity).
  apply fmap_Some in E as ([b t] & E & Hb). simpl in Hb. exists t. by rewrite E, Hb.
Qed.

(** ** The submitted prefetcher *)
Import HybridPf.

Section hybrid.
Context `{CRand}.
#[local] Existing Instance HybridPf.ops.

(** What [completeRequest] and [cpuRequest] leave alone. *)
Lemma complete_frame p cycle p' :
  HybridPf.completeRequest p cycle = Some p' →
  rpt_table p' = rpt_table p ∧ rpt_check p' = rpt_check p ∧ pc (_nextReq p') = pc (_nextReq p).
Proof.
  unfold HybridPf.completeRequest. destruct (_req_left p =? 0); intros Hc; ub_inv; subst; done.
Qed.

Lemma cpu_pc p req p' : HybridPf.cpuRequest p req = Some p' → pc (_nextReq p') = pc (_nextReq p).
Proof.
  unfold HybridPf.cpuRequest. intros Hc. ub_inv. subst. simpl.
  destruct (x && negb (_ready p)); [|destruct (negb (HitL1 req))].
  - unfold tagged_hit in Hx0. ub_inv. by subst.
  - unfold miss in Hx0. apply bind_Some in Hx0 as (r & _ & Hx0).
    apply bind_Some in Hx0 as ([[row c] ahead] & _ & Hx0). ub_inv. by subst.
  - ub_inv. by subst.
Qed.

(** The [pc] of the requests the prefetcher makes is never assigned: after
    any sequence of calls it is what the memory held at construction. *)
Theorem prefetch_pc_is_never_set junk junk_left p g l p' g'
    (Hnew : Prefetcher_new junk junk_left = Some p) (Hrun : pf_run p g l = Some (p', g')) cycle :
  pc (HybridPf.getRequest p' cycle) = pc junk.
Proof.
  destruct (new_wf junk junk_left) as (p0 & Hp0 & _ & _ & Hpc & _).
  rewrite Hnew in Hp0. injection Hp0 as <-. rewrite <- Hpc. unfold HybridPf.getRequest.
  clear Hnew Hpc. revert p g Hrun. induction l as [|c l IH]; intros p g Hrun; simpl in Hrun; [by ub_inv; subst|].
  apply bind_Some in Hrun as ([p1 g1] & Hstep & Hrun). rewrite (IH _ _ Hrun).
  destruct c as [cyc|r]; simpl in Hstep.
  - destruct (HybridPf.hasRequest p cyc); ub_inv; subst; [|done]. by apply (complete_frame _ _ _ Hx).
  - ub_inv; subst. by apply (cpu_pc _ _ _ Hx).
Qed.

Lemma stride_or_block_frame p p' pc' :
  rpt_table p' = rpt_table p → rpt_check p' = rpt_check p → stride_or_block p' pc' = stride_or_block p pc'.
Proof. unfold stride_or_block. by intros -> ->. Qed.

Lemma drain_S n p cycle :
  drain (S n) p cycle =
    if _ready p then
      p' ← HybridPf.completeRequest p cycle; '(l, p'') ← drain n p' cycle;
      Some (addr (_nextReq p) :: l, p'')
    else Some ([], p).
Proof. done. Qed.

(** A pending request and its [_req_left] successors. *)
Lemma drain_ok cycle ahead : ∀ n p,
  wf p → _ready p = true → _req_left p = Z.of_nat n → stride_or_block p (pc (_nextReq p)) = Some ahead →
  ∃ p', drain (S (S n)) p cycle =
    Some ((fun k => u32 (addr (_nextReq p) + Z.of_nat k * ahead)) <$> seq 0 (S n), p') ∧ _ready p' = false.
Proof.
  induction n as [|n IH]; intros p Hwf Hr Hl Hs.
  - rewrite drain_S, Hr. unfold HybridPf.completeRequest. rewrite Hl. simpl mbind.
    exists (mkPf (tags p) (rpt_check p) (rpt_table p) false (_nextReq p) (_req_left p)).
    split; [|done]. cbn [fmap list_fmap seq]. by rewrite Hl, Z.mul_0_l, Z.add_0_r, u32_small by apply (wf_ready p Hwf Hr).
  - destruct (completeRequest_wf p cycle Hwf Hr) as (p1 & H1 & Hwf1).
    destruct (complete_frame p cycle p1 H1) as (Ht & Hck & Hpc).
    assert (_ready p1 = true ∧ _req_left p1 = Z.of_nat n ∧
      addr (_nextReq p1) = u32 (addr (_nextReq p) + ahead)) as (Hr1 & Hl1 & Ha1).
    { revert H1. unfold HybridPf.completeRequest. rewrite Hl.
      destruct (Z.eqb_spec (Z.of_nat (S n)) 0); [lia|].
      pose proof (wf_ready p Hwf Hr) as [_ Hleft]. unfold NUM_REQS_PER_MISS in Hleft.
      rewrite dec_ok, Hs by lia. simpl. intros H1. ub_inv. subst p1. simpl. split_and!; [done|lia|done]. }
    destruct (IH p1 Hwf1 Hr1 Hl1) as (p' & Hd & Hr'); [by rewrite Hpc, (stride_or_block_frame p p1)|].
    exists p'. split; [|done].
    rewrite drain_S, Hr, H1. cbn [mbind option_bind]. rewrite Hd. cbn [mbind option_bind].
    do 2 f_equal. rewrite <- (cons_seq (S n) 0), fmap_cons, Z.mul_0_l, Z.add_0_r.
    rewrite (u32_small (addr (_nextReq p))) by apply (wf_ready p Hwf Hr).
    f_equal. rewrite <- fmap_S_seq, <- list_fmap_compose. apply list_fmap_ext. intros _ k _. unfold compose.
    rewrite Ha1, u32_add_u32_l. f_equal. lia.
Qed.
(** A miss, then the update of the tags. *)
Lemma cpu_miss p req :
  wf p → HitL1 req = false →
  ∃ p1 p', miss p req = Some p1 ∧ cpuRequest p req = Some p' ∧ wf p' ∧
    rpt_table p' = rpt_table p1 ∧ rpt_check p' = rpt_check p1 ∧ _ready p' = true ∧
    _nextReq p' = _nextReq p1 ∧ _req_left p' = NUM_REQS_PER_MISS - 1.
Proof.
  intros Hwf Hm. destruct (miss_wf p req Hwf) as (p1 & H1 & Hwf1).
  destruct (cpuRequest_wf p req Hwf) as (p' & Hp' & Hwf'). exists p1, p'. do 3 (split; [done|]).
  unfold HybridPf.cpuRequest in Hp'. rewrite Hm in Hp'. simpl in Hp'. rewrite H1 in Hp'. simpl in Hp'.
  ub_inv. subst p'. simpl. destruct (miss_ok p req Hwf) as (r & c & _ & _ & _ & _ & E).
  rewrite H1 in E. injection E as ->. done.
Qed.

(** A miss makes exactly three requests, one after another: the first one
    block (or the trained stride) after the missing address, the next two each a
    step further, where the step is that of the instruction in [_nextReq.pc]. *)
Theorem miss_makes_three_requests p req cycle (Hwf : wf p) (Hm : HitL1 req = false) :
  ∃ p' r d p'', HybridPf.cpuRequest p req = Some p' ∧
    (rpt_table p).[pc req mod NUM_RPT_ENTRIES] = Some r ∧
    stride_or_block p' (pc (_nextReq p)) = Some d ∧
    (let a := addr req + (rpt_train L2_BLOCK_SIZE (pc req) (addr req) r).2 in
     drain 4 p' cycle = Some ([u32 a; u32 (a + d); u32 (a + 2 * d)], p'')) ∧ _ready p'' = false.
Proof.
  destruct (cpu_miss p req Hwf Hm) as (p1 & p' & H1 & Hp' & Hwf' & Ht & Hc & Hr & Hn & Hl).
  destruct (miss_ok p req Hwf) as (r & c & Hrow & _ & _ & _ & E). rewrite H1 in E. injection E as ->.
  simpl in Hn. destruct (stride_or_block_ok p' (pc (_nextReq p')) Hwf') as (r' & _ & _ & Hs).
  destruct (drain_ok cycle _ 2 p' Hwf' Hr Hl Hs) as (p'' & Hd & Hr'').
  eexists p', r, _, p''. do 2 (split; [done|]). split; [rewrite Hn in Hs; exact Hs|]. split; [|done].
  rewrite Hd, Hn. cbn [fmap list_fmap seq addr set_addr]. cbv zeta.
  change (Z.of_nat 0) with 0. change (Z.of_nat 1) with 1. change (Z.of_nat 2) with 2.
  by rewrite Z.mul_0_l, Z.mul_1_l, Z.add_0_r, u32_idemp, !u32_add_u32_l.
Qed.

(** One miss of the sequence the table is trained with. *)
Lemma miss_row p req p' :
  wf p → HitL1 req = false → HybridPf.cpuRequest p req = Some p' →
  ∃ r, (rpt_table p).[pc req mod NUM_RPT_ENTRIES] = Some r ∧
    (rpt_table p').[pc req mod NUM_RPT_ENTRIES] = Some (rpt_train L2_BLOCK_SIZE (pc req) (addr req) r).1 ∧
    addr (_nextReq p') = u32 (addr req + (rpt_train L2_BLOCK_SIZE (pc req) (addr req) r).2) ∧ wf p'.
Proof.
  intros Hwf Hm Hc. destruct (cpu_miss p req Hwf Hm) as (p1 & p2 & H1 & Hp2 & Hwf' & Ht & _ & _ & Hn & _).
  rewrite Hc in Hp2. injection Hp2 as <-.
  destruct (miss_ok p req Hwf) as (r & c & Hrow & _ & _ & _ & E). rewrite H1 in E. injection E as ->.
  exists r. rewrite Ht, Hn. simpl. split_and!; try done.
  apply zlookup_insert_eq. rewrite (proj1 (wf_table p Hwf)). apply row_num.
Qed.

Lemma stride_from_next a r d :
  - 2 ^ 31 <= d < 2 ^ 31 → last_mem r = u32 a → stride_from (u32 (a + d)) r = d.
Proof.
  intros Hd Hl. unfold stride_from. rewrite Hl. unfold u32, s32. rewrite Zplus_mod_idemp_l.
  rewrite (Z.mod_eq (a + d)), (Z.mod_eq a) by lia.
  replace (a + d - 2 ^ 32 * ((a + d) / 2 ^ 32) - (a - 2 ^ 32 * (a / 2 ^ 32)) + 2 ^ 31)
    with (d + 2 ^ 31 + (a / 2 ^ 32 - (a + d) / 2 ^ 32) * 2 ^ 32) by lia.
  rewrite Z.mod_add, Z.mod_small by lia. lia.
Qed.

Definition miss_at (pc' a : Z) (req : Request) : Prop :=
  HitL1 req = false ∧ pc req = pc' ∧ addr req = u32 a.

(** A stride above 128 bytes is learned by the third miss: after three
    misses of one instruction at [a], [a + d], [a + 2d] the prefetched address
    is [a + 3d], whatever the table held before (addresses modulo 2^32). *)
Theorem stride_is_learned p pc' a d r1 r2 r3 p1 p2 p3
    (Hwf : wf p) (Hd : WORTHWHILE_RPT < d < 2 ^ 31)
    (H1 : miss_at pc' a r1) (H2 : miss_at pc' (a + d) r2) (H3 : miss_at pc' (a + 2 * d) r3)
    (C1 : HybridPf.cpuRequest p r1 = Some p1) (C2 : HybridPf.cpuRequest p1 r2 = Some p2)
    (C3 : HybridPf.cpuRequest p2 r3 = Some p3) :
  addr (HybridPf.getRequest p3 0) = u32 (a + 3 * d).
Proof.
  destruct H1 as (M1 & P1 & A1), H2 as (M2 & P2 & A2), H3 as (M3 & P3 & A3).
  unfold WORTHWHILE_RPT in Hd.
  destruct (miss_row p r1 p1 Hwf M1 C1) as (e0 & _ & L1 & _ & W1). rewrite P1, A1 in L1.
  destruct (miss_row p1 r2 p2 W1 M2 C2) as (e1 & E1 & L2 & _ & W2). rewrite P2, A2 in *.
  rewrite L1 in E1. injection E1 as <-.
  destruct (miss_row p2 r3 p3 W2 M3 C3) as (e2 & E2 & _ & N3 & _). rewrite P3, A3 in *.
  rewrite L2 in E2. injection E2 as <-.
  unfold HybridPf.getRequest. rewrite N3. clear L1 L2 N3.
  assert (Hrow1 : ∀ r, r_pc (rpt_train L2_BLOCK_SIZE pc' (u32 a) r).1 = pc' ∧
    last_mem (rpt_train L2_BLOCK_SIZE pc' (u32 a) r).1 = u32 a).
  { intros r. unfold rpt_train. destruct (r_pc r =? pc'); [|done]. by case_match. }
  destruct (Hrow1 e0) as [Q1 Q2]. set (row1 := (rpt_train L2_BLOCK_SIZE pc' (u32 a) e0).1) in *.
  assert (Hrow2 : (rpt_train L2_BLOCK_SIZE pc' (u32 (a + d)) row1).1 = mkRow pc' (u32 (a + d)) d).
  { unfold rpt_train. rewrite Q1, Z.eqb_refl, (stride_from_next a) by (done || lia).
    destruct (Z.eqb_spec d (last_stride row1)) as [<-|]; simpl; [|done].
    by destruct (WORTHWHILE_RPT <? d). }
  rewrite Hrow2. unfold rpt_train. cbn [r_pc last_stride]. rewrite Z.eqb_refl.
  replace (a + 2 * d) with (a + d + d) by lia.
  rewrite (stride_from_next (a + d)), Z.eqb_refl by (done || lia).
  unfold WORTHWHILE_RPT. rewrite (proj2 (Z.ltb_lt 128 d)) by lia. simpl.
  rewrite u32_add_u32_l. f_equal. lia.
Qed.

(** The strength bits of the table are indexed modulo 17, not modulo 128:
    rows that agree modulo 17 share one, so a stride repeated by one instruction
    makes another instruction's never repeated stride be used; and the rows whose
    index modulo 17 is 7 or 15 are never strong. *)
Theorem strength_bits_alias p req p' pc2 r
    (Hwf : wf p) (Hm : HitL1 req = false) (Hc : HybridPf.cpuRequest p req = Some p')
    (Hr : (rpt_table p).[pc req mod NUM_RPT_ENTRIES] = Some r) (Hrep : repeated_stride req r = true) :
  let i := pc req mod NUM_RPT_ENTRIES in
  let j := pc2 mod NUM_RPT_ENTRIES in
  ∃ r2, (rpt_table p').[j] = Some r2 ∧
    (j mod CHECK_SIZE mod 8 = 7 → stride_or_block p' pc2 = Some L2_BLOCK_SIZE) ∧
    (i ≠ j → j mod CHECK_SIZE = i mod CHECK_SIZE → j mod CHECK_SIZE mod 8 ≠ 7 → r_pc r2 = pc2 →
     (rpt_table p).[j] = Some r2 ∧ stride_or_block p' pc2 = Some (last_stride r2)).
Proof.
  intros i j. destruct (cpu_miss p req Hwf Hm) as (p1 & p2 & H1 & Hp2 & Hwf' & Ht & Hk & _).
  rewrite Hc in Hp2. injection Hp2 as <-.
  destruct (miss_ok p req Hwf) as (r0 & c & Hrow & _ & _ & Hbits & E). rewrite H1 in E. injection E as ->.
  rewrite Hr in Hrow. injection Hrow as <-. simpl in Ht, Hk.
  destruct (stride_or_block_ok p' pc2 Hwf') as (r2 & Hr2 & _ & Hs). exists r2. fold j in Hr2, Hs.
  split; [done|]. unfold is_strong, bit_index in Hs. split.
  - intros H7. rewrite Hs, H7. simpl. by rewrite !andb_false_r.
  - intros Hij Hmod Hn7 Hpc. split.
    + rewrite <- Hr2, Ht. symmetry. apply zlookup_insert_ne; [|done]. apply row_num.
    + rewrite Hs, Hpc, Z.eqb_refl, Hk, Hbits. unfold bit_index. fold i.
      rewrite Hmod, Z.eqb_refl, Hrep. simpl. rewrite Hmod in Hn7. by rewrite (proj2 (Z.eqb_neq _ _)).
Qed.
End hybrid.

(** ** Witnesses *)
#[local] Existing Instance std_rand.

Definition demo_access (pc' a : Z) (hit : bool) : Request :=
  {| addr := a; pc := pc'; load := true; fromCPU := true; issuedAt := 0; HitL1 := hit; HitL2 := false |}.
Definition demo_calls : list pf_call :=
  [CallCpu (demo_access 4 100 false); CallComplete 1; CallComplete 2; CallComplete 3; CallCpu (demo_access 4 132 true)].

Lemma demo_calls_ok : Forall call_ok demo_calls.
Proof. repeat constructor; simpl; unfold is_u32; lia. Qed.

Lemma prefetchers_never_undefined_witness :
  safe_run (H0 := TaggedPf.ops) (TaggedPf.Prefetcher_new zeroRequest 5) (srand 1) demo_calls.
Proof.
  destruct (prefetchers_never_undefined zeroRequest 5 0 (srand 1) demo_calls demo_calls_ok) as (_ & _ & _ & Ht & _).
  exact Ht.
Defined.

Lemma demo_array_ok : array_ok (replicate 17 0) 17.
Proof. apply zero_array_ok; lia. Qed.

Lemma bit_array_is_a_set_witness :
  ∃ on off, markBit 40 (replicate 17 0) 17 = Some on ∧ unmarkBit 40 (replicate 17 0) 17 = Some off ∧
    array_ok on 17 ∧ array_ok off 17 ∧
    ∀ a', let i := a' mod 17 in
      checkBit a' on 17 = Some ((bool_decide (i = 40 mod 17) || bit (replicate 17 0) i) && negb (i mod 8 =? 7)) ∧
      checkBit a' off 17 = Some (negb (bool_decide (i = 40 mod 17)) && bit (replicate 17 0) i && negb (i mod 8 =? 7)).
Proof. exact (bit_array_is_a_set (replicate 17 0) 17 40 demo_array_ok). Defined.

Lemma sign_bit_is_never_seen_witness :
  ∃ on, markBit 24 (replicate 17 0) 17 = Some on ∧ checkBit 24 on 17 = Some false ∧
    checkBit 24 (replicate 17 0) 17 = Some false.
Proof. exact (sign_bit_is_never_seen (replicate 17 0) 17 24 demo_array_ok eq_refl). Defined.

(** The state after a sequence of requests, from the constructor. *)
Definition demo_start : Prefetcher :=
  default (mkPf [] [] [] false zeroRequest 0) (Prefetcher_new (demo_access 99 0 false) 0).
Definition demo_step (p : Prefetcher) (r : Request) : Prefetcher := default p (HybridPf.cpuRequest p r).

Lemma demo_start_new : Prefetcher_new (demo_access 99 0 false) 0 = Some demo_start.
Proof. vm_compute. reflexivity. Qed.

Lemma demo_start_wf : wf demo_start.
Proof.
  destruct (new_wf (demo_access 99 0 false) 0) as (p & Hp & Hwf & _).
  rewrite demo_start_new in Hp. apply (inj Some) in Hp. rewrite Hp. exact Hwf.
Qed.

Lemma demo_step_ok p r : wf p → HybridPf.cpuRequest p r = Some (demo_step p r) ∧ wf (demo_step p r).
Proof.
  intros Hwf. destruct (cpuRequest_wf p r Hwf) as (p' & Hp' & Hwf'). unfold demo_step. rewrite Hp'. split; [reflexivity|exact Hwf'].
Qed.

Lemma prefetch_pc_is_never_set_witness :
  ∃ p' g', pf_run (P := HybridPf.ops) demo_start (srand 1) demo_calls = Some (p', g') ∧
    pc (HybridPf.getRequest p' 0) = 99.
Proof.
  destruct (pf_run_ok (H0 := HybridPf.laws) demo_calls demo_start (srand 1) demo_start_wf demo_calls_ok)
    as (p' & g' & Hrun & _).
  exists p', g'. split; [exact Hrun|].
  exact (prefetch_pc_is_never_set (demo_access 99 0 false) 0 demo_start (srand 1) demo_calls p' g'
    demo_start_new Hrun 0).
Defined.

Lemma miss_makes_three_requests_witness :
  ∃ p' r d p'', HybridPf.cpuRequest demo_start (demo_access 4 100 false) = Some p' ∧
    (rpt_table demo_start).[4 mod NUM_RPT_ENTRIES] = Some r ∧ stride_or_block p' 99 = Some d ∧
    (let a := 100 + (rpt_train L2_BLOCK_SIZE 4 100 r).2 in
     drain (P := HybridPf.ops) 4 p' 7 = Some ([u32 a; u32 (a + d); u32 (a + 2 * d)], p'')) ∧ _ready p'' = false.
Proof. exact (miss_makes_three_requests demo_start (demo_access 4 100 false) 7 demo_start_wf eq_refl). Defined.

Definition demo_train1 : Prefetcher := demo_step demo_start (demo_access 4 1000 false).
Definition demo_train2 : Prefetcher := demo_step demo_train1 (demo_access 4 1200 false).
Definition demo_train3 : Prefetcher := demo_step demo_train2 (demo_access 4 1400 false).

Lemma stride_is_learned_witness : addr (HybridPf.getRequest demo_train3 0) = 1600.
Proof.
  destruct (demo_step_ok demo_start (demo_access 4 1000 false) demo_start_wf) as [C1 W1].
  destruct (demo_step_ok demo_train1 (demo_access 4 1200 false) W1) as [C2 W2].
  destruct (demo_step_ok demo_train2 (demo_access 4 1400 false) W2) as [C3 W3].
  exact (stride_is_learned demo_start 4 1000 200 (demo_access 4 1000 false) (demo_access 4 1200 false)
    (demo_access 4 1400 false) demo_train1 demo_train2 demo_train3 demo_start_wf
    ltac:(unfold WORTHWHILE_RPT; lia) ltac:(split_and!; reflexivity)
    ltac:(split_and!; reflexivity) ltac:(split_and!; reflexivity) C1 C2 C3).
Defined.

(** Instruction 21, in row 21, has seen a stride of 300 once; the third miss of
    instruction 4, in row 4, makes row 21 strong as well. *)
Definition demo_weak1 : Prefetcher := demo_step demo_train2 (demo_access 21 5000 false).
Definition demo_weak2 : Prefetcher := demo_step demo_weak1 (demo_access 21 5300 false).

Lemma strength_bits_alias_witness :
  stride_or_block demo_weak2 21 = Some 32 ∧
  stride_or_block (demo_step demo_weak2 (demo_access 4 1400 false)) 21 = Some 300.
Proof.
  split; [vm_compute; reflexivity|].
  destruct (demo_step_ok demo_start (demo_access 4 1000 false) demo_start_wf) as [_ W1].
  destruct (demo_step_ok demo_train1 (demo_access 4 1200 false) W1) as [_ W2].
  destruct (demo_step_ok demo_train2 (demo_access 21 5000 false) W2) as [_ W3].
  destruct (demo_step_ok demo_weak1 (demo_access 21 5300 false) W3) as [_ W4].
  destruct (demo_step_ok demo_weak2 (demo_access 4 1400 false) W4) as [C5 _].
  destruct (strength_bits_alias demo_weak2 (demo_access 4 1400 false)
    (demo_step demo_weak2 (demo_access 4 1400 false)) 21 (mkRow 4 1200 200) W4 eq_refl C5
    ltac:(vm_compute; reflexivity) ltac:(vm_compute; reflexivity)) as (r2 & Hr2 & _ & Hal).
  assert (E : r2 = mkRow 21 5300 300).
  { apply (inj Some). rewrite <- Hr2. vm_compute. reflexivity. }
  rewrite E in Hal.
  exact (proj2 (Hal ltac:(vm_compute; discriminate) ltac:(vm_compute; reflexivity)
    ltac:(vm_compute; discriminate) eq_refl)).
Defined.
