(* ===== verification/Simulator.v ===== *)
(** * The simulator's main loop (src/cse240a/project/cse240a-proj1/main.C)

    The local variables of [main] are the state; one turn of its [while] loop is
    [cycle], composed of the same five parts.  The model is parametric in the
    prefetcher ([PrefetcherInterface.Prefetcher]). *)
From S2P Require Import Prelude.
From S2P Require Import Words.
From S2P Require Import MemSim.
From S2P Require Import TraceFormat.
From S2P Require Import CacheModel.
From S2P Require Import MemQueueModel.
From S2P Require Import CpuModel.
From S2P Require Import PrefetcherInterface.

Module Sim.

(** The constants of [main]; [hitTimeL1] is never used. *)
Definition accessTimeL2 : Z := 20.
Definition accessTimeMem : Z := 50.
Definition lineSizeL1 : Z := 16.
Definition assocL1 : Z := 2.
Definition totalSizeL1 : Z := 32.
Definition lineSizeL2 : Z := 32.
Definition assocL2 : Z := 8.
Definition totalSizeL2 : Z := 256.

(** "calc number of sets (if assoc == 0 then it's fully assoc so there is only
    1 set)": the number of sets and the associativity. *)
Definition sets_of (assoc totalSize lineSize : Z) : Z * Z :=
  if negb (assoc =? 0) then (Z.quot (totalSize * 1024) (assoc * lineSize), assoc)
  else (1, Z.quot (totalSize * 1024) lineSize).

Section sim.
Context `{P : Prefetcher}.

Record Sim : Type := mkSim {
  DCache : Cache.Cache;
  L2Cache : Cache.Cache;
  cpu : CPU.CPU;
  prefetcher : pf;
  writeBuffer : memQueue.memQueue;
  queueL2 : memQueue.memQueue;
  queueMem : memQueue.memQueue;
  generator : rng;
  nRequestsL2 : Z;
  memCycles : Z;
  memQsize : Z;
  curr_cycle : Z;
}.

(** Assignments to the parts of the state. *)
Definition with_cpu (s : Sim) (c : CPU.CPU) : Sim :=
  mkSim (DCache s) (L2Cache s) c (prefetcher s) (writeBuffer s) (queueL2 s) (queueMem s)
    (generator s) (nRequestsL2 s) (memCycles s) (memQsize s) (curr_cycle s).
Definition with_pf (s : Sim) (p : pf) (g : rng) : Sim :=
  mkSim (DCache s) (L2Cache s) (cpu s) p (writeBuffer s) (queueL2 s) (queueMem s)
    g (nRequestsL2 s) (memCycles s) (memQsize s) (curr_cycle s).
Definition with_DCache (s : Sim) (d : Cache.Cache) (g : rng) : Sim :=
  mkSim d (L2Cache s) (cpu s) (prefetcher s) (writeBuffer s) (queueL2 s) (queueMem s)
    g (nRequestsL2 s) (memCycles s) (memQsize s) (curr_cycle s).
Definition with_L2Cache (s : Sim) (d : Cache.Cache) (g : rng) : Sim :=
  mkSim (DCache s) d (cpu s) (prefetcher s) (writeBuffer s) (queueL2 s) (queueMem s)
    g (nRequestsL2 s) (memCycles s) (memQsize s) (curr_cycle s).
Definition with_writeBuffer (s : Sim) (q : memQueue.memQueue) : Sim :=
  mkSim (DCache s) (L2Cache s) (cpu s) (prefetcher s) q (queueL2 s) (queueMem s)
    (generator s) (nRequestsL2 s) (memCycles s) (memQsize s) (curr_cycle s).
Definition with_queueL2 (s : Sim) (q : memQueue.memQueue) : Sim :=
  mkSim (DCache s) (L2Cache s) (cpu s) (prefetcher s) (writeBuffer s) q (queueMem s)
    (generator s) (nRequestsL2 s) (memCycles s) (memQsize s) (curr_cycle s).
Definition with_queueMem (s : Sim) (q : memQueue.memQueue) : Sim :=
  mkSim (DCache s) (L2Cache s) (cpu s) (prefetcher s) (writeBuffer s) (queueL2 s) q
    (generator s) (nRequestsL2 s) (memCycles s) (memQsize s) (curr_cycle s).
Definition with_counters (s : Sim) (nreq memc memq cycle : Z) : Sim :=
  mkSim (DCache s) (L2Cache s) (cpu s) (prefetcher s) (writeBuffer s) (queueL2 s) (queueMem s)
    (generator s) nreq memc memq cycle.

(** [nRequestsL2++]. *)
Definition count_L2 (s : Sim) : Sim :=
  with_counters s (u32 (nRequestsL2 s + 1)) (memCycles s) (memQsize s) (curr_cycle s).

(** Calls on the parts, which read and update the state. *)
Definition cpu_complete (s : Sim) : option Sim :=
  c ← CPU.completeRequest (cpu s) (curr_cycle s); Some (with_cpu s c).
Definition cpu_setStatus (s : Sim) (st : cpuState) : Sim := with_cpu s (CPU.setStatus (cpu s) st).
Definition access_DCache (s : Sim) (r : Request) : option Sim :=
  '(_, d, g) ← Cache.access (DCache s) (addr r) (load r) (generator s); Some (with_DCache s d g).
Definition access_L2Cache (s : Sim) (r : Request) : option Sim :=
  '(_, d, g) ← Cache.access (L2Cache s) (addr r) (load r) (generator s); Some (with_L2Cache s d g).
(** The queue to L2 and the write buffer look duplicates up with the D-cache's
    geometry, the memory queue with L2's. *)
Definition add_queueL2 (s : Sim) (r : Request) : option (bool * Sim) :=
  '(ok, q) ← memQueue.add (DCache s) (queueL2 s) r (curr_cycle s); Some (ok, with_queueL2 s q).
Definition add_writeBuffer (s : Sim) (r : Request) : option (bool * Sim) :=
  '(ok, q) ← memQueue.add (DCache s) (writeBuffer s) r (curr_cycle s); Some (ok, with_writeBuffer s q).
Definition add_queueMem (s : Sim) (r : Request) : option (bool * Sim) :=
  '(ok, q) ← memQueue.add (L2Cache s) (queueMem s) r (curr_cycle s); Some (ok, with_queueMem s q).
Definition remove_queueL2 (s : Sim) : Sim := with_queueL2 s (memQueue.remove (queueL2 s)).2.
Definition remove_writeBuffer (s : Sim) : Sim := with_writeBuffer s (memQueue.remove (writeBuffer s)).2.
Definition remove_queueMem (s : Sim) : Sim := with_queueMem s (memQueue.remove (queueMem s)).2.

(** "request is ready": issue it, look it up in the D-cache, tell the prefetcher,
    and complete it or send it to the L2 queue or the write buffer. *)
Definition cpu_ready (s : Sim) : option Sim :=
  let '(req, c) := CPU.issueRequest (cpu s) (curr_cycle s) in
  isHit ← Cache.check (DCache s) (addr req) (load req);
  let s := with_cpu s (CPU.hitL1 c isHit) in
  let req := set_HitL1 req isHit in
  '(p, g) ← cpuRequest (prefetcher s) req (generator s);
  let s := with_pf s p g in
  if isHit : bool then s ← access_DCache s req; cpu_complete s
  else if load req then
    '(ok, s) ← add_queueL2 (count_L2 s) req;
    Some (cpu_setStatus s (if ok : bool then WAITING else STALLED_L2))
  else
    '(ok, s) ← add_writeBuffer (count_L2 s) req;
    if ok : bool then cpu_complete s else Some (cpu_setStatus s STALLED_WB).

(** The prefetcher's turn on the bus to L2. *)
Definition prefetch (s : Sim) : option Sim :=
  if hasRequest (prefetcher s) (curr_cycle s) then
    let req := set_load (set_fromCPU (getRequest (prefetcher s) (curr_cycle s)) false) true in
    '(ok, s) ← add_queueL2 (count_L2 s) req;
    if ok : bool then
      p ← completeRequest (prefetcher s) (curr_cycle s); Some (with_pf s p (generator s))
    else Some s
  else Some s.

(** "attempt to put it in the write buffer". *)
Definition retry_writeBuffer (s : Sim) : option Sim :=
  '(ok, s) ← add_writeBuffer s (CPU.getRequest (cpu s));
  if ok : bool then cpu_complete s else Some s.

Definition retry_queueL2 (s : Sim) : option Sim :=
  '(ok, s) ← add_queueL2 s (CPU.getRequest (cpu s));
  Some (if ok : bool then cpu_setStatus s WAITING else s).

(** The chain of [if]s on the processor's status. [isHit] is false when the
    second condition is reached. *)
Definition cpu_turn (s : Sim) : option Sim :=
  let '(cpu_status, c) := CPU.getStatus (cpu s) (curr_cycle s) in
  let s := with_cpu s c in
  match cpu_status with
  | READY => cpu_ready s
  | WAITING | IDLE => prefetch s
  | STALLED_WB => s ← prefetch s; retry_writeBuffer s
  | STALLED_L2 => retry_queueL2 s
  end.

(** "service the L2 queue". *)
Definition service_L2 (s : Sim) : option Sim :=
  ready ← memQueue.frontReady (queueL2 s) (curr_cycle s);
  if ready : bool then
    req ← memQueue.getFront (queueL2 s);
    isHit ← Cache.check (L2Cache s) (addr req) (load req);
    let s := with_cpu s (CPU.loadHitL2 (cpu s) isHit) in
    if isHit : bool then
      s ← access_DCache s req;
      s ← (if fromCPU req then cpu_complete s else Some s);
      Some (remove_queueL2 s)
    else
      '(ok, s) ← add_queueMem s req;
      Some (if ok : bool then remove_queueL2 s else s)
  else Some s.

(** "service the memory queue". *)
Definition service_mem (s : Sim) : option Sim :=
  ready ← memQueue.frontReady (queueMem s) (curr_cycle s);
  if ready : bool then
    req ← memQueue.getFront (queueMem s);
    let s := remove_queueMem s in
    s ← access_L2Cache s req;
    s ← (if load req then access_DCache s req else Some s);
    if fromCPU req && load req then cpu_complete s else Some s
  else Some s.

(** The two memory statistics. *)
Definition count_mem (s : Sim) : Sim :=
  let n := memQueue.getSize (queueMem s) in
  with_counters s (nRequestsL2 s) (if 0 <? n then u32 (memCycles s + 1) else memCycles s)
    (u32 (memQsize s + n)) (curr_cycle s).

(** "service the write buffer". *)
Definition service_writeBuffer (s : Sim) : option Sim :=
  ready ← memQueue.frontReady (writeBuffer s) (curr_cycle s);
  if ready : bool then
    req ← memQueue.getFront (writeBuffer s);
    isHit ← Cache.check (L2Cache s) (addr req) (load req);
    let s := with_cpu s (CPU.storeHitL2 (cpu s) isHit) in
    if isHit : bool then s ← access_L2Cache s req; Some (remove_writeBuffer s)
    else
      '(ok, s) ← add_queueMem s req;
      Some (if ok : bool then remove_writeBuffer s else s)
  else Some s.

(** [curr_cycle++]. *)
Definition next_cycle (s : Sim) : Sim :=
  with_counters s (nRequestsL2 s) (memCycles s) (memQsize s) (u32 (curr_cycle s + 1)).

(** One turn of the loop. *)
Definition cycle (s : Sim) : option Sim :=
  s ← cpu_turn s;
  s ← service_L2 s;
  s ← service_mem s;
  s ← service_writeBuffer (count_mem s);
  Some (next_cycle s).

(** [while(!cpu.isDone())], for at most [fuel] turns: the state reached, and
    whether the loop has ended. *)
Fixpoint loop (fuel : nat) (s : Sim) : option (bool * Sim) :=
  if CPU.isDone (cpu s) then Some (true, s)
  else
    match fuel with
    | O => Some (false, s)
    | S fuel => s ← cycle s; loop fuel s
    end.

(** The state before the loop, from the trace file and the prefetcher the
    constructor of [Prefetcher] leaves, with the generator as it is then. The
    last arguments are what uninitialised memory holds. *)
Definition start (trace_file : option chars) (p : pf) (g : rng) (junk_req : Request) (junk_ready : Z) : option Sim :=
  let '(numSetsL1, assoc1) := sets_of assocL1 totalSizeL1 lineSizeL1 in
  let '(numSetsL2, assoc2) := sets_of assocL2 totalSizeL2 lineSizeL2 in
  c ← CPU.CPU_new trace_file junk_req junk_ready;
  Some (mkSim (Cache.Cache_new numSetsL1 assoc1 lineSizeL1 false false true).1
    (Cache.Cache_new numSetsL2 assoc2 lineSizeL2 false true false).1
    c p
    (memQueue.memQueue_new 10 accessTimeL2 true true "a"%char)
    (memQueue.memQueue_new 20 accessTimeL2 true false "b"%char)
    (memQueue.memQueue_new 10 accessTimeMem false false "c"%char)
    g 0 0 0 1).

(** What the program writes to the output file: the number of cycles, then six
    numbers ([%.4f]). *)
Record report : Type := mkReport {
  total_cycles : Z;
  hitRateL1 : double;
  hitRateL2 : double;
  AMAT : double;
  avgMemQ : double;
  L2BW : double;
  memBW : double;
}.

Definition finish (s : Sim) : report :=
  let cycles := u32 (curr_cycle s - 1) in
  {| total_cycles := cycles;
     hitRateL1 := CPU.getHitRateL1 (cpu s);
     hitRateL2 := CPU.getHitRateL2 (cpu s);
     AMAT := CPU.getAMAT (cpu s);
     avgMemQ := double_div (double_of (memQsize s)) (double_of cycles);
     L2BW := double_div (double_of (nRequestsL2 s)) (double_of cycles);
     memBW := double_div (double_of (memCycles s)) (double_of cycles) |}.

(** The whole program on a trace: [None] is undefined behaviour; [Some None]
    that it is still running after [fuel] cycles. *)
Definition main (fuel : nat) (trace_file : option chars) (p : pf) (g : rng) (junk_req : Request) (junk_ready : Z)
    : option (option report) :=
  s ← start trace_file p g junk_req junk_ready;
  '(ended, s) ← loop fuel s;
  Some (if ended : bool then Some (finish s) else None).

End sim.
End Sim.
