(* ===== verification/SimParts.v ===== *)
(** * The simulator's invariant: the parts and the processor

    What holds of the caches, the queues, the prefetcher and the processor
    between any two steps of the loop, and that the single operations of the loop
    are defined under it and keep it. *)
From S2P Require Import Prelude.
From S2P Require Import Words.
From S2P Require Import MemSim.
From S2P Require Import TraceFormat.
From S2P Require Import CacheModel.
From S2P Require Import CacheSpec.
From S2P Require Import MemQueueModel.
From S2P Require Import MemQueueSpec.
From S2P Require Import MemQueueProps.
From S2P Require Import CpuModel.
From S2P Require Import PrefetcherInterface.
From S2P Require Import Simulator.
Import Sim.

(** ** Trace files [fscanf] can read *)

(** Reading line after line never converts a number that is too large, and ends
    after [n] lines. *)
Inductive trace_lines : nat → chars → Prop :=
| lines_end s s' : scan_line s = Some (None, s') → trace_lines O s
| lines_line n s l s' : scan_line s = Some (Some l, s') → trace_lines n s' → trace_lines (S n) s.

(** The same, with the cycles between the requests. *)
Inductive trace_gaps : list Z → chars → Prop :=
| gaps_end s s' : scan_line s = Some (None, s') → trace_gaps [] s
| gaps_line gs s l s' : scan_line s = Some (Some l, s') → trace_gaps gs s' → trace_gaps (cycles_since_last l :: gs) s.

Lemma trace_lines_gaps n f : trace_lines n f ↔ ∃ gs, length gs = n ∧ trace_gaps gs f.
Proof.
  split.
  - induction 1 as [s s' E|n s l s' E _ (gs & <- & IH)]; [exists []; split; [done|by eapply gaps_end]|].
    eexists. split; [|by eapply gaps_line]. done.
  - intros (gs & <- & Hg). induction Hg as [s s' E|gs s l s' E _ IH]; [by eapply lines_end|by eapply lines_line].
Qed.

Lemma print_trace_gaps ls : Forall line_ok ls → trace_gaps (cycles_since_last <$> ls) (ls ≫= print_line).
Proof.
  induction ls as [|l ls IH]; intros Hls; [by eapply gaps_end|].
  apply Forall_cons in Hls as [Hl Hls].
  apply (gaps_line _ _ l (skip_ws (ls ≫= print_line))).
  - change ((l :: ls) ≫= print_line) with (print_line l ++ (ls ≫= print_line)). by apply scan_line_print.
  - replace (skip_ws (ls ≫= print_line)) with (ls ≫= print_line); [by apply IH|].
    destruct ls as [|l' ls]; [done|].
    change ((l' :: ls) ≫= print_line) with (print_line l' ++ (ls ≫= print_line)).
    symmetry. apply skip_ws_print_line. by inversion Hls.
Qed.

Lemma print_trace_lines ls : Forall line_ok ls → trace_lines (length ls) (ls ≫= print_line).
Proof. intros Hls. apply trace_lines_gaps. eexists. split; [|by apply print_trace_gaps]. apply length_fmap. Qed.

Lemma scan_digits_range base neg s v s' : scan_digits base neg s = Some (Some v, s') → base = 10 ∨ base = 16 → is_u32 v.
Proof.
  intros H Hb. unfold scan_digits in H. destruct s as [|c s]; [done|].
  destruct (digit_val base c) as [d|]; [|done].
  destruct (read_digits base 0 (c :: s)) as [w t] eqn:E.
  destruct ((w <? 2 ^ 32) && (negb neg || (w =? 0))) eqn:Hw; [|done]. injection H as <- <-.
  apply andb_true_iff in Hw as [Hw%Z.ltb_lt _]. split; [|done].
  assert (Hpos : ∀ s acc w t, 0 <= acc → read_digits base acc s = (w, t) → 0 <= w).
  { clear -Hb. induction s as [|c s IH]; intros acc w t Ha; simpl; [by intros [= <- _]|].
    destruct (digit_val base c) as [d|] eqn:Hd; [|by intros [= <- _]]. apply IH.
    assert (0 <= d); [|destruct Hb; subst; lia].
    revert Hd. unfold digit_val. case_match; [|done]. intros [= <-].
    repeat (case_match; simplify_eq; try lia).
    all: repeat match goal with
      | H : _ && _ = true |- _ => apply andb_true_iff in H as [?%Z.leb_le ?%Z.leb_le] end; lia. }
  by eapply (Hpos _ 0).
Qed.

Lemma scan_x_range s v s' : scan_x s = Some (Some v, s') → is_u32 v.
Proof.
  unfold scan_x. destruct (read_sign (skip_ws s)) as [neg t]. intros H.
  repeat case_match; by eapply scan_digits_range; eauto.
Qed.

Lemma scan_u_range s v s' : scan_u s = Some (Some v, s') → is_u32 v.
Proof.
  unfold scan_u. destruct (read_sign (skip_ws s)) as [neg t]. intros H. by eapply scan_digits_range; eauto.
Qed.

Lemma scan_bind_Some {A B} (m : scan A) (f : A → scan B) s y s' :
  scan_bind m f s = Some (Some y, s') → ∃ x s1, m s = Some (Some x, s1) ∧ f x s1 = Some (Some y, s').
Proof.
  unfold scan_bind. intros H. apply bind_Some in H as ([[x|] s1] & Hm & H); [|done]. by exists x, s1.
Qed.

Lemma scan_line_range s l s' :
  scan_line s = Some (Some l, s') → is_u32 (l_pc l) ∧ is_u32 (l_addr l) ∧ is_u32 (cycles_since_last l).
Proof.
  unfold scan_line. intros H.
  repeat match goal with
  | H : scan_bind _ _ _ = Some (Some _, _) |- _ => apply scan_bind_Some in H as (? & ? & ? & H)
  end.
  unfold scan_ret in H. injection H as <- _. simpl.
  repeat match goal with
  | H : scan_x _ = Some (Some _, _) |- _ => apply scan_x_range in H
  | H : scan_u _ = Some (Some _, _) |- _ => apply scan_u_range in H
  end. done.
Qed.

(** ** The processor *)

(** The request the processor works on, in each of its states. *)
Definition state_ok (st : cpuState) (r : Request) : Prop :=
  match st with
  | IDLE | READY => True
  | WAITING | STALLED_L2 => load r = true
  | STALLED_WB => load r = false
  end.

(** What the processor has to do: nothing more, or a request that is ready at some
    cycle, and after it requests with given gaps. *)
Definition todo : Type := option (Z * list Z).

Definition todo_left (t : todo) : nat := match t with None => O | Some (_, gs) => S (length gs) end.

(** The request after the one completed at [now]. *)
Definition next_todo (now : Z) (t : todo) : todo :=
  match t with Some (_, g :: gs) => Some (u32 (now + g + 1), gs) | _ => None end.

Section processor.
Context (total : nat).

(** [total] is the number of lines of the trace file; [t] says which of its requests
    are not complete, the current one among them. *)
Record cpu_ok (t : todo) (c : CPU.CPU) : Prop := {
  cpu_trace : CPU._done c = false → ∃ f gs, t = Some (CPU._readyAt c, gs) ∧ CPU._trace c = Some f ∧ trace_gaps gs f ∧
    CPU.nRequests c = u32 (Z.of_nat total - Z.of_nat (length gs));
  cpu_count : CPU._done c = true → t = None ∧ CPU.nRequests c = u32 (Z.of_nat total);
  cpu_req : CPU._done c = false → req_ok (CPU._currReq c);
  cpu_ready_at : CPU._done c = false → is_u32 (CPU._readyAt c);
  cpu_from : fromCPU (CPU._currReq c) = true;
  cpu_state : state_ok (CPU._state c) (CPU._currReq c);
  cpu_idle : CPU._done c = true → CPU._state c = IDLE;
}.

Lemma cpu_left t c : cpu_ok t c → CPU._done c = false ↔ t ≠ None.
Proof.
  intros Hc. destruct (CPU._done c) eqn:Hd.
  - destruct (cpu_count t c Hc Hd) as [-> _]. done.
  - destruct (cpu_trace t c Hc Hd) as (f & gs & -> & _). done.
Qed.

Lemma cpu_not_done t gs c : cpu_ok (Some (t, gs)) c → CPU._done c = false ∧ CPU._readyAt c = t.
Proof.
  intros Hc. assert (Hd : CPU._done c = false) by by apply (cpu_left _ _ Hc). split; [done|].
  destruct (cpu_trace _ c Hc Hd) as (f & gs' & [= -> _] & _). done.
Qed.

Lemma readNextRequest_ok c cyc f r gs :
  CPU._trace c = Some f → trace_gaps gs f → CPU.nRequests c = u32 (Z.of_nat total - Z.of_nat (length gs)) →
  fromCPU (CPU._currReq c) = true → CPU._state c = IDLE → CPU._done c = false →
  ∃ c', CPU.readNextRequest c cyc = Some c' ∧ cpu_ok (next_todo cyc (Some (r, gs))) c' ∧ CPU._state c' = IDLE.
Proof.
  intros Hf Hg Hn Hfrom Hst Hd. unfold CPU.readNextRequest. rewrite Hf. simpl.
  destruct Hg as [s s' E|gs s l s' E Hg]; rewrite E; simpl; eexists; (split; [done|]).
  - split; [|done]. split; simpl; try done; [|by rewrite Hst]. intros _. split; [done|]. rewrite Hn. f_equal. simpl. lia.
  - split; [|done]. destruct (scan_line_range _ _ _ E) as (Hp & Ha & _).
    split; simpl; [|by rewrite Hd|done|intros _; apply u32_range|done|by rewrite Hst|by rewrite Hd].
    intros _. exists s', gs. split_and!; [done..|]. rewrite Hn, u32_add_u32_l. f_equal. simpl. lia.
Qed.

Lemma completeRequest_cpu_ok t c cyc :
  cpu_ok t c → t ≠ None →
  ∃ c', CPU.completeRequest c cyc = Some c' ∧ cpu_ok (next_todo cyc t) c' ∧ CPU._state c' = IDLE.
Proof.
  intros Hc Ht. assert (Hd : CPU._done c = false) by by apply (cpu_left _ _ Hc).
  destruct (cpu_trace _ c Hc Hd) as (f & gs & -> & Hf & Hg & Hn). unfold CPU.completeRequest.
  repeat case_match;
    (apply (readNextRequest_ok _ cyc f _ gs);
      [exact Hf|exact Hg|exact Hn|exact (cpu_from _ c Hc)|reflexivity|exact Hd]).
Qed.

Lemma CPU_new_ok f gs junk junk_ready :
  trace_gaps gs f → total = length gs →
  ∃ c, CPU.CPU_new (Some f) junk junk_ready = Some c ∧ cpu_ok (next_todo 0 (Some (0, gs))) c ∧ CPU._state c = IDLE.
Proof. intros Hg Ht. apply (readNextRequest_ok _ 0 f 0 gs); try done. simpl. by rewrite Ht, Z.sub_diag. Qed.

(** Changes to the current request's flags and to the statistics. *)
Lemma cpu_ok_flags t c c' :
  cpu_ok t c → CPU._trace c' = CPU._trace c → CPU.nRequests c' = CPU.nRequests c → CPU._done c' = CPU._done c →
  CPU._readyAt c' = CPU._readyAt c → CPU._state c' = CPU._state c →
  addr (CPU._currReq c') = addr (CPU._currReq c) → pc (CPU._currReq c') = pc (CPU._currReq c) →
  load (CPU._currReq c') = load (CPU._currReq c) → fromCPU (CPU._currReq c') = fromCPU (CPU._currReq c) →
  cpu_ok t c'.
Proof.
  intros [H1 Hn H2 Hr H3 H4 H5] Et En Ed Er Es Ea Ep El Ef.
  split; rewrite ?Et, ?En, ?Ed, ?Er, ?Es, ?Ef; try done.
  - unfold req_ok in *. by rewrite Ea, Ep.
  - unfold state_ok in *. by rewrite El.
Qed.

Lemma setStatus_ok t c st :
  cpu_ok t c → t ≠ None → state_ok st (CPU._currReq c) → cpu_ok t (CPU.setStatus c st).
Proof.
  intros Hc Ht Hs. pose proof (proj2 (cpu_left _ _ Hc) Ht) as Hd. destruct Hc. split; try done.
  simpl. by rewrite Hd.
Qed.

(** What [getStatus] returns. *)
Definition status_of (c : CPU.CPU) (cyc : Z) : cpuState :=
  match CPU._state c with IDLE => if CPU._readyAt c <=? cyc then READY else IDLE | st => st end.

Lemma getStatus_ok t c cyc :
  cpu_ok t c → t ≠ None →
  ∃ c', CPU.getStatus c cyc = (CPU._state c', c') ∧ cpu_ok t c' ∧
    CPU._currReq c' = CPU._currReq c ∧ CPU._state c' = status_of c cyc.
Proof.
  intros Hc Ht. unfold CPU.getStatus, status_of.
  destruct (CPU._state c) eqn:E; simpl;
    [destruct (CPU._readyAt c <=? cyc)|..]; eexists; (split; [done|]); split_and!; try done.
  by apply (setStatus_ok t c READY).
Qed.

End processor.

(** ** Processor loads in the queues *)
Definition cpu_load (r : Request) : bool := fromCPU r && load r.

Fixpoint pending (l : list entry) : nat :=
  match l with
  | [] => O
  | e :: l => (if cpu_load (e_req e) then 1 else 0) + pending l
  end%nat.

Lemma pending_app l1 l2 : pending (l1 ++ l2) = (pending l1 + pending l2)%nat.
Proof. induction l1 as [|e l1 IH]; simpl; [done|]. rewrite IH. lia. Qed.

Lemma pending_alter req k l e :
  l !! k = Some e → fromCPU (e_req e) = false →
  pending (alter (set_req req) k l) = (pending l + if cpu_load req then 1 else 0)%nat.
Proof.
  revert k. induction l as [|e' l IH]; intros [|k]; simpl; try done.
  - intros [= ->] He. unfold cpu_load at 2. rewrite He. simpl. lia.
  - intros He Hf. change (list_alter (set_req req) k l) with (alter (set_req req) k l).
    rewrite (IH k He Hf). lia.
Qed.

(** The three queues of main.C: capacity, latency, and whether pipelined. *)
Record queue_kind : Type := mkKind { k_cap : nat; k_lat : Z; k_pip : bool }.
Definition kind_wb : queue_kind := mkKind 10 accessTimeL2 true.
Definition kind_l2 : queue_kind := mkKind 20 accessTimeL2 true.
Definition kind_mem : queue_kind := mkKind 10 accessTimeMem false.

(** When a request is ready that such a queue with contents [l] gets in cycle [now]. *)
Definition ready_in (k : queue_kind) (now : Z) (l : list entry) : Z := spec_ready (k_lat k) (k_pip k) l now.

(** What adding the request [r] to a queue in cycle [now] does to its contents:
    refused when the queue is full; else appended, or written over a prefetch, or
    dropped when it is a prefetch itself. *)
Inductive added (k : queue_kind) (now : Z) (r : Request) (l : list entry) : bool → list entry → Prop :=
| added_full : length l = k_cap k → added k now r l false l
| added_new e : (length l < k_cap k)%nat → e_req e = r → e_ready e = ready_in k now l → added k now r l true (l ++ [e])
| added_over i e : (length l < k_cap k)%nat → l !! i = Some e → fromCPU (e_req e) = false → fromCPU r = true →
    added k now r l true (alter (set_req r) i l)
| added_dup : (length l < k_cap k)%nat → fromCPU r = false → added k now r l true l.

Lemma ready_in_range k now l : is_u32 (ready_in k now l).
Proof. unfold ready_in, spec_ready. repeat case_match; apply u32_range. Qed.

Lemma spec_add_added k tag index req now l :
  (length l <= k_cap k)%nat →
  let r := spec_add (Z.of_nat (k_cap k)) (k_lat k) (k_pip k) tag index req now l in added k now req l r.1 r.2.
Proof.
  intros Hle. unfold spec_add. destruct (Z.eqb_spec (Z.of_nat (length l)) (Z.of_nat (k_cap k))) as [Hf|Hf]; simpl.
  { constructor. lia. }
  assert (Hnew : added k now req l true (l ++ [mkEntry req (ready_in k now l) tag index])).
  { by apply added_new; [lia|..]. }
  destruct (last_dup tag index l) as [i|]; simpl; [|done].
  destruct (l !! i) as [e|] eqn:He; [|done]. destruct (fromCPU (e_req e)) eqn:Hf1; [done|].
  destruct (fromCPU req) eqn:Hf2; [apply (added_over k now req l i e)|apply added_dup]; try done.
  all: simpl; lia.
Qed.

(** [add] brings in one processor load, when it is one and is accepted. *)
Lemma added_pending k now r l ok l' :
  added k now r l ok l' → pending l' = (pending l + if ok && cpu_load r then 1 else 0)%nat.
Proof.
  intros [Hl|e Hl He _|i e Hl He Hf Hr|Hl Hr]; simpl.
  - lia.
  - rewrite pending_app. simpl. rewrite He. lia.
  - by apply (pending_alter r i l e).
  - unfold cpu_load. rewrite Hr. simpl. lia.
Qed.

Lemma added_Forall (Q : Request → Prop) k now r l ok l' :
  added k now r l ok l' → Q r → Forall (fun e => Q (e_req e)) l → Forall (fun e => Q (e_req e)) l'.
Proof.
  intros [Hl|e Hl He _|i e Hl He Hf Hr|Hl Hr] Hq Hall; try done.
  - apply Forall_app. split; [done|]. apply Forall_singleton. by rewrite He.
  - by apply (Forall_alter_req (fun e => Q (e_req e)) r i l e).
Qed.

Lemma added_ready_Forall (Q : Z → Prop) k now r l ok l' :
  added k now r l ok l' → Q (ready_in k now l) → Forall (fun e => Q (e_ready e)) l → Forall (fun e => Q (e_ready e)) l'.
Proof.
  intros [Hl|e Hl He Ht|i e Hl He Hf Hr|Hl Hr] Hq Hall; try done.
  - apply Forall_app. split; [done|]. apply Forall_singleton. by rewrite Ht.
  - apply (Forall_alter_req (fun e => Q (e_ready e)) r i l e Hall He). simpl.
    exact (proj1 (Forall_lookup _ l) Hall i e He).
Qed.

Lemma added_ready k now r l ok l' :
  added k now r l ok l' → Forall (fun e => e_ready e < 2 ^ 32) l → Forall (fun e => e_ready e < 2 ^ 32) l'.
Proof. intros Ha. apply (added_ready_Forall (fun t => t < 2 ^ 32) _ _ _ _ _ _ Ha), ready_in_range. Qed.

(** ** The parts *)
Definition is_load (r : Request) : Prop := is_u32 (addr r) ∧ load r = true.
Definition is_store (r : Request) : Prop := is_u32 (addr r) ∧ load r = false ∧ fromCPU r = true.
Definition is_addr (r : Request) : Prop := is_u32 (addr r).

(** The kind of a queue, and the range of its ready times. *)
Definition limits (k : queue_kind) (q : memQueue.memQueue) (l : list entry) : Prop :=
  (memQueue._capacity q = Z.of_nat (k_cap k) ∧ memQueue._latency q = k_lat k ∧ memQueue._pipelined q = k_pip k) ∧
  Forall (fun e => e_ready e < 2 ^ 32) l.

Section parts.
Context {CR : CRand} {P : Prefetcher} {POk : PrefetcherOk}.

(** The lists [lw], [l2], [lm] are the write buffer, the L2 queue and the memory
    queue. *)
Record parts (s : Sim) (lw l2 lm : list entry) : Prop := {
  p_D : ∃ sets, cache_rep 2 4 10 (DCache s) sets;
  p_L2 : ∃ sets, cache_rep 8 5 10 (L2Cache s) sets;
  p_pf : pf_ok (prefetcher s);
  p_wb : queue_rep (writeBuffer s) lw;
  p_q2 : queue_rep (queueL2 s) l2;
  p_qm : queue_rep (queueMem s) lm;
  p_stores : Forall (fun e => is_store (e_req e)) lw;
  p_loads : Forall (fun e => is_load (e_req e)) l2;
  p_addrs : Forall (fun e => is_addr (e_req e)) lm;
  p_lwb : limits kind_wb (writeBuffer s) lw;
  p_lq2 : limits kind_l2 (queueL2 s) l2;
  p_lqm : limits kind_mem (queueMem s) lm;
  p_cycle : is_u32 (curr_cycle s);
}.

Lemma access_DCache_ok s lw l2 lm r :
  parts s lw l2 lm → is_u32 (addr r) →
  ∃ d, access_DCache s r = Some (with_DCache s d (generator s)) ∧ parts (with_DCache s d (generator s)) lw l2 lm.
Proof.
  intros Hp Ha. destruct (p_D _ _ _ _ Hp) as [sets Hd].
  destruct (access_rep 2 4 10 (DCache s) sets (addr r) (load r) (generator s) Hd Ha) as (d & E & _ & Hd').
  exists d. unfold access_DCache. rewrite E. split; [done|]. destruct Hp. split; try done. by eexists.
Qed.

Lemma access_L2Cache_ok s lw l2 lm r :
  parts s lw l2 lm → is_u32 (addr r) →
  ∃ d, access_L2Cache s r = Some (with_L2Cache s d (generator s)) ∧ parts (with_L2Cache s d (generator s)) lw l2 lm.
Proof.
  intros Hp Ha. destruct (p_L2 _ _ _ _ Hp) as [sets Hd].
  destruct (access_rep 8 5 10 (L2Cache s) sets (addr r) (load r) (generator s) Hd Ha) as (d & E & _ & Hd').
  exists d. unfold access_L2Cache. rewrite E. split; [done|]. destruct Hp. split; try done. by eexists.
Qed.

Lemma check_D_ok s lw l2 lm r : parts s lw l2 lm → is_u32 (addr r) → ∃ h, Cache.check (DCache s) (addr r) (load r) = Some h.
Proof. intros Hp Ha. destruct (p_D _ _ _ _ Hp) as [sets Hd]. eexists. by apply (check_rep 2 4 10 (DCache s) sets). Qed.

Lemma check_L2_ok s lw l2 lm r : parts s lw l2 lm → is_u32 (addr r) → ∃ h, Cache.check (L2Cache s) (addr r) (load r) = Some h.
Proof. intros Hp Ha. destruct (p_L2 _ _ _ _ Hp) as [sets Hd]. eexists. by apply (check_rep 8 5 10 (L2Cache s) sets). Qed.

(** Adding to a queue, seen from the list. *)
Lemma add_list_ok c b st q l r cyc k (Q : Request → Prop) :
  geometry c b st → is_u32 (addr r) → queue_rep q l → limits k q l →
  Q r → Forall (fun e => Q (e_req e)) l →
  ∃ ok q' l', memQueue.add c q r cyc = Some (ok, q') ∧ queue_rep q' l' ∧ Forall (fun e => Q (e_req e)) l' ∧
    limits k q' l' ∧ added k cyc r l ok l'.
Proof.
  intros Hg Ha Hq [(Hcap & Hlat & Hpip) Hlim] HQ Hl. destruct (add_ok c b st q l r cyc Hg Ha Hq) as (q' & E & Hsame & Hq').
  pose proof (qr_le q l Hq) as Hle. rewrite Hcap, Hlat, Hpip in E, Hq'. rewrite Hcap in Hle.
  pose proof (spec_add_added k (set_tag b st (addr r)) (set_index b st (addr r)) r cyc l ltac:(lia)) as Hadd. cbv zeta in Hadd.
  eexists _, q', _. split; [exact E|]. split; [exact Hq'|]. split; [by eapply added_Forall|]. split; [|exact Hadd].
  split; [|by eapply added_ready]. destruct Hsame as (_ & -> & -> & _ & ->). done.
Qed.

Lemma add_queueL2_ok s lw l2 lm r :
  parts s lw l2 lm → is_load r →
  ∃ ok q l2', add_queueL2 s r = Some (ok, with_queueL2 s q) ∧ parts (with_queueL2 s q) lw l2' lm ∧
    added kind_l2 (curr_cycle s) r l2 ok l2'.
Proof.
  intros Hp Hr. destruct (p_D _ _ _ _ Hp) as [sets Hd].
  destruct (add_list_ok (DCache s) 4 10 (queueL2 s) l2 r (curr_cycle s) kind_l2 is_load (rep_geo _ _ _ _ _ Hd)
    (proj1 Hr) (p_q2 _ _ _ _ Hp) (p_lq2 _ _ _ _ Hp) Hr (p_loads _ _ _ _ Hp))
    as (ok & q & l2' & E & Hq & Hl & Hlim & Hadd).
  exists ok, q, l2'. unfold add_queueL2. rewrite E. split; [done|]. split; [|done]. destruct Hp. by split.
Qed.

Lemma add_writeBuffer_ok s lw l2 lm r :
  parts s lw l2 lm → is_store r →
  ∃ ok q lw', add_writeBuffer s r = Some (ok, with_writeBuffer s q) ∧ parts (with_writeBuffer s q) lw' l2 lm ∧
    added kind_wb (curr_cycle s) r lw ok lw'.
Proof.
  intros Hp Hr. destruct (p_D _ _ _ _ Hp) as [sets Hd].
  destruct (add_list_ok (DCache s) 4 10 (writeBuffer s) lw r (curr_cycle s) kind_wb is_store (rep_geo _ _ _ _ _ Hd)
    (proj1 Hr) (p_wb _ _ _ _ Hp) (p_lwb _ _ _ _ Hp) Hr (p_stores _ _ _ _ Hp))
    as (ok & q & lw' & E & Hq & Hl & Hlim & Hadd).
  exists ok, q, lw'. unfold add_writeBuffer. rewrite E. split; [done|]. split; [|done]. destruct Hp. by split.
Qed.

Lemma add_queueMem_ok s lw l2 lm r :
  parts s lw l2 lm → is_addr r →
  ∃ ok q lm', add_queueMem s r = Some (ok, with_queueMem s q) ∧ parts (with_queueMem s q) lw l2 lm' ∧
    added kind_mem (curr_cycle s) r lm ok lm'.
Proof.
  intros Hp Hr. destruct (p_L2 _ _ _ _ Hp) as [sets Hd].
  destruct (add_list_ok (L2Cache s) 5 10 (queueMem s) lm r (curr_cycle s) kind_mem is_addr (rep_geo _ _ _ _ _ Hd)
    Hr (p_qm _ _ _ _ Hp) (p_lqm _ _ _ _ Hp) Hr (p_addrs _ _ _ _ Hp))
    as (ok & q & lm' & E & Hq & Hl & Hlim & Hadd).
  exists ok, q, lm'. unfold add_queueMem. rewrite E. split; [done|]. split; [|done]. destruct Hp. by split.
Qed.

(** Removing the front. *)
Lemma remove_queue_ok k q e l : queue_rep q (e :: l) → limits k q (e :: l) →
  queue_rep (memQueue.remove q).2 l ∧ limits k (memQueue.remove q).2 l.
Proof.
  intros Hq [Hc Hl]. destruct (remove_ok q _ Hq) as (q' & -> & (_ & Ec & El & _ & Ep) & Hq'). split; [done|].
  apply Forall_cons in Hl as [_ Hl]. split; [simpl; by rewrite Ec, El, Ep|done].
Qed.

Lemma remove_queueL2_ok s lw e l2 lm : parts s lw (e :: l2) lm → parts (remove_queueL2 s) lw l2 lm.
Proof.
  intros [? ? ? ? Hq ? ? Hl ? ? Hlim ? ?]. destruct (remove_queue_ok _ _ _ _ Hq Hlim).
  apply Forall_cons in Hl as [_ Hl]. by split.
Qed.

Lemma remove_queueMem_ok s lw e l2 lm : parts s lw l2 (e :: lm) → parts (remove_queueMem s) lw l2 lm.
Proof.
  intros [? ? ? ? ? Hq ? ? Hl ? ? Hlim ?]. destruct (remove_queue_ok _ _ _ _ Hq Hlim).
  apply Forall_cons in Hl as [_ Hl]. by split.
Qed.

Lemma remove_writeBuffer_ok s e lw l2 lm : parts s (e :: lw) l2 lm → parts (remove_writeBuffer s) lw l2 lm.
Proof.
  intros [? ? ? Hq ? ? Hl ? ? Hlim ? ? ?]. destruct (remove_queue_ok _ _ _ _ Hq Hlim).
  apply Forall_cons in Hl as [_ Hl]. by split.
Qed.

(** The last cycle before the counter wraps: every request is ready. *)
Definition last_cycle : Z := 2 ^ 32 - 1.

(** Nothing is ready at the front of a queue. *)
Definition not_ready (now : Z) (l : list entry) : Prop :=
  match l with [] => True | e :: _ => now < e_ready e end.

Lemma not_ready_last l : not_ready last_cycle l → Forall (fun e => e_ready e < 2 ^ 32) l → l = [].
Proof. destruct l as [|e l]; [done|]. simpl. intros Hn [He _]%Forall_cons. unfold last_cycle in Hn. lia. Qed.

(** The front of a queue is ready, or it is not. *)
Lemma front_ok k q l cyc : queue_rep q l → limits k q l →
  memQueue.frontReady q cyc = Some false ∧ not_ready cyc l ∨
  ∃ e l', l = e :: l' ∧ e_ready e <= cyc ∧ memQueue.frontReady q cyc = Some true ∧ memQueue.getFront q = Some (e_req e).
Proof.
  intros Hq [_ Hl]. rewrite (frontReady_ok q l cyc Hq). destruct l as [|e l]; [by left|].
  destruct (Z.leb_spec (e_ready e) cyc); [right|by left].
  exists e, l. split_and!; try done. by eapply getFront_ok.
Qed.

(** Changes that leave the parts alone. *)
Lemma parts_with_cpu s lw l2 lm c : parts s lw l2 lm → parts (with_cpu s c) lw l2 lm.
Proof. intros []. by split. Qed.
Lemma parts_with_counters s lw l2 lm a b c d : parts s lw l2 lm → is_u32 d → parts (with_counters s a b c d) lw l2 lm.
Proof. intros [] ?. by split. Qed.
Lemma parts_count_L2 s lw l2 lm : parts s lw l2 lm → parts (count_L2 s) lw l2 lm.
Proof. intros Hp. apply parts_with_counters; [done|]. exact (p_cycle _ _ _ _ Hp). Qed.
Lemma parts_with_pf s lw l2 lm p g : parts s lw l2 lm → pf_ok p → parts (with_pf s p g) lw l2 lm.
Proof. intros [] ?. by split. Qed.
End parts.

#[export] Hint Resolve parts_with_cpu parts_count_L2 parts_with_pf remove_queueL2_ok
  remove_queueMem_ok remove_writeBuffer_ok : cpp.
