(* ===== verification/SimView.v ===== *)
(** * The simulator's loop, abstractly: an abstract machine and its progress

    What one turn of the loop does to the processor's state and to the contents of
    the three queues, ready times included, whatever the caches and the prefetcher
    answer: each part of the turn is a relation between [view]s.  The machine keeps its invariant
    [view_ok], and a rank decreases: in no part of a turn does it grow, and in a
    turn in the last cycle before the cycle counter wraps it becomes smaller. *)
From S2P Require Import Prelude.
From S2P Require Import Words.
From S2P Require Import MemSim.
From S2P Require Import MemQueueModel.
From S2P Require Import MemQueueSpec.
From S2P Require Import MemQueueProps.
From S2P Require Import SimParts.

(** [v_todo] says which requests of the trace are not complete. *)
Record view : Type := mkView {
  v_todo : todo;
  v_state : cpuState;
  v_wb : list entry;
  v_l2 : list entry;
  v_mem : list entry;
}.

Definition v_left (v : view) : nat := todo_left (v_todo v).

Lemma left_todo v : v_left v ≠ O ↔ v_todo v ≠ None.
Proof. unfold v_left. destruct (v_todo v) as [[t gs]|]; simpl; split; (done || lia). Qed.

(** One when the processor waits for a load, else zero. *)
Definition waiting (st : cpuState) : nat := if decide (st = WAITING) then 1 else 0.

Definition times_ok (l : list entry) : Prop := Forall (fun e => e_ready e < 2 ^ 32) l.

Record view_ok (v : view) : Prop := {
  vo_pending : (pending (v_l2 v) + pending (v_mem v))%nat = waiting (v_state v);
  vo_wb : (length (v_wb v) <= 10)%nat;
  vo_l2 : (length (v_l2 v) <= 20)%nat;
  vo_mem : (length (v_mem v) <= 10)%nat;
  vo_left : v_left v = O → v_state v = IDLE;
  vo_stores : Forall (fun e => load (e_req e) = false) (v_wb v);
  vo_ready : v_state v ≠ READY;
  vo_times : times_ok (v_wb v) ∧ times_ok (v_l2 v) ∧ times_ok (v_mem v);
  vo_todo : ∀ t gs, v_todo v = Some (t, gs) → t < 2 ^ 32;
}.

(** ** The parts of a turn, in cycle [now] *)

(** The request is complete; the processor reads the next. *)
Definition complete (now : Z) (v : view) (w l m : list entry) : view := mkView (next_todo now (v_todo v)) IDLE w l m.

(** The request of an idle processor is ready. *)
Definition due (now : Z) (v : view) : Prop := v_state v = IDLE ∧ ∃ t gs, v_todo v = Some (t, gs) ∧ t <= now.

(** The prefetcher adds at most one request to the L2 queue. *)
Inductive prefetched (now : Z) (l : list entry) : list entry → Prop :=
| prefetched_none : prefetched now l l
| prefetched_add r ok l' : fromCPU r = false → added kind_l2 now r l ok l' → prefetched now l l'.

(** The processor's turn. *)
Inductive turn (now : Z) (v : view) : view → Prop :=
| turn_hit : due now v → turn now v (complete now v (v_wb v) (v_l2 v) (v_mem v))
| turn_load r ok l :
    v_todo v ≠ None → due now v ∨ v_state v = STALLED_L2 →
    cpu_load r = true → added kind_l2 now r (v_l2 v) ok l →
    turn now v (mkView (v_todo v) (if ok : bool then WAITING else STALLED_L2) (v_wb v) l (v_mem v))
| turn_store r ok w l :
    v_todo v ≠ None → due now v ∨ v_state v = STALLED_WB →
    load r = false → added kind_wb now r (v_wb v) ok w → prefetched now (v_l2 v) l →
    turn now v (if ok : bool then complete now v w l (v_mem v) else mkView (v_todo v) STALLED_WB w l (v_mem v))
| turn_wait l :
    v_state v = WAITING ∨ v_state v = IDLE ∧ (∃ t gs, v_todo v = Some (t, gs) ∧ now < t) →
    prefetched now (v_l2 v) l → turn now v (mkView (v_todo v) (v_state v) (v_wb v) l (v_mem v)).

(** The front of the L2 queue, when it is ready, is served from L2 or moves to the
    memory queue. *)
Inductive l2_step (now : Z) (v : view) : view → Prop :=
| l2_quiet : not_ready now (v_l2 v) → l2_step now v v
| l2_done e l :
    v_todo v ≠ None → v_l2 v = e :: l → e_ready e <= now → cpu_load (e_req e) = true →
    l2_step now v (complete now v (v_wb v) l (v_mem v))
| l2_hit e l :
    v_l2 v = e :: l → e_ready e <= now → cpu_load (e_req e) = false →
    l2_step now v (mkView (v_todo v) (v_state v) (v_wb v) l (v_mem v))
| l2_miss e l ok m :
    v_l2 v = e :: l → e_ready e <= now → added kind_mem now (e_req e) (v_mem v) ok m →
    l2_step now v (mkView (v_todo v) (v_state v) (v_wb v) (if ok : bool then l else e :: l) m).

(** The front of the memory queue is served. *)
Inductive mem_step (now : Z) (v : view) : view → Prop :=
| mem_quiet : not_ready now (v_mem v) → mem_step now v v
| mem_done e m :
    v_todo v ≠ None → v_mem v = e :: m → e_ready e <= now → cpu_load (e_req e) = true →
    mem_step now v (complete now v (v_wb v) (v_l2 v) m)
| mem_other e m :
    v_mem v = e :: m → e_ready e <= now → cpu_load (e_req e) = false →
    mem_step now v (mkView (v_todo v) (v_state v) (v_wb v) (v_l2 v) m).

(** The front of the write buffer is written to L2 or moves to the memory queue. *)
Inductive wb_step (now : Z) (v : view) : view → Prop :=
| wb_quiet : not_ready now (v_wb v) → wb_step now v v
| wb_hit e w :
    v_wb v = e :: w → e_ready e <= now → wb_step now v (mkView (v_todo v) (v_state v) w (v_l2 v) (v_mem v))
| wb_miss e w ok m :
    v_wb v = e :: w → e_ready e <= now → added kind_mem now (e_req e) (v_mem v) ok m →
    wb_step now v (mkView (v_todo v) (v_state v) (if ok : bool then w else e :: w) (v_l2 v) m).

(** One turn of the loop. *)
Inductive cycle_step (now : Z) (v : view) : view → Prop :=
| one_cycle v1 v2 v3 v' :
    turn now v v1 → l2_step now v1 v2 → mem_step now v2 v3 → wb_step now v3 v' → cycle_step now v v'.

(** The views the machine reaches from [v0], with the cycle they are reached in. *)
Inductive machine_run (v0 : view) : Z → view → Prop :=
| run_start : machine_run v0 1 v0
| run_turn now v v' :
    machine_run v0 now v → v_left v ≠ O → cycle_step now v v' → machine_run v0 (u32 (now + 1)) v'.

(** ** The invariant *)
Lemma added_length k now r l ok l' :
  added k now r l ok l' → (length l <= k_cap k)%nat → (length l' <= k_cap k)%nat ∧ (length l' <= S (length l))%nat.
Proof. intros [] Hl; rewrite ?length_app, ?length_alter; simpl; lia. Qed.

Lemma added_refused k now r l l' : added k now r l false l' → l' = l ∧ length l = k_cap k.
Proof. by inversion 1. Qed.

Lemma added_accepted k now r l l' :
  added k now r l true l' → (length l < k_cap k)%nat ∧ (length l' <= S (length l))%nat.
Proof. inversion 1; subst; rewrite ?length_app, ?length_alter; simpl; lia. Qed.

Lemma prefetched_keeps now l l' : prefetched now l l' → (length l <= 20)%nat → times_ok l →
  pending l' = pending l ∧ (length l' <= 20)%nat ∧ times_ok l'.
Proof.
  intros [|r ok l1 Hr Ha] Hl Ht; [done|]. destruct (added_length _ _ _ _ _ _ Ha Hl). split; [|split; [done|by eapply added_ready]].
  rewrite (added_pending _ _ _ _ _ _ Ha). unfold cpu_load. rewrite Hr. destruct ok; simpl; lia.
Qed.

Lemma cpu_load_store r : load r = false → cpu_load r = false.
Proof. intros H. unfold cpu_load. by rewrite H, andb_false_r. Qed.

Lemma next_todo_range now t t' gs' : next_todo now t = Some (t', gs') → t' < 2 ^ 32.
Proof. destruct t as [[t [|g gs]]|]; simpl; try done. intros [= <- <-]. apply u32_range. Qed.

(** The invariant of a view, with its fields. *)
Lemma mk_view_ok t st w l m :
  (pending l + pending m)%nat = waiting st → (length w <= 10)%nat → (length l <= 20)%nat → (length m <= 10)%nat →
  (todo_left t = O → st = IDLE) → Forall (fun e => load (e_req e) = false) w → st ≠ READY →
  times_ok w ∧ times_ok l ∧ times_ok m → (∀ r gs, t = Some (r, gs) → r < 2 ^ 32) → view_ok (mkView t st w l m).
Proof. by split. Qed.

(** Completing the request keeps it, when the processor no longer waits. *)
Lemma complete_view_ok now v w l m :
  (pending l + pending m)%nat = O → (length w <= 10)%nat → (length l <= 20)%nat → (length m <= 10)%nat →
  Forall (fun e => load (e_req e) = false) w → times_ok w ∧ times_ok l ∧ times_ok m → view_ok (complete now v w l m).
Proof. intros. apply mk_view_ok; try done. intros r gs. apply next_todo_range. Qed.

Lemma todo_some t : t ≠ None → todo_left t ≠ O.
Proof. by destruct t as [[]|]. Qed.

Lemma turn_keeps now v v' : view_ok v → turn now v v' → view_ok v'.
Proof.
  intros [Hp Hw Hl Hm H0 Hs Hr (Tw & Tl & Tm) Ht]. destruct v as [t st w l m]; simpl in *.
  intros [[Hst _]|r ok l' Hn Hst Hrl Ha|r ok w' l' Hn Hst Hrl Ha Hpre|l' Hst Hpre]; simpl in *.
  - subst st. by apply complete_view_ok.
  - destruct (added_length _ _ _ _ _ _ Ha Hl). pose proof (added_ready _ _ _ _ _ _ Ha Tl).
    apply mk_view_ok; try done; [| |by destruct ok].
    + rewrite (added_pending _ _ _ _ _ _ Ha), Hrl.
      assert (waiting st = O) by (by destruct Hst as [[Hst _]| ->]; [simpl in Hst; rewrite Hst|]).
      destruct ok; unfold waiting in *; simpl in *; lia.
    + intros E. by destruct (todo_some t Hn).
  - destruct (added_length _ _ _ _ _ _ Ha Hw), (prefetched_keeps _ _ _ Hpre Hl Tl) as (Hpl & Hll & Tl').
    pose proof (added_ready _ _ _ _ _ _ Ha Tw).
    assert (Hw0 : waiting st = O) by (by destruct Hst as [[Hst _]| ->]; [simpl in Hst; rewrite Hst|]).
    assert (Hs' : Forall (fun e => load (e_req e) = false) w') by (by eapply (added_Forall (fun r => load r = false))).
    destruct ok; [apply complete_view_ok; try done; lia|]. apply mk_view_ok; try done; [unfold waiting in *; simpl in *; lia|].
    intros E. by destruct (todo_some t Hn).
  - destruct (prefetched_keeps _ _ _ Hpre Hl Tl) as (Hpl & Hll & Tl'). apply mk_view_ok; try done. by rewrite Hpl.
Qed.

Lemma l2_keeps now v v' : view_ok v → l2_step now v v' → view_ok v'.
Proof.
  intros Hv. pose proof Hv as [Hp Hw Hl Hm H0 Hs Hr (Tw & Tl & Tm) Ht].
  intros [Hq|e l Hn E Hre He|e l E Hre He|e l ok m E Hre Ha]; [done|rewrite E in *; simpl in *; pose proof Tl as [_ Tl']%Forall_cons..].
  - rewrite He in Hp. apply complete_view_ok; try done; [|lia]. unfold waiting in Hp. case_decide; lia.
  - rewrite He in Hp. apply mk_view_ok; try done; lia.
  - destruct (added_length _ _ _ _ _ _ Ha Hm). pose proof (added_pending _ _ _ _ _ _ Ha) as Hpm.
    pose proof (added_ready _ _ _ _ _ _ Ha Tm).
    apply mk_view_ok; try done; [|by destruct ok; simpl; lia|by destruct ok]. rewrite Hpm. destruct ok; simpl in *; lia.
Qed.

Lemma mem_keeps now v v' : view_ok v → mem_step now v v' → view_ok v'.
Proof.
  intros Hv. pose proof Hv as [Hp Hw Hl Hm H0 Hs Hr (Tw & Tl & Tm) Ht].
  intros [Hq|e m Hn E Hre He|e m E Hre He]; [done|rewrite E in *; simpl in *; pose proof Tm as [_ Tm']%Forall_cons..];
    rewrite He in Hp.
  - apply complete_view_ok; try done; [|lia]. unfold waiting in Hp. case_decide; lia.
  - apply mk_view_ok; try done; lia.
Qed.

Lemma wb_keeps now v v' : view_ok v → wb_step now v v' → view_ok v'.
Proof.
  intros Hv. pose proof Hv as [Hp Hw Hl Hm H0 Hs Hr (Tw & Tl & Tm) Ht].
  intros [Hq|e w E Hre|e w ok m E Hre Ha]; [done|rewrite E in *; simpl in *; apply Forall_cons in Hs as [He Hs];
    pose proof Tw as [_ Tw']%Forall_cons..].
  - apply mk_view_ok; try done; lia.
  - destruct (added_length _ _ _ _ _ _ Ha Hm). pose proof (added_pending _ _ _ _ _ _ Ha) as Hpm.
    pose proof (added_ready _ _ _ _ _ _ Ha Tm).
    rewrite (cpu_load_store _ He), andb_false_r, Nat.add_0_r in Hpm.
    apply mk_view_ok; try done; [by rewrite Hpm|destruct ok; simpl; lia| |by destruct ok]. destruct ok; [done|by constructor].
Qed.

(** ** Progress *)

(** How many entries are in front of the first processor load. *)
Fixpoint pos (l : list entry) : nat :=
  match l with
  | [] => O
  | e :: l => if cpu_load (e_req e) then O else S (pos l)
  end.

Lemma pos_none l : pending l = O → pos l = length l.
Proof. induction l as [|e l IH]; simpl; [done|]. destruct (cpu_load (e_req e)); simpl; [done|]. intros H. by rewrite IH. Qed.

Lemma pos_le l : (pos l <= length l)%nat.
Proof. induction l as [|e l IH]; simpl; [done|]. destruct (cpu_load (e_req e)); lia. Qed.

Lemma pos_app l e : pending (l ++ [e]) ≠ O → (pos (l ++ [e]) <= pos l)%nat.
Proof. induction l as [|e' l IH]; simpl; destruct (cpu_load _); simpl; lia. Qed.

Lemma pos_alter r k l : (pos (alter (set_req r) k l) <= pos l)%nat ∨ (∃ e, l !! k = Some e ∧ cpu_load (e_req e) = true).
Proof.
  revert k. induction l as [|e l IH]; intros [|k]; simpl; [by left..| |].
  - destruct (cpu_load (e_req e)) eqn:He; [right; by exists e|]. left. destruct (cpu_load r); lia.
  - change (list_alter (set_req r) k l) with (alter (set_req r) k l).
    destruct (cpu_load (e_req e)); [left; lia|]. destruct (IH k) as [H|H]; [left; lia|by right].
Qed.

(** Adding never puts anything in front of the processor's load. *)
Lemma added_pos k now r l ok l' : added k now r l ok l' → pending l' ≠ O → (pos l' <= pos l)%nat.
Proof.
  intros [Hl|e Hl He Ht|i e Hl He Hf Hr|Hl Hr] Hp; try done.
  - by apply pos_app.
  - destruct (pos_alter r i l) as [H|(e' & He' & Hc)]; [done|]. rewrite He in He'. injection He' as <-.
    unfold cpu_load in Hc. by rewrite Hf in Hc.
Qed.

Lemma prefetched_pos now l l' : prefetched now l l' → (length l <= 20)%nat → times_ok l → pending l ≠ O → (pos l' <= pos l)%nat.
Proof.
  intros Hpre Hl Ht Hp. destruct (prefetched_keeps _ _ _ Hpre Hl Ht) as [Hp' _].
  destruct Hpre as [|r ok l1 Hr Ha]; [done|]. apply (added_pos _ _ _ _ _ _ Ha). by rewrite Hp'.
Qed.

(** How far the current request is from completion. *)
Definition phase (v : view) : Z :=
  match v_state v with
  | IDLE | READY => 2 ^ 17
  | STALLED_L2 => 3 * 2 ^ 15 + Z.of_nat (length (v_l2 v)) * 2 ^ 10 + Z.of_nat (length (v_wb v)) * 2 ^ 5 + Z.of_nat (length (v_mem v))
  | STALLED_WB => 2 * 2 ^ 15 + Z.of_nat (length (v_wb v)) * 2 ^ 5
  | WAITING =>
      if (pending (v_l2 v) =? 0)%nat then Z.of_nat (pos (v_mem v))
      else 2 ^ 15 + Z.of_nat (pos (v_l2 v)) * 2 ^ 10 + Z.of_nat (length (v_wb v)) * 2 ^ 5 + Z.of_nat (length (v_mem v))
  end.

Definition rank (v : view) : Z := Z.of_nat (v_left v) * 2 ^ 18 + phase v.

Lemma phase_range v : view_ok v → 0 <= phase v <= 2 ^ 17.
Proof.
  intros [Hp Hw Hl Hm H0 Hs _ _ _]. unfold phase. pose proof (pos_le (v_l2 v)). pose proof (pos_le (v_mem v)).
  repeat case_match; lia.
Qed.

(** Completing a request makes the rank smaller. *)
Lemma next_todo_left now t : t ≠ None → S (todo_left (next_todo now t)) = todo_left t.
Proof. by destruct t as [[t [|g gs]]|]. Qed.

Lemma complete_rank now v w l m : view_ok v → v_todo v ≠ None → rank (complete now v w l m) < rank v.
Proof.
  intros Hv Hn. pose proof (phase_range v Hv). pose proof (next_todo_left now _ Hn) as E.
  unfold rank, v_left, complete. simpl. unfold phase at 1. simpl. lia.
Qed.

(** The processor's turn. *)
Lemma turn_rank now v v' : view_ok v → turn now v v' → rank v' <= rank v.
Proof.
  intros Hv Ht. pose proof Hv as [Hp Hw Hl Hm H0 Hs Hnr (Tw & Tl & Tm) Hto].
  destruct Ht as [Hdue|r ok l' Hn Hst Hr Ha|r ok w' l' Hn Hst Hr Ha Hpre|l' Hst Hpre].
  - apply Z.lt_le_incl, complete_rank; [done|]. by destruct Hdue as (_ & t & gs & -> & _).
  - pose proof (phase_range _ (turn_keeps now v _ Hv (turn_load now v r ok l' Hn Hst Hr Ha))) as Hr'.
    unfold rank, v_left. simpl. destruct v as [t st w l m]; simpl in *. destruct Hst as [[Hst _]|Hst]; simpl in Hst; subst st.
    + unfold phase at 2. simpl. lia.
    + destruct ok.
      * clear Hr'. unfold phase. simpl.
        destruct (added_length _ _ _ _ _ _ Ha Hl). pose proof (pos_le l'). pose proof (pos_le m). simpl in *. case_match; lia.
      * destruct (added_refused _ _ _ _ _ Ha) as [-> _]. unfold phase. simpl. lia.
  - destruct ok; [by apply Z.lt_le_incl, complete_rank|].
    destruct (added_refused _ _ _ _ _ Ha) as [-> _]. unfold rank, v_left. simpl.
    destruct v as [t st w l m]; simpl in *. destruct Hst as [[Hst _]|Hst]; simpl in Hst; subst st; unfold phase; simpl; lia.
  - destruct v as [t st w l m]; simpl in *. destruct (prefetched_keeps _ _ _ Hpre Hl Tl) as [Hpl _]. unfold rank, v_left. simpl.
    destruct Hst as [->|[-> _]]; unfold phase; simpl; [|lia]. rewrite Hpl.
    destruct (Nat.eqb_spec (pending l) 0) as [|Hn]; [lia|]. pose proof (prefetched_pos _ _ _ Hpre Hl Tl Hn). lia.
Qed.

(** In the last cycle, a processor that is not held up completes its request or
    takes it to a queue. *)
Lemma turn_last v v' : view_ok v → v_left v ≠ O → turn last_cycle v v' →
  rank v' < rank v ∨ v_state v' = WAITING ∨
  v_state v' = STALLED_L2 ∧ v_l2 v' ≠ [] ∨ v_state v' = STALLED_WB ∧ length (v_wb v') = 10%nat.
Proof.
  intros Hv Hn [Hdue|r ok l' Hn' Hst Hr1 Ha|r ok w' l' Hn' Hst Hr1 Ha Hpre|l' Hst Hpre]; simpl in *.
  - left. apply complete_rank; [done|]. by apply left_todo.
  - right. destruct ok; [by left|right; left]. destruct (added_refused _ _ _ _ _ Ha) as [-> E]. split; [done|].
    intros E'. by rewrite E' in E.
  - destruct ok; [left; by apply complete_rank|]. right. right. right.
    by destruct (added_refused _ _ _ _ _ Ha) as [-> E].
  - right. left. destruct Hst as [|[_ (t & gs & E & Hlt)]]; [done|]. pose proof (vo_todo v Hv t gs E). unfold last_cycle in Hlt. lia.
Qed.

(** The processor is held up by the L2 queue. *)
Definition held_by_l2 (v : view) : Prop :=
  v_state v = STALLED_L2 ∨ v_state v = WAITING ∧ pending (v_l2 v) ≠ O.

(** The services. A part that takes the front of a queue makes the rank smaller
    when the processor is held up by that queue. *)
Lemma l2_rank now v v' : view_ok v → l2_step now v v' →
  rank v' <= rank v ∧ (now = last_cycle → v_l2 v ≠ [] → held_by_l2 v → rank v' < rank v ∨ v' = v ∧ v_mem v ≠ []).
Proof.
  intros Hv Hs. pose proof Hv as [Hp Hw Hl Hm H0 _ Hnr (Tw & Tl & Tm) Hto].
  destruct Hs as [Hq|e l1 Hn E Hre He|e l1 E Hre He|e l1 ok m1 E Hre Ha].
  - split; [done|]. intros -> Hne. destruct Hne. by apply not_ready_last.
  - pose proof (complete_rank now v (v_wb v) l1 (v_mem v) Hv Hn). split; [lia|]. by left.
  - destruct v as [t st w l m]. simpl in *. subst l. simpl in Hp, Hl. rewrite He in Hp.
    unfold rank, v_left, phase, held_by_l2. simpl. rewrite He.
    destruct st; simpl; (split; [|intros _ _ [Hc|[Hc Hc']]; try done; left]); try lia;
      destruct (Nat.eqb_spec (pending l1) 0); lia.
  - destruct v as [t st w l m]. simpl in *. subst l. destruct ok.
    + destruct (added_accepted _ _ _ _ _ Ha) as [_ Hlen]. pose proof (added_pos _ _ _ _ _ _ Ha) as Hpos.
      pose proof (added_pending _ _ _ _ _ _ Ha) as Hpm. simpl in Hp, Hpm, Hl. pose proof (pos_le m1).
      unfold rank, v_left, phase, held_by_l2. simpl.
      destruct st; simpl; (split; [|intros _ _ [Hc|[Hc Hc']]; try done; left]); try lia;
        destruct (cpu_load (e_req e)); simpl in *; unfold waiting in Hp; simpl in Hp;
        destruct (Nat.eqb_spec (pending l1) 0); lia.
    + destruct (added_refused _ _ _ _ _ Ha) as [-> E]. split; [done|]. intros _ _ _. right. split; [done|].
      intros E'. by rewrite E' in E.
Qed.

(** Serving the L2 queue does not concern a processor that waits for the memory
    queue, or for the write buffer. *)
Lemma l2_wait now v v' : view_ok v → l2_step now v v' → v_state v = WAITING → pending (v_l2 v) = O →
  v_state v' = WAITING ∧ v_mem v' ≠ [].
Proof.
  intros [Hp _ _ _ _ _ _ _ _] Hs Hst Hz. rewrite Hst, Hz in Hp.
  assert (Hm : ∀ m, pending m = 1%nat → m ≠ []) by (by intros m Hm ->).
  destruct Hs as [Hq|e l1 Hk E Hre He|e l1 E Hre He|e l1 ok m1 E Hre Ha]; simpl; try (split; [done|by apply Hm]).
  - rewrite E in Hz. simpl in Hz. by rewrite He in Hz.
  - split; [done|]. apply Hm. rewrite (added_pending _ _ _ _ _ _ Ha). rewrite E in Hz. simpl in Hz, Hp.
    destruct (cpu_load (e_req e)); [done|]. unfold waiting in Hp. simpl in Hp. rewrite andb_false_r. lia.
Qed.

Lemma l2_stalled_wb now v v' : view_ok v → l2_step now v v' → v_state v = STALLED_WB →
  v_state v' = STALLED_WB ∧ v_wb v' = v_wb v.
Proof.
  intros [Hp _ _ _ _ _ _ _ _] Hs Hst. rewrite Hst in Hp.
  destruct Hs as [Hq|e l1 Hk E Hre He|e l1 E Hre He|e l1 ok m1 E Hre Ha]; simpl; try done.
  rewrite E in Hp. simpl in Hp. by rewrite He in Hp.
Qed.

Lemma mem_rank now v v' : view_ok v → mem_step now v v' →
  rank v' <= rank v ∧
  (now = last_cycle → v_mem v ≠ [] → v_state v = STALLED_L2 ∨ v_state v = WAITING → rank v' < rank v) ∧
  (now = last_cycle → (length (v_mem v') < 10)%nat) ∧
  (v_state v = STALLED_WB → v_state v' = STALLED_WB ∧ v_wb v' = v_wb v).
Proof.
  intros Hv Hs. pose proof Hv as [Hp Hw Hl Hm H0 _ Hnr (Tw & Tl & Tm) Hto].
  destruct Hs as [Hq|e m1 Hn E Hre He|e m1 E Hre He].
  - split_and!; try done; [intros -> Hne; destruct Hne; by apply not_ready_last|].
    intros ->. rewrite (not_ready_last _ Hq Tm). simpl. lia.
  - pose proof (complete_rank now v (v_wb v) (v_l2 v) m1 Hv Hn). rewrite E in Hm, Hp. simpl in Hm, Hp. rewrite He in Hp.
    split_and!; try (intros; lia); [intros; simpl; lia|]. intros Hst. rewrite Hst in Hp. unfold waiting in Hp. simpl in Hp. lia.
  - destruct v as [t st w l m]. simpl in *. subst m. simpl in Hp, Hm. rewrite He in Hp.
    unfold rank, v_left, phase. simpl. rewrite He. split_and!; try done; try (intros; lia).
    + destruct st; simpl; try lia. destruct (Nat.eqb_spec (pending l) 0); lia.
    + intros _ _ [->| ->]; simpl; [lia|]. destruct (Nat.eqb_spec (pending l) 0); lia.
Qed.

Lemma wb_rank now v v' : view_ok v → wb_step now v v' →
  rank v' <= rank v ∧
  (now = last_cycle → v_wb v ≠ [] → (length (v_mem v) < 10)%nat → v_state v = STALLED_WB → rank v' < rank v).
Proof.
  intros Hv Hs. pose proof Hv as [Hp Hw Hl Hm H0 Hst Hnr (Tw & Tl & Tm) Hto].
  destruct Hs as [Hq|e w1 E Hre|e w1 ok m1 E Hre Ha].
  - split; [done|]. intros -> Hne. destruct Hne. by apply not_ready_last.
  - destruct v as [t st w l m]. simpl in *. subst w. unfold rank, v_left, phase. simpl.
    split; [|intros _ _ _ ->; simpl; lia]. repeat case_match; simpl in *; lia.
  - destruct v as [t st w l m]. simpl in *. subst w. apply Forall_cons in Hst as [He _]. destruct ok.
    + destruct (added_accepted _ _ _ _ _ Ha) as [_ Hlen]. pose proof (added_pos _ _ _ _ _ _ Ha) as Hpos.
      pose proof (added_pending _ _ _ _ _ _ Ha) as Hpm. rewrite (cpu_load_store _ He) in Hpm. simpl in Hpm.
      unfold rank, v_left, phase. simpl. split; [|intros _ _ _ ->; simpl; lia].
      destruct st; simpl; try lia. unfold waiting in Hp. simpl in Hp. destruct (Nat.eqb_spec (pending l) 0); lia.
    + destruct (added_refused _ _ _ _ _ Ha) as [-> E]. split; [done|]. simpl in E. lia.
Qed.

(** A turn of the loop never moves the processor's request backwards, and in the
    last cycle before the counter wraps it moves it forwards. *)
Lemma cycle_progress now v v' : view_ok v → v_left v ≠ O → cycle_step now v v' →
  view_ok v' ∧ rank v' <= rank v ∧ (now = last_cycle → rank v' < rank v).
Proof.
  intros H0 Hn [v1 v2 v3 v4 Ht Hl Hm Hw].
  pose proof (turn_keeps _ _ _ H0 Ht) as H1. pose proof (l2_keeps _ _ _ H1 Hl) as H2.
  pose proof (mem_keeps _ _ _ H2 Hm) as H3. pose proof (wb_keeps _ _ _ H3 Hw) as H4.
  pose proof (turn_rank _ _ _ H0 Ht) as R1. destruct (l2_rank _ _ _ H1 Hl) as [R2 R2'].
  destruct (mem_rank _ _ _ H2 Hm) as (R3 & R3' & Hroom & Hkeep). destruct (wb_rank _ _ _ H3 Hw) as [R4 R4'].
  split; [done|]. split; [lia|]. intros ->. destruct (turn_last _ _ H0 Hn Ht) as [?|[Hst|[[Hst Hne]|[Hst Hfull]]]]; [lia|..].
  - destruct (decide (pending (v_l2 v1) = O)) as [Hp|Hp].
    + destruct (l2_wait _ _ _ H1 Hl Hst Hp) as [Hst2 Hm2].
      specialize (R3' eq_refl Hm2 (or_intror Hst2)). lia.
    + assert (Hne : v_l2 v1 ≠ []) by (by intros E; rewrite E in Hp).
      destruct (R2' eq_refl Hne (or_intror (conj Hst Hp))) as [?|[E Hm1]]; [lia|]. subst v2.
      specialize (R3' eq_refl Hm1 (or_intror Hst)). lia.
  - destruct (R2' eq_refl Hne (or_introl Hst)) as [?|[E Hm1]]; [lia|]. subst v2.
    specialize (R3' eq_refl Hm1 (or_introl Hst)). lia.
  - destruct (l2_stalled_wb _ _ _ H1 Hl Hst) as [Hst2 Hw2]. destruct (Hkeep Hst2) as [Hst3 Hw3].
    assert (Hne : v_wb v3 ≠ []) by (intros E; rewrite <- Hw2, <- Hw3, E in Hfull; done).
    specialize (R4' eq_refl Hne (Hroom eq_refl) Hst3). lia.
Qed.
