(* ===== verification/SimInvariant.v ===== *)
(** * The simulator's invariant: the loop

    Every turn of the loop is defined, whatever the prefetcher, and is a turn of
    the abstract machine of [SimView]; so the loop ends. *)
From S2P Require Import Prelude.
From S2P Require Import Words.
From S2P Require Import MemSim.
From S2P Require Import TraceFormat.
From S2P Require Import CacheModel.
From S2P Require Import CacheSpec.
From S2P Require Import CacheProps.
From S2P Require Import MemQueueModel.
From S2P Require Import MemQueueSpec.
From S2P Require Import CpuModel.
From S2P Require Import PrefetcherInterface.
From S2P Require Import Simulator.
From S2P Require Import SimParts.
From S2P Require Import SimView.
Import Sim.

(** Enter the continuation of a call that returned. *)
Ltac bind_step := cbn [mbind option_bind].

Section invariant.
Context {CR : CRand} {P : Prefetcher} {POk : PrefetcherOk} (total : nat).

(** [v] is what the abstract machine sees of the state [s]. *)
Record sim_view (s : Sim) (v : view) : Prop := {
  sv_parts : parts s (v_wb v) (v_l2 v) (v_mem v);
  sv_cpu : cpu_ok total (v_todo v) (cpu s);
  sv_state : CPU._state (cpu s) = v_state v;
  sv_ok : view_ok v;
}.

(** A part [f] of the turn is defined, and does what [R] says. *)
Definition does (f : Sim → option Sim) (R : view → view → Prop) (s : Sim) (v : view) : Prop :=
  ∃ s' v', f s = Some s' ∧ R v v' ∧ sim_view s' v' ∧ curr_cycle s' = curr_cycle s.

Lemma does_intro f R s v s' v' :
  f s = Some s' → R v v' → view_ok v' → curr_cycle s' = curr_cycle s →
  parts s' (v_wb v') (v_l2 v') (v_mem v') → cpu_ok total (v_todo v') (cpu s') → CPU._state (cpu s') = v_state v' →
  does f R s v.
Proof. intros. by exists s', v'. Qed.

Lemma cpu_complete_ok s t :
  cpu_ok total t (cpu s) → t ≠ None →
  ∃ c, cpu_complete s = Some (with_cpu s c) ∧ cpu_ok total (next_todo (curr_cycle s) t) c ∧ CPU._state c = IDLE.
Proof.
  intros Hc Ht. unfold cpu_complete.
  destruct (completeRequest_cpu_ok total t (cpu s) (curr_cycle s) Hc Ht) as (c & -> & ? & ?). by exists c.
Qed.

(** A part that ends with the completion of the request. *)
Lemma does_complete f (R : view → view → Prop) s v s1 w l m :
  let v' := complete (curr_cycle s) v w l m in
  f s = cpu_complete s1 → R v v' → view_ok v' → curr_cycle s1 = curr_cycle s →
  parts s1 w l m → cpu_ok total (v_todo v) (cpu s1) → v_todo v ≠ None → does f R s v.
Proof.
  intros v' Hf HR Hv Hcyc Hp Hc Hn. destruct (cpu_complete_ok s1 _ Hc Hn) as (c & E & Hc' & Hi).
  rewrite E in Hf. rewrite Hcyc in Hc'. apply (does_intro f R s v (with_cpu s1 c) v' Hf HR Hv Hcyc).
  - by apply parts_with_cpu.
  - done.
  - done.
Qed.

(** ** The processor's turn *)
Lemma cpu_ready_ok s v :
  view_ok v → parts s (v_wb v) (v_l2 v) (v_mem v) → cpu_ok total (v_todo v) (cpu s) → due (curr_cycle s) v →
  does cpu_ready (turn (curr_cycle s)) s v.
Proof.
  intros Hv Hp Hc Hdue. assert (Hn : v_todo v ≠ None) by (by destruct Hdue as (_ & t & gs & -> & _)).
  pose proof (proj2 (cpu_left _ _ _ Hc) Hn) as Hd.
  destruct (cpu_req total _ _ Hc Hd) as [Ha Hpc]. pose proof (cpu_from total _ _ Hc) as Hfrom.
  set (req0 := set_issuedAt (CPU._currReq (cpu s)) (curr_cycle s)).
  destruct (check_D_ok s _ _ _ req0 Hp Ha) as [isHit Hcheck].
  set (req := set_HitL1 req0 isHit). set (c := CPU.hitL1 (CPU.set_req (cpu s) req0) isHit).
  destruct (cpuRequest_ok (prefetcher s) req (generator s) (p_pf _ _ _ _ Hp)) as (p & g & Hpf & Hpfok); [done|].
  set (s1 := with_pf (with_cpu s c) p g).
  assert (Hc1 : cpu_ok total (v_todo v) c) by (by apply (cpu_ok_flags total _ (cpu s))).
  assert (Hp1 : parts s1 (v_wb v) (v_l2 v) (v_mem v)) by (by apply parts_with_pf, Hpfok; apply parts_with_cpu).
  assert (E : cpu_ready s = if isHit then s ← access_DCache s1 req; cpu_complete s
    else if load req then
      '(ok, s) ← add_queueL2 (count_L2 s1) req; Some (cpu_setStatus s (if ok : bool then WAITING else STALLED_L2))
    else
      '(ok, s) ← add_writeBuffer (count_L2 s1) req; if ok : bool then cpu_complete s else Some (cpu_setStatus s STALLED_WB)).
  { unfold cpu_ready, CPU.issueRequest. fold req0. cbv beta iota zeta. rewrite Hcheck. bind_step. cbv zeta.
    change (prefetcher (with_cpu s (CPU.hitL1 _ isHit))) with (prefetcher s).
    change (generator (with_cpu s (CPU.hitL1 _ isHit))) with (generator s). fold req. rewrite Hpf. reflexivity. }
  assert (Hp2 : parts (count_L2 s1) (v_wb v) (v_l2 v) (v_mem v)) by (by apply parts_count_L2).
  destruct isHit; [|destruct (load req) eqn:Hl].
  - destruct (access_DCache_ok s1 _ _ _ req Hp1 Ha) as (d & Hacc & Hp3). rewrite Hacc in E. bind_step.
    pose proof (turn_hit (curr_cycle s) v Hdue) as Ht.
    by apply (does_complete _ _ s v _ _ _ _ E Ht (turn_keeps _ _ _ Hv Ht)).
  - destruct (add_queueL2_ok _ _ _ _ req Hp2) as (ok & q & l2' & Hadd & Hp3 & Hl2); [by split|]. rewrite Hadd in E.
    assert (Ht : turn (curr_cycle s) v (mkView (v_todo v) (if ok then WAITING else STALLED_L2) (v_wb v) l2' (v_mem v))).
    { apply (turn_load _ _ req); [done|by left| |done]. unfold cpu_load. by rewrite Hl, andb_true_r. }
    apply (does_intro _ _ s v _ _ E Ht (turn_keeps _ _ _ Hv Ht)); try done.
    + by apply parts_with_cpu.
    + apply setStatus_ok; [done..|by destruct ok].
  - destruct (add_writeBuffer_ok _ _ _ _ req Hp2) as (ok & q & lw' & Hadd & Hp3 & Hlw); [by split_and!|]. rewrite Hadd in E.
    pose proof (turn_store (curr_cycle s) v req ok lw' (v_l2 v) Hn (or_introl Hdue) Hl Hlw (prefetched_none _ _)) as Ht.
    destruct ok.
    + by apply (does_complete _ _ s v _ _ _ _ E Ht (turn_keeps _ _ _ Hv Ht)).
    + apply (does_intro _ _ s v _ _ E Ht (turn_keeps _ _ _ Hv Ht)); try done.
      * by apply parts_with_cpu.
      * by apply setStatus_ok.
Qed.

Lemma prefetch_ok s lw l2 lm :
  parts s lw l2 lm → ∃ s' l2', prefetch s = Some s' ∧ parts s' lw l2' lm ∧ cpu s' = cpu s ∧
    curr_cycle s' = curr_cycle s ∧ prefetched (curr_cycle s) l2 l2'.
Proof.
  intros Hp. unfold prefetch. destruct (hasRequest (prefetcher s) (curr_cycle s)) eqn:Hh.
  2:{ exists s, l2. split_and!; try done. constructor. }
  set (req := set_load (set_fromCPU (getRequest (prefetcher s) (curr_cycle s)) false) true).
  destruct (add_queueL2_ok (count_L2 s) lw l2 lm req) as (ok & q & l2' & -> & Hp2 & Hl2); [by apply parts_count_L2| |].
  { split; [|done]. exact (getRequest_ok _ _ (p_pf _ _ _ _ Hp) Hh). }
  assert (Hpre : prefetched (curr_cycle s) l2 l2') by (by apply (prefetched_add _ l2 req ok)).
  simpl. destruct ok; [|by eexists _, l2'].
  destruct (completeRequest_ok (prefetcher s) (curr_cycle s) (p_pf _ _ _ _ Hp) Hh) as (p' & -> & Hpf). bind_step.
  eexists _, l2'. split; [done|]. split; [by apply parts_with_pf|done].
Qed.

Lemma cpu_turn_ok s v : sim_view s v → v_left v ≠ O → does cpu_turn (turn (curr_cycle s)) s v.
Proof.
  intros [Hp Hc Hst Hv] Hn%left_todo.
  destruct (getStatus_ok total _ (cpu s) (curr_cycle s) Hc Hn) as (c & Hget & Hc1 & Hreq & Hstc).
  set (s1 := with_cpu s c). assert (Hp1 : parts s1 (v_wb v) (v_l2 v) (v_mem v)) by (by apply parts_with_cpu).
  destruct (prefetch_ok s1 _ _ _ Hp1) as (s2 & l2' & Hpre & Hp2 & Hc2 & Hcyc2 & Hl2).
  pose proof (cpu_from total _ _ Hc1) as Hfrom. pose proof (cpu_state total _ _ Hc1) as Hso.
  assert (E : cpu_turn s = match CPU._state c with
    | READY => cpu_ready s1 | WAITING | IDLE => prefetch s1
    | STALLED_WB => s ← prefetch s1; retry_writeBuffer s | STALLED_L2 => retry_queueL2 s1 end).
  { unfold cpu_turn. by rewrite Hget. }
  pose proof (proj2 (cpu_left _ _ _ Hc1) Hn) as Hd1. pose proof (cpu_req total _ _ Hc1 Hd1) as [Ha1 _].
  destruct (cpu_trace total _ _ Hc (proj2 (cpu_left _ _ _ Hc) Hn)) as (_ & gs & Et & _).
  unfold status_of in Hstc. rewrite Hst in Hstc. rewrite Hstc in E, Hso.
  assert (Hwait : v_state v = WAITING ∨ v_state v = IDLE ∧ (∃ t gs, v_todo v = Some (t, gs) ∧ curr_cycle s < t) →
    CPU._state c = v_state v → cpu_turn s = prefetch s1 → does cpu_turn (turn (curr_cycle s)) s v).
  { intros Hw Hsame E'. rewrite Hpre in E'.
    pose proof (turn_wait (curr_cycle s) v l2' Hw Hl2) as Ht.
    apply (does_intro _ _ s v _ _ E' Ht (turn_keeps _ _ _ Hv Ht)); simpl; rewrite ?Hc2; done. }
  destruct (v_state v) eqn:Ev.
  - destruct (Z.leb_spec (CPU._readyAt (cpu s)) (curr_cycle s)) as [Hle|Hgt].
    + destruct (cpu_ready_ok s1 v Hv Hp1 Hc1) as (s' & v' & H1 & H2 & H3 & H4); [by split; [|eexists _, _]|].
      exists s', v'. by rewrite E.
    + apply Hwait; [right; split; [done|by eexists _, _]|done|done].
  - by destruct (vo_ready v Hv).
  - apply Hwait; by auto.
  - unfold retry_queueL2, CPU.getRequest in E. change (cpu s1) with c in E.
    destruct (add_queueL2_ok s1 _ _ _ (CPU._currReq c) Hp1) as (ok & q & l & Hadd & Hp3 & Hl); [by split|].
    rewrite Hadd in E.
    assert (Ht : turn (curr_cycle s) v (mkView (v_todo v) (if ok then WAITING else STALLED_L2) (v_wb v) l (v_mem v))).
    { apply (turn_load _ _ (CPU._currReq c)); [done|by right| |done]. unfold cpu_load. simpl in Hso. by rewrite Hso, Hfrom. }
    apply (does_intro _ _ s v _ _ E Ht (turn_keeps _ _ _ Hv Ht)); destruct ok; try done.
    + by apply parts_with_cpu.
    + by apply setStatus_ok.
  - rewrite Hpre in E. cbn [mbind option_bind] in E. unfold retry_writeBuffer, CPU.getRequest in E. rewrite Hc2 in E.
    destruct (add_writeBuffer_ok s2 _ _ _ (CPU._currReq c) Hp2) as (ok & q & w & Hadd & Hp3 & Hw); [by split_and!|].
    change (cpu s1) with c in E. rewrite Hadd in E. rewrite Hcyc2 in Hw.
    pose proof (turn_store (curr_cycle s) v (CPU._currReq c) ok w l2' Hn (or_intror Ev) Hso Hw Hl2) as Ht.
    destruct ok.
    + apply (does_complete _ _ s v _ _ _ _ E Ht (turn_keeps _ _ _ Hv Ht)); try done. simpl. by rewrite Hc2.
    + apply (does_intro _ _ s v _ _ E Ht (turn_keeps _ _ _ Hv Ht)); try done; simpl; by rewrite Hc2.
Qed.

(** ** The services *)
Lemma loadHitL2_cpu_ok n c h : cpu_ok total n c → cpu_ok total n (CPU.loadHitL2 c h).
Proof. intros Hc. by apply (cpu_ok_flags total n c). Qed.

Lemma storeHitL2_cpu_ok n c h : cpu_ok total n c → cpu_ok total n (CPU.storeHitL2 c h).
Proof. intros Hc. unfold CPU.storeHitL2. destruct h; [|done]. by apply (cpu_ok_flags total n c). Qed.

(** A processor load in a queue is the request of a processor that waits. *)
Lemma load_pending v : view_ok v → (pending (v_l2 v) + pending (v_mem v) ≠ 0)%nat → v_todo v ≠ None.
Proof.
  intros Hv Hp E. rewrite (vo_pending v Hv), (vo_left v Hv) in Hp; [done|]. unfold v_left. by rewrite E.
Qed.

Lemma service_L2_ok s v : sim_view s v → does service_L2 (l2_step (curr_cycle s)) s v.
Proof.
  intros Hs. pose proof Hs as [Hp Hc Hst Hv].
  destruct (front_ok _ (queueL2 s) _ (curr_cycle s) (p_q2 _ _ _ _ Hp) (p_lq2 _ _ _ _ Hp))
    as [[Hf Hq]|(e & l & El & Hre & Hf & Hg)].
  { exists s, v. split_and!; [unfold service_L2; by rewrite Hf|by apply l2_quiet|done|done]. }
  pose proof Hp as Hp0. rewrite El in Hp0.
  pose proof (p_loads _ _ _ _ Hp0) as Hl. apply Forall_cons in Hl as [[Ha Hload] _].
  destruct (check_L2_ok s _ _ _ (e_req e) Hp Ha) as [isHit Hch].
  set (s1 := with_cpu s (CPU.loadHitL2 (cpu s) isHit)).
  assert (E : service_L2 s = if isHit then
      s ← access_DCache s1 (e_req e); s ← (if fromCPU (e_req e) then cpu_complete s else Some s); Some (remove_queueL2 s)
    else '(ok, s) ← add_queueMem s1 (e_req e); Some (if ok : bool then remove_queueL2 s else s)).
  { unfold service_L2. rewrite Hf. bind_step. rewrite Hg. bind_step. by rewrite Hch. }
  assert (Hp1 : parts s1 (v_wb v) (e :: l) (v_mem v)) by (by apply parts_with_cpu).
  assert (Hc1 : cpu_ok total (v_todo v) (cpu s1)) by (by apply loadHitL2_cpu_ok).
  assert (Hcl : cpu_load (e_req e) = fromCPU (e_req e)) by (unfold cpu_load; by rewrite Hload, andb_true_r).
  destruct isHit.
  - destruct (access_DCache_ok s1 _ _ _ (e_req e) Hp1 Ha) as (d & Hacc & Hp2). rewrite Hacc in E. bind_step.
    destruct (fromCPU (e_req e)) eqn:Hfrom.
    + assert (Hn : v_todo v ≠ None) by (apply (load_pending v Hv); rewrite El; simpl; by rewrite Hcl).
      destruct (cpu_complete_ok (with_DCache s1 d (generator s1)) _ Hc1 Hn) as (c' & Hcomp & Hc' & Hi).
      cbn [mbind option_bind] in E. rewrite Hcomp in E.
      pose proof (l2_done (curr_cycle s) v e l Hn El Hre Hcl) as Ht.
      apply (does_intro _ _ s v _ _ E Ht (l2_keeps _ _ _ Hv Ht)); try done.
      apply (remove_queueL2_ok _ _ e). by apply parts_with_cpu.
    + pose proof (l2_hit (curr_cycle s) v e l El Hre Hcl) as Ht.
      apply (does_intro _ _ s v _ _ E Ht (l2_keeps _ _ _ Hv Ht)); try done. by apply (remove_queueL2_ok _ _ e).
  - destruct (add_queueMem_ok s1 _ _ _ (e_req e) Hp1 Ha) as (ok & q & m & Hadd & Hp2 & Hm). rewrite Hadd in E.
    pose proof (l2_miss (curr_cycle s) v e l ok m El Hre Hm) as Ht.
    apply (does_intro _ _ s v _ _ E Ht (l2_keeps _ _ _ Hv Ht)); destruct ok; try done.
    by apply (remove_queueL2_ok _ _ e).
Qed.

Lemma service_mem_ok s v : sim_view s v → does service_mem (mem_step (curr_cycle s)) s v.
Proof.
  intros Hs. pose proof Hs as [Hp Hc Hst Hv].
  destruct (front_ok _ (queueMem s) _ (curr_cycle s) (p_qm _ _ _ _ Hp) (p_lqm _ _ _ _ Hp))
    as [[Hf Hq]|(e & m & Em & Hre & Hf & Hg)].
  { exists s, v. split_and!; [unfold service_mem; by rewrite Hf|by apply mem_quiet|done|done]. }
  rewrite Em in Hp. pose proof (p_addrs _ _ _ _ Hp) as Hl. apply Forall_cons in Hl as [Ha _].
  assert (Hp1 : parts (remove_queueMem s) (v_wb v) (v_l2 v) m) by (by apply (remove_queueMem_ok _ _ e)).
  destruct (access_L2Cache_ok _ _ _ _ (e_req e) Hp1 Ha) as (d & Hacc & Hp2).
  assert (∃ s2, (if load (e_req e) then access_DCache (with_L2Cache (remove_queueMem s) d (generator (remove_queueMem s))) (e_req e)
    else Some (with_L2Cache (remove_queueMem s) d (generator (remove_queueMem s)))) = Some s2 ∧
    parts s2 (v_wb v) (v_l2 v) m ∧ cpu s2 = cpu s ∧ curr_cycle s2 = curr_cycle s) as (s2 & Hd & Hp3 & Hcpu & Hcyc).
  { destruct (load (e_req e)); [|by eexists].
    destruct (access_DCache_ok _ _ _ _ (e_req e) Hp2 Ha) as (d2 & -> & Hp3). by eexists. }
  assert (E : service_mem s = if cpu_load (e_req e) then cpu_complete s2 else Some s2).
  { unfold service_mem. rewrite Hf. bind_step. rewrite Hg. bind_step. cbv zeta. rewrite Hacc. bind_step. by rewrite Hd. }
  destruct (cpu_load (e_req e)) eqn:Hcl.
  - assert (Hn : v_todo v ≠ None) by (apply (load_pending v Hv); rewrite Em; simpl; rewrite Hcl; lia).
    pose proof (mem_done (curr_cycle s) v e m Hn Em Hre Hcl) as Ht.
    apply (does_complete _ _ s v _ _ _ _ E Ht (mem_keeps _ _ _ Hv Ht)); try done. by rewrite Hcpu.
  - pose proof (mem_other (curr_cycle s) v e m Em Hre Hcl) as Ht.
    apply (does_intro _ _ s v _ _ E Ht (mem_keeps _ _ _ Hv Ht)); simpl; rewrite ?Hcpu; done.
Qed.

Lemma service_writeBuffer_ok s v : sim_view s v → does service_writeBuffer (wb_step (curr_cycle s)) s v.
Proof.
  intros Hs. pose proof Hs as [Hp Hc Hst Hv].
  destruct (front_ok _ (writeBuffer s) _ (curr_cycle s) (p_wb _ _ _ _ Hp) (p_lwb _ _ _ _ Hp))
    as [[Hf Hq]|(e & w & Ew & Hre & Hf & Hg)].
  { exists s, v. split_and!; [unfold service_writeBuffer; by rewrite Hf|by apply wb_quiet|done|done]. }
  rewrite Ew in Hp. pose proof (p_stores _ _ _ _ Hp) as Hl. apply Forall_cons in Hl as [(Ha & Hld & _) _].
  destruct (check_L2_ok s _ _ _ (e_req e) Hp Ha) as [isHit Hch].
  set (s1 := with_cpu s (CPU.storeHitL2 (cpu s) isHit)).
  assert (E : service_writeBuffer s = if isHit then s ← access_L2Cache s1 (e_req e); Some (remove_writeBuffer s)
    else '(ok, s) ← add_queueMem s1 (e_req e); Some (if ok : bool then remove_writeBuffer s else s)).
  { unfold service_writeBuffer. rewrite Hf. bind_step. rewrite Hg. bind_step. by rewrite Hch. }
  assert (Hp1 : parts s1 (e :: w) (v_l2 v) (v_mem v)) by (by apply parts_with_cpu).
  assert (Hc1 : cpu_ok total (v_todo v) (cpu s1)) by (by apply storeHitL2_cpu_ok).
  assert (Hst1 : CPU._state (cpu s1) = v_state v) by (rewrite <- Hst; by destruct isHit).
  destruct isHit.
  - destruct (access_L2Cache_ok s1 _ _ _ (e_req e) Hp1 Ha) as (d & Hacc & Hp2). rewrite Hacc in E. bind_step.
    pose proof (wb_hit (curr_cycle s) v e w Ew Hre) as Ht.
    apply (does_intro _ _ s v _ _ E Ht (wb_keeps _ _ _ Hv Ht)); try done. by apply (remove_writeBuffer_ok _ e).
  - destruct (add_queueMem_ok s1 _ _ _ (e_req e) Hp1 Ha) as (ok & q & m & Hadd & Hp2 & Hm). rewrite Hadd in E.
    pose proof (wb_miss (curr_cycle s) v e w ok m Ew Hre Hm) as Ht.
    apply (does_intro _ _ s v _ _ E Ht (wb_keeps _ _ _ Hv Ht)); destruct ok; try done.
    by apply (remove_writeBuffer_ok _ e).
Qed.

(** ** The loop *)
Lemma sim_view_counters s v a b c d : sim_view s v → is_u32 d → sim_view (with_counters s a b c d) v.
Proof. intros [Hp Hc Hst Hv] Hd. split; try done. by apply parts_with_counters. Qed.

(** One turn of the loop is one turn of the abstract machine. *)
Lemma cycle_ok s v : sim_view s v → v_left v ≠ O →
  ∃ s' v', cycle s = Some s' ∧ cycle_step (curr_cycle s) v v' ∧ sim_view s' v' ∧
    curr_cycle s' = u32 (curr_cycle s + 1).
Proof.
  intros Hs Hn. unfold cycle.
  destruct (cpu_turn_ok s v Hs Hn) as (s1 & v1 & -> & R1 & H1 & E1). bind_step.
  destruct (service_L2_ok s1 v1 H1) as (s2 & v2 & -> & R2 & H2 & E2). bind_step.
  destruct (service_mem_ok s2 v2 H2) as (s3 & v3 & -> & R3 & H3 & E3). bind_step.
  destruct (service_writeBuffer_ok (count_mem s3) v3) as (s4 & v4 & -> & R4 & H4 & E4).
  { apply sim_view_counters; [done|]. exact (p_cycle _ _ _ _ (sv_parts _ _ H3)). }
  bind_step. change (curr_cycle (count_mem s3)) with (curr_cycle s3) in *.
  rewrite E1 in R2. rewrite E2, E1 in R3. rewrite E3, E2, E1 in R4.
  exists (next_cycle s4), v4. split; [done|]. split; [by apply (one_cycle _ v v1 v2 v3)|]. split.
  - apply sim_view_counters; [done|apply u32_range].
  - unfold next_cycle. simpl. congruence.
Qed.

(** The loop's condition. *)
Lemma done_left s v : sim_view s v → CPU.isDone (cpu s) = false ↔ v_left v ≠ O.
Proof. intros [_ Hc _ _]. rewrite left_todo. exact (cpu_left _ _ _ Hc). Qed.

(** Every turn brings the end of the loop nearer. *)
Definition distance (s : Sim) (v : view) : Z := rank v * 2 ^ 32 + (last_cycle - curr_cycle s).

Lemma distance_pos s v : sim_view s v → 0 <= distance s v.
Proof.
  intros [Hp _ _ Hv]. pose proof (p_cycle _ _ _ _ Hp) as Hc. pose proof (phase_range v Hv).
  unfold distance, rank, last_cycle, is_u32 in *. lia.
Qed.

Lemma cycle_nearer s v : sim_view s v → v_left v ≠ O →
  ∃ s' v', cycle s = Some s' ∧ sim_view s' v' ∧ distance s' v' < distance s v.
Proof.
  intros Hs Hn. destruct (cycle_ok s v Hs Hn) as (s' & v' & E & R & Hs' & Hcyc).
  exists s', v'. split; [done|]. split; [done|].
  destruct (cycle_progress _ _ _ (sv_ok _ _ Hs) Hn R) as (_ & Hle & Hlt).
  pose proof (p_cycle _ _ _ _ (sv_parts _ _ Hs)) as Hc. unfold distance, last_cycle in *. unfold is_u32 in Hc.
  destruct (decide (curr_cycle s = 2 ^ 32 - 1)) as [Heq|Hne].
  - specialize (Hlt Heq). rewrite Heq in *. rewrite Hcyc. change (u32 (2 ^ 32 - 1 + 1)) with 0. lia.
  - rewrite Hcyc, u32_small by (unfold is_u32; lia). lia.
Qed.

(** The states of the loop. *)
Definition sim_ok (s : Sim) : Prop := ∃ v, sim_view s v.

Lemma loop_ok fuel : ∀ s, sim_ok s → ∃ ended s', loop fuel s = Some (ended, s') ∧ sim_ok s'.
Proof.
  induction fuel as [|fuel IH]; intros s [v Hs]; simpl; destruct (CPU.isDone (cpu s)) eqn:Hd;
    try (eexists _, s; split; [done|by exists v]).
  destruct (cycle_nearer s v Hs) as (s' & v' & -> & Hs' & _); [by apply (done_left s v Hs)|].
  bind_step. apply IH. by exists v'.
Qed.

Lemma loop_ends fuel : ∀ s v, sim_view s v → distance s v < Z.of_nat fuel → ∃ s', loop fuel s = Some (true, s').
Proof.
  induction fuel as [|fuel IH]; intros s v Hs Hd; [pose proof (distance_pos s v Hs); lia|].
  simpl. destruct (CPU.isDone (cpu s)) eqn:Hdone; [by exists s|].
  destruct (cycle_nearer s v Hs) as (s' & v' & -> & Hs' & Hlt); [by apply (done_left s v Hs)|].
  bind_step. apply (IH s' v' Hs'). lia.
Qed.

(** The view before the loop, for a trace with the gaps [gs]. *)
Definition first_view (gs : list Z) : view := mkView (next_todo 0 (Some (0, gs))) IDLE [] [] [].

Lemma first_view_left gs : v_left (first_view gs) = length gs.
Proof. by destruct gs. Qed.

(** The loop follows the abstract machine. *)
Lemma loop_follows v0 fuel : ∀ s v, sim_view s v → machine_run v0 (curr_cycle s) v →
  ∃ ended s' v', loop fuel s = Some (ended, s') ∧ sim_view s' v' ∧ machine_run v0 (curr_cycle s') v'.
Proof.
  induction fuel as [|fuel IH]; intros s v Hs Hr; simpl; destruct (CPU.isDone (cpu s)) eqn:Hd;
    try (by exists true, s, v); try (by exists false, s, v).
  destruct (cycle_ok s v Hs) as (s' & v' & -> & R & Hs' & Hcyc); [by apply (done_left s v Hs)|].
  bind_step. apply (IH s' v' Hs'). rewrite Hcyc. apply (run_turn _ _ v v' Hr); [by apply (done_left s v Hs)|done].
Qed.

Lemma start_ok f gs p g junk_req junk_ready :
  trace_gaps gs f → total = length gs → pf_ok p →
  ∃ s, start (Some f) p g junk_req junk_ready = Some s ∧ sim_view s (first_view gs) ∧ curr_cycle s = 1.
Proof.
  intros Hf Hn Hpf. unfold start.
  destruct (sets_of assocL1 totalSizeL1 lineSizeL1) as [n1 a1] eqn:E1.
  destruct (sets_of assocL2 totalSizeL2 lineSizeL2) as [n2 a2] eqn:E2.
  injection E1 as <- <-. injection E2 as <- <-.
  destruct (CPU_new_ok total f gs junk_req junk_ready Hf Hn) as (c & -> & Hc & Hi). bind_step.
  eexists. split; [reflexivity|]. split; [|done]. split; [|done|exact Hi|].
  - constructor; try (by apply Forall_nil); try (apply new_queue_ok; lia); try (split; [done|by apply Forall_nil]).
    + eexists. apply (fresh_rep 2 4 10 false true). unfold geometry_args. lia.
    + eexists. apply (fresh_rep 8 5 10 true false). unfold geometry_args. lia.
    + exact Hpf.
    + unfold is_u32. simpl. lia.
  - apply mk_view_ok; try done; try (simpl; lia); [by split_and!; apply Forall_nil|].
    intros r gs'. exact (next_todo_range 0 (Some (0, gs)) r gs').
Qed.
End invariant.
