(* ===== verification/SimProps.v ===== *)
(** * Properties of the simulator *)
From S2P Require Import Prelude.
From S2P Require Import Words.
From S2P Require Import MemSim.
From S2P Require Import TraceFormat.
From S2P Require Import Memtracer.
From S2P Require Import CacheModel.
From S2P Require Import CacheSpec.
From S2P Require Import CacheProps.
From S2P Require Import MemQueueModel.
From S2P Require Import MemQueueSpec.
From S2P Require Import MemQueueProps.
From S2P Require Import CpuModel.
From S2P Require Import PrefetcherInterface.
From S2P Require Import SimplePrefetchers.
From S2P Require Import Simulator.
From S2P Require Import SimParts.
From S2P Require Import SimView.
From S2P Require Import SimInvariant.
Import Sim.

Section properties.
Context {CR : CRand} {P : Prefetcher}.

(** [s] is the state after some turns of the loop on the trace [f]. *)
Definition reached (f : chars) (p : pf) (g : rng) (jr : Request) (j : Z) (fuel : nat) (ended : bool) (s : Sim) : Prop :=
  ∃ s0, start (Some f) p g jr j = Some s0 ∧ loop fuel s0 = Some (ended, s).

Lemma reached_ok {POk : PrefetcherOk} gs f p g jr j fuel ended s :
  trace_gaps gs f → pf_ok p → reached f p g jr j fuel ended s →
  ∃ v, sim_view (length gs) s v ∧ machine_run (first_view gs) (curr_cycle s) v.
Proof.
  intros Hf Hp (s0 & Hs0 & Hl). destruct (start_ok (length gs) f gs p g jr j Hf eq_refl Hp) as (s1 & Hs1 & Hok & Hc).
  rewrite Hs0 in Hs1. injection Hs1 as <-.
  destruct (loop_follows (length gs) (first_view gs) fuel s0 _ Hok) as (e & s' & v & Hl' & Hv & Hr).
  { rewrite Hc. constructor. }
  rewrite Hl in Hl'. injection Hl' as -> ->. by exists v.
Qed.

Lemma reached_view {POk : PrefetcherOk} n f p g jr j fuel ended s :
  trace_lines n f → pf_ok p → reached f p g jr j fuel ended s → ∃ v, sim_view n s v.
Proof.
  intros (gs & <- & Hf)%trace_lines_gaps Hp Hr. destruct (reached_ok gs f p g jr j fuel ended s Hf Hp Hr) as (v & Hv & _). by exists v.
Qed.

(** With enough turns the loop ends: every turn but the last cycle's brings the
    counter nearer to its end, and there a request moves. *)
Lemma loop_finishes {POk : PrefetcherOk} n f p g jr j fuel :
  trace_lines n f → pf_ok p → (Z.of_nat n + 1) * 2 ^ 50 <= Z.of_nat fuel → ∃ s, reached f p g jr j fuel true s.
Proof.
  intros (gs & <- & Hf)%trace_lines_gaps Hp Hfuel. destruct (start_ok (length gs) f gs p g jr j Hf eq_refl Hp) as (s & Hs & Hv & Hc).
  destruct (loop_ends (length gs) fuel s (first_view gs) Hv) as [s' Hl].
  { unfold distance, rank, phase, last_cycle. rewrite Hc, first_view_left. simpl. lia. }
  by exists s', s.
Qed.


(** C1: the simulator always ends, with its report: no request waits for ever,
    whatever the prefetcher sends through the queues, and although the cycle
    counter and the ready times wrap around. [n + 1] times [2 ^ 50] turns are
    enough for [n] requests. *)
Theorem simulator_ends {POk : PrefetcherOk} n f p g jr j fuel
    (Hf : trace_lines n f) (Hp : pf_ok p) (Hfuel : (Z.of_nat n + 1) * 2 ^ 50 <= Z.of_nat fuel) :
  ∃ r, main fuel (Some f) p g jr j = Some (Some r).
Proof.
  destruct (loop_finishes n f p g jr j fuel Hf Hp Hfuel) as (s & s0 & Hs0 & Hl).
  unfold main. rewrite Hs0. bind_step. rewrite Hl. by eexists.
Qed.

(** C6: the loop follows the abstract machine of [SimView], turn by turn: the
    state of every run on a trace whose requests are [gs] cycles apart is seen by
    it as a view it reaches in as many cycles; a request not yet complete is ready
    when the machine says. *)
Theorem simulator_follows_machine {POk : PrefetcherOk} gs f p g jr j fuel ended s
    (Hf : trace_gaps gs f) (Hp : pf_ok p) (Hr : reached f p g jr j fuel ended s) :
  ∃ v, machine_run (first_view gs) (curr_cycle s) v ∧
    contents (writeBuffer s) = v_wb v ∧ contents (queueL2 s) = v_l2 v ∧ contents (queueMem s) = v_mem v ∧
    CPU._state (cpu s) = v_state v ∧ (CPU.isDone (cpu s) = true ↔ v_left v = O) ∧
    (CPU.isDone (cpu s) = false → ∃ rest, v_todo v = Some (CPU._readyAt (cpu s), rest)) ∧
    CPU.nRequests (cpu s) = u32 (Z.of_nat (length gs) - Z.of_nat (pred (v_left v))).
Proof.
  destruct (reached_ok gs f p g jr j fuel ended s Hf Hp Hr) as (v & [Hpt Hc Hst _] & Hrun). exists v. split; [done|].
  split; [exact (contents_rep _ _ (p_wb _ _ _ _ Hpt))|]. split; [exact (contents_rep _ _ (p_q2 _ _ _ _ Hpt))|].
  split; [exact (contents_rep _ _ (p_qm _ _ _ _ Hpt))|]. split; [done|]. unfold CPU.isDone.
  destruct (CPU._done (cpu s)) eqn:Hd.
  - destruct (cpu_count _ _ _ Hc Hd) as [E ->]. unfold v_left. rewrite E. split; [done|]. split; [done|]. simpl. by rewrite Z.sub_0_r.
  - destruct (cpu_trace _ _ _ Hc Hd) as (f' & rest & E & _ & _ & ->). unfold v_left. rewrite E.
    split; [done|]. split; [by exists rest|done].
Qed.

(** C18: in every state of the loop, the processor waits exactly when one of its
    loads is in the L2 queue or the memory queue, and there is never more than
    that one; the write buffer holds processor stores only, the L2 queue loads only. *)
Theorem processor_waits_for_its_load {POk : PrefetcherOk} n f p g jr j fuel ended s
    (Hf : trace_lines n f) (Hp : pf_ok p) (Hr : reached f p g jr j fuel ended s) :
  (pending (contents (queueL2 s)) + pending (contents (queueMem s)))%nat =
    (if decide (CPU._state (cpu s) = WAITING) then 1 else 0)%nat ∧
  Forall (fun e => load (e_req e) = false ∧ fromCPU (e_req e) = true) (contents (writeBuffer s)) ∧
  Forall (fun e => load (e_req e) = true) (contents (queueL2 s)).
Proof.
  destruct (reached_view n f p g jr j fuel ended s Hf Hp Hr) as (v & [Hpt Hc Hst Hv]).
  rewrite (contents_rep _ _ (p_wb _ _ _ _ Hpt)), (contents_rep _ _ (p_q2 _ _ _ _ Hpt)),
    (contents_rep _ _ (p_qm _ _ _ _ Hpt)), Hst. split; [exact (vo_pending v Hv)|]. split.
  - eapply Forall_impl; [exact (p_stores _ _ _ _ Hpt)|]. by intros e (_ & ? & ?).
  - eapply Forall_impl; [exact (p_loads _ _ _ _ Hpt)|]. by intros e [_ ?].
Qed.

Lemma loop_ended fuel : ∀ s s', loop fuel s = Some (true, s') → CPU._done (cpu s') = true.
Proof.
  induction fuel as [|fuel IH]; intros s s'; simpl; unfold CPU.isDone;
    destruct (CPU._done (cpu s)) eqn:Hd; try (by intros [= <-]).
  destruct (cycle s) as [s1|]; simpl; [apply IH|done].
Qed.


(** When the processor's request is ready, the prefetcher is not given the
    bus to L2, even if the request hits in the D-cache: its pending request stays
    pending and the L2 queue does not change. *)
Theorem hit_turn_gives_no_prefetch s c req s'
    (Hst : CPU.getStatus (cpu s) (curr_cycle s) = (READY, c))
    (Hreq : (CPU.issueRequest c (curr_cycle s)).1 = req)
    (Hhit : Cache.check (DCache s) (addr req) (load req) = Some true)
    (Hrun : cpu_turn s = Some s') :
  queueL2 s' = queueL2 s ∧ nRequestsL2 s' = nRequestsL2 s ∧
  ∃ p g, cpuRequest (prefetcher s) (set_HitL1 req true) (generator s) = Some (p, g) ∧ prefetcher s' = p.
Proof.
  unfold cpu_turn in Hrun. rewrite Hst in Hrun. unfold cpu_ready in Hrun.
  destruct (CPU.issueRequest (cpu (with_cpu s c)) (curr_cycle (with_cpu s c))) as [r c'] eqn:E.
  assert (Er : r = req) by (rewrite <- Hreq; simpl in E; by injection E). subst r.
  change (DCache (with_cpu s c)) with (DCache s) in Hrun. rewrite Hhit in Hrun.
  cbn [mbind option_bind] in Hrun.
  apply bind_Some in Hrun as ([p g] & Hpf & Hrun). cbv beta iota zeta in Hrun.
  apply bind_Some in Hrun as (s1 & Hacc & Hcomp).
  unfold access_DCache in Hacc. apply bind_Some in Hacc as ([[h d] g'] & _ & Hacc). injection Hacc as <-.
  unfold cpu_complete in Hcomp. apply bind_Some in Hcomp as (c2 & _ & Hcomp). injection Hcomp as <-.
  split_and!; try done. by exists p, g.
Qed.

(** The L2 cache's replacement state is not refreshed by the loads that hit
    it: servicing the L2 queue never changes the L2 cache. *)
Theorem l2_load_hits_do_not_refresh s s' (Hrun : service_L2 s = Some s') : L2Cache s' = L2Cache s.
Proof.
  unfold service_L2 in Hrun. apply bind_Some in Hrun as (ready & _ & Hrun).
  destruct ready; [|by injection Hrun as <-].
  apply bind_Some in Hrun as (req & _ & Hrun). apply bind_Some in Hrun as (isHit & _ & Hrun).
  cbv zeta in Hrun. destruct isHit.
  - apply bind_Some in Hrun as (s1 & Hacc & Hrun). apply bind_Some in Hrun as (s2 & Hcomp & Hrun).
    injection Hrun as <-. unfold access_DCache in Hacc.
    apply bind_Some in Hacc as ([[h d] g'] & _ & Hacc). injection Hacc as <-.
    destruct (fromCPU req); [|by injection Hcomp as <-].
    unfold cpu_complete in Hcomp. apply bind_Some in Hcomp as (c2 & _ & Hcomp). by injection Hcomp as <-.
  - apply bind_Some in Hrun as ([ok s1] & Hadd & Hrun). injection Hrun as <-.
    unfold add_queueMem in Hadd. apply bind_Some in Hadd as ([ok' q] & _ & Hadd). injection Hadd as -> <-.
    by destruct ok.
Qed.

(** The L2 hit flag of the processor's current request is overwritten by
    other requests: a prefetch that hits in L2 marks it as an L2 hit, whatever
    the processor is waiting for. *)
Theorem prefetch_hit_marks_processor_request {POk : PrefetcherOk} s lw l2 lm e
    (Hp : parts s lw (e :: l2) lm) (Hpf : fromCPU (e_req e) = false) (Hready : e_ready e <= curr_cycle s)
    (Hhit : Cache.check (L2Cache s) (addr (e_req e)) (load (e_req e)) = Some true) :
  ∃ s', service_L2 s = Some s' ∧
    CPU._currReq (cpu s') = set_HitL2 (CPU._currReq (cpu s)) true ∧ CPU._state (cpu s') = CPU._state (cpu s).
Proof.
  unfold service_L2. rewrite (frontReady_ok _ _ (curr_cycle s) (p_q2 _ _ _ _ Hp)).
  rewrite (proj2 (Z.leb_le _ _) Hready). bind_step.
  rewrite (getFront_ok _ _ _ (p_q2 _ _ _ _ Hp)). bind_step. rewrite Hhit. bind_step.
  assert (Ha : is_u32 (addr (e_req e))).
  { pose proof (p_loads _ _ _ _ Hp) as Hl. by apply Forall_cons in Hl as [[? _] _]. }
  destruct (access_DCache_ok (with_cpu s (CPU.loadHitL2 (cpu s) true)) lw (e :: l2) lm (e_req e)) as (d & -> & _);
    [by apply parts_with_cpu|done|].
  bind_step. rewrite Hpf. bind_step. by eexists.
Qed.
End properties.

(** ** Witnesses: three loads, with the prefetcher of sample-pf *)
#[local] Existing Instance std_rand.
#[local] Existing Instance SamplePf.ops.
#[local] Existing Instance SamplePf.laws.

Definition demo_lines : list line := [mkLine "l" 100 4096 0; mkLine "l" 104 4080 0; mkLine "l" 104 4080 5]%char.
Definition demo_file : chars := demo_lines ≫= print_line.
Definition demo_pf : @pf std_rand SamplePf.ops := SamplePf.Prefetcher_new zeroRequest.

(** The state after [n] turns. *)
Definition demo_blank : Sim :=
  mkSim (fresh 2 4 10 false true) (fresh 8 5 10 true false)
    (CPU.mkCPU None zeroRequest IDLE 0 true 0 0 0 0) demo_pf
    (memQueue.memQueue_new 10 20 true true "a"%char) (memQueue.memQueue_new 20 20 true false "b"%char)
    (memQueue.memQueue_new 10 50 false false "c"%char) (srand 100) 0 0 0 0.
Definition demo_sim (n : nat) : Sim :=
  match (s ← start (Some demo_file) demo_pf (srand 100) zeroRequest 0; loop n s) with
  | Some (_, s) => s
  | None => demo_blank
  end.

Lemma demo_file_gaps : trace_gaps [0; 0; 5] demo_file.
Proof. apply (print_trace_gaps demo_lines). repeat constructor; simpl; unfold is_u32; lia. Qed.

Lemma demo_file_ok : trace_lines 3 demo_file.
Proof. apply trace_lines_gaps. eexists. by split; [|exact demo_file_gaps]. Qed.

Lemma demo_pf_ok : pf_ok demo_pf.
Proof. exact (@SamplePf.sample_new_ok std_rand zeroRequest). Qed.

Lemma demo_reached n : ∃ ended, reached demo_file demo_pf (srand 100) zeroRequest 0 n ended (demo_sim n).
Proof.
  destruct (start_ok 3 demo_file [0; 0; 5] demo_pf (srand 100) zeroRequest 0 demo_file_gaps eq_refl demo_pf_ok) as (s0 & Hs0 & Hok & _).
  destruct (loop_ok 3 n s0) as (ended & s & Hl & _); [by eexists|]. exists ended, s0. split; [exact Hs0|].
  unfold demo_sim. rewrite Hs0. cbn [mbind option_bind]. rewrite Hl. reflexivity.
Qed.


Lemma processor_waits_for_its_load_witness :
  CPU._state (cpu (demo_sim 92)) = WAITING ∧
  (pending (contents (queueL2 (demo_sim 92))) + pending (contents (queueMem (demo_sim 92))))%nat =
    (if decide (CPU._state (cpu (demo_sim 92)) = WAITING) then 1 else 0)%nat ∧
  Forall (fun e => load (e_req e) = false ∧ fromCPU (e_req e) = true) (contents (writeBuffer (demo_sim 92))) ∧
  Forall (fun e => load (e_req e) = true) (contents (queueL2 (demo_sim 92))).
Proof.
  split; [vm_compute; reflexivity|]. destruct (demo_reached 92) as [ended Hr].
  exact (processor_waits_for_its_load 3 demo_file demo_pf (srand 100) zeroRequest 0 92 ended (demo_sim 92)
    demo_file_ok demo_pf_ok Hr).
Defined.

(** Enough turns for [n] requests. *)
Definition demo_fuel (n : Z) : nat := Z.to_nat ((n + 1) * 2 ^ 50).

Lemma demo_fuel_ok n : 0 <= n → (n + 1) * 2 ^ 50 <= Z.of_nat (demo_fuel n).
Proof. intros. unfold demo_fuel. rewrite Z2Nat.id; lia. Qed.

Lemma simulator_ends_witness : ∃ r, main (demo_fuel 3) (Some demo_file) demo_pf (srand 100) zeroRequest 0 = Some (Some r).
Proof.
  exact (simulator_ends 3 demo_file demo_pf (srand 100) zeroRequest 0 (demo_fuel 3) demo_file_ok demo_pf_ok
    (demo_fuel_ok 3 ltac:(lia))).
Defined.

Lemma simulator_follows_machine_witness :
  ∃ v, machine_run (first_view [0; 0; 5]) (curr_cycle (demo_sim 92)) v ∧
    contents (writeBuffer (demo_sim 92)) = v_wb v ∧ contents (queueL2 (demo_sim 92)) = v_l2 v ∧
    contents (queueMem (demo_sim 92)) = v_mem v ∧ CPU._state (cpu (demo_sim 92)) = v_state v ∧
    (CPU.isDone (cpu (demo_sim 92)) = true ↔ v_left v = O) ∧
    (CPU.isDone (cpu (demo_sim 92)) = false → ∃ rest, v_todo v = Some (CPU._readyAt (cpu (demo_sim 92)), rest)) ∧
    CPU.nRequests (cpu (demo_sim 92)) = u32 (Z.of_nat 3 - Z.of_nat (pred (v_left v))).
Proof.
  destruct (demo_reached 92) as [ended Hr].
  exact (simulator_follows_machine [0; 0; 5] demo_file demo_pf (srand 100) zeroRequest 0 92 ended (demo_sim 92)
    demo_file_gaps demo_pf_ok Hr).
Defined.


(** After 176 turns the third load is ready and hits in the D-cache. *)
Definition demo_cpu : CPU.CPU := (CPU.getStatus (cpu (demo_sim 176)) (curr_cycle (demo_sim 176))).2.
Definition demo_hit : Request := (CPU.issueRequest demo_cpu (curr_cycle (demo_sim 176))).1.

Lemma demo_sim_ok n : ∃ v, sim_view 3 (demo_sim n) v.
Proof.
  destruct (demo_reached n) as [ended Hr].
  exact (reached_view 3 _ _ _ _ _ _ _ _ demo_file_ok demo_pf_ok Hr).
Qed.

Lemma hit_turn_gives_no_prefetch_witness :
  ∃ s', cpu_turn (demo_sim 176) = Some s' ∧
    queueL2 s' = queueL2 (demo_sim 176) ∧ nRequestsL2 s' = nRequestsL2 (demo_sim 176) ∧
    ∃ p g, cpuRequest (prefetcher (demo_sim 176)) (set_HitL1 demo_hit true) (generator (demo_sim 176)) = Some (p, g) ∧
      prefetcher s' = p.
Proof.
  assert (H1 : CPU.getStatus (cpu (demo_sim 176)) (curr_cycle (demo_sim 176)) = (READY, demo_cpu))
    by (vm_compute; reflexivity).
  assert (H2 : (CPU.issueRequest demo_cpu (curr_cycle (demo_sim 176))).1 = demo_hit) by (vm_compute; reflexivity).
  assert (H3 : Cache.check (DCache (demo_sim 176)) (addr demo_hit) (load demo_hit) = Some true)
    by (vm_compute; reflexivity).
  assert (H4 : CPU.isDone (cpu (demo_sim 176)) = false) by (vm_compute; reflexivity).
  destruct (demo_sim_ok 176) as [v Hv].
  destruct (cpu_turn_ok 3 (demo_sim 176) v Hv) as (s' & v' & H5 & _); [by apply (done_left 3 _ _ Hv)|].
  exists s'. split; [exact H5|].
  exact (hit_turn_gives_no_prefetch (demo_sim 176) demo_cpu demo_hit s' H1 H2 H3 H5).
Defined.

Lemma l2_load_hits_do_not_refresh_witness :
  memQueue.frontReady (queueL2 (demo_sim 92)) (curr_cycle (demo_sim 92)) = Some true ∧
  ∃ s', service_L2 (demo_sim 92) = Some s' ∧ L2Cache s' = L2Cache (demo_sim 92).
Proof.
  split; [vm_compute; reflexivity|].
  destruct (demo_sim_ok 92) as [v Hv].
  destruct (service_L2_ok 3 (demo_sim 92) v Hv) as (s' & v' & Hs' & _).
  exists s'. split; [exact Hs'|]. exact (l2_load_hits_do_not_refresh (demo_sim 92) s' Hs').
Defined.

(** After 92 turns a prefetch that hits in L2 is at the front of the L2 queue. *)
Definition demo_prefetch : entry := default (mkEntry zeroRequest 0 0 0) (contents (queueL2 (demo_sim 92)) !! 0%nat).

Lemma prefetch_hit_marks_processor_request_witness :
  ∃ s', service_L2 (demo_sim 92) = Some s' ∧
    CPU._currReq (cpu s') = set_HitL2 (CPU._currReq (cpu (demo_sim 92))) true ∧ CPU._state (cpu s') = WAITING.
Proof.
  destruct (demo_sim_ok 92) as (v & [Hp _ _ _]).
  assert (E : v_l2 v = demo_prefetch :: tail (contents (queueL2 (demo_sim 92)))).
  { rewrite <- (contents_rep _ _ (p_q2 _ _ _ _ Hp)). vm_compute. reflexivity. }
  rewrite E in Hp.
  exact (prefetch_hit_marks_processor_request (demo_sim 92) _ _ _ demo_prefetch Hp ltac:(vm_compute; reflexivity)
    ltac:(apply Z.leb_le; vm_compute; reflexivity) ltac:(vm_compute; reflexivity)).
Defined.
