(* ===== verification/SimReport.v ===== *)
(** * What the simulator's report can say

    The counters of a run: how they bound one another as long as no counter
    wraps, and what that makes of the report. The processor has one request at a
    time, so the access times of its requests are disjoint stretches of the run. *)
From S2P Require Import Prelude.
From S2P Require Import Words.
From S2P Require Import MemSim.
From S2P Require Import TraceFormat.
From S2P Require Import CacheModel.
From S2P Require Import MemQueueModel.
From S2P Require Import MemQueueSpec.
From S2P Require Import CpuModel.
From S2P Require Import PrefetcherInterface.
From S2P Require Import Simulator.
From S2P Require Import SimParts.
From S2P Require Import SimView.
From S2P Require Import SimInvariant.
From S2P Require Import SimplePrefetchers.
From S2P Require Import SimProps.
Import Sim.

(** The requests the processor has completed: all it has read but the current one. *)
Definition completed (c : CPU.CPU) : Z := CPU.nRequests c - if CPU._done c then 0 else 1.

(** The processor has issued its request and not completed it. *)
Definition busy (c : CPU.CPU) : bool :=
  match CPU._state c with WAITING | STALLED_L2 | STALLED_WB => true | IDLE | READY => false end.

(** The runs considered: no counter wraps. *)
Definition max_turns : Z := 2 ^ 28.

(** The statistics of the processor at cycle [now], with [wb] stores in the write
    buffer, when it has not been busy since the cycle [idle]. A store that hits in
    L2 can be counted twice: by [completeRequest], when the flag of its request has
    been set by a prefetch, and by [storeHitL2]. *)
Record cpu_tally (idle now wb : Z) (c : CPU.CPU) : Prop := {
  ct_wb : is_u32 wb;
  ct_hitsL1 : 0 <= CPU.hitsL1 c <= completed c;
  ct_hitsL2 : 0 <= CPU.hitsL2 c ∧ CPU.hitsL2 c + wb <= 2 * (completed c - CPU.hitsL1 c);
  ct_time : completed c <= CPU.totalAccessTime c <= now;
  ct_idle : busy c = false → CPU.totalAccessTime c <= idle;
  ct_busy : busy c = true → HitL1 (CPU._currReq c) = false ∧
    CPU.totalAccessTime c < issuedAt (CPU._currReq c) <= now;
}.

(** A processor about to complete its request; a store has just been put in the
    write buffer. *)
Record cpu_due (now wb : Z) (c : CPU.CPU) : Prop := {
  cd_wb : is_u32 wb;
  cd_hitsL1 : 0 <= CPU.hitsL1 c <= completed c;
  cd_hitsL2 : 0 <= CPU.hitsL2 c ∧
    CPU.hitsL2 c + wb <= 2 * (completed c - CPU.hitsL1 c) + if HitL1 (CPU._currReq c) then 0 else 1;
  cd_time : completed c <= CPU.totalAccessTime c < issuedAt (CPU._currReq c);
  cd_issued : issuedAt (CPU._currReq c) <= now;
}.

Lemma due_busy idle now wb c : cpu_tally idle now wb c → busy c = true → cpu_due now wb c.
Proof.
  intros [Hw H1 H2 Ht _ Hb] Hbusy. destruct (Hb Hbusy) as [E ?]. split; try done; rewrite ?E; lia.
Qed.

Lemma readNextRequest_counts c cyc c' :
  CPU.readNextRequest c cyc = Some c' → CPU._done c = false → 0 <= CPU.nRequests c < 2 ^ 32 - 1 →
  completed c' = completed c + 1 ∧ CPU.hitsL1 c' = CPU.hitsL1 c ∧ CPU.hitsL2 c' = CPU.hitsL2 c ∧
  CPU.totalAccessTime c' = CPU.totalAccessTime c ∧ CPU._state c' = CPU._state c.
Proof.
  intros E Hd Hn. unfold CPU.readNextRequest in E. apply bind_Some in E as (f & _ & E).
  apply bind_Some in E as ([r f'] & _ & E). injection E as <-. unfold completed.
  destruct r as [l|]; simpl; rewrite Hd; split_and!; try done; [|lia]. rewrite u32_small by (unfold is_u32; lia). lia.
Qed.

Lemma complete_tally now wb c c' :
  cpu_due now wb c → CPU._done c = false → now <= max_turns → CPU.completeRequest c now = Some c' →
  cpu_tally now now wb c'.
Proof.
  intros [Hw H1 H2 Ht Hi] Hd Hnow. unfold max_turns in Hnow.
  assert (Hc : completed c = CPU.nRequests c - 1) by (unfold completed; by rewrite Hd).
  unfold CPU.completeRequest.
  set (t := (CPU.totalAccessTime (CPU.set_state c IDLE) + u32 (now - issuedAt (CPU._currReq (CPU.set_state c IDLE)) + 1)) mod 2 ^ 64).
  assert (Et : t = CPU.totalAccessTime c + (now - issuedAt (CPU._currReq c) + 1)).
  { unfold t. simpl. rewrite u32_small by (unfold is_u32; lia). rewrite Z.mod_small by lia. lia. }
  clearbody t. simpl. intros E.
  assert (Hgo : ∀ c1, CPU.readNextRequest c1 now = Some c' → CPU._done c1 = false → CPU.nRequests c1 = CPU.nRequests c →
    CPU._state c1 = IDLE → CPU.totalAccessTime c1 = t → 0 <= CPU.hitsL1 c1 <= completed c + 1 →
    0 <= CPU.hitsL2 c1 → CPU.hitsL2 c1 + wb <= 2 * (completed c + 1 - CPU.hitsL1 c1) → cpu_tally now now wb c').
  { intros c1 E1 D1 N1 S1 T1 L1 L2 L3.
    destruct (readNextRequest_counts c1 now c' E1 D1) as (Ec & E2 & E3 & E4 & E5); [lia |].
    assert (completed c1 = completed c) as Ecc by (unfold completed; by rewrite D1, N1, Hd).
    assert (Hnb : busy c' = false) by (unfold busy; by rewrite E5, S1).
    split; rewrite ?Ec, ?E2, ?E3, ?E4, ?T1, ?Et, ?Hnb; try done; lia. }
  destruct (HitL1 (CPU._currReq c)); [|destruct (HitL2 (CPU._currReq c))]; apply (Hgo _ E); simpl; try done;
    unfold is_u32 in Hw; rewrite ?(u32_small (_ + 1)) by (unfold is_u32; lia); lia.
Qed.

(** ** The counters of a state *)
Section tallies.
Context {CR : CRand} {P : Prefetcher} {POk : PrefetcherOk}.

Record tally (idle l2 mem : Z) (s : Sim) : Prop := {
  ta_cpu : cpu_tally idle (curr_cycle s) (memQueue._size (writeBuffer s)) (cpu s);
  ta_l2 : 0 <= nRequestsL2 s <= l2;
  ta_mem : 0 <= memCycles s <= mem;
  ta_queued : memCycles s <= memQsize s <= 10 * memCycles s;
}.

(** What leaves the counters, the processor and the write buffer alone. *)
Definition counted (s : Sim) : CPU.CPU * Z * Z * Z * Z * Z :=
  (cpu s, memQueue._size (writeBuffer s), nRequestsL2 s, memCycles s, memQsize s, curr_cycle s).

Lemma tally_counted idle l2 mem s s' : counted s' = counted s → tally idle l2 mem s → tally idle l2 mem s'.
Proof. intros [= E1 E2 E3 E4 E5 E6] []. split; by rewrite ?E1, ?E2, ?E3, ?E4, ?E5, ?E6. Qed.

Lemma access_DCache_counted s r s' : access_DCache s r = Some s' → counted s' = counted s.
Proof. unfold access_DCache. intros E. apply bind_Some in E as ([[b d] g] & _ & E). by injection E as <-. Qed.

Lemma access_L2Cache_counted s r s' : access_L2Cache s r = Some s' → counted s' = counted s.
Proof. unfold access_L2Cache. intros E. apply bind_Some in E as ([[b d] g] & _ & E). by injection E as <-. Qed.

Lemma add_queueL2_counted s r ok s' : add_queueL2 s r = Some (ok, s') → counted s' = counted s.
Proof. unfold add_queueL2. intros E. apply bind_Some in E as ([b q] & _ & E). by injection E as <- <-. Qed.

Lemma add_queueMem_counted s r ok s' : add_queueMem s r = Some (ok, s') → counted s' = counted s.
Proof. unfold add_queueMem. intros E. apply bind_Some in E as ([b q] & _ & E). by injection E as <- <-. Qed.

Lemma enqueue_size q r tag index cyc q' :
  memQueue.enqueue q r tag index cyc = Some q' → memQueue._size q' = u32 (memQueue._size q + 1).
Proof. unfold memQueue.enqueue. intros E. ub_inv. by subst q'. Qed.

(** An accepted store makes the write buffer longer by one, or replaces another. *)
Lemma add_size c q r cyc ok q' :
  memQueue.add c q r cyc = Some (ok, q') → is_u32 (memQueue._size q) →
  is_u32 (memQueue._size q') ∧ memQueue._size q' <= memQueue._size q + (if ok then 1 else 0).
Proof.
  unfold memQueue.add. intros E Hq. destruct (_ =? _); [injection E as <- <-; split; [done|lia]|].
  ub_inv. destruct x2; [|destruct (fromCPU r)]; ub_inv; subst.
  - rewrite (enqueue_size _ _ _ _ _ _ Hx3). split; [apply u32_range|]. unfold is_u32, u32 in *.
    pose proof (Z.mod_le (memQueue._size q + 1) (2 ^ 32)). lia.
  - unfold memQueue.set_slot in Hx3. ub_inv. subst. simpl. split; [done|lia].
  - split; [done|lia].
Qed.

Lemma remove_size q : is_u32 (memQueue._size q) → 0 < memQueue._size q →
  memQueue._size (memQueue.remove q).2 = memQueue._size q - 1.
Proof.
  intros Hq Hp. unfold memQueue.remove. destruct (Z.eqb_spec (memQueue._size q) 0); [lia|]. simpl.
  apply u32_small. unfold is_u32 in *. lia.
Qed.

(** A cpu whose tally does not depend on what has changed. *)
Lemma tally_cpu idle l2 mem s c :
  tally idle l2 mem s → cpu_tally idle (curr_cycle s) (memQueue._size (writeBuffer s)) c → tally idle l2 mem (with_cpu s c).
Proof. intros []. by split. Qed.

Lemma cpu_complete_tally l2 mem s s' :
  cpu_complete s = Some s' → CPU._done (cpu s) = false → curr_cycle s <= max_turns →
  cpu_due (curr_cycle s) (memQueue._size (writeBuffer s)) (cpu s) →
  0 <= nRequestsL2 s <= l2 → 0 <= memCycles s <= mem → memCycles s <= memQsize s <= 10 * memCycles s →
  tally (curr_cycle s) l2 mem s'.
Proof.
  unfold cpu_complete. intros E Hd Hnow Hdue H1 H2 H3. ub_inv. subst s'. split; try done.
  simpl. by eapply complete_tally.
Qed.

(** The flag of a request that a look-up in L2 sets counts only when the request
    is completed. *)
Lemma loadHitL2_tally idle now wb c h : cpu_tally idle now wb c → cpu_tally idle now wb (CPU.loadHitL2 c h).
Proof. intros []. by split. Qed.

Lemma prefetch_tally idle l2 mem s s' :
  prefetch s = Some s' → tally idle (l2 - 1) mem s → l2 <= max_turns → tally idle l2 mem s' ∧ cpu s' = cpu s ∧ curr_cycle s' = curr_cycle s.
Proof.
  intros E Ht Hl. unfold prefetch in E.
  assert (Ht' : tally idle l2 mem s) by (destruct Ht; split; try done; lia).
  destruct (hasRequest _ _); [|by injection E as <-].
  apply bind_Some in E as ([ok t] & Ha & E). apply add_queueL2_counted in Ha.
  assert (Hc : counted s' = counted (count_L2 s)).
  { rewrite <- Ha. destruct ok; [|by injection E as <-]. ub_inv. by subst. }
  split; [|by injection Hc]. apply (tally_counted _ _ _ _ _ Hc). destruct Ht as [Hc1 Hr Hm Hq]. split; try done.
  unfold max_turns in Hl. simpl. rewrite u32_small by (unfold is_u32; lia). lia.
Qed.
Lemma add_writeBuffer_counted s r ok s' :
  add_writeBuffer s r = Some (ok, s') → is_u32 (memQueue._size (writeBuffer s)) →
  ∃ wb, counted s' = (cpu s, wb, nRequestsL2 s, memCycles s, memQsize s, curr_cycle s) ∧
    is_u32 wb ∧ wb <= memQueue._size (writeBuffer s) + (if ok then 1 else 0).
Proof.
  unfold add_writeBuffer. intros E Hw. apply bind_Some in E as ([b q] & Ha & E). injection E as <- <-.
  destruct (add_size _ _ _ _ _ _ Ha Hw) as [Hq Hle]. by exists (memQueue._size q).
Qed.

(** A request of the processor that has been issued and missed, whether or not its
    state says so yet. *)
Record issued_tally (l2 mem : Z) (s : Sim) : Prop := {
  it_miss : HitL1 (CPU._currReq (cpu s)) = false;
  it_wb : is_u32 (memQueue._size (writeBuffer s));
  it_hitsL1 : 0 <= CPU.hitsL1 (cpu s) <= completed (cpu s);
  it_hitsL2 : 0 <= CPU.hitsL2 (cpu s) ∧
    CPU.hitsL2 (cpu s) + memQueue._size (writeBuffer s) <= 2 * (completed (cpu s) - CPU.hitsL1 (cpu s));
  it_time : completed (cpu s) <= CPU.totalAccessTime (cpu s) < issuedAt (CPU._currReq (cpu s));
  it_issued : issuedAt (CPU._currReq (cpu s)) <= curr_cycle s;
  it_l2 : 0 <= nRequestsL2 s <= l2;
  it_mem : 0 <= memCycles s <= mem;
  it_queued : memCycles s <= memQsize s <= 10 * memCycles s;
}.

Lemma issued_counted l2 mem s s' : counted s' = counted s → issued_tally l2 mem s → issued_tally l2 mem s'.
Proof. intros [= E1 E2 E3 E4 E5 E6] []. split; by rewrite ?E1, ?E2, ?E3, ?E4, ?E5, ?E6. Qed.

(** It goes on waiting, *)
Lemma issued_waits l2 mem s c :
  issued_tally l2 mem s → busy c = true → CPU._currReq c = CPU._currReq (cpu s) →
  completed c = completed (cpu s) → CPU.hitsL1 c = CPU.hitsL1 (cpu s) → CPU.hitsL2 c = CPU.hitsL2 (cpu s) →
  CPU.totalAccessTime c = CPU.totalAccessTime (cpu s) → tally (curr_cycle s) l2 mem (with_cpu s c).
Proof.
  intros [] Hb Er Ec E1 E2 Et. split; try done. split; simpl; rewrite ?Er, ?Ec, ?E1, ?E2, ?Et, ?Hb; try done; try lia. intros _. split; [done|lia].
Qed.

(** or, a store, is complete when the write buffer takes it. *)
Lemma issued_store l2 mem s r ok t :
  issued_tally l2 mem s → add_writeBuffer s r = Some (ok, t) →
  cpu t = cpu s ∧ curr_cycle t = curr_cycle s ∧
  (ok = false → issued_tally l2 mem t) ∧
  ∀ s', ok = true → cpu_complete t = Some s' → CPU._done (cpu s) = false → curr_cycle s <= max_turns →
    tally (curr_cycle s) l2 mem s'.
Proof.
  intros [Hm Hw H1 H2 Ht Hi Hl Hc Hq] Ha.
  destruct (add_writeBuffer_counted _ _ _ _ Ha Hw) as (wb & [= E1 E2 E3 E4 E5 E6] & Hwb & Hle).
  split; [done|]. split; [done|]. split.
  - intros ->. split; rewrite ?E1, ?E2, ?E3, ?E4, ?E5, ?E6; try done. lia.
  - intros s' -> Hcomp Hd Hnow. rewrite <- E6. apply cpu_complete_tally; rewrite ?E1, ?E2, ?E3, ?E4, ?E5, ?E6; try done.
    split; rewrite ?Hm; try done. lia.
Qed.
Lemma cpu_ready_tally l2 mem s s' :
  cpu_ready s = Some s' → tally (curr_cycle s - 1) (l2 - 1) mem s → busy (cpu s) = false →
  CPU._done (cpu s) = false → l2 <= max_turns → curr_cycle s <= max_turns →
  tally (curr_cycle s) l2 mem s'.
Proof.
  intros E [[Hw H1 H2 Ht Hi _] Hl Hm Hq] Hb Hd Hl2 Hnow. specialize (Hi Hb).
  unfold cpu_ready, CPU.issueRequest in E. cbv beta iota zeta in E.
  apply bind_Some in E as (isHit & _ & E). apply bind_Some in E as ([p g] & _ & E).
  set (req := set_HitL1 _ isHit) in E. set (s1 := with_pf (with_cpu s _) p g) in E.
  assert (Hu : u32 (nRequestsL2 s + 1) = nRequestsL2 s + 1) by (apply u32_small; unfold is_u32, max_turns in *; lia).
  destruct isHit.
  - apply bind_Some in E as (t & Ha & E). apply access_DCache_counted in Ha as [= E1 E2 E3 E4 E5 E6].
    subst s1. simpl in *. rewrite <- E6.
    apply (cpu_complete_tally l2 mem t); rewrite ?E1, ?E2, ?E3, ?E4, ?E5, ?E6; simpl; try done; [|lia].
    split; simpl; try done; unfold completed in *; simpl; lia.
  - assert (Hs : issued_tally l2 mem (count_L2 s1)).
    { split; simpl; rewrite ?Hu; try done; unfold completed in *; simpl; lia. }
    destruct (load req).
    + apply bind_Some in E as ([ok t] & Ha & E). apply add_queueL2_counted in Ha. injection E as <-.
      pose proof (issued_counted _ _ _ _ Ha Hs) as Ht'. injection Ha as _ _ _ _ _ Ecyc.
      rewrite <- Ecyc.
      apply issued_waits; try done. by destruct ok.
    + apply bind_Some in E as ([ok t] & Ha & E).
      destruct (issued_store _ _ _ _ _ _ Hs Ha) as (Ec & Ecyc & Hno & Hyes). destruct ok; [by apply Hyes|].
      injection E as <-. change (curr_cycle s) with (curr_cycle (count_L2 s1)). rewrite <- Ecyc.
      apply issued_waits; try done. by apply Hno.
Qed.

(** A busy processor has issued. *)
Lemma tally_issued idle l2 mem s : tally idle l2 mem s → busy (cpu s) = true → issued_tally l2 mem s.
Proof. intros [[] ] Hb. destruct (ct_busy0 Hb). by split; try lia. Qed.

Lemma getStatus_tally idle now wb c : cpu_tally idle now wb c →
  cpu_tally idle now wb (CPU.getStatus c now).2 ∧ CPU._done (CPU.getStatus c now).2 = CPU._done c ∧
  (CPU.getStatus c now).1 = CPU._state (CPU.getStatus c now).2.
Proof.
  intros Hc. unfold CPU.getStatus. destruct (bool_decide (CPU._state c = IDLE) && _) eqn:Hb; simpl; [|done].
  apply andb_true_iff in Hb as [Hb%bool_decide_eq_true _]. split; [|done]. destruct Hc as [Hw H1 H2 Ht Hi _].
  split; simpl; try done. intros _. apply Hi. unfold busy. by rewrite Hb.
Qed.

Lemma tally_weaken idle idle' l2 l2' mem mem' s :
  idle <= idle' → l2 <= l2' → mem <= mem' → tally idle l2 mem s → tally idle' l2' mem' s.
Proof. intros ??? [[] ???]. split; [split|..]; try done; try lia. intros Hb. specialize (ct_idle0 Hb). lia. Qed.

(** The turn of a processor in the state it reports. *)
Lemma state_turn_tally l2 mem s s' :
  match CPU._state (cpu s) with
  | READY => cpu_ready s
  | WAITING | IDLE => prefetch s
  | STALLED_WB => s ← prefetch s; retry_writeBuffer s
  | STALLED_L2 => retry_queueL2 s
  end = Some s' →
  tally (curr_cycle s - 1) (l2 - 1) mem s → CPU._done (cpu s) = false → l2 <= max_turns → curr_cycle s <= max_turns →
  tally (curr_cycle s) l2 mem s'.
Proof.
  intros E Ht Hd Hl Hnow.
  assert (Hpre : ∀ t, prefetch s = Some t → tally (curr_cycle s) l2 mem t ∧ cpu t = cpu s ∧ curr_cycle t = curr_cycle s).
  { intros t Et. destruct (prefetch_tally _ _ _ _ _ Et Ht Hl) as (Hs & Ec & Ecyc). split; [|done].
    eapply tally_weaken; [..|exact Hs]; lia. }
  assert (Hissued : ∀ t, tally (curr_cycle s) l2 mem t → cpu t = cpu s → busy (cpu s) = true → issued_tally l2 mem t).
  { intros t Hs Ec Hb. eapply tally_issued; [exact Hs|by rewrite Ec]. }
  assert (Hs : tally (curr_cycle s) l2 mem s) by (eapply tally_weaken; [..|exact Ht]; lia).
  destruct (CPU._state (cpu s)) eqn:Est.
  - by apply Hpre.
  - apply cpu_ready_tally; try done. unfold busy. by rewrite Est.
  - by apply Hpre.
  - assert (Hb : busy (cpu s) = true) by (unfold busy; by rewrite Est).
    unfold retry_queueL2 in E. apply bind_Some in E as ([ok t] & Ha & E). apply add_queueL2_counted in Ha.
    injection E as <-. pose proof (tally_counted _ _ _ _ _ Ha Hs) as Ht'.
    pose proof (issued_counted _ _ _ _ Ha (Hissued s Hs eq_refl Hb)) as Hi. injection Ha as Ec _ _ _ _ Ecyc.
    destruct ok; [|done]. rewrite <- Ecyc. by apply issued_waits.
  - assert (Hb : busy (cpu s) = true) by (unfold busy; by rewrite Est).
    apply bind_Some in E as (t & Et & E). destruct (Hpre t Et) as (Hs' & Ec & Ecyc).
    unfold retry_writeBuffer in E. apply bind_Some in E as ([ok u] & Ha & E).
    destruct (issued_store _ _ _ _ _ _ (Hissued t Hs' Ec Hb) Ha) as (Ec' & Ecyc' & Hno & Hyes).
    rewrite Ecyc in Hyes. destruct ok; [apply Hyes; by rewrite ?Ec|]. injection E as <-.
    pose proof (Hno eq_refl) as Hi. rewrite <- Ecyc, <- Ecyc'.
    apply (tally_counted _ _ _ (with_cpu u (cpu u)) u eq_refl), (issued_waits _ _ u (cpu u) Hi); try done.
    by rewrite Ec', Ec.
Qed.

Lemma cpu_turn_tally l2 mem s s' :
  cpu_turn s = Some s' → tally (curr_cycle s - 1) (l2 - 1) mem s → CPU._done (cpu s) = false →
  l2 <= max_turns → curr_cycle s <= max_turns → tally (curr_cycle s) l2 mem s'.
Proof.
  intros E Ht Hd Hl Hnow. unfold cpu_turn in E.
  destruct (getStatus_tally _ _ _ _ (ta_cpu _ _ _ _ Ht)) as (Hc & Hdc & Est).
  destruct (CPU.getStatus (cpu s) (curr_cycle s)) as [st c]. simpl in Hc, Hdc, Est. subst st.
  apply (state_turn_tally l2 mem (with_cpu s c)); [exact E|by apply tally_cpu|by rewrite <- Hd|done|done].
Qed.
(** ** The services *)
Context (total : nat).

(** The front of a queue with a load of the processor: it is waiting for it. *)
Lemma front_is_awaited s v e l : sim_view total s v → v_l2 v = e :: l ∨ v_mem v = e :: l →
  cpu_load (e_req e) = true → busy (cpu s) = true ∧ CPU._done (cpu s) = false.
Proof.
  intros Hs Hq He. destruct (decide (v_state v = WAITING)) as [Hw|Hw].
  - split; [unfold busy; by rewrite (sv_state _ _ _ Hs), Hw|]. apply (done_left total s v Hs). intros H0.
    by rewrite (vo_left v (sv_ok _ _ _ Hs) H0) in Hw.
  - pose proof (vo_pending v (sv_ok _ _ _ Hs)) as Hp. unfold waiting in Hp. rewrite decide_False in Hp by done.
    destruct Hq as [Hq|Hq]; rewrite Hq in Hp; simpl in Hp; rewrite He in Hp; lia.
Qed.

(** The completion of the load the processor waits for. *)
Lemma awaited_tally l2 mem s t u :
  counted t = counted s → tally (curr_cycle s) l2 mem s → busy (cpu s) = true → CPU._done (cpu s) = false →
  curr_cycle s <= max_turns → cpu_complete t = Some u → tally (curr_cycle s) l2 mem u.
Proof.
  intros Ha Hs Hb Hd Hnow Hcomp. pose proof (tally_counted _ _ _ _ _ Ha Hs) as Ht. injection Ha as Ec Ew _ _ _ Ecyc.
  rewrite <- Ecyc. apply cpu_complete_tally; try done; [by rewrite Ec|by rewrite Ecyc| |by apply Ht..].
  rewrite <- Ecyc in Ht. eapply due_busy; [apply Ht|by rewrite Ec].
Qed.

Lemma service_L2_tally l2 mem s v s' :
  sim_view total s v → service_L2 s = Some s' → curr_cycle s <= max_turns →
  tally (curr_cycle s) l2 mem s → tally (curr_cycle s) l2 mem s'.
Proof.
  intros Hs E Hnow Ht. pose proof (sv_parts _ _ _ Hs) as Hp. unfold service_L2 in E.
  destruct (front_ok _ (queueL2 s) _ (curr_cycle s) (p_q2 _ _ _ _ Hp) (p_lq2 _ _ _ _ Hp))
    as [[Hf _]|(e & l & El & _ & Hf & Hg)]; rewrite Hf in E; cbn [mbind option_bind] in E; [by injection E as <-|].
  rewrite Hg in E. cbn [mbind option_bind] in E. apply bind_Some in E as (isHit & _ & E). cbv zeta in E.
  rewrite El in Hp. pose proof (p_loads _ _ _ _ Hp) as Hl. apply Forall_cons in Hl as [[_ Hload] _].
  pose proof (tally_cpu _ _ _ _ _ Ht (loadHitL2_tally _ _ _ _ isHit (ta_cpu _ _ _ _ Ht))) as Ht1.
  destruct isHit.
  - apply bind_Some in E as (t & Ha & E). apply access_DCache_counted in Ha.
    destruct (fromCPU (e_req e)) eqn:Hfrom; cbn [mbind option_bind] in E.
    + apply bind_Some in E as (u & Hcomp & E). injection E as <-. apply (tally_counted _ _ _ u); [done|].
      destruct (front_is_awaited s v e l Hs (or_introl El)) as [Hb Hd]; [unfold cpu_load; by rewrite Hfrom, Hload|].
      by apply (awaited_tally l2 mem _ t u Ha Ht1).
    + injection E as <-. apply (tally_counted _ _ _ t); [done|]. by apply (tally_counted _ _ _ _ _ Ha).
  - apply bind_Some in E as ([ok t] & Ha & E). apply add_queueMem_counted in Ha. injection E as <-.
    pose proof (tally_counted _ _ _ _ _ Ha Ht1) as Ht2. destruct ok; [by apply (tally_counted _ _ _ t)|done].
Qed.
Lemma service_mem_tally l2 mem s v s' :
  sim_view total s v → service_mem s = Some s' → curr_cycle s <= max_turns →
  tally (curr_cycle s) l2 mem s → tally (curr_cycle s) l2 mem s'.
Proof.
  intros Hs E Hnow Ht. pose proof (sv_parts _ _ _ Hs) as Hp. unfold service_mem in E.
  destruct (front_ok _ (queueMem s) _ (curr_cycle s) (p_qm _ _ _ _ Hp) (p_lqm _ _ _ _ Hp))
    as [[Hf _]|(e & l & El & _ & Hf & Hg)]; rewrite Hf in E; cbn [mbind option_bind] in E; [by injection E as <-|].
  rewrite Hg in E. cbn [mbind option_bind] in E. apply bind_Some in E as (t & Ha & E).
  apply access_L2Cache_counted in Ha. apply bind_Some in E as (u & Hu & E).
  assert (Hc : counted u = counted s).
  { rewrite <- (Ha : counted t = counted s). destruct (load (e_req e)); [by eapply access_DCache_counted|by injection Hu as <-]. }
  destruct (fromCPU (e_req e) && load (e_req e)) eqn:Hl; [|injection E as <-; by apply (tally_counted _ _ _ s)].
  destruct (front_is_awaited s v e l Hs (or_intror El) Hl) as [Hb Hd]. by apply (awaited_tally l2 mem s u).
Qed.

Lemma service_writeBuffer_tally l2 mem s v s' :
  sim_view total s v → service_writeBuffer s = Some s' → curr_cycle s <= max_turns →
  tally (curr_cycle s) l2 mem s → tally (curr_cycle s) l2 mem s'.
Proof.
  intros Hs E Hnow Ht. pose proof (sv_parts _ _ _ Hs) as Hp. unfold service_writeBuffer in E.
  destruct (front_ok _ (writeBuffer s) _ (curr_cycle s) (p_wb _ _ _ _ Hp) (p_lwb _ _ _ _ Hp))
    as [[Hf _]|(e & w & Ew & _ & Hf & Hg)]; rewrite Hf in E; cbn [mbind option_bind] in E; [by injection E as <-|].
  rewrite Hg in E. cbn [mbind option_bind] in E. apply bind_Some in E as (isHit & _ & E). cbv zeta in E.
  assert (Hpos : 0 < memQueue._size (writeBuffer s)).
  { unfold memQueue.frontReady in Hf. destruct (Z.ltb_spec 0 (memQueue._size (writeBuffer s))); done. }
  destruct Ht as [[Hw H1 H2 Htm Hi Hbu] Hl Hm Hq]. unfold is_u32, max_turns in *.
  destruct isHit.
  - apply bind_Some in E as (t & Ha & E). apply access_L2Cache_counted in Ha as [= Ec Es E1 E2 E3 E4]. injection E as <-.
    split; simpl; rewrite ?E1, ?E2, ?E3, ?E4; try done.
    rewrite remove_size, Ec, Es by (rewrite Es; done).
    split; simpl; try done; [unfold is_u32; lia|]. unfold completed in *. simpl. rewrite u32_small by (unfold is_u32; lia). lia.
  - apply bind_Some in E as ([ok t] & Ha & E). apply add_queueMem_counted in Ha as [= Ec Es E1 E2 E3 E4]. injection E as <-.
    destruct ok; split; simpl; rewrite ?E1, ?E2, ?E3, ?E4; try done; [rewrite remove_size, Ec, Es by (rewrite Es; done)|rewrite Ec, Es];
      split; simpl; try done; unfold is_u32; lia.
Qed.
(** ** A turn of the loop *)
Lemma count_mem_tally l2 mem s v :
  sim_view total s v → tally (curr_cycle s) l2 (mem - 1) s → mem <= max_turns → tally (curr_cycle s) l2 mem (count_mem s).
Proof.
  intros Hs [Hc Hl Hm Hq] Hmem. unfold max_turns in Hmem.
  pose proof (qr_size _ _ (p_qm _ _ _ _ (sv_parts _ _ _ Hs))) as Hsize. pose proof (vo_mem v (sv_ok _ _ _ Hs)) as Hle.
  unfold count_mem, memQueue.getSize. rewrite Hsize.
  split; simpl; try done; destruct (Z.ltb_spec 0 (Z.of_nat (length (v_mem v)))); rewrite ?u32_small; unfold is_u32; lia.
Qed.

(** The tally between two turns: what can be counted has been counted once a turn
    at most, and the processor has not been busy in the cycle to come. *)
Definition turn_tally (s : Sim) : Prop := let n := curr_cycle s - 1 in tally n n n s.

Lemma cycle_tally s v s' :
  sim_view total s v → v_left v ≠ O → turn_tally s → curr_cycle s <= max_turns → cycle s = Some s' →
  (∃ v', sim_view total s' v') ∧ turn_tally s' ∧ curr_cycle s' = curr_cycle s + 1.
Proof.
  intros Hs Hn Ht Hnow E. destruct (cycle_ok total s v Hs Hn) as (s0 & v0 & E0 & _ & Hs0 & Hcyc).
  rewrite E in E0. injection E0 as <-.
  rewrite u32_small in Hcyc by (pose proof (p_cycle _ _ _ _ (sv_parts _ _ _ Hs)); unfold is_u32, max_turns in *; lia).
  split; [by exists v0|]. split; [|done]. unfold cycle in E.
  destruct (cpu_turn_ok total s v Hs Hn) as (s1 & v1 & E1 & _ & H1 & C1). rewrite E1 in E. cbn [mbind option_bind] in E.
  destruct (service_L2_ok total s1 v1 H1) as (s2 & v2 & E2 & _ & H2 & C2). rewrite E2 in E. cbn [mbind option_bind] in E.
  destruct (service_mem_ok total s2 v2 H2) as (s3 & v3 & E3 & _ & H3 & C3). rewrite E3 in E. cbn [mbind option_bind] in E.
  apply bind_Some in E as (s4 & E4 & E). injection E as <-.
  assert (T1 : tally (curr_cycle s1) (curr_cycle s) (curr_cycle s - 1) s1).
  { rewrite C1. apply (cpu_turn_tally _ _ s); try done. by apply (done_left total s v Hs). }
  pose proof (service_L2_tally _ _ _ _ _ H1 E2 ltac:(lia) T1) as T2. rewrite <- C2 in T2.
  pose proof (service_mem_tally _ _ _ _ _ H2 E3 ltac:(lia) T2) as T3. rewrite <- C3 in T3.
  pose proof (count_mem_tally _ _ _ _ H3 T3 ltac:(lia)) as T4.
  change (curr_cycle s3) with (curr_cycle (count_mem s3)) in T4.
  assert (H4 : sim_view total (count_mem s3) v3).
  { apply sim_view_counters; [done|]. exact (p_cycle _ _ _ _ (sv_parts _ _ _ H3)). }
  pose proof (service_writeBuffer_tally _ _ _ _ _ H4 E4 ltac:(simpl; lia) T4) as [[] ? ? ?].
  change (curr_cycle (count_mem s3)) with (curr_cycle s3) in *.
  destruct (service_writeBuffer_ok total _ _ H4) as (? & ? & E4' & _ & _ & C4). rewrite E4 in E4'. injection E4' as <-.
  assert (Hcyc4 : curr_cycle s4 = curr_cycle s) by (rewrite C4; simpl; lia). rewrite Hcyc4 in *.
  unfold turn_tally. rewrite Hcyc. replace (curr_cycle s + 1 - 1) with (curr_cycle s) by lia.
  assert (curr_cycle s3 = curr_cycle s) as E3c by lia. rewrite E3c in *.
  split; simpl; try done. change (u32 (curr_cycle s4 + 1)) with (curr_cycle (next_cycle s4)). rewrite Hcyc.
  split; try done; [lia|]. intros Hb. destruct (ct_busy0 Hb). split; [done|lia].
Qed.
Lemma loop_tally fuel : ∀ s v ended s',
  sim_view total s v → turn_tally s → curr_cycle s + Z.of_nat fuel <= max_turns + 1 → loop fuel s = Some (ended, s') →
  (∃ v', sim_view total s' v') ∧ turn_tally s' ∧ curr_cycle s' <= curr_cycle s + Z.of_nat fuel.
Proof.
  induction fuel as [|fuel IH]; intros s v ended s' Hs Ht Hf E; simpl in E; destruct (CPU.isDone (cpu s)) eqn:Hd;
    try (injection E as <- <-; split; [by exists v|split; [done|lia]]).
  apply bind_Some in E as (t & Hc & E).
  destruct (cycle_tally s v t Hs) as ((v' & Hv') & Ht' & Hcyc); try done; [by apply (done_left total s v Hs)|lia|].
  destruct (IH t v' ended s' Hv' Ht') as (Hs' & Ht'' & Hle); try done; [lia|]. split; [done|]. split; [done|lia].
Qed.

Lemma start_tally f gs p g jr j s :
  trace_gaps gs f → total = length gs → pf_ok p → start (Some f) p g jr j = Some s →
  sim_view total s (first_view gs) ∧ turn_tally s ∧ curr_cycle s = 1.
Proof.
  intros Hf Hn Hp E. destruct (start_ok total f gs p g jr j Hf Hn Hp) as (s0 & E0 & Hs & Hc). rewrite E in E0. injection E0 as <-.
  split; [done|]. split; [|done]. unfold start in E.
  destruct (sets_of assocL1 totalSizeL1 lineSizeL1) as [n1 a1], (sets_of assocL2 totalSizeL2 lineSizeL2) as [n2 a2].
  apply bind_Some in E as (c & Hnew & E). injection E as <-. unfold CPU.CPU_new, CPU.readNextRequest in Hnew. simpl in Hnew.
  apply bind_Some in Hnew as ([r f'] & _ & Hnew). injection Hnew as <-. unfold turn_tally. simpl.
  split; simpl; try lia. destruct r; (split; simpl; try done; unfold completed; simpl; unfold is_u32; try lia).
Qed.
End tallies.

Section report.
Context {CR : CRand} {P : Prefetcher} {POk : PrefetcherOk}.

End report.

(** ** Witness, and a hit rate above one *)
#[local] Existing Instance std_rand.
#[local] Existing Instance SamplePf.ops.
#[local] Existing Instance SamplePf.laws.

Definition blank_report : report := finish demo_blank.
Definition demo_report : report :=
  match main 500 (Some demo_file) demo_pf (srand 100) zeroRequest 0 with Some (Some r) => r | _ => blank_report end.


(** A load brings a block to L2, four stores to its other half follow: each store
    makes sample-pf fetch the half, whose hit in L2 marks the next store; that is
    counted when the store is complete and again when it is written to L2. *)
Definition demo_stores : chars :=
  [mkLine "l" 4 4112 0; mkLine "s" 4 4096 300; mkLine "s" 4 4096 300; mkLine "s" 4 4096 300;
   mkLine "s" 4 4096 300]%char ≫= print_line.

(** The report says that 6 of 5 requests hit in L2. *)
Theorem l2_hit_rate_above_one :
  (r ← main 2000 (Some demo_stores) demo_pf (srand 100) zeroRequest 0; hitRateL2 <$> r) = Some (double_div (double_of 6) (double_of 5)).
Proof. vm_compute. reflexivity. Qed.
