(* ===== verification/SimTiming.v ===== *)
(** * How long the simulator runs

    The abstract machine of [SimView] in time: before the cycle counter wraps, the
    entries of the L2 queue and of the write buffer are ready within 20 cycles,
    those of the memory queue are ready 50 cycles apart and each leaves the queue
    in the very cycle it is ready. A bound on the turns that are left gets smaller
    with every turn; so a run takes as many cycles as the gaps of the trace say,
    and between one and [longest] more for every request. *)
From S2P Require Import Prelude.
From S2P Require Import Words.
From S2P Require Import MemSim.
From S2P Require Import TraceFormat.
From S2P Require Import MemQueueModel.
From S2P Require Import MemQueueSpec.
From S2P Require Import MemQueueProps.
From S2P Require Import CpuModel.
From S2P Require Import PrefetcherInterface.
From S2P Require Import SimplePrefetchers.
From S2P Require Import Simulator.
From S2P Require Import SimParts.
From S2P Require Import SimView.
From S2P Require Import SimInvariant.
From S2P Require Import SimProps.
Import Sim.

(** ** Ready times *)

(** Times 50 cycles apart, from [t]. *)
Fixpoint spaced (t : Z) (ts : list Z) : Prop :=
  match ts with
  | [] => True
  | t' :: ts => t' = t ∧ spaced (t + accessTimeMem) ts
  end.

Lemma spaced_snoc t ts : spaced t ts → spaced t (ts ++ [t + accessTimeMem * Z.of_nat (length ts)]).
Proof.
  revert t. induction ts as [|t' ts IH]; intros t; simpl; [split; [lia|done]|].
  intros [-> Hs]. split; [done|]. specialize (IH _ Hs).
  replace (t + accessTimeMem * Z.of_nat (S (length ts))) with (t + accessTimeMem + accessTimeMem * Z.of_nat (length ts)) by lia.
  done.
Qed.

Lemma spaced_last t ts x : spaced t ts → last ts = Some x → x = t + accessTimeMem * (Z.of_nat (length ts) - 1).
Proof.
  revert t. induction ts as [|t' ts IH]; intros t; [done|]. intros [-> Hs] Hl. destruct ts as [|t2 ts]; [injection Hl as <-; simpl; lia|].
  rewrite (IH _ Hs Hl). simpl length. lia.
Qed.

(** When the entries of a queue are ready. *)
Definition times (l : list entry) : list Z := e_ready <$> l.

Lemma times_alter r i l : times (alter (set_req r) i l) = times l.
Proof. unfold times. revert i. induction l as [|e l IH]; intros [|i]; simpl; try done. f_equal. apply IH. Qed.

Lemma added_times k now r l ok l' : added k now r l ok l' →
  times l' = times l ∨ ok = true ∧ (length l < k_cap k)%nat ∧ times l' = times l ++ [ready_in k now l].
Proof.
  intros [Hl|e Hl He Ht|i e Hl He Hf Hr|Hl Hr]; try (by left).
  - right. split; [done|]. split; [done|]. unfold times. rewrite fmap_app. simpl. by rewrite Ht.
  - left. apply times_alter.
Qed.

Lemma times_length l : length (times l) = length l.
Proof. apply length_fmap. Qed.

Lemma times_last l : last (times l) = e_ready <$> last l.
Proof. apply fmap_last. Qed.

(** The cycles considered: no ready time wraps. *)
Definition before_wrap (now : Z) : Prop := 0 <= now ∧ now + 600 <= 2 ^ 32.

Lemma ready_pipelined k now l : before_wrap now → k_pip k = true → k_lat k = accessTimeL2 → ready_in k now l = now + accessTimeL2.
Proof.
  intros [H1 H2] Hp Hl. unfold ready_in, spec_ready. rewrite Hp, Hl. unfold accessTimeL2.
  destruct (last l); apply u32_small; unfold is_u32; lia.
Qed.

(** The memory queue: ready times from [lo] on. *)
Definition mem_timed (lo now : Z) (m : list entry) : Prop :=
  ∃ t, lo <= t <= now + accessTimeMem ∧ spaced t (times m).

Lemma ready_mem now m t :
  before_wrap now → 0 <= t <= now + accessTimeMem → spaced t (times m) → (length m <= 10)%nat →
  ready_in kind_mem now m = if decide (m = []) then now + accessTimeMem else t + accessTimeMem * Z.of_nat (length m).
Proof.
  intros [H1 H2] Ht Hs Hl. unfold ready_in, spec_ready. simpl. unfold accessTimeMem in *.
  destruct (last m) as [e|] eqn:El.
  - assert (Hne : m ≠ []) by (by intros ->). rewrite decide_False by done.
    pose proof (times_last m) as E. rewrite El in E. pose proof (spaced_last _ _ _ Hs E) as Er. rewrite times_length in Er. unfold accessTimeMem in Er.
    assert (0 < length m)%nat by (destruct m; [done|simpl; lia]).
    rewrite u32_small; unfold is_u32; lia.
  - apply last_None in El as ->. rewrite decide_True by done. apply u32_small. unfold is_u32. lia.
Qed.

Lemma added_mem_timed lo now r m ok m' :
  before_wrap now → 0 <= lo <= now + accessTimeMem → mem_timed lo now m → (length m <= 10)%nat →
  added kind_mem now r m ok m' → mem_timed lo now m'.
Proof.
  intros Hb Hlo (t & Ht & Hs) Hl Ha. destruct (added_times _ _ _ _ _ _ Ha) as [E|(_ & _ & E)].
  - exists t. by rewrite E.
  - rewrite (ready_mem now m t Hb ltac:(lia) Hs Hl) in E. destruct (decide (m = [])) as [->|Hne].
    + exists (now + accessTimeMem). rewrite E. split; [lia|]. by simpl.
    + exists t. split; [done|]. rewrite E, <- times_length. by apply spaced_snoc.
Qed.

(** ** The invariant *)

(** Within a turn, [lo] is the first cycle in which the memory queue can still be
    served: the current one, and after its service the next. *)
Record timed (lo now : Z) (v : view) : Prop := {
  ti_l2 : Forall (fun e => e_ready e <= now + accessTimeL2) (v_l2 v);
  ti_wb : Forall (fun e => e_ready e <= now + accessTimeL2) (v_wb v);
  ti_mem : mem_timed lo now (v_mem v);
  ti_gaps : ∀ t gs, v_todo v = Some (t, gs) → Forall (fun g => 0 <= g) gs;
}.

Lemma timed_next now v : timed (now + 1) now v → timed (now + 1) (now + 1) v.
Proof.
  intros [H1 H2 (t & Ht & Hs) H3]. split; try done.
  - eapply Forall_impl; [exact H1|]. intros e He. simpl in He. lia.
  - eapply Forall_impl; [exact H2|]. intros e He. simpl in He. lia.
  - exists t. split; [lia|done].
Qed.

Lemma added_pipelined k now r l ok l' :
  before_wrap now → k_pip k = true → k_lat k = accessTimeL2 → added k now r l ok l' →
  Forall (fun e => e_ready e <= now + accessTimeL2) l → Forall (fun e => e_ready e <= now + accessTimeL2) l'.
Proof.
  intros Hb Hp Hl Ha Hf. apply (added_ready_Forall (fun t => t <= now + accessTimeL2) _ _ _ _ _ _ Ha); [|done].
  rewrite ready_pipelined by done. done.
Qed.

Lemma prefetched_timed now l l' :
  before_wrap now → prefetched now l l' →
  Forall (fun e => e_ready e <= now + accessTimeL2) l → Forall (fun e => e_ready e <= now + accessTimeL2) l'.
Proof. intros Hb [|r ok l1 Hr Ha] Hl; [done|]. by eapply (added_pipelined kind_l2). Qed.

Lemma next_todo_gaps now o : (∀ t gs, o = Some (t, gs) → Forall (fun g => 0 <= g) gs) →
  ∀ t gs, next_todo now o = Some (t, gs) → Forall (fun g => 0 <= g) gs.
Proof.
  intros H t gs. destruct o as [[t0 [|g gs0]]|]; simpl; try done. intros [= <- <-].
  specialize (H t0 (g :: gs0) eq_refl). by apply Forall_cons in H as [_ H].
Qed.

Lemma turn_timed now v v' : before_wrap now → timed now now v → turn now v v' → timed now now v'.
Proof.
  intros Hb [H1 H2 H3 H4] [Hdue|r ok l Hn Hst Hr Ha|r ok w l Hn Hst Hr Ha Hpre|l Hst Hpre].
  - split; try done. by apply next_todo_gaps.
  - split; try done. by eapply (added_pipelined kind_l2).
  - pose proof (prefetched_timed _ _ _ Hb Hpre H1).
    assert (Forall (fun e => e_ready e <= now + accessTimeL2) w) by (by eapply (added_pipelined kind_wb)).
    destruct ok; split; try done. by apply next_todo_gaps.
  - split; try done. by eapply prefetched_timed.
Qed.

Lemma l2_timed now v v' : before_wrap now → view_ok v → timed now now v → l2_step now v v' → timed now now v'.
Proof.
  intros Hb Hv [H1 H2 H3 H4] [Hq|e l Hn E Hre He|e l E Hre He|e l ok m E Hre Ha]; [done|..];
    rewrite E in H1; pose proof H1 as [_ H1']%Forall_cons; split; try done.
  - by apply next_todo_gaps.
  - by destruct ok.
  - simpl. eapply (added_mem_timed now now); try done; [unfold accessTimeMem; destruct Hb; lia|exact (vo_mem v Hv)].
Qed.

Lemma mem_timed_step now v v' : timed now now v → mem_step now v v' → timed (now + 1) now v'.
Proof.
  intros [H1 H2 (t & Ht & Hs) H4] Hm.
  assert (Hpop : ∀ e m, v_mem v = e :: m → e_ready e <= now → mem_timed (now + 1) now m).
  { intros e m E Hre. rewrite E in Hs. destruct Hs as [Et Hs]. exists (t + accessTimeMem). unfold accessTimeMem in *. split; [lia|done]. }
  destruct Hm as [Hq|e m Hn E Hre He|e m E Hre He]; split; try done; try by eapply Hpop.
  - destruct (v_mem v) as [|e m] eqn:E; [exists (now + 1); unfold accessTimeMem; split; [lia|done]|].
    exists t. split; [|done]. simpl in Hq, Hs. lia.
  - by apply next_todo_gaps.
Qed.

Lemma wb_timed now v v' : before_wrap now → view_ok v → timed (now + 1) now v → wb_step now v v' → timed (now + 1) now v'.
Proof.
  intros Hb Hv [H1 H2 H3 H4] [Hq|e w E Hre|e w ok m E Hre Ha]; [done|..];
    rewrite E in H2; pose proof H2 as [_ H2']%Forall_cons; split; try done.
  - by destruct ok.
  - simpl. eapply (added_mem_timed (now + 1) now); try done; [unfold accessTimeMem; destruct Hb; lia|exact (vo_mem v Hv)].
Qed.

(** ** The turns that are left *)

(** Until the front of the L2 queue is ready. *)
Definition front_wait (n : Z) (l : list entry) : Z :=
  match l with [] => accessTimeL2 | e :: _ => Z.max 0 (e_ready e - n) end.

(** Until the memory queue is empty, when nothing is added; until its front has
    left; until the processor's load in it has. *)
Definition backlog (n : Z) (m : list entry) : Z :=
  match m with [] => 0 | e :: m => e_ready e - n + 1 + accessTimeMem * Z.of_nat (length m) end.
Definition head_wait (n : Z) (m : list entry) : Z :=
  match m with [] => 0 | e :: _ => e_ready e - n + 1 end.
Fixpoint load_wait (n : Z) (m : list entry) : Z :=
  match m with [] => 0 | e :: m => if cpu_load (e_req e) then e_ready e - n + 1 else load_wait n m end.

(** Until a load with [p] entries before it in the L2 queue is complete: each of
    them, and each entry of the write buffer, can go to the memory queue first. *)
Definition l2_wait_time (n : Z) (v : view) (p : nat) : Z :=
  front_wait n (v_l2 v) + 72 * Z.of_nat p + 72 * Z.of_nat (length (v_wb v)) + backlog n (v_mem v) + 52.

(** Until the front of the write buffer has left. *)
Definition wb_wait_time (n : Z) (v : view) : Z :=
  match v_wb v with
  | [] => 0
  | e :: _ => if n <? e_ready e then e_ready e - n + 52 else head_wait n (v_mem v)
  end.

(** The turns a request takes at most, once it is ready. *)
Definition longest : Z := 2735.

(** The turns before the current request, ready at [t], is complete. *)
Definition request_time (n t : Z) (v : view) : Z :=
  match v_state v with
  | IDLE | READY => Z.max 0 (t - n) + longest
  | STALLED_L2 => l2_wait_time n v (length (v_l2 v)) + 1
  | STALLED_WB => if decide (length (v_wb v) = 10%nat) then 2 + wb_wait_time n v else 1
  | WAITING => if decide (pending (v_l2 v) = O) then load_wait n (v_mem v) else l2_wait_time n v (pos (v_l2 v))
  end.

(** The cycles that requests with gaps [gs] take at least and at most. *)
Definition at_least (gs : list Z) : Z := foldr (fun g r => g + 1 + r) 0 gs.
Definition at_most (gs : list Z) : Z := foldr (fun g r => g + longest + r) 0 gs.

Definition run_time (n : Z) (v : view) : Z :=
  match v_todo v with None => 0 | Some (t, gs) => request_time n t v + at_most gs end.

Lemma backlog_range lo now n m : mem_timed lo now m → n <= lo + 1 → (length m <= 10)%nat →
  0 <= backlog n m <= Z.max 0 (now - n) + 501 ∧ 0 <= head_wait n m <= Z.max 0 (now - n) + 51.
Proof.
  intros (t & Ht & Hs) Hn Hl. destruct m as [|e m]; [simpl; lia|]. destruct Hs as [E _].
  unfold backlog, head_wait, accessTimeMem in *. simpl length in Hl. lia.
Qed.

Lemma load_wait_range lo now n m : mem_timed lo now m → pending m ≠ O → lo - n + 1 <= load_wait n m <= backlog n m.
Proof.
  intros (t & Ht & Hs). assert (Hlo : lo <= t) by lia. clear Ht. revert t Hlo Hs.
  induction m as [|e m IH]; intros t Hlo Hs Hp; [done|]. destruct Hs as [E Hs]. simpl in Hp |- *.
  destruct (cpu_load (e_req e)); [unfold accessTimeMem; lia|].
  assert (Hp' : pending m ≠ O) by lia. specialize (IH (t + accessTimeMem) ltac:(unfold accessTimeMem; lia) Hs Hp').
  destruct m as [|e2 m]; [done|]. destruct Hs as [E2 _]. unfold backlog, accessTimeMem in *. simpl length. lia.
Qed.

Lemma front_wait_range now n l : Forall (fun e => e_ready e <= now + accessTimeL2) l → now <= n → 0 <= front_wait n l <= 20.
Proof. intros Hl Hn. unfold front_wait, accessTimeL2 in *. destruct l as [|e l]; [lia|]. apply Forall_cons in Hl as [He _]. lia. Qed.

Lemma l2_wait_time_range lo now n v p : view_ok v → timed lo now v → now <= n <= lo + 1 → (p <= 20)%nat →
  52 <= l2_wait_time n v p <= 2733.
Proof.
  intros Hv Ht Hn Hp. unfold l2_wait_time. pose proof (vo_wb v Hv).
  pose proof (proj1 (backlog_range lo now n _ (ti_mem _ _ _ Ht) ltac:(lia) (vo_mem v Hv))).
  pose proof (front_wait_range now n _ (ti_l2 _ _ _ Ht) ltac:(lia)). lia.
Qed.

Lemma wb_wait_time_range lo now n v : view_ok v → timed lo now v → now <= n <= lo + 1 → 0 <= wb_wait_time n v <= 72.
Proof.
  intros Hv Ht Hn. unfold wb_wait_time. pose proof (proj2 (backlog_range lo now n _ (ti_mem _ _ _ Ht) ltac:(lia) (vo_mem v Hv))).
  destruct (v_wb v) as [|e w] eqn:E; [lia|]. pose proof (ti_wb _ _ _ Ht) as Hw. rewrite E in Hw. apply Forall_cons in Hw as [He _].
  unfold accessTimeL2 in He. destruct (Z.ltb_spec n (e_ready e)); lia.
Qed.

Lemma busy_time_range lo now n t v : view_ok v → timed lo now v → now <= n <= lo + 1 → lo <= n → v_state v ≠ IDLE →
  lo - n + 1 <= request_time n t v <= longest - 1.
Proof.
  intros Hv Ht Hn Hlo Hst. unfold request_time, longest.
  pose proof (pos_le (v_l2 v)). pose proof (vo_l2 v Hv).
  pose proof (l2_wait_time_range lo now n v (length (v_l2 v)) Hv Ht ltac:(lia) ltac:(lia)).
  pose proof (l2_wait_time_range lo now n v (pos (v_l2 v)) Hv Ht ltac:(lia) ltac:(lia)).
  pose proof (wb_wait_time_range lo now n v Hv Ht ltac:(lia)).
  destruct (v_state v) eqn:E; try done; [by destruct (vo_ready v Hv)| |lia|].
  - destruct (decide _) as [Hp|Hp]; [|lia]. pose proof (vo_pending v Hv) as Hpend. rewrite E in Hpend. unfold waiting in Hpend. simpl in Hpend.
    pose proof (load_wait_range lo now n _ (ti_mem _ _ _ Ht) ltac:(lia)).
    pose proof (proj1 (backlog_range lo now n _ (ti_mem _ _ _ Ht) ltac:(lia) (vo_mem v Hv))). lia.
  - destruct (decide _); lia.
Qed.

(** ** The parts of a turn *)

(** What is left after the turn in cycle [now]. *)
Abbreviation left_after now v := (run_time (now + 1) v).

(** Completing the request takes what was left for it away. *)
Lemma complete_time lo now n v w l m t gs :
  timed lo now v → 0 <= now → v_todo v = Some (t, gs) →
  left_after now (complete now v w l m) + request_time n t v <= run_time n v.
Proof.
  intros Ht Hnow E. unfold run_time, complete. simpl. rewrite E. destruct gs as [|g gs]; simpl; [lia|].
  pose proof (ti_gaps _ _ _ Ht t _ E) as Hg. apply Forall_cons in Hg as [Hg _]. unfold request_time at 1. simpl.
  pose proof (Z.mod_le (now + g + 1) (2 ^ 32)). unfold u32, longest. lia.
Qed.

(** A busy processor has less to wait than an idle one. *)
Lemma issued_time now t gs v v1 :
  timed now now v1 → view_ok v1 → v_todo v1 = Some (t, gs) → v_todo v = Some (t, gs) →
  v_state v = IDLE → v_state v1 ≠ IDLE → run_time now v1 <= run_time now v.
Proof.
  intros Ht Hv E1 E Hi Hb. pose proof (busy_time_range now now now t v1 Hv Ht ltac:(lia) ltac:(lia) Hb).
  unfold run_time. rewrite E1, E. unfold request_time at 2. rewrite Hi. lia.
Qed.

Lemma added_front now r l ok l' : before_wrap now → added kind_l2 now r l ok l' → front_wait now l' <= front_wait now l.
Proof.
  intros Hb Ha. unfold front_wait. destruct (added_times _ _ _ _ _ _ Ha) as [E|(_ & _ & E)].
  - destruct l as [|e l], l' as [|e' l']; try done. by injection E as -> _.
  - rewrite (ready_pipelined kind_l2 now l Hb) in E by done.
    destruct l as [|e l], l' as [|e' l']; try done; injection E as E1 _; rewrite E1; [unfold accessTimeL2; lia|done].
Qed.

Lemma prefetched_front now l l' : before_wrap now → prefetched now l l' → front_wait now l' <= front_wait now l.
Proof. intros Hb [|r ok l1 Hr Ha]; [done|]. by eapply added_front. Qed.

(** A processor held up somewhere. *)
Definition held_up (v : view) : Prop :=
  v_state v = WAITING ∨ v_state v = STALLED_L2 ∧ v_l2 v ≠ [] ∨ v_state v = STALLED_WB ∧ length (v_wb v) = 10%nat.

(** The processor's turn completes the request, waits for its time, or leaves the
    processor held up. *)
Lemma turn_time now v v1 :
  before_wrap now → view_ok v → timed now now v → v_todo v ≠ None → turn now v v1 →
  v_state v1 = IDLE ∧ left_after now v1 + 1 <= run_time now v ∨ held_up v1 ∧ run_time now v1 <= run_time now v.
Proof.
  intros Hb Hv Ht Hn Hturn. pose proof (turn_keeps _ _ _ Hv Hturn) as Hv1. pose proof (turn_timed _ _ _ Hb Ht Hturn) as Ht1.
  destruct (v_todo v) as [[t gs]|] eqn:Etodo; [clear Hn|done].
  destruct Hturn as [Hdue|r ok l Hn Hst Hr Ha|r ok w l Hn Hst Hr Ha Hpre|l Hst Hpre].
  - left. split; [done|]. pose proof (complete_time now now now v (v_wb v) (v_l2 v) (v_mem v) t gs Ht (proj1 Hb) Etodo) as Hc.
    destruct Hdue as [Hi _]. unfold request_time in Hc. rewrite Hi in Hc. unfold longest in Hc. lia.
  - right. assert (Hheld : held_up (mkView (v_todo v) (if ok then WAITING else STALLED_L2) (v_wb v) l (v_mem v))).
    { destruct ok; [by left|right; left]. destruct (added_refused _ _ _ _ _ Ha) as [-> E]. split; [done|].
      simpl. intros E'. by rewrite E' in E. }
    split; [done|]. destruct Hst as [[Hi _]|Hst]; [by apply (issued_time now t gs); [..|destruct ok]|].
    pose proof (added_front _ _ _ _ _ Hb Ha) as Hfront. pose proof (added_pos _ _ _ _ _ _ Ha) as Hpos.
    pose proof (added_pending _ _ _ _ _ _ Ha) as Hpend. rewrite Hr, andb_true_r in Hpend. pose proof (pos_le (v_l2 v)).
    unfold run_time. simpl. rewrite Etodo. unfold request_time. rewrite Hst. simpl. destruct ok.
    + rewrite decide_False by lia. specialize (Hpos ltac:(lia)). unfold l2_wait_time. simpl. lia.
    + destruct (added_refused _ _ _ _ _ Ha) as [-> _]. done.
  - destruct ok.
    + left. split; [done|]. pose proof (complete_time now now now v w l (v_mem v) t gs Ht (proj1 Hb) Etodo) as Hc.
      assert (1 <= request_time now t v); [|lia]. destruct Hst as [[Hi _]|Hst]; [unfold request_time, longest; rewrite Hi; lia|].
      pose proof (busy_time_range now now now t v Hv Ht ltac:(lia) ltac:(lia)) as Hr1. rewrite Hst in Hr1. specialize (Hr1 ltac:(done)). lia.
    + right. destruct (added_refused _ _ _ _ _ Ha) as [-> E]. split; [right; by right|].
      destruct Hst as [[Hi _]|Hst]; [by apply (issued_time now t gs)|].
      unfold run_time. simpl. rewrite Etodo. unfold request_time. rewrite Hst. simpl. done.
  - destruct Hst as [Hst|[Hst (t' & gs' & E & Hlt)]].
    + right. split; [by left|]. pose proof (prefetched_front _ _ _ Hb Hpre) as Hfront.
      destruct (prefetched_keeps _ _ _ Hpre (vo_l2 v Hv) (proj1 (proj2 (vo_times v Hv)))) as [Hpl _].
      pose proof (prefetched_pos _ _ _ Hpre (vo_l2 v Hv) (proj1 (proj2 (vo_times v Hv)))) as Hpos.
      unfold run_time. simpl. rewrite Etodo. unfold request_time. rewrite Hst. simpl. rewrite Hpl.
      destruct (decide _) as [Hz|Hz]; [done|]. specialize (Hpos Hz). unfold l2_wait_time. simpl. lia.
    + left. split; [done|]. rewrite Etodo in E. injection E as <- <-. unfold run_time. simpl. rewrite Etodo. unfold request_time. rewrite Hst. simpl. lia.
Qed.

Lemma load_wait_tick n m : pending m ≠ O → load_wait (n + 1) m = load_wait n m - 1.
Proof. induction m as [|e m IH]; [done|]. simpl. destruct (cpu_load (e_req e)); [lia|]. intros Hp. apply IH. lia. Qed.

(** A cycle passes: a processor that waits for the memory is nearer to its end, one
    held up by the L2 queue too, or the front of that queue can leave. *)
Lemma wait_tick now v :
  view_ok v → v_todo v ≠ None → v_state v = WAITING ∨ v_state v = STALLED_L2 ∧ v_l2 v ≠ [] →
  left_after now v + 1 <= run_time now v ∨
  left_after now v <= run_time now v ∧ held_by_l2 v ∧ v_mem v = [] ∧ ¬ not_ready now (v_l2 v).
Proof.
  intros Hv Hn Hst. destruct (v_todo v) as [[t gs]|] eqn:Etodo; [|done].
  unfold run_time. rewrite Etodo.
  assert (Hl2 : v_l2 v ≠ [] → ∀ p, l2_wait_time (now + 1) v p + 1 <= l2_wait_time now v p ∨
    l2_wait_time (now + 1) v p <= l2_wait_time now v p ∧ v_mem v = [] ∧ ¬ not_ready now (v_l2 v)).
  { intros Hne p. unfold l2_wait_time, front_wait, backlog, not_ready. destruct (v_l2 v) as [|e l]; [done|].
    destruct (v_mem v) as [|e' m]; [|left; lia]. destruct (Z.ltb_spec now (e_ready e)); [left; lia|].
    right. split; [lia|]. split; [done|lia]. }
  destruct Hst as [Hst|[Hst Hne]]; unfold request_time; rewrite Hst.
  - pose proof (vo_pending v Hv) as Hp. rewrite Hst in Hp. unfold waiting in Hp. simpl in Hp.
    destruct (decide _) as [Hz|Hz]; [left; rewrite load_wait_tick by lia; lia|].
    assert (Hne : v_l2 v ≠ []) by (by intros E; rewrite E in Hz).
    destruct (Hl2 Hne (pos (v_l2 v))) as [?|(? & ? & ?)]; [left; lia|right]. split; [lia|]. split; [by right|done].
  - destruct (Hl2 Hne (length (v_l2 v))) as [?|(? & ? & ?)]; [left; lia|right]. split; [lia|]. split; [by left|done].
Qed.

(** ** The services *)
Lemma added_backlog lo now r m ok m' :
  before_wrap now → 0 <= lo → mem_timed lo now m → (length m <= 10)%nat → added kind_mem now r m ok m' →
  backlog (now + 1) m' <= backlog (now + 1) m + 51.
Proof.
  intros Hb Hlo (t & Ht & Hs) Hl Ha. destruct (added_times _ _ _ _ _ _ Ha) as [E|(_ & _ & E)].
  - destruct m as [|e m], m' as [|e' m']; try done. injection E as E1 E2.
    pose proof (f_equal length E2 : length (times m') = length (times m)) as E3. rewrite !times_length in E3. unfold backlog. rewrite E1, E3. lia.
  - rewrite (ready_mem now m t Hb ltac:(lia) Hs Hl) in E.
    pose proof (f_equal length E) as E3. rewrite length_app, !times_length in E3. simpl in E3.
    destruct m as [|e m], m' as [|e' m']; try done; injection E as E1 _; unfold backlog, accessTimeMem in *;
      rewrite E1; simpl length in *; lia.
Qed.

Lemma load_wait_app n m e : pending m ≠ O → load_wait n (m ++ [e]) = load_wait n m.
Proof. induction m as [|e' m IH]; [done|]. simpl. destruct (cpu_load (e_req e')); [done|]. intros Hp. apply IH. lia. Qed.

Lemma load_wait_alter n r i m e :
  m !! i = Some e → cpu_load (e_req e) = false → cpu_load r = false → load_wait n (alter (set_req r) i m) = load_wait n m.
Proof.
  revert i. induction m as [|e' m IH]; intros [|i]; simpl; try done.
  - intros [= ->] He Hr. by rewrite He, Hr.
  - intros Hi He Hr. change (list_alter (set_req r) i m) with (alter (set_req r) i m). by rewrite (IH i Hi He Hr).
Qed.

(** The processor's load in the memory queue keeps its place. *)
Lemma added_load_wait n now r m ok m' :
  added kind_mem now r m ok m' → pending m ≠ O → cpu_load r = false → load_wait n m' = load_wait n m.
Proof.
  intros [Hl|e Hl He Ht|i e Hl He Hf Hr|Hl Hr] Hp Hc; try done; [by apply load_wait_app|].
  apply (load_wait_alter n r i m e He); [|done]. unfold cpu_load. by rewrite Hf.
Qed.

(** Serving the L2 queue does not concern a processor that does not wait. *)
Lemma l2_idle now v v' : view_ok v → l2_step now v v' → v_state v ≠ WAITING →
  v_state v' = v_state v ∧ v_todo v' = v_todo v ∧ v_wb v' = v_wb v.
Proof.
  intros Hv Hs Hst. pose proof (vo_pending v Hv) as Hp. unfold waiting in Hp. rewrite decide_False in Hp by done.
  destruct Hs as [Hq|e l1 Hk E Hre He|e l1 E Hre He|e l1 ok m1 E Hre Ha]; try done.
  rewrite E in Hp. simpl in Hp. by rewrite He in Hp.
Qed.

Lemma mem_idle now v v' : view_ok v → mem_step now v v' → v_state v ≠ WAITING →
  v_state v' = v_state v ∧ v_todo v' = v_todo v ∧ v_wb v' = v_wb v.
Proof.
  intros Hv Hs Hst. pose proof (vo_pending v Hv) as Hp. unfold waiting in Hp. rewrite decide_False in Hp by done.
  destruct Hs as [Hq|e m1 Hk E Hre He|e m1 E Hre He]; try done.
  rewrite E in Hp. simpl in Hp. rewrite He in Hp. lia.
Qed.

Lemma idle_time n v v' : v_state v = IDLE → v_state v' = v_state v → v_todo v' = v_todo v → run_time n v' = run_time n v.
Proof. intros Hi Es Et. unfold run_time, request_time. by rewrite Es, Et, Hi. Qed.

(** The front of the L2 queue leaves, for the memory queue perhaps. *)
Lemma l2_moves lo now v td st e l m p :
  timed lo now v → v_l2 v = e :: l → backlog (now + 1) m <= backlog (now + 1) (v_mem v) + 51 →
  l2_wait_time (now + 1) (mkView td st (v_wb v) l m) p + 1 <= l2_wait_time (now + 1) v (S p).
Proof.
  intros Ht E Hm. pose proof (ti_l2 _ _ _ Ht) as Hl. pose proof (front_wait_range now (now + 1) _ Hl ltac:(lia)) as Hf.
  rewrite E in Hl. apply Forall_cons in Hl as [_ Hl]. pose proof (front_wait_range now (now + 1) _ Hl ltac:(lia)).
  unfold l2_wait_time. simpl v_l2. simpl v_wb. simpl v_mem. lia.
Qed.

(** It does not, when the memory queue is full. *)
Lemma l2_refused now v e l m :
  v_l2 v = e :: l → added kind_mem now (e_req e) (v_mem v) false m →
  mkView (v_todo v) (v_state v) (v_wb v) (e :: l) m = v ∧ v_mem v ≠ [].
Proof.
  intros E Ha. destruct (added_refused _ _ _ _ _ Ha) as [-> Hfull]. rewrite <- E.
  split; [by destruct v|]. intros E'. by rewrite E' in Hfull.
Qed.

(** What the service of the L2 queue does to the time of a waiting processor. *)
Lemma l2_time_waiting now v v' t gs :
  before_wrap now → view_ok v → timed now now v → v_state v = WAITING → v_todo v = Some (t, gs) → l2_step now v v' →
  left_after now v' <= left_after now v ∧
  (pending (v_l2 v) ≠ O → v_mem v = [] → ¬ not_ready now (v_l2 v) → left_after now v' + 1 <= left_after now v).
Proof.
  intros Hb Hv Ht Hst Etodo Hs. pose proof (vo_pending v Hv) as Hp. rewrite Hst in Hp. unfold waiting in Hp. simpl in Hp.
  pose proof (busy_time_range now now (now + 1) t v Hv Ht ltac:(lia) ltac:(lia)) as Hr. rewrite Hst in Hr. specialize (Hr ltac:(done)).
  destruct Hs as [Hq|e l Hn E Hre He|e l E Hre He|e l ok m E Hre Ha].
  - done.
  - pose proof (complete_time now now (now + 1) v (v_wb v) l (v_mem v) t gs Ht (proj1 Hb) Etodo) as Hc.
    assert (Hrt : request_time (now + 1) t v = l2_wait_time (now + 1) v 0).
    { unfold request_time. rewrite Hst, E. simpl. by rewrite He. }
    pose proof (l2_wait_time_range now now (now + 1) v 0 Hv Ht ltac:(lia) ltac:(lia)). lia.
  - pose proof (l2_moves now now v (v_todo v) (v_state v) e l (v_mem v) (pos l) Ht E ltac:(lia)) as Hmove.
    unfold run_time, request_time. simpl. rewrite Etodo, Hst, E. simpl. rewrite He. simpl. rewrite Hst, Etodo in Hmove.
    destruct (decide _); lia.
  - destruct ok; cycle 1.
    { destruct (l2_refused _ _ _ _ _ E Ha) as [-> Hne]. split; [lia|]. by intros _ E' _. }
    pose proof (added_backlog now now _ _ _ _ Hb (proj1 Hb) (ti_mem _ _ _ Ht) (vo_mem v Hv) Ha) as Hback.
    assert (Ht' : timed now now (mkView (v_todo v) (v_state v) (v_wb v) l m)).
    { eapply (l2_timed now v); [done..|]. by apply (l2_miss now v e l true m). }
    pose proof (added_pending _ _ _ _ _ _ Ha) as Hpm. simpl in Hpm.
    pose proof (l2_moves now now v (v_todo v) (v_state v) e l m (pos l) Ht E Hback) as Hmove. rewrite Hst, Etodo in Hmove.
    unfold run_time, request_time. simpl. rewrite Etodo, Hst, E. rewrite E in Hp. simpl in Hp |- *.
    destruct (cpu_load (e_req e)) eqn:He; simpl in *.
    + rewrite decide_True by lia.
      pose proof (load_wait_range now now (now + 1) m (ti_mem _ _ _ Ht') ltac:(lia)).
      pose proof (front_wait_range now (now + 1) _ (ti_l2 _ _ _ Ht) ltac:(lia)).
      assert (load_wait (now + 1) m + 1 <= l2_wait_time (now + 1) v 0); [unfold l2_wait_time; lia|]. lia.
    + destruct (decide (pending l = O)) as [Hz|Hz]; [|lia].
      rewrite (added_load_wait (now + 1) _ _ _ _ _ Ha) by (done || lia). lia.
Qed.

Lemma l2_time now v v' :
  before_wrap now → view_ok v → timed now now v → v_state v ≠ STALLED_WB → l2_step now v v' →
  left_after now v' <= left_after now v ∧
  (held_by_l2 v → v_mem v = [] → ¬ not_ready now (v_l2 v) → left_after now v' + 1 <= left_after now v).
Proof.
  intros Hb Hv Ht Hst Hs. destruct (v_todo v) as [[t gs]|] eqn:Etodo; cycle 1.
  { assert (Hi : v_state v = IDLE) by (apply (vo_left v Hv); unfold v_left; by rewrite Etodo).
    destruct (l2_idle now v v' Hv Hs) as (Es & Et & _); [by rewrite Hi|]. rewrite (idle_time _ v v') by done.
    split; [done|]. intros [H|[H _]]; by rewrite Hi in H. }
  destruct (v_state v) eqn:E; [|by destruct (vo_ready v Hv)| |clear Hst|done].
  - destruct (l2_idle now v v' Hv Hs) as (Es & Et & _); [by rewrite E|]. rewrite (idle_time _ v v') by (done || congruence).
    split; [done|]. intros [H|[H _]]; by rewrite E in H.
  - destruct (l2_time_waiting now v v' t gs Hb Hv Ht E Etodo Hs) as [H1 H2]. split; [done|].
    intros [H|[_ H]]; [by rewrite E in H|by apply H2].
  - pose proof (vo_pending v Hv) as Hp. rewrite E in Hp. unfold waiting in Hp. simpl in Hp.
    assert (Hgo : ∀ e l m, v_l2 v = e :: l → backlog (now + 1) m <= backlog (now + 1) (v_mem v) + 51 →
      left_after now (mkView (v_todo v) (v_state v) (v_wb v) l m) + 1 <= left_after now v).
    { intros e l m El Hm. pose proof (l2_moves now now v (v_todo v) (v_state v) e l m (length l) Ht El Hm) as Hmove.
      unfold run_time, request_time. simpl. rewrite Etodo, E. rewrite Etodo, E in Hmove. rewrite El. simpl length. lia. }
    destruct Hs as [Hq|e l Hn El Hre He|e l El Hre He|e l ok m El Hre Ha].
    + done.
    + rewrite El in Hp. simpl in Hp. by rewrite He in Hp.
    + specialize (Hgo e l (v_mem v) El ltac:(lia)). lia.
    + destruct ok.
      * specialize (Hgo e l m El (added_backlog now now _ _ _ _ Hb (proj1 Hb) (ti_mem _ _ _ Ht) (vo_mem v Hv) Ha)). lia.
      * destruct (l2_refused _ _ _ _ _ El Ha) as [-> Hne]. split; [lia|]. by intros _ E' _.
Qed.

Lemma backlog_pop lo now n e m : mem_timed lo now (e :: m) → n <= lo + 1 → backlog n m <= backlog n (e :: m).
Proof.
  intros (t & Ht & E & Hs) Hn. unfold backlog, accessTimeMem in *. destruct m as [|e' m]; [simpl length; lia|].
  destruct Hs as [E' _]. simpl length. lia.
Qed.

Lemma mem_time now v v' :
  before_wrap now → view_ok v → timed now now v → v_state v ≠ STALLED_WB → mem_step now v v' →
  left_after now v' <= left_after now v.
Proof.
  intros Hb Hv Ht Hst Hs. pose proof Hs as [Hq|e m Hn E Hre He|e m E Hre He]; [done|..].
  - destruct (v_todo v) as [[t gs]|] eqn:Etodo; [clear Hn|done].
    pose proof (complete_time now now (now + 1) v (v_wb v) (v_l2 v) m t gs Ht (proj1 Hb) Etodo).
    assert (0 <= request_time (now + 1) t v); [|lia].
    destruct (decide (v_state v = IDLE)) as [Hi|Hi]; [unfold request_time, longest; rewrite Hi; lia|].
    pose proof (busy_time_range now now (now + 1) t v Hv Ht ltac:(lia) ltac:(lia) Hi). lia.
  - pose proof (ti_mem _ _ _ Ht) as Hm. rewrite E in Hm. pose proof (backlog_pop now now (now + 1) e m Hm ltac:(lia)).
    unfold run_time, request_time, l2_wait_time. simpl. rewrite E. destruct (v_todo v) as [[t gs]|]; [|done].
    destruct (v_state v); try done; simpl load_wait; rewrite ?He; try lia. destruct (decide _); lia.
Qed.

Lemma wb_time now v v' :
  before_wrap now → view_ok v → timed (now + 1) now v → v_state v ≠ STALLED_WB → wb_step now v v' →
  left_after now v' <= left_after now v.
Proof.
  intros Hb Hv Ht Hst Hs. pose proof Hs as [Hq|e w E Hre|e w ok m E Hre Ha]; [done|..];
    unfold run_time, request_time, l2_wait_time; simpl; rewrite E; destruct (v_todo v) as [[t gs]|] eqn:Etodo; try done;
    simpl length.
  - destruct (v_state v); try done; try lia. destruct (decide _); lia.
  - pose proof (vo_stores v Hv) as Hstore. rewrite E in Hstore. apply Forall_cons in Hstore as [Hstore%cpu_load_store _].
    destruct ok; cycle 1.
    { destruct (added_refused _ _ _ _ _ Ha) as [-> _]. simpl length. destruct (v_state v); try done; try lia. }
    pose proof (added_backlog (now + 1) now _ _ _ _ Hb ltac:(destruct Hb; lia) (ti_mem _ _ _ Ht) (vo_mem v Hv) Ha).
    pose proof (vo_pending v Hv) as Hp. destruct (v_state v) eqn:Est; try done; try lia.
    unfold waiting in Hp. simpl in Hp. destruct (decide _) as [Hz|Hz]; [|lia].
    rewrite (added_load_wait (now + 1) _ _ _ _ _ Ha) by (done || lia). lia.
Qed.

Lemma added_head n k now r m ok m' : added k now r m ok m' → m ≠ [] → head_wait n m' = head_wait n m.
Proof.
  intros Ha Hne. destruct (added_times _ _ _ _ _ _ Ha) as [E|(_ & _ & E)];
    destruct m as [|e m], m' as [|e' m']; try done; injection E as E _; unfold head_wait; by rewrite E.
Qed.

(** When the memory queue is full after its service, it was not served, and its
    front is the same as before the service of the L2 queue. *)
Lemma full_head n now v v2 v3 :
  (length (v_mem v) <= 10)%nat → (length (v_mem v2) <= 10)%nat → l2_step now v v2 → mem_step now v2 v3 →
  length (v_mem v3) = 10%nat → v_mem v ≠ [] ∧ head_wait n (v_mem v3) = head_wait n (v_mem v).
Proof.
  intros Hlen Hlen2 Hl Hm Hfull.
  assert (E3 : v_mem v3 = v_mem v2).
  { destruct Hm as [Hq|e m Hk E Hre He|e m E Hre He]; [done|..]; simpl in Hfull; rewrite E in Hlen2; simpl in Hlen2; lia. }
  rewrite E3 in *. destruct Hl as [Hq|e l Hk E Hre He|e l E Hre He|e l ok m E Hre Ha]; simpl in *;
    try (split; [by intros E'; rewrite E' in Hfull|done]).
  destruct (added_length _ _ _ _ _ _ Ha Hlen) as [_ Hle].
  assert (Hne : v_mem v ≠ []) by (intros E'; rewrite E' in Hle; simpl in Hle; lia).
  split; [done|]. by apply (added_head n _ _ _ _ _ _ Ha).
Qed.

(** A store held up by the full write buffer: its front leaves, or is not ready, or
    waits for the front of the full memory queue. *)
Lemma stalled_store_time now v v2 v3 v' :
  before_wrap now → view_ok v → timed now now v → v_todo v ≠ None → v_state v = STALLED_WB → length (v_wb v) = 10%nat →
  l2_step now v v2 → mem_step now v2 v3 → wb_step now v3 v' → left_after now v' + 1 <= run_time now v.
Proof.
  intros Hb Hv Ht Hn Hst Hfull Hl Hm Hw.
  pose proof (l2_keeps _ _ _ Hv Hl) as Hv2. pose proof (l2_timed _ _ _ Hb Hv Ht Hl) as Ht2.
  destruct (l2_idle _ _ _ Hv Hl) as (Es2 & Et2 & Ew2); [by rewrite Hst|].
  pose proof (mem_keeps _ _ _ Hv2 Hm) as Hv3. pose proof (mem_timed_step _ _ _ Ht2 Hm) as Ht3.
  destruct (mem_idle _ _ _ Hv2 Hm) as (Es3 & Et3 & Ew3); [by rewrite Es2, Hst|].
  destruct (v_todo v) as [[t gs]|] eqn:Etodo; [clear Hn|done].
  unfold run_time at 2, request_time. rewrite Etodo, Hst, decide_True by done.
  pose proof (wb_wait_time_range now now now v Hv Ht ltac:(lia)) as Hwait.
  assert (E3 : v_todo v3 = Some (t, gs) ∧ v_state v3 = STALLED_WB ∧ v_wb v3 = v_wb v) by (split_and!; congruence).
  destruct E3 as (Etodo3 & Est3 & Ewb3). clear Es2 Et2 Ew2 Es3 Et3 Ew3.
  pose proof (proj2 (backlog_range _ _ (now + 1) _ (ti_mem _ _ _ Ht3) ltac:(lia) (vo_mem _ Hv3))) as Hhead.
  destruct Hw as [Hq|e w E Hre|e w ok m E Hre Ha]; unfold run_time, request_time; simpl; rewrite Etodo3, Est3; try rewrite E in Ewb3.
  - rewrite Ewb3 in Hq |- *. rewrite decide_True by done. unfold wb_wait_time. rewrite Ewb3.
    destruct (v_wb v) as [|e w]; [done|]. simpl in Hq. destruct (Z.ltb_spec now (e_ready e)); [|lia].
    destruct (Z.ltb_spec (now + 1) (e_ready e)); lia.
  - rewrite <- Ewb3 in Hfull. simpl in Hfull. rewrite decide_False by lia. lia.
  - destruct ok; [rewrite <- Ewb3 in Hfull; simpl in Hfull; rewrite decide_False by lia; lia|].
    destruct (added_refused _ _ _ _ _ Ha) as [-> Hm3].
    destruct (full_head now now v v2 v3 (vo_mem v Hv) (vo_mem _ Hv2) Hl Hm Hm3) as [Hne Hsame].
    rewrite Ewb3, decide_True by done. unfold wb_wait_time. simpl. rewrite <- Ewb3.
    destruct (Z.ltb_spec (now + 1) (e_ready e)); [lia|]. destruct (Z.ltb_spec now (e_ready e)); [lia|]. rewrite <- Hsame.
    destruct (v_mem v3) as [|e3 m3]; [done|]. unfold head_wait. lia.
Qed.

(** Every turn leaves less. *)
Lemma cycle_time now v v' :
  before_wrap now → view_ok v → timed now now v → v_todo v ≠ None → cycle_step now v v' →
  timed (now + 1) (now + 1) v' ∧ left_after now v' + 1 <= run_time now v.
Proof.
  intros Hb Hv Ht Hn [v1 v2 v3 v4 Hs1 Hs2 Hs3 Hs4].
  pose proof (turn_keeps _ _ _ Hv Hs1) as Hv1. pose proof (turn_timed _ _ _ Hb Ht Hs1) as Ht1.
  pose proof (l2_keeps _ _ _ Hv1 Hs2) as Hv2. pose proof (l2_timed _ _ _ Hb Hv1 Ht1 Hs2) as Ht2.
  pose proof (mem_keeps _ _ _ Hv2 Hs3) as Hv3. pose proof (mem_timed_step _ _ _ Ht2 Hs3) as Ht3.
  split; [by apply timed_next, (wb_timed now v3)|].
  pose proof (turn_time now v v1 Hb Hv Ht Hn Hs1) as H1.
  assert (Hbusy : v_state v1 ≠ IDLE → v_todo v1 ≠ None).
  { intros Hst Hd. apply Hst, (vo_left v1 Hv1). unfold v_left. by rewrite Hd. }
  destruct (decide (v_state v1 = STALLED_WB)) as [Hst|Hst].
  - destruct H1 as [[Hi _]|[[H|[[H _]|[_ Hfull]]] Hle]]; try congruence.
    pose proof (stalled_store_time now v1 v2 v3 v4 Hb Hv1 Ht1 ltac:(apply Hbusy; congruence) Hst Hfull Hs2 Hs3 Hs4). lia.
  - assert (Hst2 : v_state v2 ≠ STALLED_WB) by (by destruct Hs2).
    assert (Hst3 : v_state v3 ≠ STALLED_WB) by (by destruct Hs3).
    destruct (l2_time now v1 v2 Hb Hv1 Ht1 Hst Hs2) as [H2 H2'].
    pose proof (mem_time now v2 v3 Hb Hv2 Ht2 Hst2 Hs3) as H3. pose proof (wb_time now v3 v4 Hb Hv3 Ht3 Hst3 Hs4) as H4.
    destruct H1 as [[_ Hle]|[Hheld Hle]]; [lia|]. destruct Hheld as [Hw|[Hw|[Hw _]]]; [..|done].
    + destruct (wait_tick now v1 Hv1) as [?|(? & Hh & Hm & Hr)]; [apply Hbusy; congruence|by left|lia|]. specialize (H2' Hh Hm Hr). lia.
    + destruct (wait_tick now v1 Hv1) as [?|(? & Hh & Hm & Hr)]; [apply Hbusy; destruct Hw; congruence|by right|lia|]. specialize (H2' Hh Hm Hr). lia.
Qed.

Lemma at_least_pos gs : Forall (fun g => 0 <= g < 2 ^ 32) gs → 0 <= at_least gs.
Proof. induction 1 as [|g gs Hg _ IH]; simpl; [done|]. lia. Qed.

(** ** Not before the gaps have passed *)

(** The run does not end before [low]: the gaps of the requests that are left add
    up, and the request under way was ready. *)
Definition early (low now : Z) (v : view) : Prop :=
  match v_todo v with
  | None => low <= now
  | Some (t, gs) => low <= t + at_least gs ∧ (v_state v ≠ IDLE → t <= now)
  end.

(** The time of the next request does not wrap. *)
Definition fits (now : Z) (v : view) : Prop := ∀ t gs, v_todo v = Some (t, gs) → Forall (fun g => 0 <= now + g + 1 < 2 ^ 32) gs.

Definition on_time (low now : Z) (v : view) : Prop := early low now v ∧ fits now v.

Lemma complete_on_time low now v w l m t gs :
  on_time low now v → v_todo v = Some (t, gs) → t <= now → on_time low now (complete now v w l m).
Proof.
  intros [He Hf] E Ht. specialize (Hf t gs E). unfold on_time, early, fits in *. simpl. rewrite E in *. destruct He as [He _].
  destruct gs as [|g gs]; simpl in *; [split; [lia|done]|]. apply Forall_cons in Hf as [Hg Hf].
  rewrite u32_small by (unfold is_u32; lia). split; [split; [lia|done]|]. by intros t' gs' [= <- <-].
Qed.

Lemma on_time_same low now v v' :
  on_time low now v → v_todo v' = v_todo v → (v_state v' = v_state v ∨ ∃ t gs, v_todo v = Some (t, gs) ∧ t <= now) →
  on_time low now v'.
Proof.
  intros [He Hf] E Hs. unfold on_time, early, fits in *. rewrite E. split; [|done].
  destruct (v_todo v) as [[t gs]|]; [|done]. destruct Hs as [->|(t' & gs' & [= <- <-] & Ht)]; [done|]. by destruct He.
Qed.

(** The request of a busy processor was ready. *)
Lemma busy_on_time low now v : on_time low now v → v_state v ≠ IDLE → v_todo v ≠ None → ∃ t gs, v_todo v = Some (t, gs) ∧ t <= now.
Proof.
  intros [He _] Hb Hn. unfold early in He. destruct (v_todo v) as [[t gs]|] eqn:E; [|done]. exists t, gs. split; [done|]. by apply He.
Qed.

Lemma cycle_on_time low now v v' : view_ok v → on_time low now v → cycle_step now v v' → on_time low now v'.
Proof.
  intros Hv H0 [v1 v2 v3 v4 Hs1 Hs2 Hs3 Hs4].
  pose proof (turn_keeps _ _ _ Hv Hs1) as Hv1. pose proof (l2_keeps _ _ _ Hv1 Hs2) as Hv2.
  assert (Hwaits : ∀ v, view_ok v → (pending (v_l2 v) + pending (v_mem v))%nat ≠ O → v_state v ≠ IDLE).
  { intros u Hu Hp Hi. rewrite (vo_pending u Hu), Hi in Hp. done. }
  assert (H1 : on_time low now v1).
  { destruct Hs1 as [(Hi & t & gs & E & Ht)|r ok l Hn Hst Hr Ha|r ok w l Hn Hst Hr Ha Hpre|l Hst Hpre].
    - by apply (complete_on_time low now v _ _ _ t gs).
    - apply (on_time_same low now v); [done..|]. right.
      destruct Hst as [[_ H]|Hst]; [done|apply (busy_on_time low); [done|by rewrite Hst|done]].
    - assert (∃ t gs, v_todo v = Some (t, gs) ∧ t <= now) as (t & gs & E & Ht).
      { destruct Hst as [[_ H]|Hst]; [done|apply (busy_on_time low); [done|by rewrite Hst|done]]. }
      destruct ok; [by apply (complete_on_time low now v _ _ _ t gs)|]. apply (on_time_same low now v); [done..|]. right. by eexists _, _.
    - apply (on_time_same low now v); [done..|by left]. }
  assert (H2 : on_time low now v2).
  { destruct Hs2 as [Hq|e l Hn E Hre He|e l E Hre He|e l ok m E Hre Ha]; [done| |by apply (on_time_same low now v1); auto..].
    destruct (busy_on_time low now v1) as (t & gs & Et & Ht); [done| |done|by apply (complete_on_time low now v1 _ _ _ t gs)].
    apply Hwaits; [done|]. rewrite E. simpl. by rewrite He. }
  assert (H3 : on_time low now v3).
  { destruct Hs3 as [Hq|e m Hn E Hre He|e m E Hre He]; [done| |by apply (on_time_same low now v2); auto].
    destruct (busy_on_time low now v2) as (t & gs & Et & Ht); [done| |done|by apply (complete_on_time low now v2 _ _ _ t gs)].
    apply Hwaits; [done|]. rewrite E. simpl. rewrite He. lia. }
  destruct Hs4 as [Hq|e w E Hre|e w ok m E Hre Ha]; [done|by apply (on_time_same low now v3); auto..].
Qed.

(** ** The simulator's loop *)
Lemma trace_gaps_range gs f : trace_gaps gs f → Forall (fun g => 0 <= g < 2 ^ 32) gs.
Proof.
  induction 1 as [s s' E|gs s l s' E _ IH]; [by apply Forall_nil|]. apply Forall_cons. split; [|done].
  by destruct (scan_line_range _ _ _ E) as (_ & _ & ?).
Qed.

Lemma at_most_gap gs : Forall (fun g => 0 <= g) gs → Forall (fun g => g + longest <= at_most gs) gs ∧ 0 <= at_most gs.
Proof.
  induction 1 as [|g gs Hg _ [IH1 IH2]]; simpl; [by split; [apply Forall_nil|]|]. unfold longest in *.
  split; [|lia]. apply Forall_cons. split; [lia|]. eapply Forall_impl; [exact IH1|]. intros g' H. simpl in H. lia.
Qed.

Lemma run_time_fits lo now v :
  view_ok v → timed lo now v → lo = now → 0 <= now → now + run_time now v < 2 ^ 32 →
  fits now v ∧ (v_todo v ≠ None → 1 <= run_time now v).
Proof.
  intros Hv Ht -> Hnow Hlt. assert (Hr : ∀ t, 1 <= request_time now t v).
  { intros t. destruct (decide (v_state v = IDLE)) as [Hi|Hi]; [unfold request_time, longest; rewrite Hi; lia|].
    pose proof (busy_time_range now now now t v Hv Ht ltac:(lia) ltac:(lia) Hi). lia. }
  unfold run_time, fits in *. destruct (v_todo v) as [[t gs]|] eqn:E; [|done]. specialize (Hr t).
  pose proof (ti_gaps _ _ _ Ht t gs E) as Hg. destruct (at_most_gap gs Hg) as [H1 H2]. split; [|intros _; lia].
  intros t' gs' [= <- <-]. apply Forall_forall. intros g Hin. unfold longest in *.
  rewrite Forall_forall in H1, Hg. specialize (H1 g Hin). specialize (Hg g Hin). simpl in H1, Hg. lia.
Qed.

Section timing.
Context {CR : CRand} {P : Prefetcher} {POk : PrefetcherOk}.

Lemma ended_early low b now v :
  (v_todo v ≠ None → False) → early low (now - 1) v → now + run_time now v <= b + 1 → low + 1 <= now <= b + 1.
Proof. unfold early, run_time. destruct (v_todo v); [intros Hn; by destruct Hn|]. lia. Qed.

Lemma loop_in_time total low b fuel : ∀ s v,
  sim_view total s v → timed (curr_cycle s) (curr_cycle s) v → early low (curr_cycle s - 1) v → 1 <= curr_cycle s →
  curr_cycle s + run_time (curr_cycle s) v <= b + 1 → b + 600 <= 2 ^ 32 → run_time (curr_cycle s) v <= Z.of_nat fuel →
  ∃ s', loop fuel s = Some (true, s') ∧ low + 1 <= curr_cycle s' <= b + 1.
Proof.
  induction fuel as [|fuel IH]; intros s v Hs Ht He H1 Hr Hb Hf;
    destruct (run_time_fits _ (curr_cycle s) v (sv_ok _ _ _ Hs) Ht eq_refl ltac:(lia) ltac:(lia)) as [Hfits Hpos];
    pose proof (done_left total s v Hs) as Hdone; rewrite left_todo in Hdone.
  - destruct (CPU.isDone (cpu s)) eqn:Hd; [|specialize (Hpos (proj1 Hdone eq_refl)); lia].
    exists s. simpl. rewrite Hd. split; [done|]. by apply (ended_early low b _ v); [intros Hn; apply Hdone in Hn|..].
  - simpl. destruct (CPU.isDone (cpu s)) eqn:Hd.
    { exists s. split; [done|]. by apply (ended_early low b _ v); [intros Hn; apply Hdone in Hn|..]. }
    pose proof (proj1 Hdone eq_refl) as Hn. specialize (Hpos Hn).
    destruct (cycle_ok total s v Hs) as (s' & v' & -> & R & Hs' & Hcyc); [by apply left_todo|]. bind_step.
    rewrite u32_small in Hcyc by (unfold is_u32; lia).
    destruct (cycle_time (curr_cycle s) v v') as [Ht' Hle]; try done; [unfold before_wrap; lia|exact (sv_ok _ _ _ Hs)|].
    assert (Hot : on_time low (curr_cycle s) v).
    { split; [|done]. unfold early in *. destruct (v_todo v) as [[t gs]|]; [|done]. destruct He as [He1 He2]. split; [done|].
      intros Hi. specialize (He2 Hi). lia. }
    destruct (cycle_on_time low _ v v' (sv_ok _ _ _ Hs) Hot R) as [He' _].
    apply (IH s' v' Hs'); rewrite ?Hcyc; try lia; [done|]. by rewrite Z.add_simpl_r.
Qed.

Lemma first_view_time gs :
  Forall (fun g => 0 <= g < 2 ^ 32) gs → at_most gs + 600 <= 2 ^ 32 →
  timed 1 1 (first_view gs) ∧ early (at_least gs) 0 (first_view gs) ∧ run_time 1 (first_view gs) <= at_most gs.
Proof.
  intros Hg Hb. assert (Hg' : Forall (fun g => 0 <= g) gs) by (eapply Forall_impl; [exact Hg|]; intros g Hr; simpl in Hr; lia).
  split_and!.
  - split; simpl; try apply Forall_nil_2; [exists 1; unfold accessTimeMem; split; [lia|done]|].
    apply (next_todo_gaps 0 (Some (0, gs))). by intros t gs0 [= <- <-].
  - unfold early, first_view. destruct gs as [|g gs]; simpl; [lia|].
    destruct (at_most_gap _ Hg') as [Hm _]. apply Forall_cons in Hm as [Hm _]. apply Forall_cons in Hg' as [Hg0 _].
    unfold longest in Hm. rewrite u32_small by (unfold is_u32; lia). split; [lia|done].
  - unfold run_time, first_view. destruct gs as [|g gs]; simpl; [lia|]. apply Forall_cons in Hg' as [Hg0 _].
    unfold request_time. simpl in *. pose proof (Z.mod_le (0 + g + 1) (2 ^ 32)). unfold u32, longest. lia.
Qed.

(** C2: how long the simulator runs: on a trace whose requests are [gs] cycles
    apart, and with any lawful prefetcher, the loop ends with its report after at
    least a cycle and at most 2735 cycles per request beyond the gaps, as long as
    the counter does not wrap by then: a request waits at worst for a full L2
    queue, a full write buffer and a full memory queue, one entry after another. *)
Theorem simulator_ends_in_time gs f p g jr j fuel
    (Hf : trace_gaps gs f) (Hp : pf_ok p) (Hwrap : at_most gs + 600 <= 2 ^ 32) (Hfuel : at_most gs <= Z.of_nat fuel) :
  ∃ r, main fuel (Some f) p g jr j = Some (Some r) ∧ at_least gs <= total_cycles r <= at_most gs.
Proof.
  destruct (first_view_time gs (trace_gaps_range gs f Hf) Hwrap) as (Ht & He & Hr).
  destruct (start_ok (length gs) f gs p g jr j Hf eq_refl Hp) as (s & Hs0 & Hs & Hc).
  destruct (loop_in_time (length gs) (at_least gs) (at_most gs) fuel s (first_view gs) Hs) as (s' & Hl & Hlow & Hup);
    rewrite ?Hc; try done; [lia..|].
  exists (finish s'). unfold main. rewrite Hs0. bind_step. rewrite Hl. split; [done|]. unfold finish. cbn [total_cycles].
  pose proof (at_least_pos gs (trace_gaps_range gs f Hf)). rewrite u32_small by (unfold is_u32; lia). lia.
Qed.
End timing.

(** ** Witness *)
#[local] Existing Instance std_rand.
#[local] Existing Instance SamplePf.ops.
#[local] Existing Instance SamplePf.laws.

Lemma simulator_ends_in_time_witness :
  ∃ r, main (Z.to_nat 8210) (Some demo_file) demo_pf (srand 100) zeroRequest 0 = Some (Some r) ∧ 8 <= total_cycles r <= 8210.
Proof.
  exact (simulator_ends_in_time [0; 0; 5] demo_file demo_pf (srand 100) zeroRequest 0 (Z.to_nat 8210) demo_file_gaps demo_pf_ok
    ltac:(vm_compute; discriminate) ltac:(vm_compute; discriminate)).
Defined.
