(* ===== verification/SimEquiv.v ===== *)
(** * Equivalent prefetchers give the same report

    Two runs of main.C, with equivalent prefetchers and with whatever the
    uninitialised members of the processor hold, stay related turn by turn. *)
From S2P Require Import Prelude.
From S2P Require Import Words.
From S2P Require Import MemSim.
From S2P Require Import TraceFormat.
From S2P Require Import CacheModel.
From S2P Require Import MemQueueModel.
From S2P Require Import CpuModel.
From S2P Require Import PrefetcherInterface.
From S2P Require Import Simulator.
From S2P Require Import PrefetcherEquiv.
Import Sim.

Section two_runs.
Context `{CR : CRand} {P1 P2 : Prefetcher} (R : @pf _ P1 → @pf _ P2 → Prop).
Context (HR : pf_simulation P1 P2 R).

Abbreviation Sim1 := (@Sim CR P1).
Abbreviation Sim2 := (@Sim CR P2).

(** States that agree on all but the private state of the prefetchers and what
    [fresh] lets differ. *)
Record sim_rel (fresh : bool) (s1 : Sim1) (s2 : Sim2) : Prop := {
  sr_DCache : DCache s1 = DCache s2;
  sr_L2Cache : L2Cache s1 = L2Cache s2;
  sr_cpu : cpu_rel fresh (cpu s1) (cpu s2);
  sr_pf : R (prefetcher s1) (prefetcher s2);
  sr_writeBuffer : queue_rel fresh (writeBuffer s1) (writeBuffer s2);
  sr_queueL2 : queue_rel fresh (queueL2 s1) (queueL2 s2);
  sr_queueMem : queue_rel fresh (queueMem s1) (queueMem s2);
  sr_generator : generator s1 = generator s2;
  sr_nRequestsL2 : nRequestsL2 s1 = nRequestsL2 s2;
  sr_memCycles : memCycles s1 = memCycles s2;
  sr_memQsize : memQsize s1 = memQsize s2;
  sr_cycle : curr_cycle s1 = curr_cycle s2;
}.

Definition sim_answer_rel (fresh : bool) (x : bool * Sim1) (y : bool * Sim2) : Prop :=
  x.1 = y.1 ∧ sim_rel fresh x.2 y.2.

Section parts.
Context (fresh : bool) (s1 : Sim1) (s2 : Sim2) (Hs : sim_rel fresh s1 s2).

Lemma with_cpu_rel c1 c2 : cpu_rel fresh c1 c2 → sim_rel fresh (with_cpu s1 c1) (with_cpu s2 c2).
Proof. intros. by destruct Hs. Qed.

Lemma with_pf_rel p1 p2 g : R p1 p2 → sim_rel fresh (with_pf s1 p1 g) (with_pf s2 p2 g).
Proof. intros. by destruct Hs. Qed.

Lemma with_counters_rel a b c d : sim_rel fresh (with_counters s1 a b c d) (with_counters s2 a b c d).
Proof. by destruct Hs. Qed.

Lemma count_L2_rel : sim_rel fresh (count_L2 s1) (count_L2 s2).
Proof. unfold count_L2. by destruct Hs as [???????? <- <- <- <-]. Qed.

Lemma access_DCache_rel r1 r2 : req_rel fresh r1 r2 →
  option_Forall2 (sim_rel fresh) (access_DCache s1 r1) (access_DCache s2 r2).
Proof.
  intros [Ha Hl _ _]. unfold access_DCache. rewrite <- (sr_DCache _ _ _ Hs), <- (sr_generator _ _ _ Hs), Ha, Hl.
  apply rel_bind_same. intros [[? d] g]. constructor. by destruct Hs.
Qed.

Lemma access_L2Cache_rel r1 r2 : req_rel fresh r1 r2 →
  option_Forall2 (sim_rel fresh) (access_L2Cache s1 r1) (access_L2Cache s2 r2).
Proof.
  intros [Ha Hl _ _]. unfold access_L2Cache. rewrite <- (sr_L2Cache _ _ _ Hs), <- (sr_generator _ _ _ Hs), Ha, Hl.
  apply rel_bind_same. intros [[? d] g]. constructor. by destruct Hs.
Qed.

(** [add] leaves the prefetcher as it is. *)
Lemma add_queueL2_rel r1 r2 : req_rel fresh r1 r2 →
  option_Forall2 (fun x y => sim_answer_rel fresh x y ∧ prefetcher x.2 = prefetcher s1 ∧ curr_cycle x.2 = curr_cycle s1)
    (add_queueL2 s1 r1) (add_queueL2 s2 r2).
Proof.
  intros Hr. unfold add_queueL2. rewrite <- (sr_DCache _ _ _ Hs), <- (sr_cycle _ _ _ Hs).
  eapply rel_bind; [by apply add_rel, Hr; destruct Hs|].
  intros [ok q1] [? q2] [[= <-] Hq]. constructor. split; [|done]. split; [done|]. by destruct Hs.
Qed.

Lemma add_writeBuffer_rel r1 r2 : req_rel fresh r1 r2 →
  option_Forall2 (sim_answer_rel fresh) (add_writeBuffer s1 r1) (add_writeBuffer s2 r2).
Proof.
  intros Hr. unfold add_writeBuffer. rewrite <- (sr_DCache _ _ _ Hs), <- (sr_cycle _ _ _ Hs).
  eapply rel_bind; [by apply add_rel, Hr; destruct Hs|].
  intros [ok q1] [? q2] [[= <-] Hq]. constructor. split; [done|]. by destruct Hs.
Qed.

Lemma add_queueMem_rel r1 r2 : req_rel fresh r1 r2 →
  option_Forall2 (sim_answer_rel fresh) (add_queueMem s1 r1) (add_queueMem s2 r2).
Proof.
  intros Hr. unfold add_queueMem. rewrite <- (sr_L2Cache _ _ _ Hs), <- (sr_cycle _ _ _ Hs).
  eapply rel_bind; [by apply add_rel, Hr; destruct Hs|].
  intros [ok q1] [? q2] [[= <-] Hq]. constructor. split; [done|]. by destruct Hs.
Qed.

Lemma remove_queueL2_rel : sim_rel fresh (remove_queueL2 s1) (remove_queueL2 s2).
Proof. destruct Hs. split; try done. by apply remove_rel. Qed.
Lemma remove_writeBuffer_rel : sim_rel fresh (remove_writeBuffer s1) (remove_writeBuffer s2).
Proof. destruct Hs. split; try done. by apply remove_rel. Qed.
Lemma remove_queueMem_rel : sim_rel fresh (remove_queueMem s1) (remove_queueMem s2).
Proof. destruct Hs. split; try done. by apply remove_rel. Qed.

(** A turn's parts: what they do with a request of the processor, if it is one. *)
Lemma cpu_complete_rel : fresh = false → option_Forall2 (sim_rel fresh) (cpu_complete s1) (cpu_complete s2).
Proof.
  intros Hf. unfold cpu_complete. rewrite <- (sr_cycle _ _ _ Hs).
  pose proof (sr_cpu _ _ _ Hs) as Hc. unfold cpu_rel in Hc. rewrite Hf in Hc. rewrite <- Hc.
  apply rel_bind_same. intros c. constructor. destruct Hs. split; try done. unfold cpu_rel. by rewrite Hf.
Qed.
End parts.

Section turns.
Context (fresh : bool).

Lemma complete_if_cpu_rel s1 s2 r1 r2 (b : bool) : sim_rel fresh s1 s2 → req_rel fresh r1 r2 →
  option_Forall2 (sim_rel fresh) (if fromCPU r1 && b then cpu_complete s1 else Some s1)
    (if fromCPU r2 && b then cpu_complete s2 else Some s2).
Proof.
  intros Hs [_ _ Hc Hf]. rewrite <- Hc. destruct (fromCPU r1); simpl; [|by constructor].
  destruct b; [|by constructor]. apply cpu_complete_rel; [done|]. by destruct fresh; [discriminate Hf|].
Qed.

Lemma prefetch_rel s1 s2 : sim_rel fresh s1 s2 → option_Forall2 (sim_rel fresh) (prefetch s1) (prefetch s2).
Proof.
  intros Hs. unfold prefetch. rewrite <- (sr_cycle _ _ _ Hs).
  pose proof (sr_pf _ _ _ Hs) as Hp. rewrite <- (sim_has _ _ _ HR _ _ _ Hp).
  destruct (hasRequest (prefetcher s1) (curr_cycle s1)) eqn:Hh; [|by constructor].
  eapply rel_bind.
  - apply add_queueL2_rel; [by apply count_L2_rel|]. split; try done. by apply (sim_get _ _ _ HR).
  - intros [ok t1] [? t2] [[[= <-] Ht] [Ep Ec]]. simpl in Ht, Ep, Ec. destruct ok; [|by constructor].
    rewrite <- (sr_cycle _ _ _ Ht), Ec. eapply rel_bind.
    + apply (sim_complete _ _ _ HR); [by destruct Ht|by rewrite Ep].
    + intros p1 p2 Hp'. rewrite (sr_generator _ _ _ Ht). constructor. by apply with_pf_rel.
Qed.

Lemma service_L2_rel s1 s2 : sim_rel fresh s1 s2 → option_Forall2 (sim_rel fresh) (service_L2 s1) (service_L2 s2).
Proof.
  intros Hs. unfold service_L2.
  rewrite <- (sr_cycle _ _ _ Hs), <- (frontReady_rel _ _ _ _ (sr_queueL2 _ _ _ Hs)).
  apply rel_bind_same. intros [|]; [|by constructor].
  eapply rel_bind; [by apply getFront_rel; destruct Hs|]. intros r1 r2 Hr. cbv zeta.
  rewrite <- (sr_L2Cache _ _ _ Hs), <- (rr_addr _ _ _ Hr), <- (rr_load _ _ _ Hr).
  apply rel_bind_same. intros isHit.
  assert (sim_rel fresh (with_cpu s1 (CPU.loadHitL2 (cpu s1) isHit)) (with_cpu s2 (CPU.loadHitL2 (cpu s2) isHit))) as Hs'.
  { apply with_cpu_rel; [done|]. apply loadHitL2_rel. by destruct Hs. }
  destruct isHit.
  - eapply rel_bind; [by apply access_DCache_rel|]. intros t1 t2 Ht. eapply rel_bind.
    + pose proof (complete_if_cpu_rel t1 t2 r1 r2 true Ht Hr) as E. rewrite !andb_true_r in E. exact E.
    + intros u1 u2 Hu. constructor. by apply remove_queueL2_rel.
  - eapply rel_bind; [by apply add_queueMem_rel|]. intros [ok t1] [? t2] [[= <-] Ht]. constructor.
    destruct ok; [by apply remove_queueL2_rel|done].
Qed.

Lemma service_mem_rel s1 s2 : sim_rel fresh s1 s2 → option_Forall2 (sim_rel fresh) (service_mem s1) (service_mem s2).
Proof.
  intros Hs. unfold service_mem.
  rewrite <- (sr_cycle _ _ _ Hs), <- (frontReady_rel _ _ _ _ (sr_queueMem _ _ _ Hs)).
  apply rel_bind_same. intros [|]; [|by constructor].
  eapply rel_bind; [by apply getFront_rel; destruct Hs|]. intros r1 r2 Hr. cbv zeta.
  eapply rel_bind; [by apply access_L2Cache_rel, Hr; apply remove_queueMem_rel|]. intros t1 t2 Ht.
  rewrite <- (rr_load _ _ _ Hr). eapply rel_bind.
  - instantiate (1 := sim_rel fresh). destruct (load r1); [by apply access_DCache_rel|by constructor].
  - intros u1 u2 Hu. by apply complete_if_cpu_rel.
Qed.

Lemma service_writeBuffer_rel s1 s2 :
  sim_rel fresh s1 s2 → option_Forall2 (sim_rel fresh) (service_writeBuffer s1) (service_writeBuffer s2).
Proof.
  intros Hs. unfold service_writeBuffer.
  rewrite <- (sr_cycle _ _ _ Hs), <- (frontReady_rel _ _ _ _ (sr_writeBuffer _ _ _ Hs)).
  apply rel_bind_same. intros [|]; [|by constructor].
  eapply rel_bind; [by apply getFront_rel; destruct Hs|]. intros r1 r2 Hr. cbv zeta.
  rewrite <- (sr_L2Cache _ _ _ Hs), <- (rr_addr _ _ _ Hr), <- (rr_load _ _ _ Hr).
  apply rel_bind_same. intros isHit.
  assert (sim_rel fresh (with_cpu s1 (CPU.storeHitL2 (cpu s1) isHit)) (with_cpu s2 (CPU.storeHitL2 (cpu s2) isHit))) as Hs'.
  { apply with_cpu_rel; [done|]. apply storeHitL2_rel. by destruct Hs. }
  destruct isHit.
  - eapply rel_bind; [by apply access_L2Cache_rel|]. intros t1 t2 Ht. constructor. by apply remove_writeBuffer_rel.
  - eapply rel_bind; [by apply add_queueMem_rel|]. intros [ok t1] [? t2] [[= <-] Ht]. constructor.
    destruct ok; [by apply remove_writeBuffer_rel|done].
Qed.

Lemma count_mem_rel s1 s2 : sim_rel fresh s1 s2 → sim_rel fresh (count_mem s1) (count_mem s2).
Proof.
  intros Hs. unfold count_mem. rewrite <- (getSize_rel _ _ _ (sr_queueMem _ _ _ Hs)).
  pose proof Hs as [???????? <- <- <- <-]. by apply with_counters_rel.
Qed.

Lemma next_cycle_rel s1 s2 : sim_rel fresh s1 s2 → sim_rel fresh (next_cycle s1) (next_cycle s2).
Proof. intros Hs. unfold next_cycle. pose proof Hs as [???????? <- <- <- <-]. by apply with_counters_rel. Qed.
End turns.

(** Once the processor issues a request the runs agree on it. *)
Lemma queue_rel_issued fresh q1 q2 : queue_rel fresh q1 q2 → queue_rel false q1 q2.
Proof.
  intros (l & -> & Hl). exists l. split; [done|]. eapply Forall2_impl; [exact Hl|]. by intros ?? [???].
Qed.

Lemma sim_rel_issued fresh s1 s2 c : sim_rel fresh s1 s2 → sim_rel false (with_cpu s1 c) (with_cpu s2 c).
Proof. intros []. split; try done; by eapply queue_rel_issued. Qed.

Lemma getStatus_rel fresh c1 c2 cycle : cpu_rel fresh c1 c2 →
  (CPU.getStatus c1 cycle).1 = (CPU.getStatus c2 cycle).1 ∧
  CPU.issueRequest (CPU.getStatus c1 cycle).2 cycle = CPU.issueRequest (CPU.getStatus c2 cycle).2 cycle ∧
  match (CPU.getStatus c1 cycle).1 with
  | READY => True
  | IDLE => cpu_rel fresh (CPU.getStatus c1 cycle).2 (CPU.getStatus c2 cycle).2
  | _ => fresh = false ∧ cpu_rel fresh (CPU.getStatus c1 cycle).2 (CPU.getStatus c2 cycle).2
  end.
Proof.
  unfold cpu_rel. destruct fresh.
  - intros (Hs & t & ->). unfold CPU.getStatus. simpl. rewrite Hs. simpl.
    destruct (CPU._readyAt c1 <=? cycle); simpl; [done|]. rewrite Hs. split_and!; try done. by exists t.
  - intros ->. split_and!; try done. by destruct (CPU.getStatus c2 cycle) as [[] ?].
Qed.

(** The request is issued at the start of [cpu_ready]. *)
Lemma cpu_ready_rel fresh s1 s2 c1 c2 :
  sim_rel fresh s1 s2 → CPU.issueRequest c1 (curr_cycle s1) = CPU.issueRequest c2 (curr_cycle s1) →
  option_Forall2 (sim_rel false) (cpu_ready (with_cpu s1 c1)) (cpu_ready (with_cpu s2 c2)).
Proof.
  intros Hs Hi. unfold cpu_ready. cbn [cpu with_cpu curr_cycle DCache].
  rewrite <- (sr_cycle _ _ _ Hs), <- Hi, <- (sr_DCache _ _ _ Hs).
  destruct (CPU.issueRequest c1 (curr_cycle s1)) as [req c]. apply rel_bind_same. intros isHit.
  pose proof (sim_rel_issued fresh s1 s2 (CPU.hitL1 c isHit) Hs) as Ht.
  change (with_cpu (with_cpu s1 c1) (CPU.hitL1 c isHit)) with (with_cpu s1 (CPU.hitL1 c isHit)).
  change (with_cpu (with_cpu s2 c2) (CPU.hitL1 c isHit)) with (with_cpu s2 (CPU.hitL1 c isHit)).
  revert Ht. generalize (with_cpu s1 (CPU.hitL1 c isHit)) (with_cpu s2 (CPU.hitL1 c isHit)). clear s1 s2 Hs Hi.
  intros s1 s2 Hs. cbv zeta. rewrite <- (sr_generator _ _ _ Hs).
  eapply rel_bind; [apply (sim_cpu _ _ _ HR); by destruct Hs|]. intros [p1 g] [p2 ?] [Hp [= <-]]. cbn [fst] in Hp.
  pose proof (with_pf_rel false s1 s2 Hs p1 p2 g Hp) as Ht.
  assert (Hreq : req_rel false (set_HitL1 req isHit) (set_HitL1 req isHit)) by by split.
  destruct isHit.
  - eapply rel_bind; [by apply access_DCache_rel|]. intros t1 t2 Ht'. by apply cpu_complete_rel.
  - destruct (load (set_HitL1 req false)).
    + eapply rel_bind; [by apply add_queueL2_rel, Hreq; apply count_L2_rel|].
      intros [ok u1] [? u2] [[[= <-] Hu] _]. constructor. apply with_cpu_rel; [done|].
      by rewrite (sr_cpu _ _ _ Hu).
    + eapply rel_bind; [by apply add_writeBuffer_rel, Hreq; apply count_L2_rel|].
      intros [ok u1] [? u2] [[= <-] Hu]. destruct ok; [by apply cpu_complete_rel|].
      constructor. apply with_cpu_rel; [done|]. by rewrite (sr_cpu _ _ _ Hu).
Qed.

Lemma retry_writeBuffer_rel s1 s2 :
  sim_rel false s1 s2 → option_Forall2 (sim_rel false) (retry_writeBuffer s1) (retry_writeBuffer s2).
Proof.
  intros Hs. unfold retry_writeBuffer. rewrite <- (sr_cpu _ _ _ Hs). eapply rel_bind; [by apply add_writeBuffer_rel|].
  intros [ok u1] [? u2] [[= <-] Hu]. destruct ok; [by apply cpu_complete_rel|by constructor].
Qed.

Lemma retry_queueL2_rel s1 s2 :
  sim_rel false s1 s2 → option_Forall2 (sim_rel false) (retry_queueL2 s1) (retry_queueL2 s2).
Proof.
  intros Hs. unfold retry_queueL2. rewrite <- (sr_cpu _ _ _ Hs). eapply rel_bind; [by apply add_queueL2_rel|].
  intros [ok u1] [? u2] [[[= <-] Hu] _]. constructor. destruct ok; [|done]. apply with_cpu_rel; [done|].
  by rewrite (sr_cpu _ _ _ Hu).
Qed.

(** The runs are related, fresh or not. *)
Definition runs_rel (s1 : Sim1) (s2 : Sim2) : Prop := ∃ fresh, sim_rel fresh s1 s2.

Lemma runs_rel_mono fresh (m1 : option Sim1) (m2 : option Sim2) :
  option_Forall2 (sim_rel fresh) m1 m2 → option_Forall2 runs_rel m1 m2.
Proof. intros []; constructor. by exists fresh. Qed.

Lemma cpu_turn_rel s1 s2 : runs_rel s1 s2 → option_Forall2 runs_rel (cpu_turn s1) (cpu_turn s2).
Proof.
  intros [fresh Hs]. unfold cpu_turn. rewrite <- (sr_cycle _ _ _ Hs).
  destruct (getStatus_rel fresh _ _ (curr_cycle s1) (sr_cpu _ _ _ Hs)) as (Est & Ei & Hc).
  destruct (CPU.getStatus (cpu s1) (curr_cycle s1)) as [st c1], (CPU.getStatus (cpu s2) (curr_cycle s1)) as [? c2].
  simpl in *. subst. cbv zeta.
  destruct c; eapply runs_rel_mono.
  - by apply prefetch_rel, with_cpu_rel.
  - by apply (cpu_ready_rel fresh).
  - destruct Hc as [-> Hc]. by apply prefetch_rel, with_cpu_rel.
  - destruct Hc as [-> Hc]. by apply retry_queueL2_rel, with_cpu_rel.
  - destruct Hc as [-> Hc]. eapply rel_bind; [by apply prefetch_rel, with_cpu_rel|apply retry_writeBuffer_rel].
Qed.

Lemma cycle_rel s1 s2 : runs_rel s1 s2 → option_Forall2 runs_rel (cycle s1) (cycle s2).
Proof.
  intros Hs. unfold cycle. eapply rel_bind; [by apply cpu_turn_rel|]. intros t1 t2 [fresh Ht]. eapply runs_rel_mono.
  eapply rel_bind; [by apply service_L2_rel|]. intros u1 u2 Hu.
  eapply rel_bind; [by apply service_mem_rel|]. intros v1 v2 Hv.
  eapply rel_bind; [by apply service_writeBuffer_rel, count_mem_rel|]. intros w1 w2 Hw.
  constructor. by apply next_cycle_rel.
Qed.

Lemma runs_rel_cpu s1 s2 : runs_rel s1 s2 →
  CPU.isDone (cpu s1) = CPU.isDone (cpu s2) ∧ finish s1 = finish s2.
Proof.
  intros [fresh [?? Hc ????? En Em Eq Ec]]. unfold finish. rewrite En, Em, Eq, Ec. unfold cpu_rel in Hc.
  destruct fresh; [|by rewrite Hc]. destruct Hc as (_ & t & ->). done.
Qed.

Lemma loop_rel fuel : ∀ s1 s2, runs_rel s1 s2 →
  option_Forall2 (fun x y => x.1 = y.1 ∧ runs_rel x.2 y.2) (loop fuel s1) (loop fuel s2).
Proof.
  induction fuel as [|fuel IH]; intros s1 s2 Hs; simpl;
    destruct (runs_rel_cpu s1 s2 Hs) as [<- _]; destruct (CPU.isDone (cpu s1)); try by constructor.
  eapply rel_bind; [by apply cycle_rel|apply IH].
Qed.

(** ** The start: a first request, or an empty trace *)
Lemma start_rel trace_file p1 p2 g jr1 jr2 j1 j2 :
  R p1 p2 →
  option_Forall2 (fun s1 s2 => runs_rel s1 s2 ∨
      CPU.isDone (cpu s1) = true ∧ CPU.isDone (cpu s2) = true ∧ finish s1 = finish s2)
    (start trace_file p1 g jr1 j1) (start trace_file p2 g jr2 j2).
Proof.
  intros Hp. unfold start. destruct (sets_of assocL1 totalSizeL1 lineSizeL1) as [n1 a1].
  destruct (sets_of assocL2 totalSizeL2 lineSizeL2) as [n2 a2].
  unfold CPU.CPU_new, CPU.readNextRequest. simpl. destruct trace_file as [f|]; [simpl|constructor].
  destruct (scan_line f) as [[[l|] f']|]; simpl; constructor; [|by right].
  left. exists true. split; simpl; try done; try apply new_queue_rel.
  split; [done|]. by exists (issuedAt jr2).
Qed.

Lemma main_rel fuel trace_file p1 p2 g jr1 jr2 j1 j2 :
  R p1 p2 → main fuel trace_file p1 g jr1 j1 = main fuel trace_file p2 g jr2 j2.
Proof.
  intros Hp. apply option_eq_Forall2. unfold main. eapply rel_bind; [by apply start_rel|].
  intros s1 s2 [Hs|(D1 & D2 & Hf)].
  - eapply rel_bind; [by apply loop_rel|]. intros [e t1] [? t2] [[= <-] Ht]. simpl in Ht.
    destruct (runs_rel_cpu t1 t2 Ht) as [_ ->]. destruct e; by constructor.
  - destruct fuel; simpl; rewrite D1, D2; simpl; rewrite Hf; by constructor.
Qed.

End two_runs.

Section main.
Context `{CR : CRand}.

(** main.C linked with a prefetcher. *)
Definition run_main (fuel : nat) (a : linked) (trace_file : option chars) (g : rng) (junk_req : Request)
    (junk_ready : Z) : option (option report) :=
  @main CR (impl a) fuel trace_file (initial a) g junk_req junk_ready.

(** C8: linked with equivalent prefetchers the program behaves the same on every
    trace, for every number of turns: undefined behaviour, running on, or the same
    report, whatever its uninitialised members hold. *)
Theorem equivalent_prefetchers_same_report fuel a b trace_file g jr1 jr2 j1 j2 (Hab : pf_equiv a b) :
  run_main fuel a trace_file g jr1 j1 = run_main fuel b trace_file g jr2 j2.
Proof. destruct Hab as (R & HR & Hi). by apply (main_rel R HR). Qed.

(** As an instance, to rewrite with equivalences of prefetchers. *)
#[export] Instance run_main_proper fuel : Proper (pf_equiv ==> eq ==> eq ==> eq ==> eq ==> eq) (run_main fuel).
Proof.
  intros a b (R & HR & Hi) tf ? <- g ? <- jr ? <- j ? <-. by apply (main_rel R HR).
Qed.
End main.
