(* ===== verification/PrefetcherRefs.v ===== *)
(** * Reference prefetchers

    What six of the seven prefetchers do, without their encodings: sets of block
    numbers instead of packed bit arrays, a map of rows instead of an array, an
    optional pending request instead of a flag and the members it guards. The
    simulator cannot tell them from the code. *)
From S2P Require Import Prelude.
From S2P Require Import Words.
From S2P Require Import MemSim.
From S2P Require Import PrefetcherInterface.
From S2P Require Import BitArray.
From S2P Require Import SimplePrefetchers.
From S2P Require Import TablePrefetchers.
From S2P Require Import HybridPrefetcher.
From S2P Require Import PrefetcherEquiv.

(** ** Sets of bits

    The bits of an array of [char] that can be seen: the sign of a [char] cannot. *)
Definition mark (n a : Z) (X : gset Z) : gset Z := if (a mod n) mod 8 =? 7 then X else {[a mod n]} ∪ X.
Definition unmark (n a : Z) (X : gset Z) : gset Z := X ∖ {[a mod n]}.
Definition marked (n a : Z) (X : gset Z) : bool := bool_decide (a mod n ∈ X).

Record array_is (arr : list Z) (n : Z) (X : gset Z) : Prop := {
  ai_ok : array_ok arr n;
  ai_bits : ∀ i, i ∈ X ↔ 0 <= i < n ∧ bit arr i = true ∧ i mod 8 ≠ 7;
}.

Section array.
Context (arr : list Z) (n : Z) (X : gset Z) (HX : array_is arr n X).

Lemma mod_in_range a : 0 <= a mod n < n.
Proof. apply Z.mod_pos_bound. destruct HX as [[] _]. lia. Qed.

Lemma mark_is a : ∃ arr', markBit a arr n = Some arr' ∧ array_is arr' n (mark n a X).
Proof.
  destruct (markBit_ok _ _ (ai_ok _ _ _ HX) a) as (arr' & -> & Hok & _ & Hb). exists arr'. split; [done|].
  split; [done|]. intros i. rewrite Hb. unfold bit_index, mark. pose proof (mod_in_range a).
  destruct (Z.eqb_spec (a mod n mod 8) 7) as [E|E].
  - rewrite (ai_bits _ _ _ HX). destruct (Z.eqb_spec i (a mod n)) as [->|]; [tauto|done].
  - rewrite elem_of_union, elem_of_singleton, (ai_bits _ _ _ HX).
    destruct (Z.eqb_spec i (a mod n)) as [->|]; intuition congruence.
Qed.

Lemma unmark_is a : ∃ arr', unmarkBit a arr n = Some arr' ∧ array_is arr' n (unmark n a X).
Proof.
  destruct (unmarkBit_ok _ _ (ai_ok _ _ _ HX) a) as (arr' & -> & Hok & _ & Hb). exists arr'. split; [done|].
  split; [done|]. intros i. rewrite Hb. unfold bit_index, unmark.
  rewrite elem_of_difference, elem_of_singleton, (ai_bits _ _ _ HX).
  destruct (Z.eqb_spec i (a mod n)) as [->|]; intuition congruence.
Qed.

Lemma marked_is a : checkBit a arr n = Some (marked n a X).
Proof.
  rewrite (checkBit_ok _ _ (ai_ok _ _ _ HX)). unfold marked, bit_index. f_equal. symmetry.
  pose proof (mod_in_range a) as Ha. destruct (bool_decide_reflect (a mod n ∈ X)) as [Hin|Hout].
  - apply (ai_bits _ _ _ HX) in Hin as (_ & -> & Hs). by apply Z.eqb_neq in Hs as ->.
  - destruct (bit arr (a mod n)) eqn:Hb; [|done]. destruct (Z.eqb_spec (a mod n mod 8) 7); [done|].
    destruct Hout. by apply (ai_bits _ _ _ HX).
Qed.
End array.

Lemma zero_array_is len n : 0 < n < 2 ^ 31 → n <= 8 * Z.of_nat len → array_is (replicate len 0) n ∅.
Proof.
  intros. split; [by apply zero_array_ok|]. intros i. rewrite bit_zero, elem_of_empty. intuition congruence.
Qed.

(** ** Tables as maps: a row nobody has written is zero *)
Record table_is (t : list rpt_row_entry) (n : Z) (rows : gmap Z rpt_row_entry) : Prop := {
  ti_length : Z.of_nat (length t) = n;
  ti_rows : ∀ i, 0 <= i < n → t.[i] = Some (default zero_row (rows !! i));
}.

Lemma zero_table_is n : 0 <= n → table_is (replicate (Z.to_nat n) zero_row) n ∅.
Proof.
  intros. split; [rewrite length_replicate; lia|]. intros i Hi. rewrite lookup_empty. simpl.
  apply zlookup_Some. split; [lia|]. apply lookup_replicate. split; [done|lia].
Qed.

Lemma table_is_update t n rows i r :
  table_is t n rows → 0 <= i < n → ∃ t', t.[i := r] = Some t' ∧ table_is t' n (<[i := r]> rows).
Proof.
  intros [Hl Ht] Hi. rewrite zupdate_in by lia. eexists. split; [done|].
  split; [by rewrite length_insert|]. intros j Hj. destruct (decide (i = j)) as [->|Hne].
  - rewrite lookup_insert_eq. simpl. apply zlookup_insert_eq. lia.
  - rewrite lookup_insert_ne by done. rewrite zlookup_insert_ne by (try done; lia). by apply Ht.
Qed.

(** The pending request, as an address and the number of requests to follow. *)
Definition request_at (a : Z) : Request := set_addr zeroRequest a.

Definition pending_of (ready : bool) (next : Request) (todo : Z) : option (Z * Z) :=
  if ready then Some (addr next, todo) else None.

(** ** No prefetching *)
Module Never.
#[export] Instance ops `{CRand} : Prefetcher := {|
  pf := unit;
  hasRequest := fun _ _ => false;
  getRequest := fun _ _ => zeroRequest;
  completeRequest := fun p _ => Some p;
  cpuRequest := fun p _ g => Some (p, g) |}.
End Never.

(** ** One address ahead: [d] bytes after each miss, one request at a time *)
Module NextBlock.
Section next_block.
Context `{CRand} (d : Z).

Definition cpu (p : option Z) (r : Request) : option Z :=
  match p with
  | Some a => Some a
  | None => if HitL1 r then None else Some (u32 (addr r + d))
  end.

Definition ops : Prefetcher := {|
  pf := option Z;
  hasRequest := fun p _ => bool_decide (is_Some p);
  getRequest := fun p _ => request_at (default 0 p);
  completeRequest := fun _ _ => Some None;
  cpuRequest := fun p r g => Some (cpu p r, g) |}.
End next_block.
End NextBlock.

(** ** Tagged prefetching, on a set of addresses *)
Module TaggedRef.

Record state : Type := mkState { prefetched : gset Z; pending : option (Z * Z) }.
Definition start : state := mkState ∅ None.

Definition complete (s : state) : state :=
  match pending s with
  | Some (a, todo) =>
      if todo =? 0 then mkState (prefetched s) None
      else let a' := u32 (a + 16) in mkState (mark 4096 a' (prefetched s)) (Some (a', todo - 1))
  | None => s
  end.

(** A hit on a prefetched address or a miss makes a request, when none is pending. *)
Definition cpu (s : state) (r : Request) : state :=
  let next := u32 (addr r + 16) in
  let tagged := HitL1 r && marked 4096 (addr r) (prefetched s) in
  let s' :=
    if bool_decide (pending s = None) && (tagged || negb (HitL1 r))
    then mkState (if tagged then mark 4096 next (prefetched s) else prefetched s) (Some (next, 1))
    else s in
  mkState (unmark 4096 (addr r) (prefetched s')) (pending s').

#[export] Instance ops `{CRand} : Prefetcher := {|
  pf := state;
  hasRequest := fun s _ => bool_decide (is_Some (pending s));
  getRequest := fun s _ => request_at (default (0, 0) (pending s)).1;
  completeRequest := fun s _ => Some (complete s);
  cpuRequest := fun s r g => Some (cpu s r, g) |}.
End TaggedRef.

(** ** A table of strides, as a map *)
Module RptRef.

Record state : Type := mkState { rows : gmap Z rpt_row_entry; pending : option (Z * Z) }.
Definition start : state := mkState ∅ None.

Definition row (s : state) (i : Z) : rpt_row_entry := default zero_row (rows s !! i).

(** The steps after the first are those of the instruction [pc0], whatever was
    at [_nextReq.pc]; each moves the last address of its row. *)
Definition complete (pc0 : Z) (s : state) : state :=
  match pending s with
  | Some (a, todo) =>
      if todo =? 0 then mkState (rows s) None
      else
        let r := row s (pc0 mod 256) in
        if last_stride r =? 0 then mkState (rows s) (Some (u32 (a + 32), todo - 1))
        else
          let a' := u32 (a + last_stride r) in
          mkState (<[pc0 mod 256 := mkRow (r_pc r) a' (last_stride r)]> (rows s)) (Some (a', todo - 1))
  | None => s
  end.

Definition cpu (s : state) (r : Request) : state :=
  if bool_decide (pending s = None) && negb (HitL1 r) then
    let '(row', ahead) := rpt_train 32 (pc r) (addr r) (row s (pc r mod 256)) in
    mkState (<[pc r mod 256 := row']> (rows s)) (Some (u32 (addr r + ahead), 3))
  else s.

Definition ops `{CRand} (pc0 : Z) : Prefetcher := {|
  pf := state;
  hasRequest := fun s _ => bool_decide (is_Some (pending s));
  getRequest := fun s _ => request_at (default (0, 0) (pending s)).1;
  completeRequest := fun s _ => Some (complete pc0 s);
  cpuRequest := fun s r g => Some (cpu s r, g) |}.
End RptRef.

(** ** The submitted prefetcher, on sets and a map *)
Module HybridRef.

Record state : Type := mkState {
  prefetched : gset Z;
  strong : gset Z;
  rows : gmap Z rpt_row_entry;
  pending : option (Z * Z);
}.
Definition start : state := mkState ∅ ∅ ∅ None.

Definition row (s : state) (i : Z) : rpt_row_entry := default zero_row (rows s !! i).

(** The learned stride of an instruction, or one block. *)
Definition stride (s : state) (pc' : Z) : Z :=
  let i := pc' mod 128 in
  if (r_pc (row s i) =? pc') && marked 17 i (strong s) then last_stride (row s i) else 32.

(** The step is that of the instruction [pc0], whatever was at [_nextReq.pc]. *)
Definition complete (pc0 : Z) (s : state) : state :=
  match pending s with
  | Some (a, todo) =>
      if todo =? 0 then mkState (prefetched s) (strong s) (rows s) None
      else
        let a' := u32 (a + stride s pc0) in
        mkState (mark 2048 a' (prefetched s)) (strong s) (rows s) (Some (a', todo - 1))
  | None => s
  end.

Definition tagged_hit (s : state) (r : Request) : state :=
  let next := u32 (addr r + stride s (pc r)) in
  mkState (mark 2048 next (prefetched s)) (strong s) (rows s) (Some (next, 2)).

(** A miss trains the row and replaces a pending request. *)
Definition miss (s : state) (r : Request) : state :=
  let i := pc r mod 128 in
  let '(row', ahead) := rpt_train 32 (pc r) (addr r) (row s i) in
  mkState (prefetched s)
    ((if HybridPf.repeated_stride r (row s i) then mark else unmark) 17 i (strong s))
    (<[i := row']> (rows s)) (Some (u32 (addr r + ahead), 2)).

Definition cpu (s : state) (r : Request) : state :=
  let s' :=
    if HitL1 r then
      if marked 2048 (addr r) (prefetched s) && bool_decide (pending s = None) then tagged_hit s r else s
    else miss s r in
  mkState (unmark 2048 (addr r) (prefetched s')) (strong s') (rows s') (pending s').

Definition ops `{CRand} (pc0 : Z) : Prefetcher := {|
  pf := state;
  hasRequest := fun s _ => bool_decide (is_Some (pending s));
  getRequest := fun s _ => request_at (default (0, 0) (pending s)).1;
  completeRequest := fun s _ => Some (complete pc0 s);
  cpuRequest := fun s r g => Some (cpu s r, g) |}.
End HybridRef.

(** ** The simulations *)
Section simulations.
Context `{CR : CRand}.

Lemma pending_has ready next todo : ready = bool_decide (is_Some (pending_of ready next todo)).
Proof. by destruct ready. Qed.

Lemma never_simulates : pf_simulation NoPrefetch.ops Never.ops (fun p _ => NoPrefetch._ready p = false).
Proof.
  split; simpl; unfold NoPrefetch.hasRequest; try congruence. intros p [] r g Hp. by constructor.
Qed.

(** A flag and an address against an optional address. *)
Lemma sample_simulates :
  pf_simulation SamplePf.ops (NextBlock.ops 16)
    (fun p q => q = if SamplePf._ready p then Some (addr (SamplePf._nextReq p)) else None).
Proof.
  split; simpl; unfold SamplePf.hasRequest, SamplePf.getRequest.
  - intros p q ? ->. by destruct (SamplePf._ready p).
  - intros p q ? -> ->. done.
  - intros p q ? _ _. by constructor.
  - intros p q r g ->. constructor. split; [|done]. unfold SamplePf.cpuRequest, NextBlock.cpu. simpl.
    destruct (SamplePf._ready p) eqn:Hr; simpl; [by rewrite Hr|]. destruct (HitL1 r); simpl; [by rewrite Hr|done].
Qed.

Lemma basic_simulates :
  pf_simulation BasicPf.ops (NextBlock.ops 32)
    (fun p q => q = (if BasicPf._ready p then Some (addr (BasicPf._nextReq p)) else None) ∧
      (BasicPf._ready p = true → BasicPf._req_left p = 0)).
Proof.
  split; simpl; unfold BasicPf.hasRequest, BasicPf.getRequest.
  - intros p q ? [-> _]. by destruct (BasicPf._ready p).
  - intros p q ? [-> _] ->. done.
  - intros p q ? [_ Hl] Hr. unfold BasicPf.completeRequest. rewrite (Hl Hr). by constructor.
  - intros p q r g [-> Hl]. constructor. split; [|done]. unfold BasicPf.cpuRequest, NextBlock.cpu. simpl.
    destruct (BasicPf._ready p) eqn:Hr; simpl; [by rewrite Hr|]. destruct (HitL1 r); simpl; [by rewrite Hr|done].
Qed.

Definition tagged_rel (p : TaggedPf.Prefetcher) (s : TaggedRef.state) : Prop :=
  array_is (TaggedPf.tags p) 4096 (TaggedRef.prefetched s) ∧ TaggedPf.wf p ∧
  TaggedRef.pending s = pending_of (TaggedPf._ready p) (TaggedPf._nextReq p) (TaggedPf._req_left p).

Lemma tagged_complete_rel p s cycle :
  tagged_rel p s → TaggedPf._ready p = true →
  option_Forall2 tagged_rel (TaggedPf.completeRequest p cycle) (Some (TaggedRef.complete s)).
Proof.
  intros (Ht & Hwf & Hp) Hr. destruct (TaggedPf.tagged_completeRequest_wf p cycle Hwf Hr) as (p' & Hp' & Hwf').
  rewrite Hp'. constructor. revert Hp'. unfold TaggedPf.completeRequest, TaggedRef.complete.
  rewrite Hp, Hr. simpl. destruct (Z.eqb_spec (TaggedPf._req_left p) 0) as [|Hne]; [by intros [= <-]|].
  destruct (mark_is _ _ _ Ht (u32 (addr (TaggedPf._nextReq p) + 16))) as (t & Hm & Ht').
  rewrite dec_ok by (done || by apply Hwf). simpl. unfold TaggedPf.markPrefetched.
  change TaggedPf.L2_BLOCK_SIZE with 16. change TaggedPf.STATE_SIZE with 4096. rewrite Hm. simpl. by intros [= <-].
Qed.

Lemma tagged_cpu_rel p s r :
  tagged_rel p s → option_Forall2 tagged_rel (TaggedPf.cpuRequest p r) (Some (TaggedRef.cpu s r)).
Proof.
  intros (Ht & Hwf & Hp). destruct (TaggedPf.tagged_cpuRequest_wf p r Hwf) as (p' & Hp' & Hwf').
  rewrite Hp'. constructor. revert Hp'. unfold TaggedPf.cpuRequest, TaggedPf.request_next, TaggedRef.cpu.
  unfold TaggedPf.checkPrefetched, TaggedPf.markPrefetched, TaggedPf.markUnPrefetched.
  change TaggedPf.L2_BLOCK_SIZE with 16. change TaggedPf.STATE_SIZE with 4096.
  rewrite (marked_is _ _ _ Ht), Hp.
  destruct (mark_is _ _ _ Ht (u32 (addr r + 16))) as (t & Hm & Ht'). simpl. rewrite Hm.
  destruct (unmark_is _ _ _ Ht (addr r)) as (u & Hu & Htu).
  destruct (unmark_is _ _ _ Ht' (addr r)) as (u' & Hu' & Htu').
  destruct (HitL1 r); [destruct (marked _ _ _)|]; destruct (TaggedPf._ready p) eqn:Hr; simpl;
    rewrite ?Hu, ?Hu'; simpl; rewrite ?Hr; intros [= <-]; done.
Qed.

Lemma tagged_simulates : pf_simulation TaggedPf.ops TaggedRef.ops tagged_rel.
Proof.
  split; simpl; unfold TaggedPf.hasRequest, TaggedPf.getRequest.
  - intros p s ? (_ & _ & ->). apply pending_has.
  - intros p s ? (_ & _ & ->) ->. done.
  - intros p s cycle. apply tagged_complete_rel.
  - intros p s r g Hp. pose proof (tagged_cpu_rel p s r Hp) as E. inversion E; subst. simpl. by constructor.
Qed.

(** The table of strides. *)
Definition rpt_rel (pc0 : Z) (p : RptPf.Prefetcher) (s : RptRef.state) : Prop :=
  table_is (RptPf.rpt_table p) 256 (RptRef.rows s) ∧ RptPf.wf p ∧ pc (RptPf._nextReq p) = pc0 ∧
  RptRef.pending s = pending_of (RptPf._ready p) (RptPf._nextReq p) (RptPf._req_left p).

Lemma rpt_complete_rel pc0 p s cycle :
  rpt_rel pc0 p s → RptPf._ready p = true →
  option_Forall2 (rpt_rel pc0) (RptPf.completeRequest p cycle) (Some (RptRef.complete pc0 s)).
Proof.
  intros (Ht & Hwf & Hpc & Hp) Hr. destruct (RptPf.rpt_completeRequest_wf p cycle Hwf Hr) as (p' & Hp' & Hwf').
  rewrite Hp'. constructor. revert Hp'. unfold RptPf.completeRequest, RptRef.complete.
  rewrite Hp, Hr. simpl. destruct (Z.eqb_spec (RptPf._req_left p) 0) as [|Hne]; [by intros [= <-]|].
  rewrite dec_ok by (done || by apply Hwf). simpl. rewrite Hpc.
  pose proof (RptPf.rpt_row_num pc0) as Hrow. change RptPf.NUM_RPT_ENTRIES with 256 in *.
  rewrite (ti_rows _ _ _ Ht) by done. simpl. fold (RptRef.row s (pc0 mod 256)).
  destruct (last_stride (RptRef.row s (pc0 mod 256)) =? 0); simpl; [by intros [= <-]|].
  edestruct (table_is_update _ _ _ (pc0 mod 256) (mkRow (r_pc (RptRef.row s (pc0 mod 256)))
    (u32 (addr (RptPf._nextReq p) + last_stride (RptRef.row s (pc0 mod 256))))
    (last_stride (RptRef.row s (pc0 mod 256)))) Ht Hrow) as (t & Hup & Ht').
  rewrite Hup. simpl. by intros [= <-].
Qed.

Lemma rpt_cpu_rel pc0 p s r :
  rpt_rel pc0 p s → option_Forall2 (rpt_rel pc0) (RptPf.cpuRequest p r) (Some (RptRef.cpu s r)).
Proof.
  intros (Ht & Hwf & Hpc & Hp). destruct (RptPf.rpt_cpuRequest_wf p r Hwf) as (p' & Hp' & Hwf').
  rewrite Hp'. constructor. revert Hp'. unfold RptPf.cpuRequest, RptRef.cpu. rewrite Hp.
  replace (bool_decide (pending_of (RptPf._ready p) (RptPf._nextReq p) (RptPf._req_left p) = None))
    with (negb (RptPf._ready p)) by by destruct (RptPf._ready p).
  destruct (negb (RptPf._ready p) && negb (HitL1 r)); [|by intros [= <-]].
  pose proof (RptPf.rpt_row_num (pc r)) as Hrow.
  change RptPf.NUM_RPT_ENTRIES with 256 in *. change RptPf.L2_BLOCK_SIZE with 32.
  rewrite (ti_rows _ _ _ Ht) by done. simpl. fold (RptRef.row s (pc r mod 256)).
  destruct (rpt_train 32 (pc r) (addr r) (RptRef.row s (pc r mod 256))) as [row ahead].
  destruct (table_is_update _ _ _ (pc r mod 256) row Ht Hrow) as (t & Hup & Ht').
  rewrite Hup. simpl. by intros [= <-].
Qed.

Lemma rpt_simulates pc0 : pf_simulation RptPf.ops (RptRef.ops pc0) (rpt_rel pc0).
Proof.
  split; simpl; unfold RptPf.hasRequest, RptPf.getRequest.
  - intros p s ? (_ & _ & _ & ->). apply pending_has.
  - intros p s ? (_ & _ & _ & ->) ->. done.
  - intros p s cycle. apply rpt_complete_rel.
  - intros p s r g Hp. pose proof (rpt_cpu_rel pc0 p s r Hp) as E. inversion E; subst. simpl. by constructor.
Qed.

(** The submitted prefetcher. *)
Record hybrid_rel (pc0 : Z) (p : HybridPf.Prefetcher) (s : HybridRef.state) : Prop := {
  hr_tags : array_is (HybridPf.tags p) 2048 (HybridRef.prefetched s);
  hr_check : array_is (HybridPf.rpt_check p) 17 (HybridRef.strong s);
  hr_rows : table_is (HybridPf.rpt_table p) 128 (HybridRef.rows s);
  hr_wf : HybridPf.wf p;
  hr_pc : pc (HybridPf._nextReq p) = pc0;
  hr_pending : HybridRef.pending s =
    pending_of (HybridPf._ready p) (HybridPf._nextReq p) (HybridPf._req_left p);
}.

Lemma hybrid_stride pc0 p s pc' :
  hybrid_rel pc0 p s → HybridPf.stride_or_block p pc' = Some (HybridRef.stride s pc').
Proof.
  intros []. unfold HybridPf.stride_or_block, HybridRef.stride.
  pose proof (HybridPf.row_num pc') as Hrow. change HybridPf.NUM_RPT_ENTRIES with 128 in *.
  change HybridPf.CHECK_SIZE with 17.
  rewrite (ti_rows _ _ _ hr_rows0) by done. simpl. fold (HybridRef.row s (pc' mod 128)).
  rewrite (marked_is _ _ _ hr_check0). by destruct (r_pc (HybridRef.row s (pc' mod 128)) =? pc').
Qed.

Lemma hybrid_complete_rel pc0 p s cycle :
  hybrid_rel pc0 p s → HybridPf._ready p = true →
  option_Forall2 (hybrid_rel pc0) (HybridPf.completeRequest p cycle) (Some (HybridRef.complete pc0 s)).
Proof.
  intros Hs Hr. pose proof (hybrid_stride pc0 p s pc0 Hs) as Hst. destruct Hs as [Ht Hc Htab Hwf Hpc Hp].
  destruct (HybridPf.completeRequest_wf p cycle Hwf Hr) as (p' & Hp' & Hwf').
  rewrite Hp'. constructor. revert Hp'. unfold HybridPf.completeRequest, HybridRef.complete.
  rewrite Hp, Hr. simpl. destruct (Z.eqb_spec (HybridPf._req_left p) 0) as [|Hne]; [by intros [= <-]|].
  pose proof (HybridPf.wf_ready p Hwf Hr) as [_ Hl]. unfold HybridPf.NUM_REQS_PER_MISS in Hl.
  rewrite dec_ok by lia. simpl. rewrite Hpc, Hst. simpl. change HybridPf.STATE_SIZE with 2048.
  destruct (mark_is _ _ _ Ht (u32 (addr (HybridPf._nextReq p) + HybridRef.stride s pc0))) as (t & -> & Ht').
  simpl. by intros [= <-].
Qed.

Lemma hybrid_tagged_hit_rel pc0 p s r :
  hybrid_rel pc0 p s → option_Forall2 (hybrid_rel pc0) (HybridPf.tagged_hit p r) (Some (HybridRef.tagged_hit s r)).
Proof.
  intros Hs. pose proof (hybrid_stride pc0 p s (pc r) Hs) as Hst. destruct Hs as [Ht Hc Htab Hwf Hpc Hp].
  destruct (HybridPf.tagged_hit_wf p r Hwf) as (p' & Hp' & Hwf').
  rewrite Hp'. constructor. revert Hp'. unfold HybridPf.tagged_hit, HybridRef.tagged_hit.
  rewrite Hst. simpl. change HybridPf.STATE_SIZE with 2048.
  destruct (mark_is _ _ _ Ht (u32 (addr r + HybridRef.stride s (pc r)))) as (t & -> & Ht').
  simpl. by intros [= <-].
Qed.

Lemma hybrid_miss_rel pc0 p s r :
  hybrid_rel pc0 p s → option_Forall2 (hybrid_rel pc0) (HybridPf.miss p r) (Some (HybridRef.miss s r)).
Proof.
  intros [Ht Hc Htab Hwf Hpc Hp]. destruct (HybridPf.miss_wf p r Hwf) as (p' & Hp' & Hwf').
  rewrite Hp'. constructor. revert Hp'. unfold HybridPf.miss, HybridPf.train, HybridRef.miss.
  pose proof (HybridPf.row_num (pc r)) as Hrow. change HybridPf.NUM_RPT_ENTRIES with 128 in *.
  change HybridPf.L2_BLOCK_SIZE with 32. change HybridPf.CHECK_SIZE with 17.
  rewrite (ti_rows _ _ _ Htab) by done. simpl. fold (HybridRef.row s (pc r mod 128)).
  destruct (rpt_train 32 (pc r) (addr r) (HybridRef.row s (pc r mod 128))) as [row ahead].
  destruct (table_is_update _ _ _ (pc r mod 128) row Htab Hrow) as (t & Hup & Htab').
  destruct (mark_is _ _ _ Hc (pc r mod 128)) as (c1 & -> & Hc1).
  destruct (unmark_is _ _ _ Hc (pc r mod 128)) as (c2 & -> & Hc2).
  destruct (HybridPf.repeated_stride r (HybridRef.row s (pc r mod 128))); simpl; rewrite Hup; simpl; by intros [= <-].
Qed.

Lemma hybrid_cpu_rel pc0 p s r :
  hybrid_rel pc0 p s → option_Forall2 (hybrid_rel pc0) (HybridPf.cpuRequest p r) (Some (HybridRef.cpu s r)).
Proof.
  intros Hs. destruct (HybridPf.cpuRequest_wf p r (hr_wf _ _ _ Hs)) as (p' & Hp' & Hwf').
  rewrite Hp'. constructor. revert Hp'. unfold HybridPf.cpuRequest, HybridRef.cpu.
  rewrite (marked_is _ _ _ (hr_tags _ _ _ Hs) (addr r) : checkBit _ _ HybridPf.STATE_SIZE = _).
  rewrite (hr_pending _ _ _ Hs).
  replace (bool_decide (pending_of _ _ _ = None)) with (negb (HybridPf._ready p)) by by destruct (HybridPf._ready p).
  assert (Hun : ∀ m s', option_Forall2 (hybrid_rel pc0) m (Some s') →
    (p ← m; t ← unmarkBit (addr r) (HybridPf.tags p) HybridPf.STATE_SIZE;
      Some (HybridPf.mkPf t (HybridPf.rpt_check p) (HybridPf.rpt_table p) (HybridPf._ready p)
        (HybridPf._nextReq p) (HybridPf._req_left p))) = Some p' →
    hybrid_rel pc0 p' (HybridRef.mkState (unmark 2048 (addr r) (HybridRef.prefetched s'))
      (HybridRef.strong s') (HybridRef.rows s') (HybridRef.pending s'))).
  { intros m s' Hm. inversion Hm as [q ? Hq|]; subst. simpl.
    destruct (unmark_is _ _ _ (hr_tags _ _ _ Hq) (addr r)) as (u & Hu & Hut).
    change HybridPf.STATE_SIZE with 2048. rewrite Hu. simpl. intros [= <-]. by destruct Hq. }
  pose proof (hybrid_tagged_hit_rel pc0 p s r Hs). pose proof (hybrid_miss_rel pc0 p s r Hs).
  destruct (HitL1 r); simpl; [|by apply Hun].
  destruct (marked 2048 (addr r) (HybridRef.prefetched s) && negb (HybridPf._ready p)); apply Hun; [done|by constructor].
Qed.

Lemma hybrid_simulates pc0 : pf_simulation HybridPf.ops (HybridRef.ops pc0) (hybrid_rel pc0).
Proof.
  split; simpl; unfold HybridPf.hasRequest, HybridPf.getRequest.
  - intros p s ? []. rewrite hr_pending0. apply pending_has.
  - intros p s ? [] Hr. by rewrite hr_pending0, Hr.
  - intros p s cycle. apply hybrid_complete_rel.
  - intros p s r g Hp. pose proof (hybrid_cpu_rel pc0 p s r Hp) as E. inversion E; subst. simpl. by constructor.
Qed.
End simulations.
