(* ===== verification/EquivProps.v ===== *)
(** * What the simulator can tell about its prefetcher

    Six of the seven prefetchers against their references, in the simulator, and
    which uninitialised memory its report depends on. *)
From S2P Require Import Prelude.
From S2P Require Import Words.
From S2P Require Import MemSim.
From S2P Require Import TraceFormat.
From S2P Require Import Memtracer.
From S2P Require Import PrefetcherInterface.
From S2P Require Import BitArray.
From S2P Require Import SimplePrefetchers.
From S2P Require Import TablePrefetchers.
From S2P Require Import HybridPrefetcher.
From S2P Require Import Simulator.
From S2P Require Import PrefetcherEquiv.
From S2P Require Import SimEquiv.
From S2P Require Import PrefetcherRefs.
Import Sim.

Section equivalences.
Context `{CR : CRand}.

Lemma never_equiv junk : pf_equiv (link (NoPrefetch.Prefetcher_new junk : @pf _ NoPrefetch.ops)) (link (tt : @pf _ Never.ops)).
Proof. eexists. split; [apply never_simulates|done]. Qed.

Lemma sample_equiv junk :
  pf_equiv (link (SamplePf.Prefetcher_new junk : @pf _ SamplePf.ops)) (link (None : @pf _ (NextBlock.ops 16))).
Proof. eexists. split; [apply sample_simulates|done]. Qed.

Lemma basic_equiv junk junk_left :
  pf_equiv (link (BasicPf.Prefetcher_new junk junk_left : @pf _ BasicPf.ops)) (link (None : @pf _ (NextBlock.ops 32))).
Proof. eexists. split; [apply basic_simulates|done]. Qed.

Lemma tagged_equiv junk junk_left :
  pf_equiv (link (TaggedPf.Prefetcher_new junk junk_left : @pf _ TaggedPf.ops))
    (link (TaggedRef.start : @pf _ TaggedRef.ops)).
Proof.
  exists tagged_rel. split; [apply tagged_simulates|]. split_and!; [|apply TaggedPf.tagged_new_wf|done].
  apply zero_array_is; unfold TaggedPf.STATE_SIZE; lia.
Qed.

Lemma rpt_equiv junk junk_left :
  pf_equiv (link (RptPf.Prefetcher_new junk junk_left : @pf _ RptPf.ops))
    (link (RptRef.start : @pf _ (RptRef.ops (pc junk)))).
Proof.
  exists (rpt_rel (pc junk)). split; [apply rpt_simulates|]. split_and!; [|apply RptPf.rpt_new_wf|done..].
  apply zero_table_is. lia.
Qed.

Lemma hybrid_new_table junk junk_left p :
  HybridPf.Prefetcher_new junk junk_left = Some p → HybridPf.rpt_table p = replicate (Z.to_nat 128) zero_row.
Proof.
  unfold HybridPf.Prefetcher_new. destruct (for_each _ _ _) as [c|]; intros E; [|discriminate].
  apply (f_equal (fun o => from_option HybridPf.rpt_table [] o)) in E. symmetry. exact E.
Qed.

Lemma hybrid_new_rel junk junk_left :
  ∃ p, HybridPf.Prefetcher_new junk junk_left = Some p ∧ hybrid_rel (pc junk) p HybridRef.start.
Proof.
  destruct (HybridPf.new_wf junk junk_left) as (p & Hp & Hwf & Hr & Hpc & Ht & Hc). exists p. split; [done|].
  split; [| | |done|done|by rewrite Hr].
  - split; [apply Hwf|]. intros i. simpl. rewrite Ht, elem_of_empty. intuition congruence.
  - split; [apply Hwf|]. intros i. simpl. rewrite Hc, elem_of_empty. intuition congruence.
  - rewrite (hybrid_new_table _ _ _ Hp). apply (zero_table_is 128). lia.
Qed.

Lemma hybrid_equiv junk junk_left p :
  HybridPf.Prefetcher_new junk junk_left = Some p →
  pf_equiv (link (p : @pf _ HybridPf.ops)) (link (HybridRef.start : @pf _ (HybridRef.ops (pc junk)))).
Proof.
  intros Hp. exists (hybrid_rel (pc junk)). split; [apply hybrid_simulates|].
  destruct (hybrid_new_rel junk junk_left) as (? & Hp' & Hrel). rewrite Hp in Hp'. by injection Hp' as <-.
Qed.

(** The associative table does not look at the instruction of the request it makes. *)
Lemma amalgam_equiv time junk junk' l l' :
  pf_equiv (link ((AmalgamPf.Prefetcher_new time junk l).1 : @pf _ AmalgamPf.ops)) (link ((AmalgamPf.Prefetcher_new time junk' l').1 : @pf _ AmalgamPf.ops)).
Proof.
  exists (fun p q => AmalgamPf.rpt_table p = AmalgamPf.rpt_table q ∧
    AmalgamPf.free_rpt_entries p = AmalgamPf.free_rpt_entries q ∧ AmalgamPf._ready p = AmalgamPf._ready q ∧
    (AmalgamPf._ready p = true → addr (AmalgamPf._nextReq p) = addr (AmalgamPf._nextReq q) ∧
      AmalgamPf._req_left p = AmalgamPf._req_left q)).
  split; [|done]. split; simpl; unfold AmalgamPf.hasRequest, AmalgamPf.getRequest.
  - by intros p q _ (_ & _ & -> & _).
  - intros p q _ (_ & _ & _ & Hp) Hr. by apply Hp.
  - intros p q cycle (Et & Ef & Er & Hp) Hr. destruct (Hp Hr) as [Ea El]. unfold AmalgamPf.completeRequest.
    rewrite El, Ea, Et, Ef, Er. destruct (_ =? 0); [by constructor|]. apply rel_bind_same. intros todo. by constructor.
  - intros p q r g (Et & Ef & Er & Hp). unfold AmalgamPf.cpuRequest. rewrite Et, Ef, Er.
    destruct (_ && _); [|by constructor]. apply rel_bind_same. intros found. apply rel_bind_same. intros [[i free] g'].
    apply rel_bind_same. intros row. destruct (if 0 <=? found then _ else _) as [row' ahead].
    apply rel_bind_same. intros t. by constructor.
Qed.

(** A run with [a], as a function of everything else. *)
Definition same_runs (a b : linked) : Prop :=
  ∀ fuel trace_file g jr1 jr2 j1 j2,
    run_main fuel a trace_file g jr1 j1 = run_main fuel b trace_file g jr2 j2.

Lemma same_runs_equiv a b : pf_equiv a b → same_runs a b.
Proof. intros (R & HR & Hi) fuel tf g jr1 jr2 j1 j2. by apply (main_rel R HR). Qed.


(** C17: of the memory no constructor sets (the pending request of a prefetcher and
    the count that goes with it, the request and the ready time of the processor) the
    program's behaviour depends on one word at most, the [pc] of the request that
    rpt_pf and the submitted prefetcher make; with the other five on none. *)
Theorem uninitialised_memory_matters_in_one_word time junk junk' l l' :
  same_runs (link (NoPrefetch.Prefetcher_new junk : @pf _ NoPrefetch.ops)) (link (NoPrefetch.Prefetcher_new junk' : @pf _ NoPrefetch.ops)) ∧
  same_runs (link (SamplePf.Prefetcher_new junk : @pf _ SamplePf.ops)) (link (SamplePf.Prefetcher_new junk' : @pf _ SamplePf.ops)) ∧
  same_runs (link (BasicPf.Prefetcher_new junk l : @pf _ BasicPf.ops)) (link (BasicPf.Prefetcher_new junk' l' : @pf _ BasicPf.ops)) ∧
  same_runs (link (TaggedPf.Prefetcher_new junk l : @pf _ TaggedPf.ops)) (link (TaggedPf.Prefetcher_new junk' l' : @pf _ TaggedPf.ops)) ∧
  same_runs (link ((AmalgamPf.Prefetcher_new time junk l).1 : @pf _ AmalgamPf.ops)) (link ((AmalgamPf.Prefetcher_new time junk' l').1 : @pf _ AmalgamPf.ops)) ∧
  (pc junk = pc junk' →
    same_runs (link (RptPf.Prefetcher_new junk l : @pf _ RptPf.ops)) (link (RptPf.Prefetcher_new junk' l' : @pf _ RptPf.ops)) ∧
    ∀ p p', HybridPf.Prefetcher_new junk l = Some p → HybridPf.Prefetcher_new junk' l' = Some p' →
      same_runs (link (p : @pf _ HybridPf.ops)) (link (p' : @pf _ HybridPf.ops))).
Proof.
  split_and!; [| | | | |intros Hpc; split; [|intros p p' Hp Hp']]; apply same_runs_equiv.
  - by rewrite (never_equiv junk), (never_equiv junk').
  - by rewrite (sample_equiv junk), (sample_equiv junk').
  - by rewrite (basic_equiv junk l), (basic_equiv junk' l').
  - by rewrite (tagged_equiv junk l), (tagged_equiv junk' l').
  - apply amalgam_equiv.
  - by rewrite (rpt_equiv junk l), (rpt_equiv junk' l'), Hpc.
  - by rewrite (hybrid_equiv junk l p Hp), (hybrid_equiv junk' l' p' Hp'), Hpc.
Qed.
End equivalences.

(** ** Witnesses *)
#[local] Existing Instance std_rand.

Definition demo_junk (w : Z) : Request := mkRequest 0 w false false 0 false false.
Definition demo_line (a gap : Z) : line := mkLine "l"%char 4 a gap.
Definition demo_strides : list line :=
  [demo_line 100000 0; demo_line 100200 500; demo_line 100400 500; demo_line 100800 500].
Definition demo_trace : chars := demo_strides ≫= print_line.

Lemma equivalent_prefetchers_same_report_witness :
  let a := link (BasicPf.Prefetcher_new (demo_junk 7) 3 : @pf _ BasicPf.ops) in
  let b := link (None : @pf _ (NextBlock.ops 32)) in
  pf_equiv a b ∧
  run_main 2000 a (Some demo_trace) (srand 1) (demo_junk 1) 2 = run_main 2000 b (Some demo_trace) (srand 1) (demo_junk 3) 4.
Proof.
  split; [exact (basic_equiv (demo_junk 7) 3)|].
  exact (equivalent_prefetchers_same_report 2000 _ _ (Some demo_trace) (srand 1) (demo_junk 1) (demo_junk 3) 2 4
    (basic_equiv (demo_junk 7) 3)).
Defined.

Lemma uninitialised_memory_matters_in_one_word_witness :
  same_runs (link (TaggedPf.Prefetcher_new (demo_junk 7) 3 : @pf _ TaggedPf.ops))
    (link (TaggedPf.Prefetcher_new (demo_junk 8) 4 : @pf _ TaggedPf.ops)) ∧
  same_runs (link (RptPf.Prefetcher_new (demo_junk 7) 3 : @pf _ RptPf.ops))
    (link (RptPf.Prefetcher_new (set_addr (demo_junk 7) 5) 4 : @pf _ RptPf.ops)).
Proof.
  split.
  - apply (uninitialised_memory_matters_in_one_word 0 (demo_junk 7) (demo_junk 8) 3 4).
  - apply (uninitialised_memory_matters_in_one_word 0 (demo_junk 7) (set_addr (demo_junk 7) 5) 3 4). reflexivity.
Defined.

(** The cycles the submitted prefetcher takes on four loads of instruction 4, a
    stride of 200 bytes apart but for the last, when the memory of [_nextReq.pc]
    holds [w]. *)
Definition demo_cycles (w : Z) : option Z :=
  match HybridPf.Prefetcher_new (demo_junk w) 0 with
  | Some p =>
      match run_main 2000 (link (p : @pf _ HybridPf.ops)) (Some demo_trace) (srand 1) (demo_junk 0) 0 with
      | Some (Some r) => Some (total_cycles r)
      | _ => None
      end
  | None => None
  end.

(** The word does matter: the fourth load hits only if the memory happens to hold
    the address of the instruction. *)
Theorem uninitialised_word_changes_report : demo_cycles 4 = Some 1714 ∧ demo_cycles 0 = Some 1784.
Proof. split; vm_compute; reflexivity. Qed.
