(* ===== verification/Win32.v ===== *)
(** * The platform of the profiler (src/cse220/Micro-Bench/code)

    The profiler runs on Windows: nearly all it does is call the operating
    system and time the calls.  The system is not part of the repository, so it
    is a parameter: [api A] lists the calls the sources make, with the
    arguments the sources choose and the type [A] of what comes back, and a
    [Win32] is any state machine that answers them.  Arguments that are always
    the same constant are left out. *)
From S2P Require Import Prelude.
From S2P Require Import Words.
From stdpp Require Export pretty.
#[global] Open Scope Z_scope.

(** Addresses and handles are integers; [NULL] is 0. *)
Abbreviation HANDLE := Z (only parsing).
Definition NULL : Z := 0.
Definition INVALID_HANDLE_VALUE : HANDLE := -1.
Definition INVALID_SOCKET : Z := -1.
Definition SOCKET_ERROR : Z := -1.
Definition INVALID_SET_FILE_POINTER : Z := 2 ^ 32 - 1.
Definition WAIT_TIMEOUT : Z := 258.
Definition INFINITE : Z := 2 ^ 32 - 1.

Inductive priority : Type :=
| REALTIME_PRIORITY_CLASS | NORMAL_PRIORITY_CLASS
| THREAD_PRIORITY_TIME_CRITICAL | THREAD_PRIORITY_NORMAL.

Inductive api : Type → Type :=
(* time *)
| QueryPerformanceFrequency : api Z
| RegGetMhz : api Z
| Rdtsc : api Z
| Sleep (milliseconds : Z) : api unit
| Time : api Z
| Srand (seed : Z) : api unit
| Rand : api Z
(* memory *)
| Malloc (size : Z) : api Z
| Free (p : Z) : api unit
(* processes, threads, synchronisation *)
| GetCurrentProcess : api HANDLE
| GetCurrentThread : api HANDLE
| SetPriorityClass (h : HANDLE) (p : priority) : api bool
| SetThreadPriority (h : HANDLE) (p : priority) : api bool
| SetThreadAffinityMask (h : HANDLE) (mask : Z) : api Z
| SwitchToThread : api bool
| GetModuleFileName : api string
| CreateThread (main : string) : api HANDLE
| CreateProcess (path commandLine : string) (inheritHandles newConsole : bool) : api (option HANDLE)
| TerminateProcess (h : HANDLE) : api bool
| CreateEvent (name : string) (inherit : bool) : api HANDLE
| OpenEvent (name : string) : api HANDLE
| SetEvent (h : HANDLE) : api bool
| WaitForSingleObject (h : HANDLE) (milliseconds : Z) : api Z
| WaitForMultipleObjects (hs : list HANDLE) : api Z
| CloseHandle (h : HANDLE) : api bool
| CriticalSectionNew : api Z
| GetLastError : api Z
(* shared memory *)
| CreateFileMapping (name : string) (inherit : bool) (size : Z) : api HANDLE
| MapViewOfFile (h : HANDLE) (size : Z) : api Z
| UnmapViewOfFile (p : Z) : api bool
(* element [i] of an array of int64_t that other threads or processes use as well *)
| SharedRead (p i : Z) : api Z
| SharedWrite (p i value : Z) : api unit
(* files *)
| CreateFile (path : string) (shareRead noBuffering : bool) : api HANDLE
| GetFileSizeEx (h : HANDLE) : api (option Z)
| SetFilePointer (h : HANDLE) (distance : Z) : api Z
| ReadFile (h : HANDLE) (size : Z) : api (bool * Z)
| GetDiskFreeSpace (devicePath : string) : api (option Z)
| StreamOpenRead (path : string) : api bool
| StreamOpenWrite (path : string) : api bool
| StreamWrite (bytes : Z) : api unit
(* network *)
| WSAStartup : api Z
| WSACleanup : api unit
| WSASocket : api Z
| WSAHtons (s port : Z) : api Z
| Bind (s port : Z) : api Z
| Listen (s : Z) : api Z
| WSAAccept (s : Z) : api Z
| WSARecv (s size : Z) : api (Z * Z)
| WSASend (s size : Z) : api Z
| WSAConnect (s address port : Z) : api Z
| ShutdownSend (s : Z) : api Z
| ShutdownReceive (s : Z) : api Z
| ShutdownBoth (s : Z) : api Z
| CloseSocket (s : Z) : api Z
| WSAGetLastError : api Z
| IcmpCreateFile : api HANDLE
| IcmpCloseHandle (h : HANDLE) : api bool
| IcmpSendEcho (h : HANDLE) (destination requestSize replySize : Z) : api (Z * (Z * Z))
(* console *)
| ConsoleWrite (s : string) : api unit
| ConsoleRead : api unit
| SetModeU16 : api unit
| MessageBox : api unit.

(** [format_double] is the text [std::wostream] gives a [double],
    [literal_address] where the linker puts a string literal. *)
Class Win32 := {
  os_state : Type;
  os_call {A : Type} (c : api A) (s : os_state) : A * os_state;
  format_double : double → string;
  literal_address : string → Z;
}.

(** A call and its answer. *)
Record event : Type := Event { ev_type : Type; ev_call : api ev_type; ev_answer : ev_type }.

(** ** Integers *)
Definition u64 (z : Z) : Z := z mod 2 ^ 64.
(** A signed 64-bit result.  C++ leaves overflow undefined; the compiler the
    project is built with wraps. *)
Definition s64 (z : Z) : Z := (z + 2 ^ 63) mod 2 ^ 64 - 2 ^ 63.
Definition is_u64 (z : Z) : Prop := 0 <= z < 2 ^ 64.
Definition is_s64 (z : Z) : Prop := - 2 ^ 63 <= z < 2 ^ 63.

Lemma u64_small z : is_u64 z → u64 z = z.
Proof. unfold is_u64, u64. intros. by rewrite Z.mod_small. Qed.
Lemma s64_small z : is_s64 z → s64 z = z.
Proof. unfold is_s64, s64. intros. rewrite Z.mod_small; lia. Qed.
Lemma s64_range z : is_s64 (s64 z).
Proof. unfold is_s64, s64. pose proof (Z.mod_pos_bound (z + 2 ^ 63) (2 ^ 64)). lia. Qed.
#[export] Hint Resolve s64_range : cpp.
