(* ===== verification/Mathx.v ===== *)
(** * Statistics of a data set (src/cse220/Micro-Bench/code/Profiler/Mathx.h)

    The class [Mathx] has five function templates over a container of items and
    a selector from items to values.  [std::sort] and [std::nth_element] are
    modelled by what they promise: the result is a permutation of the container,
    sorted by the selected values.  The values are [double] or [TickValue]; a
    [Value] instance says how they are added, divided and compared. *)
From S2P Require Import Prelude.
From S2P Require Import Words.

Class Value (V : Type) := {
  v_zero : V;
  v_add : V → V → V;
  v_div : V → V → V;
  v_of_int : Z → V;
  v_ltb : V → V → bool;
}.

#[export] Instance double_Value : Value double := {|
  v_zero := double_of 0; v_add := double_add; v_div := double_div;
  v_of_int := double_of; v_ltb := double_ltb |}.

Module Mathx.
Section mathx.
Context {V : Type} `{Value V} {TItem : Type}.
Implicit Types (container : list TItem) (selector : TItem → V).

(** [selector(item1) < selector(item2)], the comparison of the sorts. *)
Definition less selector (item1 item2 : TItem) : bool := v_ltb (selector item1) (selector item2).

(** [std::sort] with that comparison, by insertion. *)
Fixpoint insert selector (x : TItem) (l : list TItem) : list TItem :=
  match l with
  | [] => [x]
  | y :: l' => if less selector y x then y :: insert selector x l' else x :: l
  end.

Fixpoint sort selector container : list TItem :=
  match container with
  | [] => []
  | x :: l => insert selector x (sort selector l)
  end.

(** The element [std::nth_element] puts at position [n]. *)
Definition nth_element selector (n : nat) container : option TItem := sort selector container !! n.

Definition Mean selector container : V :=
  let '(value, count) :=
    foldl (fun '(value, count) item => (v_add value (selector item), count + 1)) (v_zero, 0) container in
  v_div value (v_of_int count).

Definition Median selector container : option V :=
  match container with
  | [] => Some v_zero
  | _ =>
      let middleIndex := (length container / 2)%nat in
      x ← nth_element selector middleIndex container; Some (selector x)
  end.

(** The first and the last element of the sorted container; of an empty one
    there is none, and [*begin()], [*rbegin()] are undefined. *)
Definition Minimum selector container : option V :=
  min ← sort selector container !! 0%nat; Some (selector min).

Definition Maximum selector container : option V :=
  max ← last (sort selector container); Some (selector max).

(** What a call may do: return a value, fail its assertion, or be undefined. *)
Inductive percentile_result : Type :=
| PValue (v : V)
| PAssertionFailed
| PUndefined.

Definition of_option (o : option V) : percentile_result :=
  match o with Some v => PValue v | None => PUndefined end.

Definition Percentile selector container (percentile : Z) : percentile_result :=
  if negb ((percentile <=? 100) && (0 <=? percentile)) then PAssertionFailed
  else if percentile =? 100 then of_option (Maximum selector container)
  else if percentile =? 0 then of_option (Minimum selector container)
  else if percentile =? 50 then of_option (Median selector container)
  else
    match container with
    | [] => PValue v_zero
    | _ =>
        (* size_type is 32 bits *)
        let indexToUse := (percentile * Z.of_nat (length container)) mod 2 ^ 32 / 100 in
        of_option (x ← nth_element selector (Z.to_nat indexToUse) container; Some (selector x))
    end.
End mathx.
Arguments percentile_result : clear implicits.
End Mathx.
