(* ===== verification/StopwatchStack.v ===== *)
(** * The stopwatch (src/cse220/Micro-Bench/code/Profiler/StopwatchStack.{h,inl,cpp})

    The members of [StopwatchStack] that do not read the clock, as functions on
    its state.  [Push], [Pop] and [Read] read the time stamp counter and are in
    Machine.v, in terms of [PushWithValue] and [pop_entry] below. *)
From S2P Require Import Prelude.
From S2P Require Import Words.
From S2P Require Import Win32.
From S2P Require Import Mathx.

Abbreviation TickValue := Z (only parsing).

#[export] Instance TickValue_Value : Value Z := {|
  v_zero := 0; v_add x y := s64 (x + y); v_div := Z.quot; v_of_int z := z; v_ltb := Z.ltb |}.

(** A tag is a pointer, used as a name: null, or some elements into a string
    literal. *)
Definition tag : Type := option (string * Z).
Definition lit (s : string) : tag := Some (s, 0).
Definition tag_add (t : tag) (n : Z) : tag :=
  match t with Some (s, k) => Some (s, k + n) | None => None end.

Record StopwatchEntry : Type := mkEntry { startTime : TickValue; e_tag : tag }.

Definition TagHistory : Type := list TickValue.

Record StopwatchStack : Type := mkSS {
  _maxDepth : Z;
  _stack : list StopwatchEntry;              (* the top first *)
  _tagHistorySize : Z;
  _tagHistory : gmap tag TagHistory;
  _useWin32Kernel : bool;
  _ticksPerSecond : TickValue;
  _ticksPerSecondFP : double;
  _ticksPerMillisecondFP : double;
  _ticksPerMicrosecondFP : double;
  _overheadSimple : TickValue;
  _overheadNested : TickValue;
}.

Definition with_stack (s : StopwatchStack) (st : list StopwatchEntry) : StopwatchStack :=
  mkSS (_maxDepth s) st (_tagHistorySize s) (_tagHistory s) (_useWin32Kernel s) (_ticksPerSecond s)
    (_ticksPerSecondFP s) (_ticksPerMillisecondFP s) (_ticksPerMicrosecondFP s) (_overheadSimple s) (_overheadNested s).
Definition with_history (s : StopwatchStack) (h : gmap tag TagHistory) : StopwatchStack :=
  mkSS (_maxDepth s) (_stack s) (_tagHistorySize s) h (_useWin32Kernel s) (_ticksPerSecond s)
    (_ticksPerSecondFP s) (_ticksPerMillisecondFP s) (_ticksPerMicrosecondFP s) (_overheadSimple s) (_overheadNested s).
Definition with_overheadSimple (s : StopwatchStack) (o : TickValue) : StopwatchStack :=
  mkSS (_maxDepth s) (_stack s) (_tagHistorySize s) (_tagHistory s) (_useWin32Kernel s) (_ticksPerSecond s)
    (_ticksPerSecondFP s) (_ticksPerMillisecondFP s) (_ticksPerMicrosecondFP s) o (_overheadNested s).

(** The constructor, once the number of ticks per second is known.  The sizes
    are converted to the unsigned [size_type]. *)
Definition StopwatchStack_init (reservationSize tagHistorySize : Z) (useWin32Kernel : bool)
    (ticksPerSecond : TickValue) : StopwatchStack :=
  let fp := double_of ticksPerSecond in
  mkSS (u32 reservationSize) [] (u32 tagHistorySize) ∅ useWin32Kernel ticksPerSecond fp
    (double_div fp (double_of 1000)) (double_div fp (double_mul (double_of 1000) (double_of 1000))) 0 0.

(** [mhz * 1000 * 1000] in a DWORD. *)
Definition ticks_of_mhz (mhz : Z) : TickValue := u32 (u32 (mhz * 1000) * 1000).

Definition TicksToSeconds (s : StopwatchStack) (ticks : TickValue) : double :=
  double_div (double_of ticks) (_ticksPerSecondFP s).
Definition TicksToMilliseconds (s : StopwatchStack) (ticks : TickValue) : double :=
  double_div (double_of ticks) (_ticksPerMillisecondFP s).
Definition TicksToMicroseconds (s : StopwatchStack) (ticks : TickValue) : double :=
  double_div (double_of ticks) (_ticksPerMicrosecondFP s).
Definition MillisecondsToTicks (s : StopwatchStack) (milliseconds : double) : option TickValue :=
  double_to_int64 (double_mul milliseconds (_ticksPerMillisecondFP s)).

Definition GetOverheadSimpleAsTicks (s : StopwatchStack) : TickValue := _overheadSimple s.
Definition GetOverheadSimpleAsMicroSeconds (s : StopwatchStack) : double := TicksToMicroseconds s (_overheadSimple s).

(** [_maxDepth <= _stack.size()]: a push is refused. *)
Definition is_full (s : StopwatchStack) : bool := _maxDepth s <=? Z.of_nat (length (_stack s)).

Definition PushWithValue (t : tag) (value : TickValue) (s : StopwatchStack) : StopwatchStack :=
  if is_full s then s else with_stack s (mkEntry value t :: _stack s).

Definition StoreResultWithTag (result : TickValue) (t : tag) (s : StopwatchStack) : StopwatchStack :=
  if _tagHistorySize s =? 0 then s
  else
    let historyOfTag := default [] (_tagHistory s !! t) in
    let historyOfTag := if _tagHistorySize s <=? Z.of_nat (length historyOfTag) then tail historyOfTag else historyOfTag in
    with_history s (<[t := historyOfTag ++ [result]]> (_tagHistory s)).

(** Taking an entry off: the time since its start, kept in the history of its
    tag unless the tag is null. *)
Definition pop_entry (entry : StopwatchEntry) (rest : list StopwatchEntry) (value : TickValue)
    (s : StopwatchStack) : TickValue * StopwatchStack :=
  let s := with_stack s rest in
  let delta := s64 (value - startTime entry) in
  (delta, if decide (e_tag entry = None) then s else StoreResultWithTag delta (e_tag entry) s).

(** [None] when the assertion [entry.tag == tag] fails. *)
Definition PopWithValue (t : tag) (value : TickValue) (s : StopwatchStack) : option (TickValue * StopwatchStack) :=
  match _stack s with
  | [] => Some (0, s)
  | entry :: rest =>
      if decide (e_tag entry = t) then Some (pop_entry entry rest value s) else None
  end.

Definition GetTagHistory (t : tag) (s : StopwatchStack) : TagHistory := default [] (_tagHistory s !! t).

Definition ResetTagHistory (t : tag) (s : StopwatchStack) : StopwatchStack :=
  with_history s (delete t (_tagHistory s)).
