(* ===== verification/MathxProps.v ===== *)
(** * The statistics are order statistics

    For values that are totally ordered by their comparison, the functions of
    Mathx.h return the element of the stated rank; and any implementation of
    [std::nth_element] that keeps its contract gives the same value. *)
From Stdlib Require Import Sorted.
From S2P Require Import Prelude.
From S2P Require Import Words.
From S2P Require Import Win32.
From S2P Require Import Mathx.
From S2P Require Import StopwatchStack.

(** The comparison is a total order on the values in [P]. *)
Class TotalOn {V} `{Value V} (P : V → Prop) := {
  ltb_asym a b : P a → P b → v_ltb a b = true → v_ltb b a = false;
  ltb_negtrans a b c : P a → P b → P c → v_ltb a b = false → v_ltb b c = false → v_ltb a c = false;
  ltb_antisym a b : P a → P b → v_ltb a b = false → v_ltb b a = false → a = b;
}.

#[export] Instance Z_TotalOn : TotalOn (V := Z) (fun _ => True).
Proof. split; simpl; intros; lia. Qed.

(** Doubles: all but NaN and the negative zero. *)
Definition proper (x : double) : Prop := match x with S754_nan => False | S754_zero true => False | _ => True end.

Lemma PosCompareCont_Eq m n : Pos.compare_cont Eq m n = Pos.compare m n.
Proof. done. Qed.

Ltac float_cases :=
  repeat match goal with
  | H : context [Z.compare ?a ?b] |- _ => destruct (Z.compare_spec a b)
  | |- context [Z.compare ?a ?b] => destruct (Z.compare_spec a b)
  | H : context [Pos.compare ?a ?b] |- _ => destruct (Pos.compare_spec a b)
  | |- context [Pos.compare ?a ?b] => destruct (Pos.compare_spec a b)
  end.

#[export] Instance double_TotalOn : TotalOn (V := double) proper.
Proof.
  split; simpl; unfold double_ltb, SFltb, SFcompare; intros.
  - destruct a as [[]|[]| |[] m e], b as [[]|[]| |[] m' e']; simpl in *; try done;
      rewrite ?PosCompareCont_Eq in *; float_cases; simpl in *; try done; lia.
  - destruct a as [[]|[]| |[] m e], b as [[]|[]| |[] m' e'], c as [[]|[]| |[] m'' e'']; simpl in *; try done;
      rewrite ?PosCompareCont_Eq in *; float_cases; simpl in *; try done; lia.
  - destruct a as [[]|[]| |[] m e], b as [[]|[]| |[] m' e']; simpl in *; try done;
      rewrite ?PosCompareCont_Eq in *; float_cases; simpl in *; try done; subst; try done; lia.
Qed.

Section sorting.
Context {V} `{Value V} {TItem : Type} (selector : TItem → V) (P : V → Prop) `{!TotalOn P}.
Implicit Types l : list TItem.

Lemma insert_Permutation x l : Mathx.insert selector x l ≡ₚ x :: l.
Proof.
  induction l as [|y l IH]; simpl; [done|]. destruct (Mathx.less selector y x); [|done].
  rewrite IH. apply Permutation_swap.
Qed.

Lemma sort_Permutation l : Mathx.sort selector l ≡ₚ l.
Proof. induction l as [|x l IH]; simpl; [done|]. by rewrite insert_Permutation, IH. Qed.

Lemma sort_length l : length (Mathx.sort selector l) = length l.
Proof. by rewrite sort_Permutation. Qed.

Definition in_order (x y : TItem) : Prop := Mathx.less selector y x = false.

Lemma insert_sorted x l : P (selector x) → Forall (fun y => P (selector y)) l →
  StronglySorted in_order l → StronglySorted in_order (Mathx.insert selector x l).
Proof using Type*.
  intros Hx Hl Hs. induction Hs as [|y l Hs IH Hy]; simpl; [by repeat constructor|].
  apply Forall_cons in Hl as [Py Hl]. destruct (Mathx.less selector y x) eqn:E.
  - constructor; [by apply IH|]. rewrite insert_Permutation. constructor; [|done].
    unfold in_order, Mathx.less in *. by apply ltb_asym.
  - constructor; [by constructor|]. constructor; [done|].
    rewrite Forall_forall in Hy, Hl |- *. intros z Hz. unfold in_order, Mathx.less in *.
    apply (ltb_negtrans _ (selector y)); auto.
Qed.

Lemma sort_sorted l : Forall (fun y => P (selector y)) l → StronglySorted in_order (Mathx.sort selector l).
Proof using Type*.
  induction l as [|x l IH]; simpl; [constructor|]. intros [Hx Hl]%Forall_cons.
  apply insert_sorted; [done| |by apply IH]. by rewrite sort_Permutation.
Qed.

Lemma sorted_nth l i j x y : StronglySorted in_order l → (i <= j)%nat → l !! i = Some x → l !! j = Some y →
  P (selector x) → in_order x y.
Proof using Type*.
  intros Hs. revert i j. induction Hs as [|z l Hs IH Hz]; intros i j Hij Hi Hj Px; [done|].
  destruct i as [|i], j as [|j]; simpl in *; [|..|apply (IH i j); auto with lia]; try lia.
  - simplify_eq. unfold in_order, Mathx.less. destruct (v_ltb (selector x) (selector x)) eqn:E; [|done].
    pose proof (ltb_asym _ _ Px Px E). congruence.
  - simplify_eq. rewrite Forall_forall in Hz. apply Hz. by apply list_elem_of_lookup_2 in Hj.
Qed.

(** [v] is the value of rank [k] (from 0): at most [k] values are less, and more
    than [k] are at most [v]. *)
Definition rank (k : nat) (l : list TItem) (v : V) : Prop :=
  (length (List.filter (fun x => v_ltb (selector x) v) l) <= k)%nat ∧
  (k < length (List.filter (fun x => negb (v_ltb v (selector x))) l))%nat.

Lemma filter_perm (f : TItem → bool) l l' : l ≡ₚ l' → length (List.filter f l) = length (List.filter f l').
Proof.
  induction 1 as [|x l l' _ IH|x y l|l l' l'' _ IH1 _ IH2]; simpl; [done| | |congruence].
  - destruct (f x); simpl; congruence.
  - by destruct (f x), (f y).
Qed.

Lemma filter_length_le (f : TItem → bool) l : (length (List.filter f l) <= length l)%nat.
Proof. induction l as [|x l IH]; simpl; [lia|]. destruct (f x); simpl; lia. Qed.

Lemma filter_none (f : TItem → bool) l : (∀ i x, l !! i = Some x → f x = false) → List.filter f l = [].
Proof.
  induction l as [|x l IH]; intros Hf; simpl; [done|]. rewrite (Hf 0%nat x eq_refl).
  apply IH. intros i y Hy. by apply (Hf (S i)).
Qed.
Lemma filter_all (f : TItem → bool) l : (∀ i x, l !! i = Some x → f x = true) → List.filter f l = l.
Proof.
  induction l as [|x l IH]; intros Hf; simpl; [done|]. rewrite (Hf 0%nat x eq_refl). f_equal.
  apply IH. intros i y Hy. by apply (Hf (S i)).
Qed.

(** A list parted at [k] around its element there. *)
Lemma parted_rank k l x : l !! k = Some x →
  (∀ i y, (i <= k)%nat → l !! i = Some y → Mathx.less selector x y = false) →
  (∀ j y, (k <= j)%nat → l !! j = Some y → Mathx.less selector y x = false) →
  rank k l (selector x).
Proof.
  intros Hk Hbefore Hafter. pose proof (lookup_lt_Some _ _ _ Hk) as Hlt. unfold rank.
  rewrite <- (take_drop k l), !List.filter_app, !length_app. split.
  - rewrite (filter_none _ (drop k l)).
    + pose proof (filter_length_le (fun x0 => v_ltb (selector x0) (selector x)) (take k l)) as Hf.
      rewrite length_take in Hf. simpl. lia.
    + intros i y Hy. rewrite lookup_drop in Hy. apply (Hafter (k + i)%nat y); [lia|done].
  - rewrite (filter_all _ (take k l)).
    + rewrite (drop_S l x k) by done. simpl.
      assert (Hx : v_ltb (selector x) (selector x) = false) by by apply (Hbefore k).
      rewrite Hx. simpl. rewrite length_take. lia.
    + intros i y Hy. apply lookup_take_Some in Hy as [Hy Hi].
      apply negb_true_iff, (Hbefore i); [lia|done].
Qed.

Lemma rank_perm k l l' v : l ≡ₚ l' → rank k l v → rank k l' v.
Proof. intros Hp. unfold rank. by rewrite !(filter_perm _ _ _ Hp). Qed.

(** At most one value has a given rank. *)
Lemma rank_unique k l v v' : P v → P v' → Forall (fun x => P (selector x)) l →
  rank k l v → rank k l v' → v = v'.
Proof using Type*.
  intros Pv Pv' Hl. assert (Hle : ∀ v v', P v → P v' → rank k l v → rank k l v' → v_ltb v v' = false).
  { clear v v' Pv Pv'. intros v v' Pv Pv' [_ H1] [H2 _]. destruct (v_ltb v v') eqn:E; [|done]. exfalso.
    assert (length (List.filter (fun x => negb (v_ltb v (selector x))) l)
            <= length (List.filter (fun x => v_ltb (selector x) v') l))%nat as Hc; [|lia].
    clear H1 H2. induction l as [|x l' IH]; simpl; [lia|]. apply Forall_cons in Hl as [Px Hl]. specialize (IH Hl).
    destruct (v_ltb v (selector x)) eqn:E1; simpl; [destruct (v_ltb (selector x) v'); simpl; lia|].
    destruct (v_ltb (selector x) v') eqn:E2; simpl; [lia|]. exfalso.
    by rewrite (ltb_negtrans v (selector x) v') in E. }
  intros H1 H2. apply ltb_antisym; auto.
Qed.

(** What the standard promises of [std::nth_element]. *)
Definition nth_element_contract (k : nat) l l' : Prop :=
  l' ≡ₚ l ∧ ∀ i j x y, (i <= k)%nat → (k <= j)%nat → l' !! i = Some x → l' !! j = Some y → Mathx.less selector y x = false.

Lemma contract_rank k l l' x : nth_element_contract k l l' → l' !! k = Some x → rank k l (selector x).
Proof.
  intros [Hp Hc] Hx. apply (rank_perm _ l'); [done|]. apply parted_rank; [done|..].
  - intros i y Hi Hy. by apply (Hc i k y x).
  - intros j y Hj Hy. by apply (Hc k j x y).
Qed.

Lemma sort_contract k l : Forall (fun y => P (selector y)) l → nth_element_contract k l (Mathx.sort selector l).
Proof using Type*.
  intros Hl. split; [apply sort_Permutation|]. intros i j x y Hi Hj Hx Hy.
  apply (sorted_nth (Mathx.sort selector l) i j x y); [by apply sort_sorted|lia|done|done|].
  pose proof Hl as Hl'. rewrite <- sort_Permutation in Hl'. rewrite Forall_forall in Hl'.
  apply Hl'. by apply list_elem_of_lookup_2 in Hx.
Qed.

Lemma sort_rank k l x : Forall (fun y => P (selector y)) l → Mathx.sort selector l !! k = Some x → rank k l (selector x).
Proof using Type*. intros Hl. by apply contract_rank, sort_contract. Qed.

(** The rank a percentile stands for. *)
Definition percentile_rank (p : Z) (n : nat) : nat := Nat.min (n - 1) (Z.to_nat (p * Z.of_nat n / 100)).

Lemma percentile_select l p : l ≠ [] → 0 <= p <= 100 → p * Z.of_nat (length l) < 2 ^ 32 →
  ∃ x, Mathx.sort selector l !! percentile_rank p (length l) = Some x ∧
       Mathx.Percentile selector l p = Mathx.PValue (selector x).
Proof.
  intros Hne Hp Hov. assert (Hn : (0 < length l)%nat) by (destruct l; [done|simpl; lia]).
  pose proof (sort_length l) as Hlen.
  destruct (lookup_lt_is_Some_2 (Mathx.sort selector l) (percentile_rank p (length l))) as [x Hx].
  { unfold percentile_rank. lia. }
  exists x. split; [done|]. unfold percentile_rank in Hx. unfold Mathx.Percentile.
  assert (negb ((p <=? 100) && (0 <=? p)) = false) as -> by lia.
  destruct (p =? 100) eqn:E100; [|destruct (p =? 0) eqn:E0; [|destruct (p =? 50) eqn:E50]].
  - apply Z.eqb_eq in E100 as ->. unfold Mathx.Maximum. rewrite last_lookup, Hlen.
    replace (Nat.pred (length l)) with (Nat.min (length l - 1) (Z.to_nat (100 * Z.of_nat (length l) / 100))).
    + by rewrite Hx.
    + rewrite Z.mul_comm, Z.div_mul by lia. lia.
  - apply Z.eqb_eq in E0 as ->. unfold Mathx.Minimum. rewrite Z.mul_0_l in Hx.
    change (Z.to_nat (0 / 100)) with 0%nat in Hx. rewrite Nat.min_0_r in Hx. by rewrite Hx.
  - apply Z.eqb_eq in E50 as ->. unfold Mathx.Median, Mathx.nth_element. destruct l as [|y l]; [done|].
    replace (length (y :: l) / 2)%nat with
      (Nat.min (length (y :: l) - 1) (Z.to_nat (50 * Z.of_nat (length (y :: l)) / 100))).
    + by rewrite Hx.
    + replace (50 * Z.of_nat (length (y :: l)) / 100) with (Z.of_nat (length (y :: l) / 2)).
      * rewrite Nat2Z.id. apply Nat.min_r.
        assert (length (y :: l) / 2 < length (y :: l))%nat by (apply Nat.div_lt; simpl; lia). lia.
      * rewrite Nat2Z.inj_div. replace 100 with (50 * 2) by lia. by rewrite Z.div_mul_cancel_l.
  - destruct l as [|y l]; [done|]. unfold Mathx.nth_element. rewrite Z.mod_small by lia.
    rewrite Nat.min_r in Hx; [by rewrite Hx|].
    assert (p * Z.of_nat (length (y :: l)) / 100 < Z.of_nat (length (y :: l))); [|lia].
    apply Z.div_lt_upper_bound; nia.
Qed.

(** C33: [Percentile] of a container that is not empty is the value of rank
    [percentile * size / 100] (the last one for 100), for every percentile from 0
    to 100, though five different routines compute it; and it does not depend on
    how the library arranges the container: whatever [std::nth_element] keeps its
    contract, the selected value is the same. *)
Theorem percentile_is_order_statistic l p : Forall (fun y => P (selector y)) l →
  l ≠ [] → 0 <= p <= 100 → p * Z.of_nat (length l) < 2 ^ 32 →
  let k := percentile_rank p (length l) in
  ∃ v, Mathx.Percentile selector l p = Mathx.PValue v ∧ rank k l v ∧
    (∀ l' x, nth_element_contract k l l' → l' !! k = Some x → selector x = v).
Proof using Type*.
  intros Hl Hne Hp Hov k. destruct (percentile_select l p Hne Hp Hov) as (x & Hx & Hv).
  exists (selector x). split; [done|]. pose proof (sort_rank _ _ _ Hl Hx) as Hr. split; [done|].
  intros l' y Hc Hy. assert (Hall : ∀ z, z ∈ l → P (selector z)) by (by apply Forall_forall).
  apply (rank_unique k l); [| |done|by apply (contract_rank k l l')|done].
  - apply Hall. destruct Hc as [<- _]. by apply list_elem_of_lookup_2 in Hy.
  - apply Hall. rewrite <- (sort_Permutation l). by apply list_elem_of_lookup_2 in Hx.
Qed.
End sorting.

Lemma percentile_is_order_statistic_witness :
  ∃ v, Mathx.Percentile (fun x : Z => x) [30; 10; 40; 20; 50] 70 = Mathx.PValue v ∧
    rank (fun x : Z => x) 3 [30; 10; 40; 20; 50] v ∧
    ∀ l' (x : Z), nth_element_contract (fun x : Z => x) 3 [30; 10; 40; 20; 50] l' → l' !! 3%nat = Some x → x = v.
Proof.
  apply (percentile_is_order_statistic (fun x : Z => x) (fun _ => True) [30; 10; 40; 20; 50] 70);
    [by apply Forall_true|done|lia|reflexivity].
Defined.
