(* ===== verification/FloatProps.v ===== *)
(** * Magnitudes of [double]s

    [small k x]: [x] is a number below [2 ^ k] in magnitude -- no NaN and no
    infinity.  Conversion from an integer, multiplication and division by 1000 keep
    numbers small; so the conversion of a time in milliseconds to ticks of the
    stopwatch is defined for every 32-bit time and clock rate. *)
From S2P Require Import Prelude.
From S2P Require Import Words.
From S2P Require Import Win32.
From S2P Require Import StopwatchStack.

Definition below (m e k : Z) : Prop := 0 <= m < 2 ^ (k - e) ∧ e <= k.

Definition small (k : Z) (x : double) : Prop :=
  match x with
  | S754_zero _ => True
  | S754_finite _ m e => below (Z.pos m) e k
  | _ => False
  end.

(** ** Shifting right and rounding *)
Lemma shr_1_half r : 0 <= shr_m r → shr_m (shr_1 r) = shr_m r / 2.
Proof.
  destruct r as [m r s]. simpl. destruct m as [|p|p]; [done| |lia]. intros _.
  rewrite <- Z.div2_div. by destruct p.
Qed.

Lemma iter_pos_div p : ∀ r, 0 <= shr_m r →
  shr_m (SpecFloat.iter_pos shr_1 p r) = shr_m r / 2 ^ Z.pos p ∧ 0 <= shr_m (SpecFloat.iter_pos shr_1 p r).
Proof.
  assert (Hpos : ∀ m n, 0 <= m → 0 <= n → 0 <= m / 2 ^ n) by (intros; apply Z.div_pos; lia).
  induction p as [p IH|p IH|]; intros r Hr; simpl.
  - assert (H1 : 0 <= shr_m (shr_1 r)) by (rewrite shr_1_half by done; apply Z.div_pos; lia).
    destruct (IH _ H1) as [E1 H2]. destruct (IH _ H2) as [E2 H3]. split; [|done].
    rewrite E2, E1, shr_1_half by done. rewrite !Z.div_div by lia. f_equal.
    replace (Z.pos p~1) with (1 + (Z.pos p + Z.pos p)) by lia. rewrite !Z.pow_add_r by lia. ring.
  - destruct (IH _ Hr) as [E1 H2]. destruct (IH _ H2) as [E2 H3]. split; [|done].
    rewrite E2, E1, Z.div_div by lia. f_equal. replace (Z.pos p~0) with (Z.pos p + Z.pos p) by lia. by rewrite Z.pow_add_r by lia.
  - rewrite shr_1_half by done. split; [done|apply Z.div_pos; lia].
Qed.

Lemma digits2_pos_bound p : 2 ^ (Z.pos (digits2_pos p) - 1) <= Z.pos p.
Proof.
  induction p as [p IH|p IH|]; simpl; [| |lia]; rewrite Pos2Z.inj_succ;
    replace (Z.succ (Z.pos (digits2_pos p)) - 1) with (Z.succ (Z.pos (digits2_pos p) - 1)) by lia;
    rewrite Z.pow_succ_r by lia; lia.
Qed.

Lemma digits_below m e k : below m e k → Zdigits2 m + e <= k.
Proof.
  intros [[Hm Hlt] He]. destruct m as [|p|p]; simpl; [lia| |lia]. pose proof (digits2_pos_bound p) as Hd.
  destruct (Z_le_gt_dec (Z.pos (digits2_pos p) + e) k); [done|].
  assert (2 ^ (k - e) <= 2 ^ (Z.pos (digits2_pos p) - 1)) by (apply Z.pow_le_mono_r; lia). lia.
Qed.

(** [fexp] of double precision. *)
Lemma fexp_le x k : x <= k → -1074 <= k → fexp 53 1024 x <= k.
Proof. unfold fexp, emin. lia. Qed.

Lemma shr_record_m m l : shr_m (shr_record_of_loc m l) = m.
Proof. by destruct l as [|[]]. Qed.

Lemma shr_fexp_below m e l k mrs e' : below m e k → -1074 <= k → shr_fexp 53 1024 m e l = (mrs, e') →
  below (shr_m mrs) e' k.
Proof.
  intros Hb Hk. pose proof (digits_below m e k Hb) as Hd. pose proof (fexp_le _ _ Hd Hk) as Hf.
  unfold shr_fexp, shr. destruct (fexp 53 1024 (Zdigits2 m + e) - e) as [|p|p] eqn:En; intros [= <- <-];
    rewrite ?shr_record_m; try done.
  destruct Hb as [[Hm Hlt] He]. destruct (iter_pos_div p (shr_record_of_loc m l)) as [E H]; rewrite shr_record_m in *; [done|].
  split; [|lia]. split; [done|]. rewrite E. apply Z.div_lt_upper_bound; [lia|].
  rewrite <- Z.pow_add_r by lia. by replace (Z.pos p + (k - (e + Z.pos p))) with (k - e) by lia.
Qed.

Lemma round_up_below m e k l : below m e k → below (round_nearest_even m l) e (k + 1).
Proof.
  intros [[Hm Hlt] He]. assert (E : 2 ^ (k + 1 - e) = 2 * 2 ^ (k - e)).
  { replace (k + 1 - e) with (Z.succ (k - e)) by lia. by rewrite Z.pow_succ_r by lia. }
  split; [|lia]. rewrite E. unfold round_nearest_even. destruct l as [|[]]; try lia. destruct (Z.even m); lia.
Qed.

Lemma round_aux_small sx m e l k : below m e k → -1074 <= k → k <= 900 →
  small (k + 1) (binary_round_aux 53 1024 sx m e l).
Proof.
  intros Hb H1 H2. unfold binary_round_aux. destruct (shr_fexp 53 1024 m e l) as [r1 e1] eqn:E1.
  pose proof (shr_fexp_below _ _ _ _ _ _ Hb H1 E1) as Hb1.
  pose proof (round_up_below _ _ _ (loc_of_shr_record r1) Hb1) as Hb2.
  destruct (shr_fexp 53 1024 _ e1 loc_Exact) as [r2 e2] eqn:E2.
  pose proof (shr_fexp_below _ _ _ _ _ _ Hb2 ltac:(lia) E2) as Hb3. pose proof Hb3 as [[Hm _] He].
  destruct (shr_m r2) as [|p|p]; [done| |lia]. assert ((e2 <=? 1024 - 53) = true) as -> by lia. exact Hb3.
Qed.

(** ** The operations *)
Lemma below_shl m e k d : below (Z.pos m) e k → below (Z.pos (Pos.iter xO m d)) (e - Z.pos d) k.
Proof.
  intros [[Hm Hlt] He]. split; [|lia]. split; [lia|].
  assert (E : Z.pos (Pos.iter xO m d) = Z.pos m * 2 ^ Z.pos d).
  { rewrite Pos2Nat.inj_iter, <- (positive_nat_Z d). generalize (Pos.to_nat d) as n. intros n.
    induction n as [|n IH]; [simpl; lia|].
    rewrite Nat2Z.inj_succ, Z.pow_succ_r by lia.
    transitivity (2 * (Z.pos m * 2 ^ Z.of_nat n)); [by rewrite <- IH|lia]. }
  rewrite E. replace (k - (e - Z.pos d)) with (k - e + Z.pos d) by lia. rewrite Z.pow_add_r by lia. nia.
Qed.

Lemma round_small sx m e k : below (Z.pos m) e k → -1074 <= k → k <= 900 → small (k + 1) (binary_round 53 1024 sx m e).
Proof.
  intros Hb H1 H2. unfold binary_round, shl_align.
  destruct (fexp 53 1024 (Z.pos (digits2_pos m) + e) - e) as [|p|p] eqn:En; try by apply round_aux_small.
  apply round_aux_small; [|done|done].
  replace (fexp 53 1024 (Z.pos (digits2_pos m) + e)) with (e - Z.pos p) by lia. by apply below_shl.
Qed.

Lemma double_of_small z k : 0 <= z < 2 ^ k → 0 <= k <= 900 → small (k + 1) (double_of z).
Proof.
  intros Hz Hk. unfold double_of, binary_normalize. destruct z as [|p|p]; [done| |lia].
  apply round_small; [|lia|lia]. split; [|lia]. by rewrite Z.sub_0_r.
Qed.

Lemma double_mul_small x y k l : small k x → small l y → -1074 <= k + l <= 900 → small (k + l + 1) (double_mul x y).
Proof.
  intros Hx Hy Hk. unfold double_mul, SFmul. destruct x as [| | |sx mx ex], y as [| | |sy my ey]; try done.
  simpl in Hx, Hy. destruct Hx as [[_ Hx] Ex], Hy as [[_ Hy] Ey]. apply round_aux_small; [|lia|lia].
  split; [|lia]. split; [lia|]. replace (k + l - (ex + ey)) with ((k - ex) + (l - ey)) by lia.
  rewrite Z.pow_add_r, Pos2Z.inj_mul by lia. nia.
Qed.

Lemma double_of_1000 : double_of 1000 = S754_finite false 8796093022208000 (-43).
Proof. reflexivity. Qed.

(** 1000 is more than [2 ^ 9]. *)
Lemma double_div_1000_small x k : small k x → 0 <= k <= 900 → small (k - 8) (double_div x (double_of 1000)).
Proof.
  intros Hx Hk. rewrite double_of_1000. unfold double_div, SFdiv. destruct x as [| | |s m e]; try done.
  pose proof Hx as [[_ Hlt] He]. pose proof (digits_below _ _ _ Hx) as Hd.
  unfold SFdiv_core_binary. set (e' := Z.min _ (e - -43)).
  set (m2 := 8796093022208000%positive).
  assert (Ee : e' = Z.min (fexp 53 1024 (Zdigits2 (Z.pos m) + e - 10)) (e + 43)) by reflexivity. clearbody e'.
  pose proof (fexp_le (Zdigits2 (Z.pos m) + e - 10) (k - 9) ltac:(lia) ltac:(lia)) as Hf.
  assert (He' : e' <= k - 9 ∧ e' <= e + 43) by lia.
  set (m' := match e - -43 - e' with Z0 => Z.pos m | Zpos _ => Z.shiftl (Z.pos m) (e - -43 - e') | Zneg _ => 0 end).
  assert (Em : m' = Z.pos m * 2 ^ (e + 43 - e')).
  { unfold m'. replace (e - -43 - e') with (e + 43 - e') by lia. destruct (e + 43 - e') as [|q|q] eqn:Eq; [lia| |lia].
    by rewrite Z.shiftl_mul_pow2 by lia. }
  destruct (Z.div_eucl m' (Z.pos m2)) as [q r] eqn:Ediv.
  assert (Eq : q = m' / Z.pos m2) by (unfold Z.div; by rewrite Ediv). replace (k - 8) with (k - 9 + 1) by lia.
  apply round_aux_small; [|lia|lia]. split; [|lia].
  assert (Hpow : 0 < 2 ^ (e + 43 - e')) by (apply Z.pow_pos_nonneg; lia).
  split; [rewrite Eq; apply Z.div_pos; lia|]. rewrite Eq. apply Z.div_lt_upper_bound; [lia|].
  assert (Hm2 : 2 ^ 52 <= Z.pos m2) by (unfold m2; lia).
  assert (E : 2 ^ (k - e) * 2 ^ (e + 43 - e') = 2 ^ 52 * 2 ^ (k - 9 - e')).
  { rewrite <- !Z.pow_add_r by lia. f_equal. lia. }
  assert (0 < 2 ^ (k - 9 - e')) by (apply Z.pow_pos_nonneg; lia). rewrite Em. nia.
Qed.

Lemma double_to_int64_small x k : small k x → k <= 63 → ∃ v, double_to_int64 x = Some v ∧ Z.abs v < 2 ^ Z.max 0 k.
Proof.
  intros Hx Hk. pose proof (Z.pow_pos_nonneg 2 (Z.max 0 k) ltac:(lia) ltac:(lia)) as H0.
  destruct x as [| | |s m e]; try done; [by exists 0|]. simpl in *. destruct Hx as [[_ Hlt] He].
  set (v := if 0 <=? e then Z.pos m * 2 ^ e else Z.pos m / 2 ^ (- e)).
  assert (Hv : 0 <= v < 2 ^ Z.max 0 k).
  { unfold v. destruct (Z.leb_spec 0 e) as [H|H].
    - split; [lia|]. replace (Z.max 0 k) with ((k - e) + e) by lia. rewrite Z.pow_add_r by lia.
      apply Z.mul_lt_mono_pos_r; [|done]. apply Z.pow_pos_nonneg; lia.
    - split; [apply Z.div_pos; [lia|apply Z.pow_pos_nonneg; lia]|].
      apply Z.div_lt_upper_bound; [apply Z.pow_pos_nonneg; lia|]. rewrite <- Z.pow_add_r by lia.
      eapply Z.lt_le_trans; [exact Hlt|]. apply Z.pow_le_mono_r; lia. }
  assert (Hle : 2 ^ Z.max 0 k <= 2 ^ 63) by (apply Z.pow_le_mono_r; lia).
  assert ((- 2 ^ 63 <=? (if s then - v else v)) && ((if s then - v else v) <? 2 ^ 63) = true) as ->.
  { apply andb_true_iff. rewrite Z.leb_le, Z.ltb_lt. destruct s; lia. }
  exists (if s then - v else v). split; [done|]. destruct s; lia.
Qed.

(** ** The stopwatch *)

(** Its scale fits a 32-bit number of ticks per second. *)
Definition scaled (s : StopwatchStack) : Prop := small 25 (_ticksPerMillisecondFP s).

Lemma init_scaled size history kernel ticks : is_u32 ticks → scaled (StopwatchStack_init size history kernel ticks).
Proof. intros Ht. apply (double_div_1000_small _ 33); [|lia]. by apply (double_of_small _ 32). Qed.

Lemma scaled_conversion s ms : scaled s → is_u32 ms → ∃ t, MillisecondsToTicks s (double_of ms) = Some t ∧ Z.abs t < 2 ^ 59.
Proof.
  intros Hs Hms. unfold MillisecondsToTicks.
  destruct (double_to_int64_small (double_mul (double_of ms) (_ticksPerMillisecondFP s)) (33 + 25 + 1)) as (v & H & Hv);
    [|lia|by exists v].
  apply double_mul_small; [|exact Hs|lia]. by apply (double_of_small _ 32).
Qed.

(** C37: the conversion of milliseconds to ticks is never undefined: for every clock
    rate the registry can report and every 32-bit time, the product is a number
    (neither NaN nor infinite) below [2 ^ 59] in magnitude, so it fits [int64_t]. *)
Theorem milliseconds_to_ticks_defined mhz size history kernel ms : is_u32 ms →
  ∃ t, MillisecondsToTicks (StopwatchStack_init size history kernel (ticks_of_mhz mhz)) (double_of ms) = Some t ∧ Z.abs t < 2 ^ 59.
Proof. intros Hms. apply scaled_conversion; [|done]. apply init_scaled, u32_range. Qed.

Lemma milliseconds_to_ticks_defined_witness : is_u32 (2 ^ 32 - 1) ∧
  ∃ t, MillisecondsToTicks (StopwatchStack_init 100 1000 false (ticks_of_mhz 4294)) (double_of (2 ^ 32 - 1)) = Some t ∧ Z.abs t < 2 ^ 59.
Proof. split; [unfold is_u32; lia|]. apply milliseconds_to_ticks_defined. unfold is_u32. lia. Defined.
