(* ===== verification/Machine.v ===== *)
(** * Programs of the profiler

    A member function of the profiler is a program of type [M A]: it runs in a
    [world] (the operating system, a log of the calls made, the stopwatch and the
    results of the running experiment, the statics) and ends in an [outcome].
    The members of [StopwatchStack] that read the clock are here. *)
From S2P Require Import Prelude.
From S2P Require Import Words.
From S2P Require Import Win32.
From S2P Require Import Mathx.
From S2P Require Import StopwatchStack.

(** [Experiment::Result]. *)
Record Result : Type := mkResult { Name : string; Value : double }.

Section machine.
Context `{OS : Win32}.

Record world : Type := mkWorld {
  os : os_state;
  log : list event;                 (* the newest first *)
  ss : StopwatchStack;              (* [_stopwatch] *)
  results : list Result;            (* [_results] of the running experiment *)
  fileSizes : list Z;               (* [FileSystemExperiment::_fileSizes] *)
  g_hiddenValue : Z;                (* ProcedureOverhead.cpp *)
}.

Definition with_ss (w : world) (s : StopwatchStack) : world :=
  mkWorld (os w) (log w) s (results w) (fileSizes w) (g_hiddenValue w).
Definition with_results (w : world) (r : list Result) : world :=
  mkWorld (os w) (log w) (ss w) r (fileSizes w) (g_hiddenValue w).
Definition with_fileSizes (w : world) (f : list Z) : world :=
  mkWorld (os w) (log w) (ss w) (results w) f (g_hiddenValue w).
Definition with_hidden (w : world) (h : Z) : world :=
  mkWorld (os w) (log w) (ss w) (results w) (fileSizes w) h.

(** How a program ends: with a value, by throwing [std::exception(what)], by
    throwing a pointer to one ([throw new ...]), at a failed assertion, by
    undefined behaviour; or it has used up the bound on the iterations of its
    [while] loops. *)
Inductive outcome (A : Type) : Type :=
| Ok (a : A) (w : world)
| Threw (what : string) (w : world)
| ThrewPointer (what : string) (w : world)
| AssertionFailed (w : world)
| Undefined
| OutOfFuel.
Arguments Ok {A} _ _.
Arguments Threw {A} _ _.
Arguments ThrewPointer {A} _ _.
Arguments AssertionFailed {A} _.
Arguments Undefined {A}.
Arguments OutOfFuel {A}.

Definition M (A : Type) : Type := world → outcome A.

#[export] Instance M_ret : MRet M := fun A a w => Ok a w.
#[export] Instance M_bind : MBind M := fun A B f m w =>
  match m w with
  | Ok a w' => f a w'
  | Threw what w' => Threw what w'
  | ThrewPointer what w' => ThrewPointer what w'
  | AssertionFailed w' => AssertionFailed w'
  | Undefined => Undefined
  | OutOfFuel => OutOfFuel
  end.

Definition ret {A} (a : A) : M A := mret a.
Definition throw {A} (what : string) : M A := fun w => Threw what w.
Definition throw_new {A} (what : string) : M A := fun w => ThrewPointer what w.
Definition assert (b : bool) : M unit := fun w => if b then Ok tt w else AssertionFailed w.
Definition undefined {A} : M A := fun _ => Undefined.
Definition lift {A} (o : option A) : M A := fun w => match o with Some a => Ok a w | None => Undefined end.
Definition when (b : bool) (m : M unit) : M unit := if b then m else ret tt.

(** One call of the operating system. *)
Definition sys {A} (c : api A) : M A := fun w =>
  let '(a, o) := os_call c (os w) in
  Ok a (mkWorld o (Event A c a :: log w) (ss w) (results w) (fileSizes w) (g_hiddenValue w)).

(** The same, where the source ignores what comes back. *)
Definition sys_ {A} (c : api A) : M unit := a ← sys c; ret tt.

Definition gets {A} (f : world → A) : M A := fun w => Ok (f w) w.
Definition modify (f : world → world) : M unit := fun w => Ok tt (f w).

(** [for (int i = lo; i < hi; ++i)], without and with a state of its own. *)
Fixpoint loop_from {S} (n : nat) (i : Z) (body : Z → S → M S) (s : S) : M S :=
  match n with
  | O => ret s
  | Datatypes.S n' => s' ← body i s; loop_from n' (i + 1) body s'
  end.
Definition for_state {S} (lo hi : Z) (body : Z → S → M S) (s : S) : M S :=
  loop_from (Z.to_nat (hi - lo)) lo body s.
Definition for_ (lo hi : Z) (body : Z → M unit) : M unit :=
  for_state lo hi (fun i _ => body i) tt.

(** The same, where the body says whether to go on ([true]) or to [return]. *)
Fixpoint loop_until (n : nat) (i : Z) (body : Z → M bool) : M bool :=
  match n with
  | O => ret true
  | Datatypes.S n' => b ← body i; if (b : bool) then loop_until n' (i + 1) body else ret false
  end.
Definition for_until (lo hi : Z) (body : Z → M bool) : M bool :=
  loop_until (Z.to_nat (hi - lo)) lo body.

(** [while (true)]: the body says whether to go on ([inl]) or to leave ([inr]). *)
Fixpoint while_ {S A} (fuel : nat) (body : S → M (S + A)) (s : S) : M A :=
  match fuel with
  | O => fun _ => OutOfFuel
  | Datatypes.S fuel' =>
      r ← body s;
      match r with
      | inl s' => while_ fuel' body s'
      | inr a => ret a
      end
  end.

Definition for_list {A} (l : list A) (body : A → M unit) : M unit :=
  foldr (fun a k => body a;; k) (ret tt) l.

(** ** The stopwatch: the members that read the clock *)
Definition ReadHighresolutionTimer : M TickValue := sys Rdtsc.

Definition on_ss (f : StopwatchStack → StopwatchStack) : M unit := modify (fun w => with_ss w (f (ss w))).

(** A refused push does not read the clock. *)
Definition Push (t : tag) : M unit :=
  full ← gets (fun w => is_full (ss w));
  if (full : bool) then ret tt
  else
    now ← ReadHighresolutionTimer;
    on_ss (PushWithValue t now).

(** [Push(0)]. *)
Definition Push0 : M unit := Push None.

Definition Pop : M TickValue :=
  timerValue ← ReadHighresolutionTimer;
  st ← gets (fun w => _stack (ss w));
  match st with
  | [] => ret 0
  | entry :: rest => fun w =>
      let '(delta, s) := pop_entry entry rest timerValue (ss w) in Ok delta (with_ss w s)
  end.

Definition Pop_ : M unit := delta ← Pop; ret tt.

Definition ss_PushWithValue (t : tag) (value : TickValue) : M unit := on_ss (PushWithValue t value).

Definition ss_PopWithValue (t : tag) (value : TickValue) : M TickValue := fun w =>
  match PopWithValue t value (ss w) with
  | Some (delta, s) => Ok delta (with_ss w s)
  | None => AssertionFailed w
  end.

Definition Read : M TickValue := ReadHighresolutionTimer.

Definition ss_ResetTagHistory (t : tag) : M unit := on_ss (ResetTagHistory t).

Definition history (t : tag) : M TagHistory := gets (fun w => GetTagHistory t (ss w)).

(** The constructor: the tick rate comes from the performance counter or from
    the clock rate Windows reports. [DISABLE_WIN32_PERFORMANCE_TIMER] is 1, the
    default of StopwatchStack.h. *)
Definition StopwatchStack_new (reservationSize tagHistorySize : Z) (useWin32Kernel : bool) : M StopwatchStack :=
  when useWin32Kernel (assert false);;
  ticksPerSecond ←
    (if useWin32Kernel then sys QueryPerformanceFrequency
     else mhz ← sys RegGetMhz; ret (ticks_of_mhz mhz));
  sys_ CriticalSectionNew;;
  ret (StopwatchStack_init reservationSize tagHistorySize useWin32Kernel ticksPerSecond).

(** [StopwatchStack stopwatch;], with the default arguments. *)
Definition StopwatchStack_default : M StopwatchStack := StopwatchStack_new 100 100 false.

(** Running a program on a stopwatch of its own. *)
Definition on_stopwatch {A} (s : StopwatchStack) (m : M A) : M A := fun w =>
  match m (with_ss w s) with
  | Ok a w' => Ok a (with_ss w' (ss w))
  | o => o
  end.

(** A timed section. *)
Definition timed (t : tag) (m : M unit) : M unit := Push t;; m;; Pop_.

Definition measurement_tag : tag := lit "Measurement Overhead".

(** Time between back-to-back readings, the least of those in the history. *)
Definition CalculateOverheadSimple : M unit :=
  for_ 0 50000 (fun i =>
    Push measurement_tag;;
    Pop_);;
  h ← history measurement_tag;
  median ← lift (Mathx.Minimum (fun t : TickValue => t) h);
  on_ss (fun s => with_overheadSimple s median).

Definition CalculateOverheadNested : M unit := assert false.
End machine.
Arguments outcome {OS} A.
Arguments M {OS} A.
Arguments Ok {OS A} _ _.
Arguments Threw {OS A} _ _.
Arguments ThrewPointer {OS A} _ _.
Arguments AssertionFailed {OS A} _.
Arguments Undefined {OS A}.
Arguments OutOfFuel {OS A}.
