(* ===== verification/Experiment.v ===== *)
(** * Experiments (src/cse220/Micro-Bench/code/Profiler/Experiment.{h,cpp})

    The base class: a name, the results, and the members that turn a history of
    the stopwatch into a result. *)
From S2P Require Import Prelude.
From S2P Require Import Words.
From S2P Require Import TraceFormat.
From S2P Require Import Win32.
From S2P Require Import Mathx.
From S2P Require Import StopwatchStack.
From S2P Require Import Machine.

Definition CacheLineSize : Z := 64.
Definition MaxCacheSize : Z := 8388608.

(** [(b0 << 0) | (b1 << 8) | (b2 << 16) | (b3 << 24)]. *)
Definition ipv4 (b0 b1 b2 b3 : Z) : Z :=
  u32 (Z.lor (Z.lor (Z.lor (Z.shiftl b0 0) (Z.shiftl b1 8)) (Z.shiftl b2 16)) (Z.shiftl b3 24)).
Definition LocalMachineAddress : Z := ipv4 127 0 0 1.
Definition OtherMachineAddress : Z := ipv4 192 168 1 65.

(** Decimal text of an integer, as [std::wostream] gives it. *)
Definition dec (z : Z) : string := pretty z.

(** ** Reading an integer: [std::wistream >> int]

    White space, a sign, digits.  The flag says that the stream fails: there is
    no digit, or the number does not fit (the value stored is then 0, or the
    nearest one). *)
Definition extract_int (s : string) : Z * bool :=
  let '(neg, s) := read_sign (skip_ws (String.list_ascii_of_string s)) in
  match s with
  | c :: _ =>
      match digit_val 10 c with
      | Some _ =>
          let v := (read_digits 10 0 s).1 in
          let v := if (neg : bool) then - v else v in
          if v <? - 2 ^ 31 then (- 2 ^ 31, true)
          else if 2 ^ 31 <=? v then (2 ^ 31 - 1, true) else (v, false)
      | None => (0, true)
      end
  | [] => (0, true)
  end.

Section experiment.
Context `{OS : Win32}.
#[local] Open Scope string_scope.

(** An experiment of a derived class: its name and [Run]. *)
Record Experiment : Type := mkExperiment { _name : string; Run : M unit }.
Definition GetName (e : Experiment) : string := _name e.

(** [_defaultNumIterations], unless the derived class changes it. *)
Definition defaultNumIterations : Z := 5000.

Definition PushResult (resultName : string) (value : double) : M unit :=
  modify (fun w => with_results w (results w ++ [mkResult resultName value])).

(** [[&ss, &adjustment](TickValue t) { return ss.TicksToMicroseconds(t + adjustment); }]. *)
Definition microseconds (s : StopwatchStack) (adjustment t : TickValue) : double :=
  TicksToMicroseconds s (s64 (t + adjustment)).

Definition PushResultMeanAsMicroseconds (resultName : string) (dataset : TagHistory) (adjustment : TickValue) : M unit :=
  s ← gets ss;
  PushResult resultName (Mathx.Mean (microseconds s adjustment) dataset).

Definition PushResultMedianAsMicroseconds (resultName : string) (dataset : TagHistory) (adjustment : TickValue) : M unit :=
  s ← gets ss;
  mean ← lift (Mathx.Median (microseconds s adjustment) dataset);
  PushResult resultName mean.

Definition PushResultMinimumAsMicroseconds (resultName : string) (dataset : TagHistory) (adjustment : TickValue) : M unit :=
  s ← gets ss;
  mean ← lift (Mathx.Minimum (microseconds s adjustment) dataset);
  PushResult resultName mean.

Definition PushResultMaximumAsMicroseconds (resultName : string) (dataset : TagHistory) (adjustment : TickValue) : M unit :=
  s ← gets ss;
  mean ← lift (Mathx.Maximum (microseconds s adjustment) dataset);
  PushResult resultName mean.

Definition PushResultPercentileAsMicroseconds (resultName : string) (dataset : TagHistory) (percentile : Z)
    (adjustment : TickValue) : M unit :=
  s ← gets ss;
  match Mathx.Percentile (microseconds s adjustment) dataset percentile with
  | Mathx.PValue mean => PushResult resultName mean
  | Mathx.PAssertionFailed => assert false
  | Mathx.PUndefined => undefined
  end.

(** [-ss.GetOverheadSimpleAsTicks()], the adjustment most results use. *)
Definition minus_overhead : M TickValue := gets (fun w => s64 (- GetOverheadSimpleAsTicks (ss w))%Z).

Definition ParseInteger (string : string) : M Z :=
  let '(dest, fail) := extract_int string in
  if (fail : bool) then throw "Not an integer." else ret dest.

Definition newline : string := String (Ascii.ascii_of_nat 10) "".
Definition tab : string := String (Ascii.ascii_of_nat 9) "".

Definition result_line (r : Result) : string :=
  "  |-" ++ Name r ++ ":" ++ tab ++ format_double (Value r) ++ newline.

(** [ToString]: the results in the order they were pushed. *)
Definition ToString (name : string) (rs : list Result) : string :=
  "::" ++ name ++ "::" ++ newline
  ++ foldr (fun r s => result_line r ++ s) "" rs
  ++ "::" ++ newline.

(** The pattern of most results: a statistic of the history of a tag, less the
    overhead of the stopwatch. *)
Definition median_of (resultName : string) (t : tag) : M unit :=
  h ← history t; adjustment ← minus_overhead; PushResultMedianAsMicroseconds resultName h adjustment.
Definition mean_of (resultName : string) (t : tag) : M unit :=
  h ← history t; adjustment ← minus_overhead; PushResultMeanAsMicroseconds resultName h adjustment.
Definition minimum_of (resultName : string) (t : tag) : M unit :=
  h ← history t; adjustment ← minus_overhead; PushResultMinimumAsMicroseconds resultName h adjustment.
Definition maximum_of (resultName : string) (t : tag) : M unit :=
  h ← history t; adjustment ← minus_overhead; PushResultMaximumAsMicroseconds resultName h adjustment.
Definition percentile_of (resultName : string) (t : tag) (percentile : Z) : M unit :=
  h ← history t; adjustment ← minus_overhead; PushResultPercentileAsMicroseconds resultName h percentile adjustment.

(** [std::wcout << s;]. *)
Definition print (s : string) : M unit := sys_ (ConsoleWrite s).
Definition print_ln (s : string) : M unit := print (s ++ newline).

(** A failed call: the error code is read, then the exception thrown. *)
Definition fail_with {A} (what : string) : M A := sys_ GetLastError;; throw what.
Definition fail_with_wsa {A} (what : string) : M A := sys_ WSAGetLastError;; throw what.
End experiment.
