(* ===== verification/CpuExperiments.v ===== *)
(** * CPU, scheduling and OS service experiments

    MeasurementOverhead, LoopOverhead, ProcedureOverhead, SystemCallOverhead and
    TaskCreation (.h, .cpp), each a module with its [Run]. *)
From S2P Require Import Prelude.
From S2P Require Import Words.
From S2P Require Import Win32.
From S2P Require Import Mathx.
From S2P Require Import StopwatchStack.
From S2P Require Import Machine.
From S2P Require Import Experiment.

Module MeasurementOverhead.
Section run.
Context `{OS : Win32}.

Definition Run : M unit :=
  overhead ← gets (fun w => GetOverheadSimpleAsTicks (ss w));
  when (overhead =? 0) CalculateOverheadSimple;;
  us ← gets (fun w => GetOverheadSimpleAsMicroSeconds (ss w));
  PushResult "Minimum (μs)" us.

Definition experiment : Experiment := mkExperiment "Measurement Overhead" Run.
End run.
End MeasurementOverhead.

Module LoopOverhead.
Section run.
Context `{OS : Win32}.

Definition tag_loop : tag := lit "CPU-Scheduling -- Loop Overhead per 1000 iterations".

Definition Run : M unit :=
  for_ 0 defaultNumIterations (fun i =>
    timed tag_loop (for_ 0 1000 (fun j => ret tt)));;
  mean_of "Loop Overhead per 1000 iterations" tag_loop.

Definition experiment : Experiment := mkExperiment "Loop Overhead" Run.
End run.
End LoopOverhead.

Module ProcedureOverhead.
Section run.
Context `{OS : Win32}.

(** The procedures under test: [g_hiddenValue], plus the last argument. *)
Definition hidden_plus (a : Z) : M Z := gets (fun w => s32 (g_hiddenValue w + a)).
Definition Procedure0 : M Z := gets g_hiddenValue.
Definition Procedure1 (a : Z) : M Z := hidden_plus a.
Definition Procedure2 (a b : Z) : M Z := hidden_plus b.
Definition Procedure3 (a b c : Z) : M Z := hidden_plus c.
Definition Procedure4 (a b c d : Z) : M Z := hidden_plus d.
Definition Procedure5 (a b c d e : Z) : M Z := hidden_plus e.
Definition Procedure6 (a b c d e f : Z) : M Z := hidden_plus f.
Definition Procedure7 (a b c d e f g : Z) : M Z := hidden_plus g.

(** One block of [Run]: 5000 timed calls, yielding every hundredth time, and the
    minimum as result. *)
Definition measure (tagP resultName : string) (call : Z → M Z) : M unit :=
  modify (fun w => with_hidden w (s32 (literal_address tagP)));;
  for_ 0 defaultNumIterations (fun i =>
    timed (lit tagP) (r ← call i; ret tt);;
    when (Z.rem i 100 =? 0) (sys_ (Sleep 1)));;
  minimum_of resultName (lit tagP).

Definition parameters_0 : M unit := measure "P0" "0 Parameters (μs)" (fun i => Procedure0).
Definition parameters_1 : M unit := measure "P1" "1 Parameters (μs)" (fun i => Procedure1 i).
Definition parameters_2 : M unit := measure "P2" "2 Parameters (μs)" (fun i => Procedure2 i 234).
Definition parameters_3 : M unit := measure "P3" "3 Parameters (μs)" (fun i => Procedure3 i 234 i).
Definition parameters_4 : M unit := measure "P4" "4 Parameters (μs)" (fun i => Procedure4 i 234 i 456).
Definition parameters_5 : M unit := measure "P5" "5 Parameters (μs)" (fun i => Procedure5 i 234 i 456 i).
Definition parameters_6 : M unit := measure "P6" "6 Parameters (μs)" (fun i => Procedure6 i 234 i 456 i 678).
Definition parameters_7 : M unit := measure "P7" "7 Parameters (μs)" (fun i => Procedure7 i 234 i 456 i 678 i).

Definition Run : M unit :=
  parameters_0;; parameters_1;; parameters_2;; parameters_3;;
  parameters_4;; parameters_5;; parameters_6;; parameters_7.

Definition experiment : Experiment := mkExperiment "Procedure Call Overhead" Run.
End run.
End ProcedureOverhead.

Module SystemCallOverhead.
Section run.
Context `{OS : Win32}.

Definition tagSystemCallOverhead : tag := lit "SystemCallOverhead".

Definition Run : M unit :=
  for_ 0 defaultNumIterations (fun i =>
    timed tagSystemCallOverhead (sys_ (SetThreadAffinityMask INVALID_HANDLE_VALUE 0));;
    when (Z.rem i 100 =? 0) (sys_ (Sleep 1)));;
  mean_of "System Call Overhead (μs)" tagSystemCallOverhead.

Definition experiment : Experiment := mkExperiment "System Call Overhead" Run.
End run.
End SystemCallOverhead.

Module TaskCreation.
Section run.
Context `{OS : Win32}.

Definition tagCreateThread : tag := lit "CreateThread".
Definition tagCreateProcess : tag := lit "CreateProcess".

(** The thread created does nothing. *)
Definition TaskCreation_ThreadMain : M Z := ret 0.

Definition create_thread : M unit :=
  Push tagCreateThread;;
  hThread ← sys (CreateThread "TaskCreation_ThreadMain");
  when (hThread =? NULL) (fail_with "");;
  sys_ (WaitForSingleObject hThread INFINITE);;
  Pop_;;
  closed ← sys (CloseHandle hThread);
  when (negb closed) (fail_with "").

Definition create_process : M unit :=
  Push tagCreateProcess;;
  processInfo ← sys (CreateProcess "" "svchost.exe" false false);
  match processInfo with
  | None => fail_with ""
  | Some hProcess =>
      sys_ (WaitForSingleObject hProcess INFINITE);;
      Pop_;;
      closed ← sys (CloseHandle hProcess);
      when (negb closed) (fail_with "")
  end.

Definition Run : M unit :=
  for_ 0 1000 (fun i => create_thread);;
  median_of "CreateThread (μs)" tagCreateThread;;
  for_ 0 1000 (fun i => create_process);;
  median_of "CreateProcess (μs)" tagCreateProcess.

Definition experiment : Experiment := mkExperiment "Task Creation Time" Run.
End run.
End TaskCreation.
