(* ===== verification/ContextSwitch.v ===== *)
(** * Context switch time (ContextSwitchTime.{h,cpp})

    Many threads (then many processes) wait for one event; released, each notes
    the time, sleeps, and stores its time in its slot of a shared array.  The main
    thread sorts the times and feeds them to the stopwatch, so that the history
    holds the times between successive wake-ups.

    [RunUsingThreads] and [RunUsingProcesses] are the main thread's programs; the
    array is reached with [SharedRead] and [SharedWrite], since others write to
    it.  [ChildProcessMain] is a child's program.  The threads run in the same
    process as the main thread, and share [_threadIdCounter] with one another:
    [Threads] models [ThreadMain] as a step relation, one step per access to
    what is shared. *)
From S2P Require Import Prelude.
From S2P Require Import Win32.
From S2P Require Import Mathx.
From S2P Require Import StopwatchStack.
From S2P Require Import Machine.
From S2P Require Import Experiment.

Module ContextSwitchTime.
Section run.
Context `{OS : Win32}.

Record ContextSwitchTime : Type := mkCST {
  _conditionThreadsMayStart : HANDLE;
  _criticalSectionStopwatch : Z;
  _threadSharedMemory : Z;
  _threadIdCounter : Z;
}.

Definition _threadSwitchStopwatchTag : tag := lit "ThreadContextSwitch".
Definition _processSwitchStopwatchTag : tag := lit "ProcessContextSwitch".
Definition event_name : string := "Local\CSE221-ContextSwitchTime-ThreadsMayStart".
Definition shared_name : string := "Local\CSE221-ContextSwitchTime-ProcessSharedData".
Definition shared_size : Z := 1024 * 1024.
Definition batchSize : Z := 64.
Definition count : Z := batchSize * 10.

Definition ContextSwitchTime_new : M ContextSwitchTime :=
  cs ← sys CriticalSectionNew;
  ret (mkCST 0 cs 0 0).

Definition CreateThread : M HANDLE :=
  hThread ← sys (Win32.CreateThread "ContextSwitchTime_ThreadMain");
  when (hThread =? NULL) (fail_with "");;
  sys_ (SetThreadAffinityMask hThread 1);;
  ok ← sys (SetThreadPriority hThread THREAD_PRIORITY_TIME_CRITICAL);
  when (negb ok) (fail_with "");;
  ret hThread.

Definition CreateProcess (localProcessId : Z) : M HANDLE :=
  path ← sys GetModuleFileName;
  processInfo ← sys (Win32.CreateProcess path
    (("Profiler.exe" ++ " -ContextSwitchTimeChildProcess " ++ dec localProcessId)%string) true false);
  match processInfo with
  | None => throw "Could not create process."
  | Some hProcess => ret hProcess
  end.

(** Creating [count] workers, in order. *)
Definition create_all (create : Z → M HANDLE) : M (list HANDLE) :=
  for_state 0 count (fun i hs => h ← create i; ret (hs ++ [h])) [].

(** Opening the flood gates and waiting for all workers, in batches of 64. *)
Definition release_and_wait (event : HANDLE) (workers : list HANDLE) : M (TickValue * TickValue) :=
  sys_ (Sleep 1000);;
  startTick ← Read;
  sys_ (SetEvent event);;
  for_ 0 (count / batchSize) (fun i =>
    sys_ (WaitForMultipleObjects (take (Z.to_nat batchSize) (drop (Z.to_nat (i * batchSize)) workers))));;
  endTick ← Read;
  ret (startTick, endTick).

(** The array, with the first and the last time put at its ends. *)
Definition collect (p : Z) (startTick endTick : TickValue) : M (list TickValue) :=
  sys_ (SharedWrite p 0 startTick);;
  sys_ (SharedWrite p (count + 1) endTick);;
  for_state 0 (count + 2) (fun i dataCollected => t ← sys (SharedRead p i); ret (dataCollected ++ [t])) [].

(** The sorted times [first :: rest], as differences in the history of [t]. *)
Definition store_differences (t : tag) (dataCollected : list TickValue) : M unit :=
  match Mathx.sort (fun x : TickValue => x) dataCollected with
  | [] => undefined
  | first :: rest =>
      ss_PushWithValue t first;;
      for_list (removelast rest) (fun x =>
        delta ← ss_PopWithValue t x;
        ss_PushWithValue t x);;
      delta ← ss_PopWithValue t (List.last rest first);
      ret tt
  end.

Definition RunUsingThreads (this : ContextSwitchTime) : M ContextSwitchTime :=
  assert (_conditionThreadsMayStart this =? 0);;
  event ← sys (CreateEvent event_name false);
  threads ← create_all (fun i => CreateThread);
  p ← sys (Malloc shared_size);
  '(startTick, endTick) ← release_and_wait event threads;
  dataCollected ← collect p startTick endTick;
  store_differences _threadSwitchStopwatchTag dataCollected;;
  median_of "Thread Switch Time (μs)" _threadSwitchStopwatchTag;;
  for_list threads (fun h => sys_ (CloseHandle h));;
  sys_ (CloseHandle event);;
  sys_ (Free p);;
  ret (mkCST 0 (_criticalSectionStopwatch this) p (_threadIdCounter this)).

Definition RunUsingProcesses (this : ContextSwitchTime) : M ContextSwitchTime :=
  assert (_conditionThreadsMayStart this =? 0);;
  event ← sys (CreateEvent event_name true);
  hSharedMemory ← sys (CreateFileMapping shared_name true shared_size);
  when (hSharedMemory =? NULL) (fail_with "Error creating shared memory.");;
  pSharedMemory ← sys (MapViewOfFile hSharedMemory shared_size);
  when (pSharedMemory =? NULL) (fail_with "Error creating shared memory.");;
  processes ← create_all CreateProcess;
  '(startTick, endTick) ← release_and_wait event processes;
  dataCollected ← collect pSharedMemory startTick endTick;
  store_differences _processSwitchStopwatchTag dataCollected;;
  median_of "Process Switch Time (μs)" _processSwitchStopwatchTag;;
  for_list processes (fun h => sys_ (CloseHandle h));;
  sys_ (CloseHandle event);;
  sys_ (UnmapViewOfFile pSharedMemory);;
  sys_ (CloseHandle hSharedMemory);;
  ret (mkCST 0 (_criticalSectionStopwatch this) (_threadSharedMemory this) (_threadIdCounter this)).

Definition Run (this : ContextSwitchTime) : M ContextSwitchTime :=
  this ← RunUsingThreads this;
  RunUsingProcesses this.

Definition experiment (this : ContextSwitchTime) : Experiment :=
  mkExperiment "Context Switch Time" (this' ← Run this; ret tt).

(** A child process stores its time in slot [1 + localProcessId]. *)
Definition ChildProcessMain (argv : list string) : M unit :=
  match argv with
  | _ :: _ :: arg2 :: _ =>
      let localProccessId := (extract_int arg2).1 in
      stopwatch ← StopwatchStack_default;
      on_stopwatch stopwatch (
        hSharedMemory ← sys (CreateFileMapping shared_name false shared_size);
        when (hSharedMemory =? NULL) (fail_with "Error creating shared memory.");;
        pSharedMemory ← sys (MapViewOfFile hSharedMemory shared_size);
        when (pSharedMemory =? NULL) (fail_with "Error creating shared memory.");;
        conditionThreadsMayStart ← sys (OpenEvent event_name);
        when (conditionThreadsMayStart =? NULL) (fail_with "Error opening condition variable.");;
        sys_ (WaitForSingleObject conditionThreadsMayStart INFINITE);;
        ticks ← Read;
        sys_ (Sleep 1000);;
        sys_ (SharedWrite pSharedMemory (1 + localProccessId) ticks);;
        sys_ (CloseHandle conditionThreadsMayStart);;
        sys_ (UnmapViewOfFile pSharedMemory);;
        sys_ (CloseHandle hSharedMemory))
  | _ => throw "Missing arguments."
  end.
End run.
End ContextSwitchTime.

(** ** The threads *)
Module Threads.

(** Where a thread is in [ThreadMain], with its local variables: before the
    critical section; inside, before and after the counter is read; after the
    increment; past the critical section; past the event; past [Read]; done. *)
Inductive pc : Type :=
| AtEnter
| Entered
| Loaded (counter : Z)
| Counted (localThreadId : Z)
| Left (localThreadId : Z)
| Woken (localThreadId : Z)
| Timed (localThreadId : Z) (ticks : TickValue)
| Done (localThreadId : Z) (ticks : TickValue).

Record state : Type := mkState {
  threads : list pc;
  owner : option nat;             (* who is in the critical section *)
  threadIdCounter : Z;
  mayStart : bool;                (* the event is set *)
  clock : Z;
  sharedMemory : gmap Z TickValue;
}.

Definition init (n : nat) (now : Z) : state := mkState (replicate n AtEnter) None 0 false now ∅.

Definition put (s : state) (i : nat) (p : pc) : list pc := <[i := p]> (threads s).

(** One step: of the main thread (setting the event), of the clock, or of thread [i]. *)
Inductive step (s : state) : state → Prop :=
| StepSetEvent :
    step s (mkState (threads s) (owner s) (threadIdCounter s) true (clock s) (sharedMemory s))
| StepClock t : clock s <= t →
    step s (mkState (threads s) (owner s) (threadIdCounter s) (mayStart s) t (sharedMemory s))
| StepEnter i : threads s !! i = Some AtEnter → owner s = None →
    step s (mkState (put s i Entered) (Some i) (threadIdCounter s) (mayStart s) (clock s) (sharedMemory s))
| StepLoad i : threads s !! i = Some Entered →
    step s (mkState (put s i (Loaded (threadIdCounter s))) (owner s) (threadIdCounter s) (mayStart s) (clock s) (sharedMemory s))
| StepStore i c : threads s !! i = Some (Loaded c) →
    step s (mkState (put s i (Counted c)) (owner s) (c + 1) (mayStart s) (clock s) (sharedMemory s))
| StepLeave i c : threads s !! i = Some (Counted c) →
    step s (mkState (put s i (Left c)) None (threadIdCounter s) (mayStart s) (clock s) (sharedMemory s))
| StepWake i c : threads s !! i = Some (Left c) → mayStart s = true →
    step s (mkState (put s i (Woken c)) (owner s) (threadIdCounter s) (mayStart s) (clock s) (sharedMemory s))
| StepRead i c : threads s !! i = Some (Woken c) →
    step s (mkState (put s i (Timed c (clock s))) (owner s) (threadIdCounter s) (mayStart s) (clock s) (sharedMemory s))
| StepRecord i c t : threads s !! i = Some (Timed c t) →
    step s (mkState (put s i (Done c t)) (owner s) (threadIdCounter s) (mayStart s) (clock s)
              (<[1 + c := t]> (sharedMemory s))).

Inductive reachable (n : nat) (now : Z) : state → Prop :=
| ReachInit : reachable n now (init n now)
| ReachStep s s' : reachable n now s → step s s' → reachable n now s'.
End Threads.
