(* ===== verification/MemoryExperiments.v ===== *)
(** * Memory experiments (MemoryLatency, MemoryBandwidth, MemoryPageFault; MemSucker)

    A block from [malloc] is fresh and local to one iteration, so its contents
    are a map from addresses to values: empty after [malloc], and reading an
    address that was not written is undefined. *)
From S2P Require Import Prelude.
From S2P Require Import Words.
From S2P Require Import Win32.
From S2P Require Import Mathx.
From S2P Require Import StopwatchStack.
From S2P Require Import Machine.
From S2P Require Import Experiment.

Definition memory : Type := gmap Z Z.

(** The program is built for 32 bits: [sizeof(int)] and [sizeof(int* )] are 4. *)
Definition word : Z := 4.

Module MemoryLatency.

(** [*(base + k) = base + ((k + CacheLineSize) % (i / 4))], in [int**] arithmetic. *)
Definition link (base i k : Z) (m : memory) : memory :=
  <[u32 (base + word * k) := u32 (base + word * ((k + CacheLineSize) mod (i / 4)))]> m.

(** [explorer = *explorer], [n] times. *)
Fixpoint follow (n : nat) (m : memory) (explorer : Z) : option Z :=
  match n with
  | O => Some explorer
  | S n' => next ← m !! explorer; follow n' m next
  end.

Section run.
Context `{OS : Win32}.

Definition tag_latency : tag := lit "Memory -- Memory Latency".
Definition numIterations : Z := 200.
Definition numMemoryReads : Z := 100000.

Definition initialize (base i : Z) : M memory :=
  for_state 0 (i / 4) (fun k m => ret (link base i k m)) ∅.

(** The timed reads, unrolled twenty at a time. *)
Definition chase (base : Z) (m : memory) : M Z :=
  for_state 0 (numMemoryReads / 20) (fun k explorer => lift (follow 20 m explorer)) base.

(** One round; [false] is the [return] after a failed [malloc]. *)
Definition round (i : Z) : M bool :=
  p ← sys (Malloc i);
  if p =? NULL then print_ln ("Malloc Failed!" ++ newline);; ret false
  else
    m ← initialize p i;
    timed tag_latency (explorer ← chase p m; ret tt);;
    sys_ (Free p);;
    ret true.

(** One size. *)
Definition size (i : Z) : M bool :=
  ss_ResetTagHistory tag_latency;;
  go_on ← for_until 0 numIterations (fun j => round i);
  (if (go_on : bool) then median_of ("Memory Latency Bytes: " ++ dec i)%string tag_latency else ret tt);;
  ret go_on.

(** [for (i = CacheLineSize; i < (MaxCacheSize << 2); i = i << 1)]. *)
Definition Run : M unit :=
  while_ 32 (fun i : Z =>
    if i <? Z.shiftl MaxCacheSize 2 then
      go_on ← size i;
      ret (if (go_on : bool) then inl (Z.shiftl i 1) else inr tt)
    else ret (inr tt)) CacheLineSize.

Definition experiment : Experiment := mkExperiment "Memory Latency Overhead" Run.
End run.
End MemoryLatency.

Module MemoryBandwidth.
Section run.
Context `{OS : Win32}.

Definition tagMemCopy : tag := lit "Memory -- Memory Bandwidth -- Mem Copy".
Definition tagMemRead : tag := lit "Memory -- Memory Bandwidth -- Mem Read".
Definition tagMemWrite : tag := lit "Memory -- Memory Bandwidth -- Mem Write".
Definition numIterations : Z := 100.

(** [*explorer = k; explorer++;] for every [int] of the block. *)
Definition fill (p numBytes : Z) : M memory :=
  '(explorer, m) ← for_state 0 (numBytes / word) (fun k '(explorer, m) =>
    ret (u32 (explorer + word), <[explorer := k]> m)) (p, ∅);
  ret m.

(** [manipulatedInt = *explorer + k; explorer++;]. *)
Definition read_all (p numBytes : Z) (m : memory) : M Z :=
  '(explorer, manipulatedInt) ← for_state 0 (numBytes / word) (fun k '(explorer, _) =>
    v ← lift (m !! explorer);
    ret (u32 (explorer + word), s32 (v + k))) (p, 0);
  ret manipulatedInt.

(** [*explorer = k + 1;]: the loop that is timed as the write. *)
Definition write_all (p numBytes : Z) (m : memory) : M memory :=
  for_state 0 (numBytes / word) (fun k m => ret (<[p := k + 1]> m)) m.

(** A timed [memcpy] between two blocks; neither has been written. *)
Definition copy_round (numBytes : Z) : M bool :=
  p ← sys (Malloc numBytes);
  q ← sys (Malloc numBytes);
  if (p =? NULL) || (q =? NULL) then print_ln ("Malloc Failed!" ++ newline);; ret false
  else
    timed tagMemCopy (ret tt);;
    sys_ (Free p);;
    sys_ (Free q);;
    ret true.

Definition read_round (numBytes : Z) : M bool :=
  p ← sys (Malloc numBytes);
  if p =? NULL then print_ln ("Malloc Failed!" ++ newline);; ret false
  else
    m ← fill p numBytes;
    timed tagMemRead (v ← read_all p numBytes m; ret tt);;
    sys_ (Free p);;
    ret true.

Definition write_round (numBytes : Z) : M unit :=
  p ← sys (Malloc numBytes);
  if p =? NULL then throw_new "Malloc failed."
  else
    m ← fill p numBytes;
    timed tagMemWrite (m' ← write_all p numBytes m; ret tt);;
    sys_ (Free p).

(** One size; [false] is a [return] after a failed [malloc]. *)
Definition size (numBytes : Z) : M bool :=
  let wMemoryTitleMemCopy := ("Memory Bandwidth memcpy Bytes: " ++ dec numBytes)%string in
  let wMemoryTitleRead := ("Memory Bandwidth Read Bytes: " ++ dec numBytes)%string in
  let wMemoryTitleWrite := ("Memory Bandwidth Write Bytes: " ++ dec numBytes)%string in
  go_on ← for_until 0 numIterations (fun j => copy_round numBytes);
  if negb go_on then ret false
  else
    median_of wMemoryTitleMemCopy tagMemCopy;;
    go_on ← for_until 0 numIterations (fun j => read_round numBytes);
    if negb go_on then ret false
    else
      median_of wMemoryTitleRead tagMemRead;;
      for_ 0 numIterations (fun j => write_round numBytes);;
      median_of wMemoryTitleRead tagMemWrite;;
      ret true.

(** [for (int i = 1; i <= 1; i++)]. *)
Definition Run : M unit :=
  go_on ← for_until 1 2 (fun i => size (Z.shiftl MaxCacheSize i));
  ret tt.

Definition experiment : Experiment := mkExperiment "Memory Bandwidth Overhead" Run.
End run.
End MemoryBandwidth.

(** [char* explorer = base + offset; *explorer = value;]: writing through a null
    pointer is undefined. *)
Definition store_char (base offset value : Z) (m : memory) : option memory :=
  if base =? NULL then None else Some (<[u32 (base + offset) := s8 value]> m).

Module MemoryPageFault.
Section run.
Context `{OS : Win32}.

Definition tag_fault : tag := lit "Memory -- Page Faults".
Definition numIterations : Z := 100.
Definition ramNeeded : Z := 16.
Definition pageSize : Z := 4096.
Definition oneGibby : Z := 1073741824.

(** Normal priority; the affinity mask is 0. *)
Definition lower_priority : M unit :=
  hProcess ← sys GetCurrentProcess;
  sys_ (SetPriorityClass hProcess NORMAL_PRIORITY_CLASS);;
  hThread ← sys GetCurrentThread;
  sys_ (SetThreadAffinityMask hThread 0);;
  sys_ (SetThreadPriority hThread THREAD_PRIORITY_NORMAL).

(** Touching every page of the block.  The result of [malloc] is not checked. *)
Definition touch_pages (p : Z) : M memory :=
  for_state 0 (oneGibby / pageSize) (fun pageNum m =>
    lift (store_char p (u32 (pageNum * pageSize) mod oneGibby) (Z.rem pageNum 256) m)) ∅.

Definition launch_suckers : M (list HANDLE) :=
  for_state 0 ramNeeded (fun i processes =>
    processInfo ← sys (CreateProcess "" "memSucker.exe" false false);
    match processInfo with
    | None => fail_with ""
    | Some hProcess => ret (processes ++ [hProcess])
    end) [].

(** One timed section: the address of a page is computed, and not read. *)
Definition fault (base r : Z) : M unit :=
  for_ 0 1 (fun pageNum =>
    tv0 ← Read;
    explorer ← ret (u32 (base + u32 (pageNum * pageSize * r) mod oneGibby));
    tv1 ← Read;
    ss_PushWithValue tag_fault tv0;;
    delta ← ss_PopWithValue tag_fault tv1;
    sys_ (Sleep 100)).

Definition Run : M unit :=
  lower_priority;;
  p ← sys (Malloc oneGibby);
  m ← touch_pages p;
  processes ← launch_suckers;
  sys_ (Sleep (10 * 1000));;
  for_ 0 numIterations (fun r => fault p r);;
  sys_ (Free p);;
  for_list processes (fun h =>
    ok ← sys (TerminateProcess h);
    when (negb ok) (sys_ GetLastError));;
  median_of "Page Fault Time Median (μs)" tag_fault;;
  maximum_of "Page Fault Time Max (μs)" tag_fault.

Definition experiment : Experiment := mkExperiment "Memory Page Fault Overhead" Run.
End run.
End MemoryPageFault.

(** ** The companion program (src/cse220/Micro-Bench/code/MemSucker/memSucker.cpp) *)
Module MemSucker.
Section run.
Context `{OS : Win32}.

Definition Gibby : Z := 1073741824.
Definition pageSize : Z := 4096.

(** One turn of [while(true)]: write to the page, return 0 at a positive multiple
    of a gigabyte. *)
Definition turn (base : Z) : Z * memory → M ((Z * memory) + Z) := fun '(pageNum, m) =>
  m ← lift (store_char base (u32 (pageNum * pageSize) mod Gibby) (Z.rem pageNum 256) m);
  ret (if (u32 pageNum mod Gibby =? 0) && (0 <? pageNum) then inr 0 else inl (pageNum + 1, m)).

Definition main (fuel : nat) : M Z :=
  hProcess ← sys GetCurrentProcess;
  sys_ (SetPriorityClass hProcess NORMAL_PRIORITY_CLASS);;
  hThread ← sys GetCurrentThread;
  sys_ (SetThreadPriority hThread THREAD_PRIORITY_NORMAL);;
  p ← sys (Malloc Gibby);
  while_ fuel (turn p) (0, ∅).
End run.
End MemSucker.
