(* ===== verification/FakeKernelModel.v ===== *)
(** * The fake kernel (FakeKernel.{h,cpp})

    Tables of kernel objects, searched and compared as a system call would check
    its arguments, and an allocation that inserts an object, allocates, and erases
    it again. *)
From S2P Require Import Prelude.
From S2P Require Import Words.
From S2P Require Import Win32.
From S2P Require Import Mathx.
From S2P Require Import StopwatchStack.
From S2P Require Import Machine.
From S2P Require Import Experiment.

Module FakeKernel.

(** [char data[512]], zero when value-initialised. *)
Definition FakeKernelObject : Type := list Z.
Definition object_size : Z := 512.
Definition FakeKernelObject_new : FakeKernelObject := replicate (Z.to_nat object_size) 0.

Record FakeKernel : Type := mkFakeKernel {
  _handleObjects : gmap Z FakeKernelObject;
  _threads : gmap Z FakeKernelObject;
  _processes : gmap Z FakeKernelObject;
  _registryKeys : gmap Z FakeKernelObject;      (* 64-bit keys *)
  _sockets : gmap Z FakeKernelObject;           (* 64-bit keys *)
}.

Definition NumInitialHandles : Z := 23 * 1024.
Definition NumInitialThreads : Z := 1 * 1024.
Definition NumInitialProcesses : Z := 80.
Definition NumInitialRegistryKeys : Z := 100 * 1024.
Definition NumInitialSockets : Z := 128.

(** [std::map::insert]: an entry with the key stays as it is. *)
Definition map_insert (k : Z) (o : FakeKernelObject) (m : gmap Z FakeKernelObject) : gmap Z FakeKernelObject :=
  match m !! k with Some _ => m | None => <[k := o]> m end.

(** [for (uint32_t i = 1; i <= n; ++i)], inserting a new object at [i]. *)
Definition populate (n : Z) : gmap Z FakeKernelObject :=
  foldl (fun m i => map_insert i FakeKernelObject_new m) ∅ (seqZ 1 n).

Definition FakeKernel_new : FakeKernel :=
  mkFakeKernel (populate NumInitialHandles) (populate NumInitialThreads) (populate NumInitialProcesses)
    (populate NumInitialRegistryKeys) (populate NumInitialSockets).

(** [if (key != 0) { iter = m.find(key); ... }]. *)
Definition find (key : Z) (m : gmap Z FakeKernelObject) : option FakeKernelObject :=
  if key =? 0 then None else m !! key.

Section run.
Context `{OS : Win32}.

Definition tag_verify : tag := lit "Verify User Arguments".
Definition tag_allocate : tag := lit "Resource Allocation".

(** [rand() % n], with [rand()] converted to the unsigned type of [n]. *)
Definition rand_mod (n : Z) : M Z := r ← sys Rand; if n =? 0 then undefined else ret (u32 r mod n).

(** 48 comparisons of random bytes; the result is not used. *)
Definition compare_objects (objA objB : FakeKernelObject) : M unit :=
  for_ 0 48 (fun r =>
    r0 ← rand_mod object_size;
    r1 ← rand_mod object_size;
    a ← lift objA.[r0];
    b ← lift objB.[r1];
    ret tt).

(** The objects found, each against those before it. *)
Fixpoint inspect (before objects : list (option FakeKernelObject)) : M unit :=
  match objects with
  | [] => ret tt
  | None :: rest => inspect (before ++ [None]) rest
  | Some objA :: rest =>
      for_list before (fun objB => match objB with None => ret tt | Some objB => compare_objects objA objB end);;
      inspect (before ++ [Some objA]) rest
  end.

Definition FakeValidateUserArguments (this : FakeKernel) (handle threadId processId registryKeyId socketId : Z) : M unit :=
  inspect []
    [find handle (_handleObjects this); find threadId (_threads this); find processId (_processes this);
     find registryKeyId (_registryKeys this); find socketId (_sockets this)].

(** The keys are [-1] converted to 32 and to 64 bits. *)
Definition FakeResourceAllocation (memorySize keySize : Z) (this : FakeKernel) : M FakeKernel :=
  assert ((keySize =? 4) || (keySize =? 8));;
  let '(handles, keys) :=
    if keySize =? 4 then (map_insert (u32 (-1)) FakeKernelObject_new (_handleObjects this), _registryKeys this)
    else if keySize =? 8 then (_handleObjects this, map_insert (u64 (-1)) FakeKernelObject_new (_registryKeys this))
    else (_handleObjects this, _registryKeys this) in
  mem ← sys (Malloc memorySize);
  when (mem =? NULL) (throw "");;
  sys_ (Free mem);;
  ret (mkFakeKernel (delete (u32 (-1)) handles) (_threads this) (_processes this) (delete (u64 (-1)) keys) (_sockets this)).

Definition size_of (m : gmap Z FakeKernelObject) : Z := Z.of_nat (size m).

Definition verify_once (this : FakeKernel) : M unit :=
  handle ← rand_mod (size_of (_handleObjects this));
  thread ← rand_mod (size_of (_threads this));
  process ← rand_mod (size_of (_processes this));
  registryKey ← rand_mod (size_of (_registryKeys this));
  socket ← rand_mod (size_of (_sockets this));
  timed tag_verify
    (FakeValidateUserArguments this (handle + 1) (thread + 1) (process + 1) (registryKey + 1) (socket + 1)).

Definition allocate_once (i : Z) (this : FakeKernel) : M FakeKernel :=
  Push tag_allocate;;
  this ← FakeResourceAllocation (16 * 1024 * (Z.rem i 4 + 1)) (4 * (Z.rem i 2 + 1)) this;
  Pop_;;
  ret this.

Definition Run (this : FakeKernel) : M FakeKernel :=
  for_ 0 defaultNumIterations (fun i => verify_once this);;
  median_of "User Argument Verification (μs)" tag_verify;;
  this ← for_state 0 defaultNumIterations allocate_once this;
  median_of "Resource Allocation (μs)" tag_allocate;;
  ret this.

Definition experiment (this : FakeKernel) : Experiment :=
  mkExperiment "Fake Kernel" (this' ← Run this; ret tt).
End run.
End FakeKernel.
