(* ===== verification/FileSystemModel.v ===== *)
(** * The base of the file system experiments (FileSystemExperiment.{h,cpp}) *)
From S2P Require Import Prelude.
From S2P Require Import Words.
From S2P Require Import Win32.
From S2P Require Import Mathx.
From S2P Require Import StopwatchStack.
From S2P Require Import Machine.
From S2P Require Import Experiment.

Module FileSystemExperiment.

Inductive ReadMode : Type := SEQUENTIAL | RANDOM.

Definition TestFilenamePrefix : string := "TestFile".
Definition NumFileSizes : Z := 23.
Definition DefaultBufferSize : Z := 128 * 1024.
Definition UINT32_MAX : Z := 2 ^ 32 - 1.

(** [uint64_t log2Count = 1; while ((num >> log2Count) > 1) log2Count++;]. A
    shift by 64 is never reached: 64 turns are enough. *)
Fixpoint log2_loop (fuel : nat) (num log2Count : Z) : option Z :=
  if 1 <? Z.shiftr num log2Count then
    match fuel with
    | O => None
    | S fuel' => log2_loop fuel' num (log2Count + 1)
    end
  else Some log2Count.
Definition GetLog2 (num : Z) : option Z := log2_loop 64 num 1.

(** [num = 1 << (shiftAmt % 31); num = num << ((shiftAmt / 31) * 31);]: the first
    shift is of an [int], the second of 64 bits and undefined for 64 or more. *)
Definition GuaranteedShift (num shiftAmt : Z) : option Z :=
  let num := Z.shiftl 1 (shiftAmt mod 31) in
  let amount := (shiftAmt / 31) * 31 in
  if amount <? 64 then Some (u64 (Z.shiftl num amount)) else None.

(** [<<] of an unsigned 64-bit number writes its decimal digits. *)
Definition GetTestFilenameBySize (size : Z) (directory : string) : string :=
  (directory ++ TestFilenamePrefix ++ dec size)%string.

Section run.
Context `{OS : Win32}.

(** The two ways to open a file: unbuffered and shared, or plain. *)
Definition open_file (path : string) (shareRead noBuffering : bool) : M HANDLE :=
  fileHandle ← sys (CreateFile path shareRead noBuffering);
  when (fileHandle =? INVALID_HANDLE_VALUE) (fail_with "");;
  ret fileHandle.
Definition OpenFileNoBuffering (path : string) : M HANDLE := open_file path true true.
Definition OpenFileNormal (path : string) : M HANDLE := open_file path false false.

Definition CloseFile (handle : HANDLE) : M unit :=
  assert (negb (handle =? NULL));;
  sys_ (CloseHandle handle).

Definition GetLogicalSectorSize (devicePath : string) : M Z :=
  bytesPerSector ← sys (GetDiskFreeSpace devicePath);
  match bytesPerSector with
  | Some n => ret n
  | None => fail_with ""
  end.

Definition GetPhysicalSectorSize (devicePath : string) : M Z := throw "not implemented yet.".

(** The constructor fills the static [_fileSizes] the first time. *)
Definition FileSystemExperiment_new (devicePath : string) : M unit :=
  sizes ← gets fileSizes;
  match sizes with
  | [] =>
      secSize ← GetLogicalSectorSize devicePath;
      logSecSize ← lift (GetLog2 secSize);
      for_ 0 NumFileSizes (fun i =>
        size ← lift (GuaranteedShift 1 (u32 (i + u32 logSecSize)));
        modify (fun w => with_fileSizes w (fileSizes w ++ [size])))
  | _ => ret tt
  end.

(** [CreateTestFiles(sizes, replaceExisting)]: opening a stream that is open
    already fails, and the stream stays open for reading; what is written to it
    then is lost. *)
Definition create_test_file (devicePath : string) (replaceExisting : bool) (size : Z) : M unit :=
  let filename := (devicePath ++ GetTestFilenameBySize size devicePath)%string in
  exists_ ← sys (StreamOpenRead filename);
  if exists_ && negb replaceExisting then ret tt
  else
    writable ←
      (if (exists_ : bool) then ret false
       else is_open ← sys (StreamOpenWrite filename); assert is_open;; ret true);
    for_ 0 (size / 8) (fun i => when writable (sys_ (StreamWrite 8))).

Definition CreateTestFiles (devicePath : string) (sizes : list Z) (replaceExisting : bool) : M unit :=
  for_list sizes (create_test_file devicePath replaceExisting).

Definition CreateDefaultTestFiles (devicePath : string) : M unit :=
  sizes ← gets fileSizes;
  CreateTestFiles devicePath sizes false.

Definition GetFileSizeOfHandle (handle : HANDLE) : M Z :=
  size ← sys (GetFileSizeEx handle);
  match size with
  | Some n => ret (u64 n)
  | None => sys_ GetLastError;; throw_new ""
  end.

Definition GetFileSizeOfPath (path : string) : M Z :=
  hFile ← OpenFileNormal path;
  size ← GetFileSizeOfHandle hFile;
  CloseFile hFile;;
  ret size.

(** [SetFilePointer(...)] and the assertion that it worked. *)
Definition seek (hFile : HANDLE) (position : Z) : M unit :=
  currPosition ← sys (SetFilePointer hFile position);
  assert (negb (currPosition =? INVALID_SET_FILE_POINTER)).

(** One turn of the reading loop, from [totalRead] bytes. *)
Definition read_turn (hFile : HANDLE) (bufferSize fileSize : Z) (t : tag) (readMode : ReadMode)
    (totalRead : Z) : M (Z + unit) :=
  if totalRead <? fileSize then
    Push t;;
    '(ok, amountRead) ← sys (ReadFile hFile bufferSize);
    Pop_;;
    let totalRead := u64 (totalRead + amountRead) in
    match readMode with
    | SEQUENTIAL => when (amountRead =? 0) (seek hFile 0)
    | RANDOM =>
        r ← sys Rand;
        let randomPosition := u64 (Z.shiftl r 9) mod fileSize in
        seek hFile (s32 (randomPosition mod UINT32_MAX))
    end;;
    ret (inl totalRead)
  else ret (inr tt).

(** [ReadEntireFile] of a handle, timing each read; [fuel] bounds the reads. *)
Definition ReadEntireFile (fuel : nat) (hFile : HANDLE) (bufferSize : Z) (t : tag) (startPosition : Z)
    (readMode : ReadMode) : M unit :=
  assert (negb (hFile =? INVALID_HANDLE_VALUE));;
  buffer ← sys (Malloc bufferSize);
  seek hFile (s32 startPosition);;
  fileSize ← GetFileSizeOfHandle hFile;
  assert (0 <? fileSize);;
  while_ fuel (read_turn hFile bufferSize fileSize t readMode) 0;;
  sys_ (Free buffer).

(** [ReadEntireFile] of a path: with a stopwatch of its own, and no tag. *)
Definition ReadEntireFileOfPath (fuel : nat) (path : string) (startPosition : Z) : M unit :=
  hFile ← OpenFileNoBuffering path;
  assert (negb (hFile =? INVALID_HANDLE_VALUE));;
  stopwatchDummy ← StopwatchStack_default;
  on_stopwatch stopwatchDummy (ReadEntireFile fuel hFile DefaultBufferSize None startPosition SEQUENTIAL);;
  CloseFile hFile.
End run.
End FileSystemExperiment.
