(* ===== verification/FileSystemExperiments.v ===== *)
(** * File system experiments

    FileSystemCacheSize, FileSystemLocalRead, FileSystemContention and
    FileSystemRemoteRead (.h, .cpp). The [fuel] of a [Run] bounds the reads of
    each [ReadEntireFile]. *)
From S2P Require Import Prelude.
From S2P Require Import Words.
From S2P Require Import Win32.
From S2P Require Import Mathx.
From S2P Require Import StopwatchStack.
From S2P Require Import Machine.
From S2P Require Import Experiment.
From S2P Require Import FileSystemModel.
Import FileSystemExperiment.

Section common.
Context `{OS : Win32}.

(** [_devicePath] of the base class. *)
Definition devicePath : string := "C:\".
Definition estimatedSlotSize : Z := Z.shiftl 1 14.
Definition estimatedCacheSize : Z := Z.shiftl 1 24.

(** [for (k = 0; k < i; k++) std::wcout << L".";]. *)
Definition dots (i : Z) : M unit := for_ 0 i (fun k => print ".").

(** The part the timed reads share: a buffer, perhaps a seek, a timed read of a
    slot, whose failure is checked before [Pop]. *)
Definition timed_slot_read (fileHandle : HANDLE) (t : tag) (prepare : M unit) : M unit :=
  inputBuffer ← sys (Malloc estimatedSlotSize);
  when (inputBuffer =? NULL) (throw "Malloc Returned Null, not enough memory");;
  prepare;;
  Push t;;
  '(ok, amountRead) ← sys (ReadFile fileHandle estimatedSlotSize);
  when (negb ok) (fail_with "File Read Failed");;
  Pop_;;
  sys_ (Free inputBuffer).

Definition set_pointer (fileHandle : HANDLE) (offset : Z) : M unit :=
  r ← sys (SetFilePointer fileHandle offset);
  when (r =? INVALID_SET_FILE_POINTER) (fail_with "Set Pointer Failed").
End common.

Module FileSystemCacheSize.
Section run.
Context `{OS : Win32}.

Definition tag_cache : tag := lit "FileSystem -- File Cache Latency".

Definition FileSystemCacheSize_new : M unit := FileSystemExperiment_new devicePath.

(** Read number [j] of a file: the position is moved only to an offset that is
    not 0. *)
Definition read_slot (fileHandle : HANDLE) (currentFileSize j : Z) : M unit :=
  let offset := s32 (u64 (j * estimatedCacheSize) mod currentFileSize) in
  timed_slot_read fileHandle tag_cache (when (0 <? offset) (set_pointer fileHandle offset)).

Definition file_size (fuel : nat) (log2Sector i : Z) : M unit :=
  dots i;;
  ss_ResetTagHistory tag_cache;;
  let shiftAmount := s32 (u64 (i + log2Sector)) in
  currentFileSize ← lift (GuaranteedShift 1 shiftAmount);
  let resultName := ("File Read Latency Normal, File Size:" ++ tab ++ dec currentFileSize ++ " bytes")%string in
  let fileName := GetTestFilenameBySize currentFileSize devicePath in
  ReadEntireFileOfPath fuel fileName 0;;
  fileHandle ← OpenFileNormal fileName;
  for_ 0 100 (fun j => read_slot fileHandle currentFileSize j);;
  CloseFile fileHandle;;
  median_of (resultName ++ " Med")%string tag_cache;;
  mean_of (resultName ++ " Mean")%string tag_cache.

Definition Run (fuel : nat) : M unit :=
  CreateDefaultTestFiles devicePath;;
  sectorSize ← GetLogicalSectorSize devicePath;
  assert (1 <? sectorSize);;
  log2Sector ← lift (GetLog2 sectorSize);
  n ← gets (fun w => Z.of_nat (length (fileSizes w)));
  for_ 0 n (fun i => file_size fuel log2Sector i).

Definition experiment (fuel : nat) : Experiment := mkExperiment "File System Cache Size determination" (Run fuel).
End run.
End FileSystemCacheSize.

Module FileSystemLocalRead.
Section run.
Context `{OS : Win32}.

Definition tagSeq : tag := lit "FileSystem -- Unbuffered Read Latency Synchronous".
Definition tagRand : tag := lit "FileSystem == Unbuffered Read Latency Asynchronous".

Definition FileSystemLocalRead_new : M unit := FileSystemExperiment_new devicePath.

(** Sequential read [j]: back to the beginning when the offset wraps to 0. *)
Definition sequential_read (fileHandle : HANDLE) (currentFileSize j : Z) : M unit :=
  let offset := s32 (Z.rem (j * estimatedCacheSize) (s64 currentFileSize)) in
  timed_slot_read fileHandle tagSeq (when (offset =? 0) (set_pointer fileHandle offset)).

Definition random_offset (maxRandValue : Z) : M Z :=
  if 1 <? maxRandValue then
    r ← sys Rand;
    let randVal := u32 r mod maxRandValue in
    ret (s32 (randVal * estimatedCacheSize))
  else ret 0.

Definition random_read (fileHandle : HANDLE) (maxRandValue : Z) : M unit :=
  timed_slot_read fileHandle tagRand
    (offset ← random_offset maxRandValue; set_pointer fileHandle offset).

(** A large file is created and read, to push the test file out of the cache. *)
Definition flush (fuel : nat) (log2Sector : Z) : M unit :=
  bigAmountOfBytes ← lift (GuaranteedShift 1 (u64 (21 + log2Sector)));
  CreateTestFiles devicePath [bigAmountOfBytes] false;;
  ReadEntireFileOfPath fuel (GetTestFilenameBySize bigAmountOfBytes devicePath) 0.

Definition file_size (fuel : nat) (log2Sector i : Z) : M unit :=
  dots i;;
  ss_ResetTagHistory tagSeq;;
  ss_ResetTagHistory tagRand;;
  let shiftAmount := s32 (u64 (i + log2Sector)) in
  currentFileSize ← lift (GuaranteedShift 1 shiftAmount);
  let seqResultName :=
    ("Unbuffered File Read Latency Sequential, File Size:" ++ tab ++ dec currentFileSize ++ " bytes")%string in
  let fileName := GetTestFilenameBySize currentFileSize devicePath in
  fileHandle ← OpenFileNoBuffering fileName;
  for_ 0 10 (fun j => sequential_read fileHandle currentFileSize j);;
  CloseFile fileHandle;;
  median_of seqResultName tagSeq;;
  flush fuel log2Sector;;
  let randResultName :=
    ("Unbuffered File Read Latency Random, File Size:" ++ tab ++ dec currentFileSize ++ " bytes")%string in
  fileHandle ← OpenFileNoBuffering fileName;
  let maxRandValue := u32 (currentFileSize / estimatedCacheSize) in
  for_ 0 10 (fun j => random_read fileHandle maxRandValue);;
  CloseFile fileHandle;;
  median_of randResultName tagRand.

Definition Run (fuel : nat) : M unit :=
  now ← sys Time;
  sys_ (Srand (u32 now));;
  CreateDefaultTestFiles devicePath;;
  sectorSize ← GetLogicalSectorSize devicePath;
  assert (1 <? sectorSize);;
  log2Sector ← lift (GetLog2 sectorSize);
  for_ 0 20 (fun i => file_size fuel log2Sector i);;
  print_ln newline.

Definition experiment (fuel : nat) : Experiment := mkExperiment "File System Local Reads" (Run fuel).
End run.
End FileSystemLocalRead.

Module FileSystemContention.
Section run.
Context `{OS : Win32}.

Definition tag_contention : tag := lit "FileSystem Contention".
Definition EventNameChildProcessesMayQuit : string := "Local\CSE221-FileSystemContention-ProcessesMayQuit".
Definition numProcesses : Z := 8.
Definition fileSizeToUseMain : Z := Z.shiftl 1 26.
Definition fileSizeToUseChildren : Z := Z.shiftl 1 27.
Definition numIterations : Z := 2.

Definition FileSystemContention_new : M unit := FileSystemExperiment_new devicePath.

(** The file name is quoted on the command line. *)
Definition quote : string := String (Ascii.ascii_of_nat 34) "".

Definition CreateProcess (localProcessId : Z) (fileToRead : string) : M HANDLE :=
  path ← sys GetModuleFileName;
  processInfo ← sys (Win32.CreateProcess path
    ("Profiler.exe" ++ " -FileSystemChildProcess " ++ " " ++ dec localProcessId
       ++ " " ++ quote ++ fileToRead ++ quote)%string true false);
  match processInfo with
  | None => throw "Could not create process."
  | Some hProcess => ret hProcess
  end.

Definition Run (fuel : nat) : M unit :=
  sectorSize ← GetLogicalSectorSize devicePath;
  let filenameMain := GetTestFilenameBySize fileSizeToUseMain devicePath in
  let filenameChildren := GetTestFilenameBySize fileSizeToUseChildren devicePath in
  conditionQuit ← sys (CreateEvent EventNameChildProcessesMayQuit true);
  processes ← for_state 0 numProcesses (fun i hs => h ← CreateProcess i filenameChildren; ret (hs ++ [h])) [];
  sys_ (Sleep (5 * 1000));;
  for_ 0 numIterations (fun i =>
    fileHandle ← OpenFileNoBuffering filenameMain;
    ReadEntireFile fuel fileHandle sectorSize tag_contention 0 RANDOM;;
    CloseFile fileHandle);;
  sys_ (SetEvent conditionQuit);;
  sys_ (WaitForMultipleObjects processes);;
  median_of "Sequential Read Median (μs)" tag_contention;;
  percentile_of "Sequential Read 10th Percentile (μs)" tag_contention 10;;
  percentile_of "Sequential Read 90th Percentile (μs)" tag_contention 90.

Definition experiment (fuel : nat) : Experiment := mkExperiment "File System Contention" (Run fuel).

(** A child reads its file until the event is set. [startPosition] is computed,
    and the reading starts at 0. *)
Definition ChildProcessMain (fuel : nat) (argv : list string) : M unit :=
  match argv with
  | _ :: _ :: arg2 :: fileToRead :: _ =>
      localProcessId ← ParseInteger arg2;
      hFile ← OpenFileNoBuffering fileToRead;
      fileSize ← GetFileSizeOfHandle hFile;
      let startPosition := u32 (u64 (fileSize / 10 * localProcessId)) in
      conditionMayQuit ← sys (OpenEvent EventNameChildProcessesMayQuit);
      when (conditionMayQuit =? NULL) (fail_with "Error opening condition variable.");;
      stopwatchDummy ← StopwatchStack_default;
      on_stopwatch stopwatchDummy (while_ fuel (fun _ : unit =>
        r ← sys (WaitForSingleObject conditionMayQuit 0);
        if r =? WAIT_TIMEOUT
        then ReadEntireFile fuel hFile DefaultBufferSize None 0 RANDOM;; ret (inl tt)
        else ret (inr tt)) tt);;
      CloseFile hFile
  | _ => throw "Missing arguments."
  end.
End run.
End FileSystemContention.

Module FileSystemRemoteRead.
Section run.
Context `{OS : Win32}.

Definition baseTag : tag := lit "FileSystem -- Remote Unbuffered Read Latency Synchronous".
Definition remotePath : string := "K:\".
Definition numIterations : Z := 2.

(** The base class is built with its own device path. *)
Definition FileSystemRemoteRead_new : M unit := FileSystemExperiment_new devicePath.

Definition result_names (kind statistic : string) (sizes : list Z) : list string :=
  (fun fileSize => (kind ++ " (" ++ dec fileSize ++ " bytes) " ++ statistic ++ " (μs)")%string) <$> sizes.

(** [1 << i] of an [int]. *)
Definition current_size (i : Z) : option Z := if i <? 31 then Some (Z.shiftl 1 i) else None.

Definition flusher_size (currentFileSize : Z) : Z :=
  let flusherFileSize := Z.shiftl 1 26 in
  if flusherFileSize =? currentFileSize then Z.shiftr flusherFileSize 1 else flusherFileSize.

(** File number [i], read in mode [t]. *)
Definition read_file (fuel : nat) (t i : Z) : M unit :=
  let readMode := if t =? 0 then SEQUENTIAL else RANDOM in
  currentFileSize ← lift (current_size i);
  ReadEntireFileOfPath fuel (GetTestFilenameBySize (flusher_size currentFileSize) remotePath) 0;;
  fileHandle ← OpenFileNoBuffering (GetTestFilenameBySize currentFileSize remotePath);
  when (fileHandle =? INVALID_HANDLE_VALUE) (fail_with "");;
  ReadEntireFile fuel fileHandle DefaultBufferSize (tag_add baseTag (i + 1000 * t)) 0 readMode;;
  CloseFile fileHandle.

Definition push_results (t : Z) (medians percentiles : list string) (i : Z) : M unit :=
  let tg := tag_add baseTag (i + 1000 * t) in
  m ← lift medians.[i];
  median_of m tg;;
  p ← lift percentiles.[i];
  percentile_of p tg 90.

Definition Run (fuel : nat) : M unit :=
  sectorSize ← GetLogicalSectorSize remotePath;
  assert (1 <? sectorSize);;
  synchInputBuffer ← sys (Malloc sectorSize);
  assert (negb (synchInputBuffer =? NULL));;
  sizes ← gets fileSizes;
  let numFileSizes := Z.of_nat (length sizes) in
  for_ 0 numFileSizes (fun i => ss_ResetTagHistory (tag_add baseTag i));;
  for_ 0 numIterations (fun j =>
    for_ 0 2 (fun t =>
      for_ 0 numFileSizes (fun i => read_file fuel t i)));;
  for_ 0 numFileSizes (push_results 0
    (result_names "Sequential" "Median" sizes) (result_names "Sequential" "90th Percentile" sizes));;
  for_ 0 numFileSizes (push_results 1
    (result_names "Random" "Median" sizes) (result_names "Random" "90th Percentile" sizes));;
  sys_ (Free synchInputBuffer).

Definition experiment (fuel : nat) : Experiment := mkExperiment "File System Remote Reads" (Run fuel).
End run.
End FileSystemRemoteRead.
