(* ===== verification/NetworkExperiments.v ===== *)
(** * Network experiments

    NetworkPeakBandwidth, NetworkSetupTeardown (derived from it) and
    NetworkRoundTripTime (.h, .cpp). *)
From S2P Require Import Prelude.
From S2P Require Import Words.
From S2P Require Import Win32.
From S2P Require Import Mathx.
From S2P Require Import StopwatchStack.
From S2P Require Import Machine.
From S2P Require Import Experiment.

(** A winsock call that must not return [bad]. *)
Definition wsa_require `{OS : Win32} (good : bool) (what : string) : M unit :=
  when (negb good) (fail_with_wsa what).

Module NetworkPeakBandwidth.
Section run.
Context `{OS : Win32}.

Definition tagLocal : tag := lit "Network - Peak Bandwidth Local".
Definition tagRemote : tag := lit "Network - Peak Bandwidth Remote".
Definition chunkSize : Z := 1 * 1024 * 1460.
Definition numIterations : Z := 500.
Definition bufferSize : Z := 128 * 1024.

Definition InitWinsock : M unit :=
  result ← sys WSAStartup;
  when (negb (result =? 0)) (throw "Winsock unavailable.").

Definition CleanupWinsock : M unit := sys_ WSACleanup.

Definition create_socket : M Z :=
  socket ← sys WSASocket;
  wsa_require (negb (socket =? INVALID_SOCKET)) "Could not create socket.";;
  ret socket.

Definition close_socket (socket : Z) : M unit :=
  r ← sys (CloseSocket socket);
  wsa_require (r =? 0) "Could not close socket.".

(** The sends in the middle half are timed. *)
Definition recordTiming (numChunks r : Z) : bool :=
  (Z.quot numChunks 4 <=? r) && (r <=? Z.quot (numChunks * 3) 4).

Definition send_chunk (socket chunkSize numChunks : Z) (t : tag) (r : Z) : M unit :=
  when (recordTiming numChunks r) (Push t);;
  sent ← sys (WSASend socket chunkSize);
  wsa_require (sent =? 0) "Could not send.";;
  when (recordTiming numChunks r) Pop_.

(** The data sent is allocated without a check, and written to. *)
Definition ConnectAndSend (address port chunkSize numChunks : Z) (t : tag) : M unit :=
  socket ← create_socket;
  netPort ← sys (WSAHtons socket port);
  r ← sys (WSAConnect socket address netPort);
  wsa_require (r =? 0) "Could not connect.";;
  dataToSend ← sys (Malloc chunkSize);
  when (dataToSend =? NULL) undefined;;
  for_ 0 numChunks (send_chunk socket chunkSize numChunks t);;
  r ← sys (ShutdownBoth socket);
  wsa_require (r =? 0) "Could not end connection.";;
  close_socket socket.

Definition CreateLocalChildServer (numTimesToListen : Z) : M HANDLE :=
  path ← sys GetModuleFileName;
  let commandLine :=
    ("Profiler.exe" ++ " -NetworkBandwidthChildServer" ++
       (if (0 <=? numTimesToListen)%Z then " " ++ dec numTimesToListen else ""))%string in
  processInfo ← sys (CreateProcess path commandLine false true);
  match processInfo with
  | None => throw "Could not create process."
  | Some hProcess => ret hProcess
  end.

(** The result of one side: bytes per second, from the median time. *)
Definition push_bandwidth (resultName : string) (t : tag) : M unit :=
  h ← history t;
  median ← lift (Mathx.Median (fun ticks : TickValue => ticks) h);
  s ← gets ss;
  let minTransmitTimeAsTicks := s64 (median - GetOverheadSimpleAsTicks s) in
  PushResult resultName (Words.double_div (Words.double_of chunkSize) (TicksToSeconds s minTransmitTimeAsTicks)).

Definition Run : M unit :=
  InitWinsock;;
  hProcess ← CreateLocalChildServer 1;
  ConnectAndSend LocalMachineAddress 80 chunkSize numIterations tagLocal;;
  push_bandwidth "Local (bytes/second)" tagLocal;;
  ConnectAndSend OtherMachineAddress 80 chunkSize numIterations tagRemote;;
  push_bandwidth "Remote (bytes/second)" tagRemote;;
  CleanupWinsock.

Definition experiment : Experiment := mkExperiment "Network Peak Bandwidth" Run.

(** ** The server, a child process *)

(** [argv[2]], or -1 without one: listen for ever. *)
Definition parse_listens (argv : list string) : M Z :=
  match argv with
  | _ :: _ :: arg2 :: _ =>
      let numTimesToListen := (extract_int arg2).1 in
      assert (0 <=? numTimesToListen);;
      assert (numTimesToListen <? 1024 * 1024);;
      ret numTimesToListen
  | _ => ret (-1)
  end.

Definition start_listening : M Z :=
  socketListener ← create_socket;
  netPort ← sys (WSAHtons socketListener 80);
  print_ln "Binding to local port.";;
  b ← sys (Bind socketListener netPort);
  wsa_require (b =? 0) "Could not bind to local port.";;
  print_ln ("Listening on port " ++ dec netPort);;
  l ← sys (Listen socketListener);
  wsa_require (negb (l =? SOCKET_ERROR)) "Could not begin listening.";;
  ret socketListener.

Definition receive_all (fuel : nat) (socketConnection : Z) : M unit :=
  while_ fuel (fun receivedOnce : bool =>
    '(r, bytesRead) ← sys (WSARecv socketConnection bufferSize);
    if (r =? 0) && negb (bytesRead =? 0)
    then when (negb receivedOnce) (print_ln "Receiving data...");; ret (inl true)
    else ret (inr tt)) false;;
  print_ln "No more data.".

Definition serve_one (fuel : nat) (socketListener : Z) : M unit :=
  print_ln "Waiting for incoming connection... ";;
  socketConnection ← sys (WSAAccept socketListener);
  when (socketConnection =? INVALID_SOCKET)
    (error ← sys WSAGetLastError;
     print_ln ("Error: " ++ dec error);;
     throw "Could not wait for incoming connection.");;
  receive_all fuel socketConnection;;
  r ← sys (ShutdownReceive socketConnection);
  wsa_require (r =? 0) "Could not end connection.";;
  close_socket socketConnection.

(** [for (i = 0; i < numTimesToListen || numTimesToListen == -1; ++i)]. *)
Definition serve (fuel : nat) (socketListener numTimesToListen : Z) : M unit :=
  while_ fuel (fun i =>
    if (i <? numTimesToListen) || (numTimesToListen =? -1)
    then serve_one fuel socketListener;; ret (inl (i + 1))
    else ret (inr tt)) 0.

Definition ChildProcessMain (fuel : nat) (argv : list string) : M unit :=
  numTimesToListen ← parse_listens argv;
  hThread ← sys GetCurrentThread;
  sys_ (SetThreadAffinityMask hThread 2);;
  InitWinsock;;
  socketListener ← start_listening;
  serve fuel socketListener numTimesToListen;;
  close_socket socketListener;;
  CleanupWinsock.
End run.
End NetworkPeakBandwidth.

Module NetworkSetupTeardown.
Import NetworkPeakBandwidth.
Section run.
Context `{OS : Win32}.

Definition tagLocalSetup : tag := lit "Network - Setup Local".
Definition tagLocalTeardown : tag := lit "Network - Teardown Local".
Definition tagRemoteSetup : tag := lit "Network - Setup Remote".
Definition tagRemoteTeardown : tag := lit "Network - Teardown Remote".
Definition numIterations : Z := 500.

(** The return code of [shutdown] is compared with that of a second call. *)
Definition ConnectAndDisconnect (address port : Z) (tagSetup tagTeardown : tag) : M unit :=
  socket ← create_socket;
  netPort ← sys (WSAHtons socket port);
  Push tagSetup;;
  connectResult ← sys (WSAConnect socket address netPort);
  Pop_;;
  wsa_require (connectResult =? 0) "Could not connect.";;
  Push tagTeardown;;
  shutdownResult ← sys (ShutdownSend socket);
  '(recvResult, bytesReceived) ← sys (WSARecv socket 1024);
  Pop_;;
  again ← sys (ShutdownSend socket);
  wsa_require (shutdownResult =? again) "Could not end connection.";;
  wsa_require ((recvResult =? 0) && (bytesReceived =? 0)) "Unexpected receive result.";;
  close_socket socket.

(** 500 connections to one address, and the medians. *)
Definition side (address : Z) (tagSetup tagTeardown : tag) (setupName teardownName : string) : M unit :=
  for_ 0 numIterations (fun i =>
    ConnectAndDisconnect address 80 tagSetup tagTeardown;;
    sys_ (Sleep 100));;
  median_of setupName tagSetup;;
  median_of teardownName tagTeardown.

Definition Run : M unit :=
  InitWinsock;;
  hProcess ← CreateLocalChildServer numIterations;
  side LocalMachineAddress tagLocalSetup tagLocalTeardown "Local Setup (μs)" "Local Teardown (μs)";;
  side OtherMachineAddress tagRemoteSetup tagRemoteTeardown "Remote Setup (μs)" "Remote Teardown (μs)";;
  CleanupWinsock.

Definition experiment : Experiment := mkExperiment "Network Setup & Teardown" Run.
End run.
End NetworkSetupTeardown.

Module NetworkRoundTripTime.
Section run.
Context `{OS : Win32}.

Definition tagLocalTimed : tag := lit "RoundTripTime Local -- Timed".
Definition tagLocalReported : tag := lit "RoundTripTime Local -- Reported".
Definition tagRemoteTimed : tag := lit "RoundTripTime Remote -- Timed".
Definition tagRemoteReported : tag := lit "RoundTripTime Remote -- Reported".
Definition numIterations : Z := 500.

(** [_icmpRequestBuffer], with its terminating zero; the reply buffer holds two
    [ICMP_ECHO_REPLY] of 28 bytes. *)
Definition _icmpRequestBuffer : string := "Hello, network.".
Definition requestSize : Z := Z.of_nat (String.length _icmpRequestBuffer) + 1.
Definition _icmpResponseBufferSize : Z := 28 * 2 + requestSize + 8.

Definition NetworkRoundTripTime_new : M HANDLE :=
  _icmpHandle ← sys IcmpCreateFile;
  when (_icmpHandle =? INVALID_HANDLE_VALUE) (throw "could not initialize icmp helper.");;
  ret _icmpHandle.

(** The destructor; [Run] leaves [_icmpResponseBuffer] null. *)
Definition NetworkRoundTripTime_delete (_icmpHandle : HANDLE) (_icmpResponseBuffer : Z) : M unit :=
  sys_ (IcmpCloseHandle _icmpHandle);;
  when (negb (_icmpResponseBuffer =? NULL)) (sys_ (Free _icmpResponseBuffer)).

(** [IP_SUCCESS] is 0. *)
Definition PerformPing (_icmpHandle : HANDLE) (_icmpResponseBuffer : Z) (tagForTimed tagForReported : tag)
    (destinationAddress : Z) : M unit :=
  assert (negb (_icmpResponseBuffer =? NULL));;
  Push tagForTimed;;
  '(replyCount, (status, roundTripTime)) ←
    sys (IcmpSendEcho _icmpHandle destinationAddress requestSize _icmpResponseBufferSize);
  Pop_;;
  when (replyCount =? 0) (sys_ GetLastError;; throw_new "Send Echo failed.");;
  when (negb (status =? 0)) (throw_new "Echo status not success.");;
  ss_PushWithValue tagForReported 0;;
  s ← gets ss;
  ticks ← lift (MillisecondsToTicks s (Words.double_of roundTripTime));
  delta ← ss_PopWithValue tagForReported ticks;
  ret tt.

Definition side (_icmpHandle : HANDLE) (_icmpResponseBuffer : Z) (destination : Z) (timedTag reportedTag : tag)
    (timedName reportedName : string) : M unit :=
  for_ 0 numIterations (fun i =>
    PerformPing _icmpHandle _icmpResponseBuffer timedTag reportedTag destination;;
    sys_ (Sleep 100));;
  minimum_of timedName timedTag;;
  h ← history reportedTag;
  PushResultMinimumAsMicroseconds reportedName h 0.

Definition Run (_icmpHandle : HANDLE) : M unit :=
  _icmpResponseBuffer ← sys (Malloc _icmpResponseBufferSize);
  side _icmpHandle _icmpResponseBuffer LocalMachineAddress tagLocalTimed tagLocalReported
    "Local Ping Timed (μs)" "Local Ping Reported (μs)";;
  side _icmpHandle _icmpResponseBuffer OtherMachineAddress tagRemoteTimed tagRemoteReported
    "Remote Ping Timed (μs)" "Remote Ping Reported (μs)";;
  sys_ (Free _icmpResponseBuffer).

Definition experiment (_icmpHandle : HANDLE) : Experiment :=
  mkExperiment "Network Round Trip Time" (Run _icmpHandle).
End run.
End NetworkRoundTripTime.
