(* ===== verification/MicroBench.v ===== *)
(** * The profiler's main program (src/cse220/Micro-Bench/code/Profiler/main.cpp) *)
From S2P Require Import Prelude.
From S2P Require Import Words.
From S2P Require Import Win32.
From S2P Require Import Mathx.
From S2P Require Import StopwatchStack.
From S2P Require Import Machine.
From S2P Require Import Experiment.
From S2P Require Import CpuExperiments.
From S2P Require Import ContextSwitch.
From S2P Require Import MemoryExperiments.
From S2P Require Import FakeKernelModel.
From S2P Require Import FileSystemModel.
From S2P Require Import FileSystemExperiments.
From S2P Require Import NetworkExperiments.

Module Profiler.

(** The [if(0)] of each set of experiments. *)
Record sets : Type := mkSets { set1 : bool; set2 : bool; set3 : bool; set4 : bool; setX : bool }.
Definition enabled : sets := mkSets false false false false false.

Section main.
Context `{OS : Win32}.

(** An experiment and its destructor. *)
Definition held : Type := Experiment * M unit.
Definition plain (e : Experiment) : held := (e, ret tt).
Definition guard (b : bool) (m : M (list held)) : M (list held) := if b then m else ret [].

Definition make_set1 : M (list held) :=
  this ← ContextSwitchTime.ContextSwitchTime_new;
  ret (plain <$> [MeasurementOverhead.experiment; ProcedureOverhead.experiment; SystemCallOverhead.experiment;
                  TaskCreation.experiment; ContextSwitchTime.experiment this]).

Definition make_set2 : M (list held) :=
  ret (plain <$> [MemoryLatency.experiment; MemoryBandwidth.experiment; MemoryPageFault.experiment]).

Definition make_set3 : M (list held) :=
  icmp ← NetworkRoundTripTime.NetworkRoundTripTime_new;
  ret [(NetworkRoundTripTime.experiment icmp, NetworkRoundTripTime.NetworkRoundTripTime_delete icmp NULL);
       plain NetworkPeakBandwidth.experiment; plain NetworkSetupTeardown.experiment].

Definition make_set4 (fuel : nat) : M (list held) :=
  FileSystemCacheSize.FileSystemCacheSize_new;;
  FileSystemLocalRead.FileSystemLocalRead_new;;
  FileSystemRemoteRead.FileSystemRemoteRead_new;;
  FileSystemContention.FileSystemContention_new;;
  ret (plain <$> [FileSystemCacheSize.experiment fuel; FileSystemLocalRead.experiment fuel;
                  FileSystemRemoteRead.experiment fuel; FileSystemContention.experiment fuel]).

Definition make_setX : M (list held) :=
  ret (plain <$> [FakeKernel.experiment FakeKernel.FakeKernel_new]).

Definition make_experiments (fuel : nat) (on : sets) : M (list held) :=
  s1 ← guard (set1 on) make_set1;
  s2 ← guard (set2 on) make_set2;
  s3 ← guard (set3 on) make_set3;
  s4 ← guard (set4 on) (make_set4 fuel);
  sX ← guard (setX on) make_setX;
  ret (s1 ++ s2 ++ s3 ++ s4 ++ sX).

(** Running one: its results are its own. *)
Definition run_one (h : held) : M (string * list Result) :=
  let experiment := h.1 in
  print_ln ("Running '" ++ GetName experiment ++ "'...")%string;;
  modify (fun w => with_results w []);;
  Run experiment;;
  rs ← gets results;
  ret (GetName experiment, rs).

Fixpoint run_all (l : list held) : M (list (string * list Result)) :=
  match l with
  | [] => ret []
  | h :: l => r ← run_one h; rs ← run_all l; ret (r :: rs)
  end.

Definition performExperiments (fuel : nat) (on : sets) : M unit :=
  ss ← StopwatchStack_new 100 1000 false;
  on_stopwatch ss (
    print_ln "Calculating Stopwatch overhead...";;
    CalculateOverheadSimple;;
    experiments ← make_experiments fuel on;
    reports ← run_all experiments;
    print_ln "Printing results...";;
    for_list reports (fun '(name, rs) => print (ToString name rs));;
    for_list experiments snd).

Definition nothingFancy : M unit :=
  ss ← StopwatchStack_new 100 10 false;
  on_stopwatch ss (
    print_ln "StopwatchStack initialized.";;
    print_ln "Pushing a stopwatch.";;
    Push0;;
    print_ln "Commencing message box...";;
    sys_ MessageBox;;
    print_ln "Sleeping...";;
    sys_ (Sleep 1000);;
    print_ln "Popping a stopwatch.";;
    delta ← Pop;
    let deltaTicks := u64 delta in
    deltaSeconds ← gets (fun w => TicksToSeconds (Machine.ss w) (s64 deltaTicks));
    print_ln ("Stopwatch delta: " ++ tab ++ dec deltaTicks ++ " ticks. " ++ format_double deltaSeconds ++ " seconds.")%string).

Definition waitForEnterToQuit : M unit :=
  print_ln "Press enter to quit.";;
  sys_ ConsoleRead.

Definition configureConsoleForUnicode (test : bool) : M unit :=
  sys_ SetModeU16;;
  when test (print_ln "Testing unicode -- English -- Ελληνικά -- Español.").

Definition banner : M unit :=
  print_ln "";;
  print_ln " ======================================= ";;
  print_ln " __/*/*/*/__ Micro Bench __\*\*\*\__ ";;
  print_ln (" ======================================= " ++ newline)%string.

(** Real-time priority, on core 0. *)
Definition configure_process : M unit :=
  hProcess ← sys GetCurrentProcess;
  sys_ (SetPriorityClass hProcess REALTIME_PRIORITY_CLASS);;
  hThread ← sys GetCurrentThread;
  sys_ (SetThreadAffinityMask hThread 1);;
  sys_ (SetThreadPriority hThread THREAD_PRIORITY_TIME_CRITICAL).

(** With an argument the process is somebody's child. *)
Definition child_main (fuel : nat) (argv : list string) (arg1 : string) : M Z :=
  if String.eqb arg1 "-ContextSwitchTimeChildProcess" then ContextSwitchTime.ChildProcessMain argv;; ret 0
  else if String.eqb arg1 "-NetworkBandwidthChildServer" then NetworkPeakBandwidth.ChildProcessMain fuel argv;; ret 0
  else if String.eqb arg1 "-FileSystemChildProcess" then FileSystemContention.ChildProcessMain fuel argv;; ret 0
  else throw "Unknown commandline arguments.".

(** [argv] holds the program's name first. *)
Definition wmain (fuel : nat) (argv : list string) : M Z :=
  configureConsoleForUnicode false;;
  when (Z.of_nat (length argv) <? 2) banner;;
  configure_process;;
  match argv with
  | _ :: arg1 :: _ => child_main fuel argv arg1
  | _ =>
      performExperiments fuel enabled;;
      waitForEnterToQuit;;
      ret 0
  end.
End main.
End Profiler.
