(* ===== verification/Effects.v ===== *)
(** * What a program does to the stopwatch and the results

    A specification language for the experiments.  Whatever calls a [Run] makes,
    what it leaves behind in the stopwatch and in the results is a sequence of
    [effect]s: a time added to the history of a tag, a history forgotten, the
    overhead recomputed, a result computed from the histories.  [spec m Q] says
    that every normal run of [m] amounts to a sequence of effects in [Q]; in
    particular that the stack of the stopwatch is as it was. *)
From S2P Require Import Prelude.
From S2P Require Import Words.
From S2P Require Import Win32.
From S2P Require Import Mathx.
From S2P Require Import StopwatchStack.
From S2P Require Import Machine.
From S2P Require Import Experiment.

Inductive statistic : Type := SMean | SMedian | SMinimum | SMaximum | SPercentile (p : Z).

(** What a result is computed from. *)
Inductive quantity : Type :=
| Statistic (s : statistic) (t : tag) (less_overhead : bool)
| Bandwidth (bytes : Z) (t : tag)
| Overhead.

Inductive effect : Type :=
| Sample (t : tag) (delta : TickValue)
| Reset (t : tag)
| Calibrate
| Report (name : string) (q : quantity).

(** The same without the times. *)
Inductive shape : Type :=
| SSample (t : tag)
| SReset (t : tag)
| SCalibrate
| SReport (name : string) (q : quantity).

Definition shape_of (e : effect) : shape :=
  match e with
  | Sample t _ => SSample t
  | Reset t => SReset t
  | Calibrate => SCalibrate
  | Report name q => SReport name q
  end.

Definition statistic_value (s : StopwatchStack) (st : statistic) (adjustment : TickValue) (h : TagHistory) : option double :=
  match st with
  | SMean => Some (Mathx.Mean (microseconds s adjustment) h)
  | SMedian => Mathx.Median (microseconds s adjustment) h
  | SMinimum => Mathx.Minimum (microseconds s adjustment) h
  | SMaximum => Mathx.Maximum (microseconds s adjustment) h
  | SPercentile p =>
      match Mathx.Percentile (microseconds s adjustment) h p with Mathx.PValue v => Some v | _ => None end
  end.

Definition quantity_value (s : StopwatchStack) (q : quantity) : option double :=
  match q with
  | Statistic st t less_overhead =>
      statistic_value s st (if less_overhead then s64 (- GetOverheadSimpleAsTicks s) else 0) (GetTagHistory t s)
  | Bandwidth bytes t =>
      median ← Mathx.Median (fun ticks : TickValue => ticks) (GetTagHistory t s);
      Some (double_div (double_of bytes) (TicksToSeconds s (s64 (median - GetOverheadSimpleAsTicks s))))
  | Overhead => Some (GetOverheadSimpleAsMicroSeconds s)
  end.

Abbreviation visible := (StopwatchStack * list Result)%type.

Definition apply_effect (e : effect) (v : visible) : option visible :=
  let '(s, rs) := v in
  match e with
  | Sample t delta => Some (StoreResultWithTag delta t s, rs)
  | Reset t => Some (ResetTagHistory t s, rs)
  | Calibrate =>
      o ← Mathx.Minimum (fun t : TickValue => t) (GetTagHistory measurement_tag s);
      Some (with_overheadSimple s o, rs)
  | Report name q => x ← quantity_value s q; Some (s, rs ++ [mkResult name x])
  end.

Fixpoint perform (effs : list effect) (v : visible) : option visible :=
  match effs with
  | [] => Some v
  | e :: effs => v' ← apply_effect e v; perform effs v'
  end.

Lemma perform_app e1 e2 v : perform (e1 ++ e2) v = (v' ← perform e1 v; perform e2 v').
Proof.
  revert v. induction e1 as [|e e1 IH]; intros v; simpl; [done|].
  destruct (apply_effect e v) as [v'|]; simpl; [apply IH|done].
Qed.

(** The stack and its limit are not touched. *)
Lemma store_stack d t s :
  _stack (StoreResultWithTag d t s) = _stack s ∧ _maxDepth (StoreResultWithTag d t s) = _maxDepth s.
Proof. unfold StoreResultWithTag. by destruct (_tagHistorySize s =? 0). Qed.

Lemma apply_stack e v v' : apply_effect e v = Some v' → _stack v'.1 = _stack v.1 ∧ _maxDepth v'.1 = _maxDepth v.1.
Proof.
  destruct v as [s rs], e; simpl; intros Hv.
  - inversion Hv. apply store_stack.
  - by inversion Hv.
  - destruct (Mathx.Minimum _ _); simpl in Hv; [by inversion Hv|done].
  - destruct (quantity_value s q); simpl in Hv; [by inversion Hv|done].
Qed.

Lemma perform_stack effs : ∀ v v', perform effs v = Some v' → _stack v'.1 = _stack v.1 ∧ _maxDepth v'.1 = _maxDepth v.1.
Proof.
  induction effs as [|e effs IH]; simpl; intros v v' Hv; [by inversion Hv|].
  destruct (apply_effect e v) as [v1|] eqn:E; [|done]. simpl in Hv.
  destruct (IH _ _ Hv) as [-> ->]. by apply apply_stack in E.
Qed.

Section logic.
Context `{OS : Win32}.

(** There is room for one more entry on the stopwatch. *)
Definition room (w : world) : Prop := is_full (ss w) = false.

Definition spec {A} (m : M A) (Q : A → list effect → Prop) : Prop := ∀ w a w',
  room w → m w = Ok a w' → ∃ effs, perform effs (ss w, results w) = Some (ss w', results w') ∧ Q a effs.

(** Programs that leave stopwatch and results alone. *)
Definition quiet {A} (m : M A) : Prop := ∀ w a w', m w = Ok a w' → ss w' = ss w ∧ results w' = results w.

Definition shaped {A} (m : M A) (l : list shape) : Prop := spec m (fun _ effs => shape_of <$> effs = l).

Lemma bind_Ok {A B} (m : M A) (f : A → M B) w b w' :
  (m ≫= f) w = Ok b w' → ∃ a w1, m w = Ok a w1 ∧ f a w1 = Ok b w'.
Proof. unfold mbind, M_bind. destruct (m w) as [a w1| | | | |] eqn:E; try done. intros H. by exists a, w1. Qed.

Lemma bind_intro {A B} (m : M A) (f : A → M B) w a w1 r : m w = Ok a w1 → f a w1 = r → (m ≫= f) w = r.
Proof. unfold mbind, M_bind. by intros ->. Qed.

Lemma room_perform w w' effs : room w → perform effs (ss w, results w) = Some (ss w', results w') → room w'.
Proof. intros Hr Hp. apply perform_stack in Hp as [Hs Hm]. simpl in *. unfold room, is_full in *. by rewrite Hs, Hm. Qed.

(** ** Quiet programs *)
Lemma quiet_ret {A} (a : A) : quiet (ret a).
Proof. intros w a' w' H. by inversion H. Qed.
Lemma quiet_throw {A} what : quiet (throw (A := A) what). Proof. intros w a w' H. discriminate. Qed.
Lemma quiet_throw_new {A} what : quiet (throw_new (A := A) what). Proof. intros w a w' H. discriminate. Qed.
Lemma quiet_undefined {A} : quiet (undefined (A := A)). Proof. intros w a w' H. discriminate. Qed.
Lemma quiet_fuel {A} : quiet (fun _ => OutOfFuel (A := A)). Proof. intros w a w' H. discriminate. Qed.
Lemma quiet_assert b : quiet (assert b).
Proof. intros w a w' H. unfold assert in H. destruct b; [by inversion H|done]. Qed.
Lemma quiet_lift {A} (o : option A) : quiet (lift o).
Proof. intros w a w' H. unfold lift in H. destruct o; [by inversion H|done]. Qed.
Lemma quiet_gets {A} (f : world → A) : quiet (gets f). Proof. intros w a w' H. by inversion H. Qed.
Lemma quiet_sys {A} (c : api A) : quiet (sys c).
Proof. intros w a w' H. unfold sys in H. destruct (os_call c (os w)). by inversion H. Qed.
Lemma quiet_hidden f : quiet (modify (fun w => with_hidden w (f w))). Proof. intros w a w' H. by inversion H. Qed.
Lemma quiet_fileSizes f : quiet (modify (fun w => with_fileSizes w (f w))). Proof. intros w a w' H. by inversion H. Qed.

Lemma quiet_bind {A B} (m : M A) (f : A → M B) : quiet m → (∀ a, quiet (f a)) → quiet (m ≫= f).
Proof.
  intros Hm Hf w b w' H. apply bind_Ok in H as (a & w1 & H1 & H2).
  destruct (Hm _ _ _ H1), (Hf _ _ _ _ H2). split; congruence.
Qed.

Lemma quiet_sys_ {A} (c : api A) : quiet (sys_ c).
Proof. apply quiet_bind; [apply quiet_sys|intros; apply quiet_ret]. Qed.

Lemma quiet_loop_from {S} n (body : Z → S → M S) : ∀ i s,
  (∀ i s, quiet (body i s)) → quiet (loop_from n i body s).
Proof.
  induction n as [|n IH]; intros i s Hb; simpl; [apply quiet_ret|].
  apply quiet_bind; [apply Hb|]. intros s'. by apply IH.
Qed.

Lemma quiet_for_state {S} lo hi (body : Z → S → M S) s :
  (∀ i s, quiet (body i s)) → quiet (for_state lo hi body s).
Proof. apply quiet_loop_from. Qed.

Lemma quiet_for lo hi body : (∀ i, quiet (body i)) → quiet (for_ lo hi body).
Proof. intros Hb. apply quiet_for_state. intros i _. apply Hb. Qed.

Lemma quiet_for_list {A} (l : list A) body : (∀ a, quiet (body a)) → quiet (for_list l body).
Proof.
  intros Hb. unfold for_list. induction l as [|a l IH]; simpl; [apply quiet_ret|].
  apply quiet_bind; [apply Hb|]. by intros _.
Qed.

Lemma quiet_while {S A} fuel (body : S → M (S + A)) : ∀ s, (∀ s, quiet (body s)) → quiet (while_ fuel body s).
Proof.
  induction fuel as [|fuel IH]; intros s Hb; simpl; [apply quiet_fuel|].
  apply quiet_bind; [apply Hb|]. intros [s'|a]; [by apply IH|apply quiet_ret].
Qed.

Lemma quiet_when b m : quiet m → quiet (when b m).
Proof. destruct b; [done|]. intros _. apply quiet_ret. Qed.

Lemma quiet_fail_with {A} what : quiet (fail_with (A := A) what).
Proof. apply quiet_bind; [apply quiet_sys_|]. intros _. apply quiet_throw. Qed.
Lemma quiet_fail_with_wsa {A} what : quiet (fail_with_wsa (A := A) what).
Proof. apply quiet_bind; [apply quiet_sys_|]. intros _. apply quiet_throw. Qed.
Lemma quiet_print s : quiet (print s). Proof. apply quiet_sys_. Qed.
Lemma quiet_print_ln s : quiet (print_ln s). Proof. apply quiet_sys_. Qed.
Lemma quiet_history t : quiet (history t). Proof. apply quiet_gets. Qed.
Lemma quiet_minus_overhead : quiet minus_overhead. Proof. apply quiet_gets. Qed.
Lemma quiet_Read : quiet Read. Proof. apply quiet_sys. Qed.

Lemma quiet_StopwatchStack_new r h k : quiet (StopwatchStack_new r h k).
Proof.
  unfold StopwatchStack_new. apply quiet_bind; [apply quiet_when, quiet_assert|]. intros _.
  apply quiet_bind.
  - destruct k; [apply quiet_sys|]. apply quiet_bind; [apply quiet_sys|]. intros. apply quiet_ret.
  - intros. apply quiet_bind; [apply quiet_sys_|]. intros _. apply quiet_ret.
Qed.

(** ** Programs with effects *)
Lemma spec_mono {A} (m : M A) (Q R : A → list effect → Prop) :
  spec m Q → (∀ a effs, Q a effs → R a effs) → spec m R.
Proof. intros Hm HQ w a w' Hr H. destruct (Hm _ _ _ Hr H) as (effs & Hp & Hq). exists effs. split; [done|by apply HQ]. Qed.

Lemma spec_quiet {A} (m : M A) : quiet m → spec m (fun _ effs => effs = []).
Proof. intros Hm w a w' _ H. destruct (Hm _ _ _ H) as [-> ->]. by exists []. Qed.

Lemma spec_bind {A B} (m : M A) (f : A → M B) Q (R : A → B → list effect → Prop) :
  spec m Q → (∀ a, spec (f a) (R a)) →
  spec (m ≫= f) (fun b effs => ∃ a e1 e2, effs = e1 ++ e2 ∧ Q a e1 ∧ R a b e2).
Proof.
  intros Hm Hf w b w' Hr H. apply bind_Ok in H as (a & w1 & H1 & H2).
  destruct (Hm _ _ _ Hr H1) as (e1 & Hp1 & HQ). pose proof (room_perform _ _ _ Hr Hp1) as Hr1.
  destruct (Hf _ _ _ _ Hr1 H2) as (e2 & Hp2 & HR).
  exists (e1 ++ e2). rewrite perform_app, Hp1. split; [exact Hp2|]. by exists a, e1, e2.
Qed.

(** The effects of the first part are at hand when the second is looked at. *)
Lemma spec_then {A B} (m : M A) (f : A → M B) Q (R : B → list effect → Prop) :
  spec m Q → (∀ a, spec (f a) (fun b e2 => ∀ e1, Q a e1 → R b (e1 ++ e2))) → spec (m ≫= f) R.
Proof.
  intros Hm Hf. eapply spec_mono; [by apply (spec_bind m f _ _ Hm Hf)|].
  intros b effs (a & e1 & e2 & -> & HQ & HR). by apply HR.
Qed.

Lemma spec_quiet_bind {A B} (m : M A) (f : A → M B) Q : quiet m → (∀ a, spec (f a) Q) → spec (m ≫= f) Q.
Proof.
  intros Hm Hf w b w' Hr H. apply bind_Ok in H as (a & w1 & H1 & H). destruct (Hm _ _ _ H1) as [Es Er].
  rewrite <- Es, <- Er. apply (Hf a); [|done]. unfold room in *. by rewrite Es.
Qed.

Lemma shaped_eq {A} (m : M A) l l' : shaped m l → l = l' → shaped m l'.
Proof. by intros ? <-. Qed.

Lemma shaped_quiet {A} (m : M A) : quiet m → shaped m [].
Proof. intros Hm. eapply spec_mono; [by apply spec_quiet|]. by intros a effs ->. Qed.

Lemma shaped_bind {A B} (m : M A) (f : A → M B) l1 l2 :
  shaped m l1 → (∀ a, shaped (f a) l2) → shaped (m ≫= f) (l1 ++ l2).
Proof.
  intros Hm Hf. eapply spec_mono; [by apply (spec_bind m f _ _ Hm Hf)|].
  intros b effs (a & e1 & e2 & -> & <- & <-). apply fmap_app.
Qed.

(** A quiet program before or after one with effects. *)
Lemma shaped_quiet_bind {A B} (m : M A) (f : A → M B) l : quiet m → (∀ a, shaped (f a) l) → shaped (m ≫= f) l.
Proof. intros Hm Hf. by apply (shaped_bind m f [] l); [apply shaped_quiet|]. Qed.
Lemma shaped_bind_quiet {A B} (m : M A) (f : A → M B) l : shaped m l → (∀ a, quiet (f a)) → shaped (m ≫= f) l.
Proof. intros Hm Hf. rewrite <- (app_nil_r l). apply shaped_bind; [done|]. intros a. by apply shaped_quiet. Qed.

Lemma shaped_loop_from {S} n (body : Z → S → M S) l : ∀ i s,
  (∀ i s, shaped (body i s) (l i)) → shaped (loop_from n i body s) (concat (l <$> seqZ i (Z.of_nat n))).
Proof.
  induction n as [|n IH]; intros i s Hb.
  - apply shaped_quiet, quiet_ret.
  - rewrite seqZ_cons by lia. simpl. apply shaped_bind; [apply Hb|]. intros s'.
    replace (Z.pred (Z.of_nat (Datatypes.S n))) with (Z.of_nat n) by lia.
    replace (Z.succ i) with (i + 1) by lia. by apply IH.
Qed.

Lemma shaped_for_state {S} lo hi (body : Z → S → M S) l s : lo <= hi →
  (∀ i s, shaped (body i s) (l i)) → shaped (for_state lo hi body s) (concat (l <$> seqZ lo (hi - lo))).
Proof.
  intros Hle Hb. unfold for_state. eapply shaped_eq; [by apply (shaped_loop_from _ _ l)|].
  by rewrite Z2Nat.id by lia.
Qed.

Lemma shaped_for lo hi body l : lo <= hi →
  (∀ i, shaped (body i) (l i)) → shaped (for_ lo hi body) (concat (l <$> seqZ lo (hi - lo))).
Proof. intros Hle Hb. apply shaped_for_state; [done|]. intros i _. apply Hb. Qed.

Lemma concat_replicate_seqZ {A} (x : A) lo n : concat ((fun _ => [x]) <$> seqZ lo n) = replicate (Z.to_nat n) x.
Proof.
  unfold seqZ. generalize (Z.to_nat n) 0%nat. intros k. induction k as [|k IH]; intros j; [done|].
  simpl. f_equal. rewrite <- (IH (S j)). f_equal.
Qed.

(** [n] iterations with one effect each. *)
Lemma shaped_for_same lo hi body x : lo <= hi →
  (∀ i, shaped (body i) [x]) → shaped (for_ lo hi body) (replicate (Z.to_nat (hi - lo)) x).
Proof.
  intros Hle Hb. eapply shaped_eq; [by apply (shaped_for lo hi body (fun _ => [x]))|].
  apply concat_replicate_seqZ.
Qed.
(** The samples of one tag. *)
Definition samples (n : Z) (t : tag) : list shape := replicate (Z.to_nat n) (SSample t).

Lemma samples_replicate n t : samples n t = replicate (Z.to_nat n) (SSample t).
Proof. done. Qed.

Lemma shaped_samples lo hi body t n : lo <= hi → hi - lo = n →
  (∀ i, shaped (body i) [SSample t]) → shaped (for_ lo hi body) (samples n t).
Proof. intros Hle <-. by apply shaped_for_same. Qed.
Lemma shaped_for_state_same {S} lo hi (body : Z → S → M S) s x : lo <= hi →
  (∀ i s, shaped (body i s) [x]) → shaped (for_state lo hi body s) (replicate (Z.to_nat (hi - lo)) x).
Proof.
  intros Hle Hb. eapply shaped_eq; [by apply (shaped_for_state lo hi body (fun _ => [x]))|].
  apply concat_replicate_seqZ.
Qed.

(** ** The stopwatch *)

(** Reading the clock at the top of a fresh entry. *)
Lemma Push_Ok t w u w' : room w → Push t w = Ok u w' →
  ∃ now, ss w' = with_stack (ss w) (mkEntry now t :: _stack (ss w)) ∧ results w' = results w.
Proof.
  intros Hr H. unfold Push in H. apply bind_Ok in H as (full & w1 & H1 & H2).
  unfold gets in H1. inversion H1; subst full w1. rewrite Hr in H2.
  apply bind_Ok in H2 as (now & w2 & H2 & H3). destruct (quiet_sys _ _ _ _ H2) as [Es Er].
  inversion H3; subst w'. simpl. exists now. rewrite Es, Er. split; [|done].
  unfold PushWithValue. unfold room in Hr. by rewrite Hr.
Qed.

Lemma Pop_Ok e st w d w' : _stack (ss w) = e :: st → Pop w = Ok d w' →
  ∃ now, d = s64 (now - startTime e) ∧ ss w' = (pop_entry e st now (ss w)).2 ∧ results w' = results w.
Proof.
  intros Hst H. unfold Pop in H. apply bind_Ok in H as (now & w1 & H1 & H2).
  destruct (quiet_sys _ _ _ _ H1) as [Es Er]. apply bind_Ok in H2 as (st' & w2 & H2 & H3).
  inversion H2; subst st' w2. rewrite Es, Hst in H3. simpl in H3. inversion H3; subst. simpl.
  exists now. rewrite Es, Er. done.
Qed.

Lemma with_stack_twice s a b : with_stack (with_stack s a) b = with_stack s b.
Proof. done. Qed.
Lemma with_stack_id s : with_stack s (_stack s) = s.
Proof. by destruct s. Qed.

(** A program that runs inside a section opened with tag [t], and closes it. *)
Definition opened {A} (t : tag) (m : M A) (l : list shape) : Prop := ∀ w a w' e st,
  _stack (ss w) = e :: st → e_tag e = t → room (with_ss w (with_stack (ss w) st)) → m w = Ok a w' →
  ∃ effs, perform effs (with_stack (ss w) st, results w) = Some (ss w', results w') ∧ shape_of <$> effs = l.

Lemma shaped_push {A} t (m : M A) l : opened t m l → shaped (Push t;; m) l.
Proof.
  intros Hm w a w' Hr H. apply bind_Ok in H as (u1 & w1 & H1 & H2).
  destruct (Push_Ok _ _ _ _ Hr H1) as (t0 & Es1 & Er1).
  specialize (Hm w1 a w' (mkEntry t0 t) (_stack (ss w))). rewrite Es1, Er1 in Hm.
  rewrite with_stack_twice, with_stack_id in Hm. by apply Hm.
Qed.

Lemma opened_quiet_bind {A B} t (m : M A) (f : A → M B) l : quiet m → (∀ a, opened t (f a) l) → opened t (m ≫= f) l.
Proof.
  intros Hm Hf w b w' e st Hst He Hr H. apply bind_Ok in H as (a & w1 & H1 & H2).
  destruct (Hm _ _ _ H1) as [Es Er]. specialize (Hf a w1 b w' e st).
  unfold room in *. simpl in *. rewrite Es, Er in Hf. by apply Hf.
Qed.

Lemma opened_pop {A} t (f : unit → M A) l : t ≠ None → (∀ u, shaped (f u) l) → opened t (Pop_ ≫= f) (SSample t :: l).
Proof.
  intros Ht Hf w a w' e st Hst He Hr H. apply bind_Ok in H as (u & w1 & H1 & H2).
  unfold Pop_ in H1. apply bind_Ok in H1 as (d & w2 & H1 & H3). inversion H3; subst w2.
  destruct (Pop_Ok e st w d w1) as (now & Hd & Es & Er); [done|done|].
  unfold pop_entry in Es. simpl in Es. rewrite decide_False in Es by congruence. rewrite He in Es.
  destruct (Hf u w1 a w') as (effs & Hp & Hl).
  - unfold room, is_full in *. destruct (store_stack (s64 (now - startTime e)) t (with_stack (ss w) st)) as [Ea Eb].
    simpl in *. rewrite Es, Ea, Eb. exact Hr.
  - done.
  - exists (Sample t (s64 (now - startTime e)) :: effs). simpl. rewrite Es, Er in Hp. by rewrite Hp, <- Hl.
Qed.

(** A timed section adds one sample to the history of its tag. *)
Lemma shaped_timed t m : t ≠ None → quiet m → shaped (timed t m) [SSample t].
Proof.
  intros Ht Hm. apply shaped_push, opened_quiet_bind; [done|]. intros _.
  intros w u w' e st Hst He Hr H.
  apply (opened_pop t ret [] Ht (fun u => shaped_quiet _ (quiet_ret u)) w u w' e st); try done.
  unfold mbind, M_bind. rewrite H. done.
Qed.

(** [PushWithValue] and [PopWithValue] of the same tag. *)
Lemma shaped_values t v0 v1 : t ≠ None →
  shaped (ss_PushWithValue t v0;; ss_PopWithValue t v1) [SSample t].
Proof.
  intros Ht w d w' Hr H. apply bind_Ok in H as (u1 & w1 & H1 & H2). inversion H1; subst w1.
  unfold ss_PopWithValue, PopWithValue, PushWithValue in H2. simpl in H2. rewrite Hr in H2. simpl in H2.
  rewrite decide_True in H2 by done. inversion H2; subst.
  exists [Sample t (s64 (v1 - v0))]. split; [|done]. simpl.
  unfold pop_entry. simpl. rewrite decide_False by done. by rewrite with_stack_twice, with_stack_id.
Qed.

Lemma shaped_values_then {A} t v0 v1 (k : TickValue → M A) l : t ≠ None → (∀ d, shaped (k d) l) →
  shaped (ss_PushWithValue t v0;; d ← ss_PopWithValue t v1; k d) (SSample t :: l).
Proof.
  intros Ht Hk w a w' Hr H. apply bind_Ok in H as (u & w1 & H1 & H). apply bind_Ok in H as (d & w2 & H2 & H).
  destruct (shaped_values t v0 v1 Ht w d w2 Hr) as (e1 & Hp1 & Hs1); [by apply (bind_intro _ _ _ _ _ _ H1)|].
  destruct (Hk d w2 a w' (room_perform _ _ _ Hr Hp1) H) as (e2 & Hp2 & Hs2).
  exists (e1 ++ e2). rewrite perform_app, Hp1, fmap_app, Hs1, Hs2. done.
Qed.

(** Iterations that may stop: all of them, or only some and then what the last
    one leaves. *)
Lemma spec_until lo hi (body : Z → M bool) x : lo <= hi →
  (∀ i, spec (body i) (fun b effs => shape_of <$> effs = if b then [x] else [])) →
  spec (for_until lo hi body) (fun b effs => ∃ k, shape_of <$> effs = replicate k x ∧
    if b then k = Z.to_nat (hi - lo) else (k < Z.to_nat (hi - lo))%nat).
Proof.
  intros Hle Hb. unfold for_until. generalize (Z.to_nat (hi - lo)) as n. clear Hle. intros n. revert lo.
  induction n as [|n IH]; intros lo w b w' Hr H.
  - inversion H; subst. exists []. split; [done|]. by exists 0%nat.
  - simpl in H. apply bind_Ok in H as (b1 & w1 & H1 & H). destruct (Hb _ _ _ _ Hr H1) as (e1 & Hp1 & Hs1).
    destruct b1.
    + destruct (IH _ w1 b w' (room_perform _ _ _ Hr Hp1) H) as (e2 & Hp2 & k & Hs2 & Hk).
      exists (e1 ++ e2). rewrite perform_app, Hp1. split; [done|]. exists (S k). rewrite fmap_app, Hs1, Hs2.
      split; [done|]. destruct b; lia.
    + inversion H; subst. exists e1. split; [done|]. exists 0%nat. split; [done|]. lia.
Qed.

Lemma shaped_reset t : shaped (ss_ResetTagHistory t) [SReset t].
Proof. intros w u w' Hr H. inversion H; subst. by exists [Reset t]. Qed.

Lemma shaped_overhead name : shaped (us ← gets (fun w => GetOverheadSimpleAsMicroSeconds (ss w)); PushResult name us)
  [SReport name Overhead].
Proof. intros w u w' Hr H. inversion H; subst. by exists [Report name Overhead]. Qed.

(** The overhead is the minimum of the history of [measurement_tag]. *)
Lemma shaped_calibrate : shaped CalculateOverheadSimple
  (samples 50000 measurement_tag ++ [SCalibrate]).
Proof.
  unfold CalculateOverheadSimple. apply shaped_bind.
  - apply shaped_samples; [lia|lia|]. intros i. apply (shaped_timed measurement_tag (ret tt)); [done|apply quiet_ret].
  - intros _ w u w' Hr H. apply bind_Ok in H as (h & w1 & H1 & H2). inversion H1; subst.
    apply bind_Ok in H2 as (o & w2 & H2 & H3). unfold lift in H2.
    destruct (Mathx.Minimum _ _) as [o'|] eqn:Eo; [|done]. inversion H2; subst.
    inversion H3; subst. exists [Calibrate]. split; [|done]. simpl. by rewrite Eo.
Qed.

End logic.

(** The results. *)
Ltac run_report :=
  repeat match goal with
  | H : (_ ≫= _) _ = Ok _ _ |- _ => apply bind_Ok in H as (? & ? & ? & H)
  | H : gets _ _ = Ok _ _ |- _ => inversion H; clear H; subst
  | H : lift ?o _ = Ok _ _ |- _ => unfold lift in H; destruct o eqn:?; [|done]; inversion H; clear H; subst
  | H : PushResult _ _ _ = Ok _ _ |- _ => inversion H; clear H; subst
  end.

Section results.
Context `{OS : Win32}.

Lemma shaped_mean name t : shaped (mean_of name t) [SReport name (Statistic SMean t true)].
Proof.
  intros w u w' Hr H. unfold mean_of, PushResultMeanAsMicroseconds, history, minus_overhead in H. run_report.
  by exists [Report name (Statistic SMean t true)].
Qed.
Lemma shaped_median name t : shaped (median_of name t) [SReport name (Statistic SMedian t true)].
Proof.
  intros w u w' Hr H. unfold median_of, PushResultMedianAsMicroseconds, history, minus_overhead in H. run_report.
  exists [Report name (Statistic SMedian t true)]. split; [|done]. simpl. by simplify_option_eq.
Qed.
Lemma shaped_minimum_with name t adj less :
  (∀ w, adj w = if less : bool then s64 (- GetOverheadSimpleAsTicks (ss w)) else 0) →
  shaped (h ← history t; a ← gets adj; PushResultMinimumAsMicroseconds name h a) [SReport name (Statistic SMinimum t less)].
Proof.
  intros Hadj w u w' Hr H. unfold PushResultMinimumAsMicroseconds, history in H. run_report.
  exists [Report name (Statistic SMinimum t less)]. split; [|done]. simpl. rewrite <- Hadj. by simplify_option_eq.
Qed.
Lemma shaped_minimum name t : shaped (minimum_of name t) [SReport name (Statistic SMinimum t true)].
Proof. by apply (shaped_minimum_with name t _ true). Qed.
Lemma shaped_maximum name t : shaped (maximum_of name t) [SReport name (Statistic SMaximum t true)].
Proof.
  intros w u w' Hr H. unfold maximum_of, PushResultMaximumAsMicroseconds, history, minus_overhead in H. run_report.
  exists [Report name (Statistic SMaximum t true)]. split; [|done]. simpl. by simplify_option_eq.
Qed.
Lemma shaped_percentile name t p : shaped (percentile_of name t p) [SReport name (Statistic (SPercentile p) t true)].
Proof.
  intros w u w' Hr H. unfold percentile_of, PushResultPercentileAsMicroseconds, history, minus_overhead in H. run_report.
  destruct (Mathx.Percentile _ _ _) eqn:E; [|discriminate..]. run_report.
  exists [Report name (Statistic (SPercentile p) t true)]. split; [|done]. simpl. by rewrite E.
Qed.

(** ** A stopwatch of one's own *)
Lemma StopwatchStack_new_Ok r h k w s w' :
  StopwatchStack_new r h k w = Ok s w' → _stack s = [] ∧ _maxDepth s = u32 r ∧ _tagHistorySize s = u32 h ∧ _tagHistory s = ∅.
Proof.
  unfold StopwatchStack_new. intros H. apply bind_Ok in H as (? & ? & _ & H). apply bind_Ok in H as (? & ? & _ & H).
  apply bind_Ok in H as (? & ? & _ & H). by inversion H.
Qed.

Definition no_report (e : effect) : Prop := match e with Report _ _ => False | _ => True end.

Lemma perform_no_report effs : ∀ v v', Forall no_report effs → perform effs v = Some v' → v'.2 = v.2.
Proof.
  induction effs as [|e effs IH]; simpl; intros [s rs] v' Hf H; [by inversion H|].
  apply Forall_cons in Hf as [He Hf].
  destruct e as [t d|t| |name q]; simpl in *; [by apply IH in H|by apply IH in H| |done].
  destruct (Mathx.Minimum _ _) as [o|]; simpl in H; [by apply IH in H|done].
Qed.

(** What a program does to another stopwatch does not show. *)
Lemma quiet_on_stopwatch {A} s (m : M A) :
  is_full s = false → spec m (fun _ effs => Forall no_report effs) → quiet (on_stopwatch s m).
Proof.
  intros Hs Hm w a w' H. unfold on_stopwatch in H.
  destruct (m (with_ss w s)) as [a1 w1| | | | |] eqn:E; try done. inversion H; subst. simpl. split; [done|].
  destruct (Hm (with_ss w s) a w1 Hs E) as (effs & Hp & Hn).
  by apply perform_no_report in Hp.
Qed.
(** ** The log *)

(** Every call a normal run of [m] adds to the log is in [P]. *)
Definition emits {A} (P : event → Prop) (m : M A) : Prop := ∀ w a w',
  m w = Ok a w' → ∃ evs, log w' = evs ++ log w ∧ Forall P evs.

Lemma emits_ret {A} P (a : A) : emits P (ret a).
Proof. intros w b w' H. inversion H. by exists []. Qed.
Lemma emits_sys {A} (P : event → Prop) (c : api A) : (∀ a, P (Event A c a)) → emits P (sys c).
Proof.
  intros Hc w a w' H. unfold sys in H. destruct (os_call c (os w)) as [a' o]. inversion H; subst.
  exists [Event A c a]. split; [done|]. by constructor.
Qed.
Lemma emits_bind {A B} P (m : M A) (f : A → M B) : emits P m → (∀ a, emits P (f a)) → emits P (m ≫= f).
Proof.
  intros Hm Hf w b w' H. apply bind_Ok in H as (a & w1 & H1 & H2).
  destruct (Hm _ _ _ H1) as (e1 & Hl1 & He1), (Hf _ _ _ _ H2) as (e2 & Hl2 & He2).
  exists (e2 ++ e1). split; [by rewrite Hl2, Hl1, app_assoc|]. by apply Forall_app.
Qed.
Lemma emits_assert P b : emits P (assert b).
Proof. intros w u w' H. unfold assert in H. destruct b; inversion H. by exists []. Qed.
Lemma emits_for P lo hi body : (∀ i, emits P (body i)) → emits P (for_ lo hi body).
Proof.
  intros Hb. unfold for_, for_state. generalize (Z.to_nat (hi - lo)) as n. intros n. revert lo.
  induction n as [|n IH]; intros lo; simpl; [apply emits_ret|]. apply emits_bind; [apply Hb|]. intros []. apply IH.
Qed.
Lemma emits_for_list {A} P (l : list A) body : Forall (fun a => emits P (body a)) l → emits P (for_list l body).
Proof.
  intros Hb. unfold for_list. induction Hb as [|a l Ha _ IH]; simpl; [apply emits_ret|]. by apply emits_bind.
Qed.

Lemma emits_gets {A} P (f : world → A) : emits P (gets f).
Proof. intros w b w' H. inversion H. by exists []. Qed.
Lemma emits_modify P f : (∀ w, log (f w) = log w) → emits P (modify f).
Proof. intros Hf w b w' H. inversion H; subst. exists []. by rewrite Hf. Qed.
Lemma emits_throw {A} P what : emits P (throw (A := A) what).
Proof. intros w b w' H. discriminate. Qed.
Lemma emits_lift {A} P (o : option A) : emits P (lift o).
Proof. intros w b w' H. unfold lift in H. destruct o; inversion H. by exists []. Qed.
Lemma emits_when P b m : emits P m → emits P (when b m).
Proof. destruct b; [done|]. intros _. apply emits_ret. Qed.
Lemma emits_for_state {S} P lo hi (body : Z → S → M S) s : (∀ i s, emits P (body i s)) → emits P (for_state lo hi body s).
Proof.
  intros Hb. unfold for_state. generalize (Z.to_nat (hi - lo)) as n. intros n. revert lo s.
  induction n as [|n IH]; intros lo s; simpl; [apply emits_ret|]. apply emits_bind; [apply Hb|]. intros s'. apply IH.
Qed.
Lemma emits_while {S A} P fuel (body : S → M (S + A)) s : (∀ s, emits P (body s)) → emits P (while_ fuel body s).
Proof.
  intros Hb. revert s. induction fuel as [|fuel IH]; intros s; simpl; [intros w a w' H; discriminate|].
  apply emits_bind; [done|]. intros [s'|a]; [done|apply emits_ret].
Qed.
Lemma emits_on_stopwatch {A} P s (m : M A) : emits P m → emits P (on_stopwatch s m).
Proof.
  intros Hm w a w' H. unfold on_stopwatch in H. destruct (m (with_ss w s)) as [b w1| | | | |] eqn:E; try done.
  inversion H; subst. by apply (Hm (with_ss w s) a w1).
Qed.

(** The stopwatch only reads the clock. *)
Lemma emits_Push (P : event → Prop) t : (∀ a, P (Event _ Rdtsc a)) → emits P (Push t).
Proof.
  intros Hp. unfold Push, ReadHighresolutionTimer, on_ss. apply emits_bind; [apply emits_gets|]. intros []; [apply emits_ret|].
  apply emits_bind; [by apply emits_sys|]. intros. by apply emits_modify.
Qed.
Lemma emits_Pop_ (P : event → Prop) : (∀ a, P (Event _ Rdtsc a)) → emits P Pop_.
Proof.
  intros Hp. unfold Pop_, Pop, ReadHighresolutionTimer. apply emits_bind; [|intros; apply emits_ret].
  apply emits_bind; [by apply emits_sys|]. intros v. apply emits_bind; [apply emits_gets|]. intros [|e st]; [apply emits_ret|].
  intros w d w' H. destruct (pop_entry e st v (ss w)). inversion H; subst. by exists [].
Qed.
Lemma emits_store t v : ∀ P, emits P (ss_PopWithValue t v).
Proof.
  intros P w d w' H. unfold ss_PopWithValue in H. destruct (PopWithValue t v (ss w)) as [[d' s]|]; inversion H; subst.
  by exists [].
Qed.
End results.

(** ** Automation *)
Create HintDb quiet.
#[export] Hint Constants Opaque : quiet.
#[export] Hint Resolve quiet_ret quiet_throw quiet_throw_new quiet_undefined quiet_fuel quiet_assert quiet_lift
  quiet_gets quiet_sys quiet_sys_ quiet_hidden quiet_fileSizes quiet_fail_with quiet_fail_with_wsa quiet_print
  quiet_print_ln quiet_history quiet_minus_overhead quiet_Read quiet_StopwatchStack_new : quiet.

(** A quiet program, by its structure. *)
Ltac quiet :=
  repeat (intros;
    first
      [ simple apply quiet_for | simple apply quiet_for_state | simple apply quiet_for_list | simple apply quiet_while
      | simple apply quiet_when
      | solve [eauto 2 with quiet]
      | simple apply quiet_bind
      | match goal with |- quiet (match ?x with _ => _ end) => destruct x end ]).

Create HintDb shaped.
#[export] Hint Constants Opaque : shaped.
#[export] Hint Resolve shaped_mean shaped_median shaped_minimum shaped_maximum shaped_percentile shaped_reset
  shaped_overhead shaped_calibrate shaped_values : shaped.

(** Which calls a program makes, by its structure; the calls themselves are left. *)
Ltac emits :=
  repeat (intros;
    first
      [ simple apply emits_ret | simple apply emits_gets | simple apply emits_throw | simple apply emits_lift
      | simple apply emits_assert | simple apply emits_when
      | simple apply emits_for | simple apply emits_for_state | simple apply emits_while | simple apply emits_on_stopwatch
      | simple apply emits_Push; intros; done | simple apply emits_Pop_; intros; done
      | simple apply emits_sys; intros; done
      | simple apply emits_bind
      | match goal with |- emits _ (match ?x with _ => _ end) => destruct x end ]).
