(* ===== verification/ExperimentEffects.v ===== *)
(** * The effects of the experiments

    What a normal [Run] of each experiment leaves in the stopwatch and the
    results, as a sequence of effects. (The file system
    experiments, whose number of reads depends on the system, are in FileRunProps.) *)
From S2P Require Import Prelude.
From S2P Require Import Win32.
From S2P Require Import Mathx.
From S2P Require Import StopwatchStack.
From S2P Require Import MathxProps.
From S2P Require Import Machine.
From S2P Require Import Experiment.
From S2P Require Import CpuExperiments.
From S2P Require Import ContextSwitch.
From S2P Require Import MemoryExperiments.
From S2P Require Import FakeKernelModel.
From S2P Require Import NetworkExperiments.
From S2P Require Import Effects.

Section effects.
Context `{OS : Win32}.

#[local] Opaque samples.

(** ** CPU, scheduling, OS services *)
Definition overhead_effects (calibrated : bool) : list shape :=
  (if calibrated then [] else samples 50000 measurement_tag ++ [SCalibrate]) ++ [SReport "Minimum (μs)" Overhead].

Lemma overhead_shape : spec MeasurementOverhead.Run
  (fun _ effs => ∃ calibrated, shape_of <$> effs = overhead_effects calibrated).
Proof.
  unfold MeasurementOverhead.Run. intros w u w' Hr H. apply bind_Ok in H as (o & w1 & H1 & H). inversion H1; subst.
  destruct (_ =? 0).
  - destruct (shaped_bind _ _ _ _ shaped_calibrate (fun _ => shaped_overhead "Minimum (μs)") w1 u w' Hr H)
      as (effs & Hp & Hs). exists effs. split; [done|]. by exists false.
  - destruct (shaped_overhead "Minimum (μs)" w1 u w' Hr H) as (effs & Hp & Hs). exists effs. split; [done|]. by exists true.
Qed.

Definition loop_effects : list shape :=
  samples 5000 LoopOverhead.tag_loop
  ++ [SReport "Loop Overhead per 1000 iterations" (Statistic SMean LoopOverhead.tag_loop true)].

Lemma loop_shape : shaped LoopOverhead.Run loop_effects.
Proof.
  apply shaped_bind; [|intros _; apply shaped_mean]. apply shaped_samples; [done|done|]. intros i.
  apply shaped_timed; [done|]. quiet.
Qed.

Definition procedure_effects : list shape :=
  concat ((fun k => let t := lit ("P" ++ dec k)%string in
                    samples 5000 t ++ [SReport (dec k ++ " Parameters (μs)")%string (Statistic SMinimum t true)])
          <$> [0; 1; 2; 3; 4; 5; 6; 7]).

Lemma measure_shape p name call : (∀ i, quiet (call i)) →
  shaped (ProcedureOverhead.measure p name call) (samples 5000 (lit p) ++ [SReport name (Statistic SMinimum (lit p) true)]).
Proof.
  intros Hc. apply shaped_quiet_bind; [apply quiet_hidden|]. intros _.
  apply shaped_bind; [|intros _; apply shaped_minimum]. apply shaped_samples; [done|done|]. intros i.
  apply shaped_bind_quiet; [|quiet]. apply shaped_timed; [done|]. quiet.
Qed.

Lemma procedure_shape : shaped ProcedureOverhead.Run procedure_effects.
Proof.
  eapply shaped_eq.
  - unfold ProcedureOverhead.Run. do 7 (apply shaped_bind; [apply measure_shape; intros; apply quiet_gets|intros _]).
    apply measure_shape. intros. apply quiet_gets.
  - unfold procedure_effects. simpl. rewrite !app_nil_r. by rewrite <- !app_assoc.
Qed.

Definition system_call_effects : list shape :=
  samples 5000 SystemCallOverhead.tagSystemCallOverhead
  ++ [SReport "System Call Overhead (μs)" (Statistic SMean SystemCallOverhead.tagSystemCallOverhead true)].

Lemma system_call_shape : shaped SystemCallOverhead.Run system_call_effects.
Proof.
  apply shaped_bind; [|intros _; apply shaped_mean]. apply shaped_samples; [done|done|]. intros i.
  apply shaped_bind_quiet; [|quiet]. apply shaped_timed; [done|]. quiet.
Qed.

Definition task_effects : list shape :=
  samples 1000 TaskCreation.tagCreateThread
  ++ [SReport "CreateThread (μs)" (Statistic SMedian TaskCreation.tagCreateThread true)]
  ++ samples 1000 TaskCreation.tagCreateProcess
  ++ [SReport "CreateProcess (μs)" (Statistic SMedian TaskCreation.tagCreateProcess true)].

Lemma create_thread_shape : shaped TaskCreation.create_thread [SSample TaskCreation.tagCreateThread].
Proof.
  apply shaped_push. do 3 (apply opened_quiet_bind; [quiet|intros ?]).
  apply opened_pop; [done|]. intros _. apply shaped_quiet. quiet.
Qed.

Lemma opened_throw {A} t what l : opened (A := A) t (fail_with what) l.
Proof.
  intros w a w' e st _ _ _ H. apply bind_Ok in H as (u & w1 & _ & H). discriminate.
Qed.

Lemma create_process_shape : shaped TaskCreation.create_process [SSample TaskCreation.tagCreateProcess].
Proof.
  apply shaped_push. apply opened_quiet_bind; [quiet|]. intros [h|]; [|apply opened_throw].
  apply opened_quiet_bind; [quiet|intros ?]. apply opened_pop; [done|]. intros _. apply shaped_quiet. quiet.
Qed.

Lemma task_shape : shaped TaskCreation.Run task_effects.
Proof.
  apply shaped_bind; [apply shaped_samples; [done|done|intros; apply create_thread_shape]|intros _].
  apply (shaped_bind _ _ [_]); [apply shaped_median|intros _].
  apply shaped_bind; [apply shaped_samples; [done|done|intros; apply create_process_shape]|intros _].
  apply shaped_median.
Qed.

(** ** Context switches *)

(** The differences between successive times. *)
Fixpoint differences (x : TickValue) (rest : list TickValue) : list TickValue :=
  match rest with
  | [] => []
  | y :: rest => s64 (y - x) :: differences y rest
  end.

Lemma length_differences x rest : length (differences x rest) = length rest.
Proof. revert x. induction rest as [|y rest IH]; intros x; simpl; [done|by rewrite IH]. Qed.

Lemma pop_value t v w d w' e st :
  _stack (ss w) = e :: st → e_tag e = t → t ≠ None → ss_PopWithValue t v w = Ok d w' →
  ss w' = StoreResultWithTag (s64 (v - startTime e)) t (with_stack (ss w) st) ∧ results w' = results w.
Proof.
  intros Hst <- Ht H. unfold ss_PopWithValue, PopWithValue in H. rewrite Hst, decide_True in H by done.
  unfold pop_entry in H. rewrite decide_False in H by done. by inversion H.
Qed.

Lemma store_tail t : t ≠ None → ∀ rest x w u w' st,
  rest ≠ [] → _stack (ss w) = mkEntry x t :: st → room (with_ss w (with_stack (ss w) st)) →
  (for_list (removelast rest) (fun y => delta ← ss_PopWithValue t y; ss_PushWithValue t y);;
   delta ← ss_PopWithValue t (List.last rest x); ret tt) w = Ok u w' →
  perform (Sample t <$> differences x rest) (with_stack (ss w) st, results w) = Some (ss w', results w').
Proof.
  intros Ht. induction rest as [|y rest IH]; intros x w u w' st Hne Hst Hr H; [done|]. destruct rest as [|z rest].
  - apply bind_Ok in H as (? & w1 & H1 & H). inversion H1; subst w1.
    apply bind_Ok in H as (d & w1 & H1' & H). inversion H; subst w1.
    destruct (pop_value _ _ _ _ _ _ _ Hst eq_refl Ht H1') as [Es Er]. simpl in *. by rewrite Es, Er.
  - change (removelast (y :: z :: rest)) with (y :: removelast (z :: rest)) in H.
    change (List.last (y :: z :: rest) x) with (List.last (z :: rest) x) in H.
    assert (Hl : List.last (z :: rest) x = List.last (z :: rest) y).
    { clear. revert z. induction rest as [|a rest IH]; intros z; [done|]. apply (IH a). }
    rewrite Hl in H. clear Hl.
    unfold for_list in H. simpl foldr in H.
    apply bind_Ok in H as (? & w2 & H1 & H). apply bind_Ok in H1 as (? & w1 & H1 & H1').
    apply bind_Ok in H1 as (d & w0 & H0 & H1). destruct (pop_value _ _ _ _ _ _ _ Hst eq_refl Ht H0) as [Es Er].
    inversion H1; subst w1; clear H1. simpl in Es.
    set (s1 := StoreResultWithTag (s64 (y - x)) t (with_stack (ss w) st)) in *.
    assert (Hst1 : _stack s1 = st) by (unfold s1; by destruct (store_stack (s64 (y - x)) t (with_stack (ss w) st)) as [-> _]).
    assert (Hf1 : is_full s1 = false).
    { unfold is_full, s1. destruct (store_stack (s64 (y - x)) t (with_stack (ss w) st)) as [-> ->]. exact Hr. }
    assert (Ep : PushWithValue t y s1 = with_stack s1 (mkEntry y t :: st)) by (unfold PushWithValue; by rewrite Hf1, Hst1).
    simpl differences. simpl fmap. cbn [perform apply_effect mbind option_bind]. fold s1.
    specialize (IH y (with_ss w0 (with_stack s1 (mkEntry y t :: st))) u w' st).
    assert (Ews : with_stack s1 st = s1) by (rewrite <- Hst1; apply with_stack_id).
    cbn [ss with_ss results] in IH. rewrite with_stack_twice, Ews, Er in IH. apply IH; [done|done|done|].
    rewrite Es, Ep in H1'. by apply (bind_intro _ _ _ _ _ _ H1').
Qed.

(** The samples stored are the differences of the sorted times. *)
Lemma store_differences_effects t data : t ≠ None → (2 <= length data)%nat →
  spec (ContextSwitchTime.store_differences t data) (fun _ effs =>
    ∃ first rest, Mathx.sort (fun x : TickValue => x) data = first :: rest ∧ effs = Sample t <$> differences first rest).
Proof.
  intros Ht Hlen w u w' Hr H. unfold ContextSwitchTime.store_differences in H.
  pose proof (MathxProps.sort_length (fun x : Z => x) data) as Hl.
  destruct (Mathx.sort _ data) as [|first rest] eqn:Es; [discriminate|]. simpl in Hl.
  destruct rest as [|y rest]; [simpl in Hl; lia|].
  apply bind_Ok in H as (? & w1 & H1 & H). inversion H1; subst w1; clear H1.
  exists (Sample t <$> differences first (y :: rest)). split; [|by eauto].
  assert (Ep : PushWithValue t first (ss w) = with_stack (ss w) (mkEntry first t :: _stack (ss w))).
  { unfold PushWithValue. unfold room in Hr. by rewrite Hr. }
  rewrite Ep in H.
  eapply (store_tail t Ht (y :: rest) first) in H; [|done|done|unfold room; simpl; by rewrite with_stack_twice, with_stack_id].
  simpl in H. by rewrite with_stack_twice, with_stack_id in H.
Qed.

Lemma for_state_append {A} lo hi (body : Z → list A → M (list A)) (l0 : list A) : lo <= hi →
  (∀ i l w l' w', body i l w = Ok l' w' → length l' = S (length l)) →
  ∀ w l w', for_state lo hi body l0 w = Ok l w' → Z.of_nat (length l) = Z.of_nat (length l0) + (hi - lo).
Proof.
  intros Hle Hb. unfold for_state. remember (Z.to_nat (hi - lo)) as n eqn:Hn.
  replace (hi - lo) with (Z.of_nat n) by lia. clear Hn Hle. revert lo l0.
  induction n as [|n IH]; intros lo l0 w l w' H; [inversion H; lia|]. simpl in H.
  apply bind_Ok in H as (l1 & w1 & H1 & H). apply Hb in H1. apply IH in H. lia.
Qed.

Lemma collect_length p a b w l w' : ContextSwitchTime.collect p a b w = Ok l w' →
  length l = 642%nat.
Proof.
  intros H. unfold ContextSwitchTime.collect in H.
  apply bind_Ok in H as (? & ? & _ & H). apply bind_Ok in H as (? & ? & _ & H).
  apply for_state_append in H; [simpl in H; unfold ContextSwitchTime.count, ContextSwitchTime.batchSize in H; lia|done|].
  clear. intros i l w l' w' H. apply bind_Ok in H as (? & ? & _ & H). inversion H. rewrite length_app. simpl. lia.
Qed.

Definition switch_effects (t : tag) (name : string) : list shape :=
  samples 641 t ++ [SReport name (Statistic SMedian t true)].

Lemma fmap_samples t l : shape_of <$> (Sample t <$> l) = replicate (length l) (SSample t).
Proof. induction l as [|d l IH]; simpl; [done|by f_equal]. Qed.

Lemma store_shape t data : t ≠ None → length data = 642%nat →
  shaped (ContextSwitchTime.store_differences t data) (samples 641 t).
Proof.
  intros Ht Hl. eapply spec_mono; [apply (store_differences_effects t data Ht); lia|].
  intros _ effs (first & rest & Hs & ->). rewrite fmap_samples, length_differences.
  pose proof (MathxProps.sort_length (fun x : Z => x) data) as Hn. rewrite Hs, Hl in Hn. simpl in Hn.
  injection Hn as Hn. rewrite Hn. done.
Qed.

(** The times collected, stored and reported. *)
Lemma collect_and_store {A} p a b t name (k : M A) : t ≠ None → quiet k →
  shaped (data ← ContextSwitchTime.collect p a b; ContextSwitchTime.store_differences t data;; median_of name t;; k)
    (switch_effects t name).
Proof.
  intros Ht Hk w u w' Hr H. apply bind_Ok in H as (data & w1 & H1 & H).
  assert (Hq : quiet (ContextSwitchTime.collect p a b)) by (unfold ContextSwitchTime.collect; quiet).
  destruct (Hq _ _ _ H1) as [Es Er].
  assert (Hsh : shaped (ContextSwitchTime.store_differences t data;; median_of name t;; k) (switch_effects t name)).
  { apply shaped_bind; [apply store_shape; [done|by apply collect_length in H1]|]. intros _.
    apply shaped_bind_quiet; [apply shaped_median|]. by intros _. }
  rewrite <- Es, <- Er. apply (Hsh w1 u w'); [|done]. unfold room in *. by rewrite Es.
Qed.
End effects.
