(* ===== verification/MemoryNetworkEffects.v ===== *)
(** * The effects of the memory, kernel and network experiments *)
From S2P Require Import Prelude.
From S2P Require Import Win32.
From S2P Require Import Mathx.
From S2P Require Import StopwatchStack.
From S2P Require Import Machine.
From S2P Require Import Experiment.
From S2P Require Import ContextSwitch.
From S2P Require Import MemoryExperiments.
From S2P Require Import FakeKernelModel.
From S2P Require Import NetworkExperiments.
From S2P Require Import Effects.
From S2P Require Import ExperimentEffects.

#[local] Opaque samples.

Section effects.
Context `{OS : Win32}.

Definition median_report (name : string) (t : tag) : shape := SReport name (Statistic SMedian t true).

(** ** Context switches *)
Definition context_switch_effects : list shape :=
  switch_effects ContextSwitchTime._threadSwitchStopwatchTag "Thread Switch Time (μs)"
  ++ switch_effects ContextSwitchTime._processSwitchStopwatchTag "Process Switch Time (μs)".

Lemma quiet_workers create : (∀ i, quiet (create i)) → quiet (ContextSwitchTime.create_all create).
Proof. intros Hc. unfold ContextSwitchTime.create_all. quiet. Qed.

Lemma context_switch_shape this : shaped (ContextSwitchTime.Run this) context_switch_effects.
Proof.
  unfold ContextSwitchTime.Run. apply shaped_bind; [|intros this'].
  - unfold ContextSwitchTime.RunUsingThreads. do 2 (apply shaped_quiet_bind; [quiet|intros ?]).
    apply shaped_quiet_bind; [apply quiet_workers; intros; unfold ContextSwitchTime.CreateThread; quiet|intros ?].
    apply shaped_quiet_bind; [quiet|intros ?].
    apply shaped_quiet_bind; [unfold ContextSwitchTime.release_and_wait; quiet|intros [t0 t1]].
    apply collect_and_store; [done|quiet].
  - unfold ContextSwitchTime.RunUsingProcesses. do 6 (apply shaped_quiet_bind; [quiet|intros ?]).
    apply shaped_quiet_bind; [apply quiet_workers; intros; unfold ContextSwitchTime.CreateProcess; quiet|intros ?].
    apply shaped_quiet_bind; [unfold ContextSwitchTime.release_and_wait; quiet|intros [t0 t1]].
    apply collect_and_store; [done|quiet].
Qed.

(** ** Memory *)

(** A round either times something and says so, or does not. *)
Definition round_effects (t : tag) (b : bool) (effs : list effect) : Prop :=
  shape_of <$> effs = if b then [SSample t] else [].

Lemma round_failed t s : spec (print_ln s;; ret false) (round_effects t).
Proof. apply spec_quiet_bind; [quiet|]. intros _ w b w' Hr H. inversion H; subst. by exists []. Qed.

Definition goes_on (k : M bool) : Prop := ∀ w b w', k w = Ok b w' → b = true.
Lemma goes_on_ret : goes_on (ret true). Proof. intros w b w' H. by inversion H. Qed.
Lemma goes_on_bind {A} (m : M A) (k : A → M bool) : (∀ a, goes_on (k a)) → goes_on (m ≫= k).
Proof. intros Hk w b w' H. apply bind_Ok in H as (a & w1 & _ & H). by apply Hk in H. Qed.

Lemma round_timed t m (k : M bool) : t ≠ None → quiet m → quiet k → goes_on k → spec (timed t m;; k) (round_effects t).
Proof.
  intros Ht Hm Hk Hgo w b w' Hr H. apply bind_Ok in H as (u & w2 & H2 & H).
  destruct (shaped_timed t m Ht Hm w u w2 Hr H2) as (effs & Hp & Hs).
  destruct (Hk _ _ _ H) as [-> ->]. apply Hgo in H as ->. by exists effs.
Qed.

Definition latency_title (i : Z) : string := ("Memory Latency Bytes: " ++ dec i)%string.
Definition latency_size_effects (i : Z) : list shape :=
  SReset MemoryLatency.tag_latency :: samples 200 MemoryLatency.tag_latency
  ++ [median_report (latency_title i) MemoryLatency.tag_latency].
Definition latency_partial (k : Z) : list shape :=
  SReset MemoryLatency.tag_latency :: samples k MemoryLatency.tag_latency.

Lemma latency_round_spec i : spec (MemoryLatency.round i) (round_effects MemoryLatency.tag_latency).
Proof.
  apply spec_quiet_bind; [quiet|]. intros p. destruct (p =? NULL); [apply round_failed|].
  apply spec_quiet_bind; [unfold MemoryLatency.initialize; quiet|]. intros m.
  apply round_timed; [done|unfold MemoryLatency.chase; quiet|quiet|]. apply goes_on_bind. intros _. apply goes_on_ret.
Qed.

Lemma latency_size_spec i : spec (MemoryLatency.size i) (fun b effs =>
  if b then shape_of <$> effs = latency_size_effects i
  else ∃ k, k < 200 ∧ shape_of <$> effs = latency_partial k).
Proof.
  intros w b w' Hr H. unfold MemoryLatency.size in H. apply bind_Ok in H as (u & w1 & H1 & H).
  destruct (shaped_reset _ _ _ _ Hr H1) as (e1 & Hp1 & Hs1). pose proof (room_perform _ _ _ Hr Hp1) as Hr1.
  apply bind_Ok in H as (go_on & w2 & H2 & H).
  destruct (spec_until 0 MemoryLatency.numIterations _ _ ltac:(done) (fun _ => latency_round_spec i) w1 go_on w2 Hr1 H2)
    as (e2 & Hp2 & k & Hs2 & Hk).
  pose proof (room_perform _ _ _ Hr1 Hp2) as Hr2. apply bind_Ok in H as (u2 & w3 & H3 & H). inversion H; subst. destruct b.
  - destruct (shaped_median _ _ _ _ _ Hr2 H3) as (e3 & Hp3 & Hs3). exists (e1 ++ e2 ++ e3).
    rewrite !perform_app, Hp1. cbn [mbind option_bind]. rewrite perform_app, Hp2. split; [done|].
    rewrite !fmap_app, Hs1, Hs2, Hs3. subst k. unfold latency_size_effects. by rewrite samples_replicate.
  - inversion H3; subst. exists (e1 ++ e2). rewrite perform_app, Hp1. split; [done|].
    exists (Z.of_nat k). unfold MemoryLatency.numIterations in Hk. split; [lia|].
    rewrite fmap_app, Hs1, Hs2. unfold latency_partial. by rewrite samples_replicate, Nat2Z.id.
Qed.

(** The sizes are 64 * 2^0, ..., 64 * 2^18 bytes. *)
Definition latency_sizes : list Z := (fun k => 64 * 2 ^ k) <$> seqZ 0 19.

(** All sizes; or the first [j], and part of the next. *)
Definition latency_effects (effs : list shape) : Prop :=
  effs = concat (latency_size_effects <$> latency_sizes) ∨
  ∃ j k, (j < 19)%nat ∧ k < 200 ∧
    effs = concat (latency_size_effects <$> take j latency_sizes) ++ latency_partial k.

Definition latency_body (i : Z) : M (Z + unit) :=
  if i <? Z.shiftl MaxCacheSize 2 then
    go_on ← MemoryLatency.size i;
    ret (if (go_on : bool) then inl (Z.shiftl i 1) else inr tt)
  else ret (inr tt).

Lemma latency_loop n : ∀ m fuel, (m + n = 19)%nat → (n < fuel)%nat →
  spec (while_ fuel latency_body (64 * 2 ^ Z.of_nat m)) (fun _ effs =>
    (shape_of <$> effs = concat (latency_size_effects <$> drop m latency_sizes)) ∨
    ∃ j k, (m <= j < 19)%nat ∧ k < 200 ∧
      shape_of <$> effs = concat (latency_size_effects <$> take (j - m) (drop m latency_sizes)) ++ latency_partial k).
Proof.
  induction n as [|n IH]; intros m fuel Hm Hf w u w' Hr H; (destruct fuel as [|fuel]; [lia|]); simpl in H.
  - assert (m = 19)%nat as -> by lia. apply bind_Ok in H as (r & w1 & H1 & H). inversion H1; subst. inversion H; subst.
    exists []. split; [done|]. by left.
  - apply bind_Ok in H as (r & w1 & H1 & H). unfold latency_body in H1.
    assert (Hlt : (64 * 2 ^ Z.of_nat m <? Z.shiftl MaxCacheSize 2) = true).
    { apply Z.ltb_lt. change (Z.shiftl MaxCacheSize 2) with (64 * 2 ^ 19).
      pose proof (Z.pow_lt_mono_r 2 (Z.of_nat m) 19). lia. }
    rewrite Hlt in H1. apply bind_Ok in H1 as (b & w2 & H1 & H2). inversion H2; subst; clear H2.
    destruct (latency_size_spec _ _ _ _ Hr H1) as (e1 & Hp1 & Hs1). pose proof (room_perform _ _ _ Hr Hp1) as Hr1.
    assert (Hd : drop m latency_sizes = 64 * 2 ^ Z.of_nat m :: drop (S m) latency_sizes).
    { apply drop_S. unfold latency_sizes. rewrite list_lookup_fmap, lookup_seqZ_lt by lia. done. }
    destruct b.
    + assert (Hsh : Z.shiftl (64 * 2 ^ Z.of_nat m) 1 = 64 * 2 ^ Z.of_nat (S m)).
      { rewrite Z.shiftl_mul_pow2 by lia. rewrite Nat2Z.inj_succ, Z.pow_succ_r by lia. lia. }
      rewrite Hsh in H. destruct (IH (S m) fuel ltac:(lia) ltac:(lia) w1 u w' Hr1 H) as (e2 & Hp2 & Hs2).
      exists (e1 ++ e2). rewrite perform_app, Hp1. split; [done|]. rewrite fmap_app, Hs1, Hd.
      destruct Hs2 as [Hs2|(j & k & Hj & Hk & Hs2)]; rewrite Hs2; [by left|right]. exists j, k. split; [lia|]. split; [done|].
      replace (j - m)%nat with (S (j - S m)) by lia. simpl. by rewrite <- app_assoc.
    + destruct Hs1 as (k & Hk & Hs1). inversion H; subst. exists e1. split; [done|]. right. exists m, k.
      split; [lia|]. split; [done|]. by rewrite Nat.sub_diag.
Qed.

Lemma latency_shape : spec MemoryLatency.Run (fun _ effs => latency_effects (shape_of <$> effs)).
Proof.
  eapply spec_mono; [apply (latency_loop 19 0 32); lia|]. intros u effs.
  intros [H|(j & k & Hj & Hk & H)]; [by left|right]. exists j, k. rewrite Nat.sub_0_r in H. split; [lia|done].
Qed.

Definition bandwidth_bytes : Z := Z.shiftl MaxCacheSize 1.
Definition bandwidth_read_title : string := ("Memory Bandwidth Read Bytes: " ++ dec bandwidth_bytes)%string.
Definition bandwidth_copy_effects : list shape :=
  samples 100 MemoryBandwidth.tagMemCopy
  ++ [median_report ("Memory Bandwidth memcpy Bytes: " ++ dec bandwidth_bytes)%string MemoryBandwidth.tagMemCopy].
Definition bandwidth_read_effects : list shape :=
  samples 100 MemoryBandwidth.tagMemRead ++ [median_report bandwidth_read_title MemoryBandwidth.tagMemRead].
(** The times of the writes are reported under the title of the reads. *)
Definition bandwidth_write_effects : list shape :=
  samples 100 MemoryBandwidth.tagMemWrite ++ [median_report bandwidth_read_title MemoryBandwidth.tagMemWrite].

(** A failed [malloc] of a copy or a read ends the run. *)
Definition bandwidth_effects (effs : list shape) : Prop :=
  effs = bandwidth_copy_effects ++ bandwidth_read_effects ++ bandwidth_write_effects ∨
  (∃ k, k < 100 ∧ effs = samples k MemoryBandwidth.tagMemCopy) ∨
  (∃ k, k < 100 ∧ effs = bandwidth_copy_effects ++ samples k MemoryBandwidth.tagMemRead).


Lemma copy_round_spec n : spec (MemoryBandwidth.copy_round n) (round_effects MemoryBandwidth.tagMemCopy).
Proof.
  do 2 (apply spec_quiet_bind; [quiet|intros ?]). destruct (_ || _); [apply round_failed|].
  apply round_timed; [done|quiet|quiet|]. do 2 (apply goes_on_bind; intros _). apply goes_on_ret.
Qed.

Lemma quiet_fill p n : quiet (MemoryBandwidth.fill p n).
Proof. unfold MemoryBandwidth.fill. quiet. Qed.
Lemma quiet_read_all p n m : quiet (MemoryBandwidth.read_all p n m).
Proof. unfold MemoryBandwidth.read_all. quiet. Qed.
Lemma quiet_write_all p n m : quiet (MemoryBandwidth.write_all p n m).
Proof. unfold MemoryBandwidth.write_all. quiet. Qed.
#[local] Hint Resolve quiet_fill quiet_read_all quiet_write_all : quiet.

Lemma read_round_spec n : spec (MemoryBandwidth.read_round n) (round_effects MemoryBandwidth.tagMemRead).
Proof.
  apply spec_quiet_bind; [quiet|]. intros p. destruct (p =? NULL); [apply round_failed|].
  apply spec_quiet_bind; [quiet|]. intros m.
  apply round_timed; [done|quiet|quiet|]. apply goes_on_bind. intros _. apply goes_on_ret.
Qed.

Lemma write_round_shape n : shaped (MemoryBandwidth.write_round n) [SSample MemoryBandwidth.tagMemWrite].
Proof.
  apply shaped_quiet_bind; [quiet|]. intros p. destruct (p =? NULL).
  { intros w u w' _ H. discriminate. }
  apply shaped_quiet_bind; [quiet|]. intros m. apply shaped_bind_quiet; [|quiet].
  apply shaped_timed; [done|quiet].
Qed.

(** A hundred rounds: all, or fewer. *)
Lemma rounds_spec body t : (∀ i, spec (body i) (round_effects t)) →
  spec (for_until 0 100 body) (fun b effs =>
    if b then shape_of <$> effs = samples 100 t else ∃ k, k < 100 ∧ shape_of <$> effs = samples k t).
Proof.
  intros Hb. eapply spec_mono; [apply (spec_until 0 100 _ (SSample t)); [done|exact Hb]|].
  intros [] effs (k & Hs & Hk).
  - subst k. by rewrite samples_replicate.
  - exists (Z.of_nat k). split; [lia|]. by rewrite samples_replicate, Nat2Z.id.
Qed.

(** One size, in three parts. *)
Lemma bandwidth_writes n title : shaped
  (for_ 0 MemoryBandwidth.numIterations (fun j => MemoryBandwidth.write_round n);;
   median_of title MemoryBandwidth.tagMemWrite;; ret true)
  (samples 100 MemoryBandwidth.tagMemWrite ++ [median_report title MemoryBandwidth.tagMemWrite]).
Proof.
  apply shaped_bind; [apply shaped_samples; [done|done|intros; apply write_round_shape]|intros _].
  apply shaped_bind_quiet; [apply shaped_median|quiet].
Qed.

Lemma bandwidth_size_spec : spec (MemoryBandwidth.size bandwidth_bytes)
  (fun _ effs => bandwidth_effects (shape_of <$> effs)).
Proof.
  unfold MemoryBandwidth.size. eapply spec_then; [apply rounds_spec; intros; apply copy_round_spec|].
  intros []; simpl negb; cbv iota.
  2: { eapply spec_mono; [apply spec_quiet, quiet_ret|]. intros b e2 -> e1 (k & Hk & Hs).
       rewrite app_nil_r, Hs. right; left. by exists k. }
  eapply spec_then; [apply shaped_median|]. intros ?.
  eapply spec_then; [apply rounds_spec; intros; apply read_round_spec|].
  intros []; simpl negb; cbv iota.
  2: { eapply spec_mono; [apply spec_quiet, quiet_ret|]. intros b e4 -> e3 (k & Hk & Hs3) e2 Hs2 e1 Hs1.
       right; right. exists k. rewrite !fmap_app, Hs1, Hs2, Hs3. split; [done|]. by rewrite app_nil_r, <- ?app_assoc. }
  eapply spec_then; [apply shaped_median|]. intros ?. eapply spec_mono; [apply bandwidth_writes|].
  intros b e5 Hs5 e4 Hs4 e3 Hs3 e2 Hs2 e1 Hs1. left. rewrite !fmap_app, Hs1, Hs2, Hs3, Hs4, Hs5.
  unfold bandwidth_copy_effects, bandwidth_read_effects, bandwidth_write_effects. by rewrite <- !app_assoc.
Qed.

Lemma bandwidth_shape : spec MemoryBandwidth.Run (fun _ effs => bandwidth_effects (shape_of <$> effs)).
Proof.
  unfold MemoryBandwidth.Run, for_until. simpl loop_until. eapply spec_then; [|intros b].
  - eapply spec_then; [apply bandwidth_size_spec|]. intros b.
    eapply (spec_mono _ (fun _ effs => effs = [])).
    + destruct b; apply spec_quiet, quiet_ret.
    + intros b' e2 -> e1 H1. rewrite app_nil_r. exact H1.
  - eapply spec_mono; [apply spec_quiet, quiet_ret|]. intros u e2 -> e1 H1. by rewrite app_nil_r.
Qed.

Definition page_fault_effects : list shape :=
  samples 100 MemoryPageFault.tag_fault
  ++ [median_report "Page Fault Time Median (μs)" MemoryPageFault.tag_fault;
      SReport "Page Fault Time Max (μs)" (Statistic SMaximum MemoryPageFault.tag_fault true)].

Lemma fault_shape p r : shaped (MemoryPageFault.fault p r) [SSample MemoryPageFault.tag_fault].
Proof.
  unfold MemoryPageFault.fault. eapply shaped_eq; [apply (shaped_for_same 0 1 _ (SSample MemoryPageFault.tag_fault)); [done|]|done].
  intros i. do 3 (apply shaped_quiet_bind; [quiet|intros ?]).
  apply (shaped_values_then _ _ _ _ []); [done|]. intros d. apply shaped_quiet. quiet.
Qed.

Lemma page_fault_shape : shaped MemoryPageFault.Run page_fault_effects.
Proof.
  unfold MemoryPageFault.Run, MemoryPageFault.lower_priority, MemoryPageFault.touch_pages, MemoryPageFault.launch_suckers.
  do 2 (apply shaped_quiet_bind; [quiet|intros ?]). do 3 (apply shaped_quiet_bind; [quiet|intros ?]).
  apply shaped_bind; [apply shaped_samples; [done|done|intros; apply fault_shape]|intros _].
  do 2 (apply shaped_quiet_bind; [quiet|intros ?]).
  apply (shaped_bind _ _ [_] [_]); [apply shaped_median|intros _; apply shaped_maximum].
Qed.

(** ** The fake kernel *)
Definition kernel_effects : list shape :=
  samples 5000 FakeKernel.tag_verify ++ [median_report "User Argument Verification (μs)" FakeKernel.tag_verify]
  ++ samples 5000 FakeKernel.tag_allocate ++ [median_report "Resource Allocation (μs)" FakeKernel.tag_allocate].

Lemma quiet_inspect objects : ∀ before, quiet (FakeKernel.inspect before objects).
Proof.
  induction objects as [|[o|] objects IH]; intros before; simpl; [quiet| |apply IH].
  apply quiet_bind; [|intros; apply IH]. unfold FakeKernel.compare_objects, FakeKernel.rand_mod. quiet.
Qed.

Lemma quiet_allocation m k this : quiet (FakeKernel.FakeResourceAllocation m k this).
Proof. unfold FakeKernel.FakeResourceAllocation. quiet. Qed.

Lemma kernel_shape this : shaped (FakeKernel.Run this) kernel_effects.
Proof.
  unfold FakeKernel.Run. apply shaped_bind.
  { apply shaped_samples; [done|done|]. intros i. unfold FakeKernel.verify_once, FakeKernel.rand_mod.
    do 5 (apply shaped_quiet_bind; [quiet|intros ?]). apply shaped_timed; [done|apply quiet_inspect]. }
  intros _. apply (shaped_bind _ _ [_]); [apply shaped_median|intros _].
  apply shaped_bind; [|intros this'; apply shaped_bind_quiet; [apply shaped_median|quiet]].
  eapply shaped_eq; [apply (shaped_for_state_same 0 defaultNumIterations _ _ (SSample FakeKernel.tag_allocate)); [done|]|by rewrite samples_replicate].
  intros i s. apply shaped_push. apply opened_quiet_bind; [apply quiet_allocation|intros s'].
  apply opened_pop; [done|]. intros _. apply shaped_quiet. quiet.
Qed.

(** ** Network *)
Lemma quiet_wsa b what : quiet (wsa_require b what).
Proof. unfold wsa_require. quiet. Qed.
#[local] Hint Resolve quiet_wsa : quiet.

Lemma quiet_create_socket : quiet NetworkPeakBandwidth.create_socket.
Proof. unfold NetworkPeakBandwidth.create_socket. quiet. Qed.
Lemma quiet_close_socket s : quiet (NetworkPeakBandwidth.close_socket s).
Proof. unfold NetworkPeakBandwidth.close_socket. quiet. Qed.
Lemma quiet_init : quiet NetworkPeakBandwidth.InitWinsock.
Proof. unfold NetworkPeakBandwidth.InitWinsock. quiet. Qed.
Lemma quiet_server n : quiet (NetworkPeakBandwidth.CreateLocalChildServer n).
Proof. unfold NetworkPeakBandwidth.CreateLocalChildServer. quiet. Qed.
#[local] Hint Resolve quiet_create_socket quiet_close_socket quiet_init quiet_server : quiet.

Lemma send_chunk_shape s c n t r : t ≠ None →
  shaped (NetworkPeakBandwidth.send_chunk s c n t r)
    (if NetworkPeakBandwidth.recordTiming n r then [SSample t] else []).
Proof.
  intros Ht. unfold NetworkPeakBandwidth.send_chunk. destruct (NetworkPeakBandwidth.recordTiming n r); unfold when.
  - apply shaped_push. do 2 (apply opened_quiet_bind; [quiet|intros ?]).
    intros w u w' e st Hst He Hr H.
    apply (opened_pop t ret [] Ht (fun u => shaped_quiet _ (quiet_ret u)) w u w' e st); try done.
    unfold mbind, M_bind. by rewrite H.
  - apply shaped_quiet. quiet.
Qed.

(** 251 of 500 sends are timed. *)
Lemma timed_sends t : concat ((fun r => if NetworkPeakBandwidth.recordTiming 500 r then [SSample t] else []) <$> seqZ 0 500)
  = samples 251 t.
Proof. rewrite samples_replicate. vm_compute. reflexivity. Qed.

Lemma connect_and_send_shape a p c t : t ≠ None →
  shaped (NetworkPeakBandwidth.ConnectAndSend a p c 500 t) (samples 251 t).
Proof.
  intros Ht. unfold NetworkPeakBandwidth.ConnectAndSend. do 6 (apply shaped_quiet_bind; [quiet|intros ?]).
  apply shaped_bind_quiet; [|quiet]. rewrite <- timed_sends.
  apply (shaped_for 0 500); [done|]. intros r. by apply send_chunk_shape.
Qed.

Lemma push_bandwidth_shape name t : shaped (NetworkPeakBandwidth.push_bandwidth name t)
  [SReport name (Bandwidth NetworkPeakBandwidth.chunkSize t)].
Proof.
  intros w u w' Hr H. unfold NetworkPeakBandwidth.push_bandwidth, history in H. run_report.
  exists [Report name (Bandwidth NetworkPeakBandwidth.chunkSize t)]. split; [|done]. simpl. by simplify_option_eq.
Qed.

Definition bandwidth_report (name : string) (t : tag) : shape := SReport name (Bandwidth NetworkPeakBandwidth.chunkSize t).

Definition peak_effects : list shape :=
  samples 251 NetworkPeakBandwidth.tagLocal ++ [bandwidth_report "Local (bytes/second)" NetworkPeakBandwidth.tagLocal]
  ++ samples 251 NetworkPeakBandwidth.tagRemote ++ [bandwidth_report "Remote (bytes/second)" NetworkPeakBandwidth.tagRemote].

Lemma peak_shape : shaped NetworkPeakBandwidth.Run peak_effects.
Proof.
  unfold NetworkPeakBandwidth.Run. do 2 (apply shaped_quiet_bind; [quiet|intros ?]).
  apply shaped_bind; [by apply connect_and_send_shape|intros _].
  apply shaped_bind; [apply push_bandwidth_shape|intros _].
  apply shaped_bind; [by apply connect_and_send_shape|intros _].
  apply shaped_bind_quiet; [apply push_bandwidth_shape|]. unfold NetworkPeakBandwidth.CleanupWinsock. quiet.
Qed.

(** Two samples each time, [n] times. *)
Definition pairs (n : Z) (t1 t2 : tag) : list shape := concat (replicate (Z.to_nat n) [SSample t1; SSample t2]).

Lemma pairs_seqZ n t1 t2 : concat ((fun _ => [SSample t1; SSample t2]) <$> seqZ 0 n) = pairs n t1 t2.
Proof.
  unfold pairs. f_equal. unfold seqZ. generalize 0%nat. clear. induction (Z.to_nat n) as [|k IH]; intros j; [done|].
  simpl. f_equal. apply (IH (S j)).
Qed.

Lemma shaped_pairs n body t1 t2 : 0 <= n → (∀ i, shaped (body i) [SSample t1; SSample t2]) →
  shaped (for_ 0 n body) (pairs n t1 t2).
Proof.
  intros Hn Hb. eapply shaped_eq; [by apply (shaped_for 0 n body (fun _ => [SSample t1; SSample t2]))|].
  rewrite Z.sub_0_r. apply pairs_seqZ.
Qed.

Definition connection_effects (setup teardown : tag) (setupName teardownName : string) : list shape :=
  pairs 500 setup teardown ++ [median_report setupName setup; median_report teardownName teardown].

Definition setup_effects : list shape :=
  connection_effects NetworkSetupTeardown.tagLocalSetup NetworkSetupTeardown.tagLocalTeardown
    "Local Setup (μs)" "Local Teardown (μs)"
  ++ connection_effects NetworkSetupTeardown.tagRemoteSetup NetworkSetupTeardown.tagRemoteTeardown
    "Remote Setup (μs)" "Remote Teardown (μs)".

Lemma connection_shape a p s d : s ≠ None → d ≠ None →
  shaped (NetworkSetupTeardown.ConnectAndDisconnect a p s d) [SSample s; SSample d].
Proof.
  intros Hs Hd. unfold NetworkSetupTeardown.ConnectAndDisconnect. do 2 (apply shaped_quiet_bind; [quiet|intros ?]).
  apply shaped_push. apply opened_quiet_bind; [quiet|intros ?]. apply opened_pop; [done|]. intros _.
  apply shaped_quiet_bind; [quiet|intros ?].
  apply shaped_push. apply opened_quiet_bind; [quiet|intros ?]. apply opened_quiet_bind; [quiet|intros [recv bytes]].
  apply opened_pop; [done|]. intros _. apply shaped_quiet. quiet.
Qed.

Lemma side_shape a s d sn dn : s ≠ None → d ≠ None →
  shaped (NetworkSetupTeardown.side a s d sn dn) (connection_effects s d sn dn).
Proof.
  intros Hs Hd. unfold NetworkSetupTeardown.side. apply shaped_bind.
  - apply shaped_pairs; [done|]. intros i. apply shaped_bind_quiet; [by apply connection_shape|quiet].
  - intros _. apply (shaped_bind _ _ [_] [_]); [apply shaped_median|intros _; apply shaped_median].
Qed.

Lemma setup_shape : shaped NetworkSetupTeardown.Run setup_effects.
Proof.
  unfold NetworkSetupTeardown.Run. do 2 (apply shaped_quiet_bind; [quiet|intros ?]).
  apply shaped_bind; [by apply side_shape|intros _]. apply shaped_bind_quiet; [by apply side_shape|].
  unfold NetworkPeakBandwidth.CleanupWinsock. quiet.
Qed.

Definition ping_effects (timed reported : tag) (timedName reportedName : string) : list shape :=
  pairs 500 timed reported
  ++ [SReport timedName (Statistic SMinimum timed true); SReport reportedName (Statistic SMinimum reported false)].

Definition round_trip_effects : list shape :=
  ping_effects NetworkRoundTripTime.tagLocalTimed NetworkRoundTripTime.tagLocalReported
    "Local Ping Timed (μs)" "Local Ping Reported (μs)"
  ++ ping_effects NetworkRoundTripTime.tagRemoteTimed NetworkRoundTripTime.tagRemoteReported
    "Remote Ping Timed (μs)" "Remote Ping Reported (μs)".

Lemma ping_shape h b t1 t2 d : t1 ≠ None → t2 ≠ None →
  shaped (NetworkRoundTripTime.PerformPing h b t1 t2 d) [SSample t1; SSample t2].
Proof.
  intros H1 H2. unfold NetworkRoundTripTime.PerformPing. apply shaped_quiet_bind; [quiet|intros ?].
  apply shaped_push. apply opened_quiet_bind; [quiet|intros (c & st & rtt)]. apply opened_pop; [done|]. intros _.
  do 2 (apply shaped_quiet_bind; [quiet|intros ?]).
  intros w u w' Hr H. apply bind_Ok in H as (? & wa & Ha & H). apply bind_Ok in H as (s & wb & Hb & H). inversion Hb; subst.
  apply bind_Ok in H as (ticks & wc & Hc & H). unfold lift in Hc. destruct (MillisecondsToTicks _ _); [|done]. inversion Hc; subst.
  apply (shaped_values_then t2 0 ticks (fun _ => ret tt) [] H2 (fun _ => shaped_quiet _ (quiet_ret tt)) w u w' Hr).
  by apply (bind_intro _ _ _ _ _ _ Ha).
Qed.

Lemma ping_side_shape h b d t1 t2 n1 n2 : t1 ≠ None → t2 ≠ None →
  shaped (NetworkRoundTripTime.side h b d t1 t2 n1 n2) (ping_effects t1 t2 n1 n2).
Proof.
  intros H1 H2. unfold NetworkRoundTripTime.side. apply shaped_bind.
  - apply shaped_pairs; [done|]. intros i. apply shaped_bind_quiet; [by apply ping_shape|quiet].
  - intros _. apply (shaped_bind _ _ [_] [_]); [apply shaped_minimum|intros _].
    apply (shaped_minimum_with n2 t2 (fun _ => 0) false). done.
Qed.

Lemma round_trip_shape h : shaped (NetworkRoundTripTime.Run h) round_trip_effects.
Proof.
  unfold NetworkRoundTripTime.Run. apply shaped_quiet_bind; [quiet|intros ?].
  apply shaped_bind; [by apply ping_side_shape|intros _]. apply shaped_bind_quiet; [by apply ping_side_shape|quiet].
Qed.
End effects.
