(* ===== verification/DemoOs.v ===== *)
(** * A concrete system, for the witnesses

    Every call succeeds; the clock advances by one at each call. *)
From S2P Require Import Prelude.
From S2P Require Import Words.
From S2P Require Import Win32.
From S2P Require Import Mathx.
From S2P Require Import StopwatchStack.
From S2P Require Import Machine.

(** The answer to a call at time [now]. *)
Definition demo_answer {A} (c : api A) (now : Z) : A :=
  match c in api T return T with
  | QueryPerformanceFrequency => 1000000
  | RegGetMhz => 1000
  | Rdtsc => now
  | Sleep _ => tt
  | Time => now
  | Srand _ => tt
  | Rand => now mod 32768
  | Malloc _ => 65536
  | Free _ => tt
  | GetCurrentProcess => 1
  | GetCurrentThread => 2
  | SetPriorityClass _ _ => true
  | SetThreadPriority _ _ => true
  | SetThreadAffinityMask _ _ => 1
  | SwitchToThread => true
  | GetModuleFileName => "Profiler.exe"%string
  | CreateThread _ => 10
  | CreateProcess _ _ _ _ => Some 11
  | TerminateProcess _ => true
  | CreateEvent _ _ => 12
  | OpenEvent _ => 12
  | SetEvent _ => true
  | WaitForSingleObject _ _ => 0
  | WaitForMultipleObjects _ => 0
  | CloseHandle _ => true
  | CriticalSectionNew => 131072
  | GetLastError => 0
  | CreateFileMapping _ _ _ => 13
  | MapViewOfFile _ _ => 262144
  | UnmapViewOfFile _ => true
  | SharedRead _ i => now
  | SharedWrite _ _ _ => tt
  | CreateFile _ _ _ => 14
  | GetFileSizeEx _ => Some 4096
  | SetFilePointer _ _ => 0
  | ReadFile _ n => (true, Z.min n 512)
  | GetDiskFreeSpace _ => Some 512
  | StreamOpenRead _ => true
  | StreamOpenWrite _ => true
  | StreamWrite _ => tt
  | WSAStartup => 0
  | WSACleanup => tt
  | WSASocket => 20
  | WSAHtons _ p => p
  | Bind _ _ => 0
  | Listen _ => 0
  | WSAAccept _ => 21
  | WSARecv _ _ => (0, 0)
  | WSASend _ _ => 0
  | WSAConnect _ _ _ => 0
  | ShutdownSend _ => 0
  | ShutdownReceive _ => 0
  | ShutdownBoth _ => 0
  | CloseSocket _ => 0
  | WSAGetLastError => 0
  | IcmpCreateFile => 22
  | IcmpCloseHandle _ => true
  | IcmpSendEcho _ _ _ _ => (1, (0, 3))
  | ConsoleWrite _ => tt
  | ConsoleRead => tt
  | SetModeU16 => tt
  | MessageBox => tt
  end.

Definition demo_os : Win32 := {|
  os_state := Z;
  os_call A c now := (demo_answer c now, now + 1);
  format_double _ := ""%string;
  literal_address _ := 4096 |}.

(** A stopwatch of depth 100 with histories of [h] entries, at time 0. *)
Definition demo_world (h : Z) : @world demo_os :=
  @mkWorld demo_os 0 [] (StopwatchStack_init 100 h false 1000000000) [] [] 0.

(** The same, except that reading a file fails and brings nothing. *)
Definition failing_read {A} (c : api A) : A → A :=
  match c in api T return T → T with
  | ReadFile _ _ => fun _ => (false, 0)
  | _ => fun x => x
  end.

Definition failing_os : Win32 := {|
  os_state := Z;
  os_call A c now := (failing_read c (demo_answer c now), now + 1);
  format_double _ := ""%string;
  literal_address _ := 4096 |}.

Definition failing_world : @world failing_os :=
  @mkWorld failing_os 0 [] (StopwatchStack_init 100 10 false 1000000000) [] [] 0.
