(* ===== verification/StopwatchProps.v ===== *)
(** * The stopwatch: histories, nesting, overhead *)
From Stdlib Require Import Sorted.
From S2P Require Import Prelude.
From S2P Require Import Words.
From S2P Require Import Win32.
From S2P Require Import Mathx.
From S2P Require Import StopwatchStack.
From S2P Require Import MathxProps.
From S2P Require Import Machine.
From S2P Require Import Experiment.
From S2P Require Import Effects.
From S2P Require Import DemoOs.

(** ** Histories keep the last entries *)

Definition last_n {A} (n : nat) (l : list A) : list A := drop (length l - n) l.

Lemma last_n_short {A} n (l : list A) : (length l <= n)%nat → last_n n l = l.
Proof. intros. unfold last_n. by replace (length l - n)%nat with 0%nat by lia. Qed.

Lemma length_last_n {A} n (l : list A) : length (last_n n l) = Nat.min n (length l).
Proof. unfold last_n. rewrite length_drop. lia. Qed.

Lemma tail_drop {A} k (l : list A) : tail (drop k l) = drop (S k) l.
Proof.
  revert k. induction l as [|x l IH]; intros k; [by destruct k|]. destruct k as [|k]; [done|]. simpl. apply (IH k).
Qed.

Lemma last_n_snoc {A} n (l : list A) x : (0 < n)%nat →
  last_n n (l ++ [x]) = (if (n <=? length (last_n n l))%nat then tail (last_n n l) else last_n n l) ++ [x].
Proof.
  intros Hn. rewrite length_last_n. unfold last_n. rewrite length_app. simpl.
  destruct (Nat.leb_spec n (Nat.min n (length l))).
  - replace (length l + 1 - n)%nat with (S (length l - n)) by lia. rewrite drop_app_le by lia. by rewrite tail_drop.
  - replace (length l + 1 - n)%nat with 0%nat by lia. by replace (length l - n)%nat with 0%nat by lia.
Qed.

(** The history a tag would have without a limit. *)
Fixpoint ideal (t : tag) (effs : list effect) (h : list TickValue) : list TickValue :=
  match effs with
  | [] => h
  | Sample t' d :: effs => ideal t effs (if decide (t' = t) then h ++ [d] else h)
  | Reset t' :: effs => ideal t effs (if decide (t' = t) then [] else h)
  | _ :: effs => ideal t effs h
  end.

Definition capacity (s : StopwatchStack) : nat := Z.to_nat (_tagHistorySize s).

Lemma store_history t t' d s : 0 < _tagHistorySize s →
  GetTagHistory t (StoreResultWithTag d t' s) =
    (if decide (t' = t) then
      (if (capacity s <=? length (GetTagHistory t s))%nat then tail (GetTagHistory t s) else GetTagHistory t s) ++ [d]
     else GetTagHistory t s)
  ∧ _tagHistorySize (StoreResultWithTag d t' s) = _tagHistorySize s.
Proof.
  intros Hh. unfold StoreResultWithTag. assert ((_tagHistorySize s =? 0) = false) as -> by lia.
  split; [|done]. unfold GetTagHistory. simpl. destruct (decide (t' = t)) as [->|Hne].
  - rewrite lookup_insert_eq. simpl. do 2 f_equal.
    unfold capacity. destruct (Z.leb_spec (_tagHistorySize s) (Z.of_nat (length (default [] (_tagHistory s !! t)))));
      destruct (Nat.leb_spec (Z.to_nat (_tagHistorySize s)) (length (default [] (_tagHistory s !! t)))); done || lia.
  - by rewrite lookup_insert_ne.
Qed.

Lemma history_perform t effs : ∀ s rs s' rs' h,
  0 < _tagHistorySize s → GetTagHistory t s = last_n (capacity s) h →
  perform effs (s, rs) = Some (s', rs') →
  GetTagHistory t s' = last_n (capacity s) (ideal t effs h) ∧ _tagHistorySize s' = _tagHistorySize s.
Proof.
  induction effs as [|e effs IH]; intros s rs s' rs' h Hpos Hh Hp; [by inversion Hp; subst|].
  simpl in Hp. destruct e as [t' d|t'| |name q]; simpl in *.
  - destruct (store_history t t' d s Hpos) as [E1 E2].
    assert (Ec : capacity (StoreResultWithTag d t' s) = capacity s) by (unfold capacity; by rewrite E2).
    rewrite <- Ec, <- E2. apply (IH _ rs _ rs'); [by rewrite E2| |done]. rewrite E1, Ec.
    destruct (decide (t' = t)); [|done]. rewrite last_n_snoc by (unfold capacity; lia). by rewrite Hh.
  - apply (IH (ResetTagHistory t' s) rs s' rs'); [done| |done]. unfold GetTagHistory, ResetTagHistory. simpl.
    destruct (decide (t' = t)) as [->|Hne]; [by rewrite lookup_delete_eq|by rewrite lookup_delete_ne].
  - destruct (Mathx.Minimum _ _) as [o|]; simpl in Hp; [|done]. by apply (IH (with_overheadSimple s o) rs s' rs').
  - destruct (quantity_value s q) as [x|]; simpl in Hp; [|done]. by apply (IH s (rs ++ [mkResult name x]) s' rs').
Qed.

Lemma stopwatch_history t effs s rs s' rs' :
  0 < _tagHistorySize s → (length (GetTagHistory t s) <= capacity s)%nat →
  perform effs (s, rs) = Some (s', rs') →
  GetTagHistory t s' = last_n (capacity s) (ideal t effs (GetTagHistory t s)).
Proof.
  intros Hpos Hl Hp. apply (history_perform t effs s rs s' rs' (GetTagHistory t s)) in Hp; [by destruct Hp|done|].
  by rewrite last_n_short.
Qed.

(** C34: histories are bounded queues.  Whatever sequence of samples, resets,
    calibrations and reports is performed, the history of a tag is the last
    [tagHistorySize] of the samples a history without a limit would hold. *)
Theorem stopwatch_keeps_the_last t effs s rs s' rs' :
  0 < _tagHistorySize s → (length (GetTagHistory t s) <= capacity s)%nat →
  perform effs (s, rs) = Some (s', rs') →
  GetTagHistory t s' = last_n (capacity s) (ideal t effs (GetTagHistory t s)).
Proof. apply stopwatch_history. Qed.

Lemma stopwatch_keeps_the_last_witness :
  let t := lit "t" in
  let s := StopwatchStack_init 100 2 false 1000 in
  GetTagHistory t (StoreResultWithTag 3 t (StoreResultWithTag 2 t (StoreResultWithTag 1 t s))) = [2; 3].
Proof.
  apply (stopwatch_keeps_the_last (lit "t") [Sample (lit "t") 1; Sample (lit "t") 2; Sample (lit "t") 3]
    (StopwatchStack_init 100 2 false 1000) [] _ []); [reflexivity|vm_compute; lia|reflexivity].
Defined.

Lemma ideal_samples t ds h : ideal t (Sample t <$> ds) h = h ++ ds.
Proof.
  revert h. induction ds as [|d ds IH]; intros h; simpl; [by rewrite app_nil_r|].
  rewrite decide_True by done. by rewrite IH, <- app_assoc.
Qed.

(** The least of a history. *)
Lemma Minimum_least (h : TagHistory) : h ≠ [] →
  ∃ o, Mathx.Minimum (fun t : TickValue => t) h = Some o ∧ o ∈ h ∧ Forall (fun d => o <= d) h.
Proof.
  intros Hne. unfold Mathx.Minimum. destruct (Mathx.sort (fun t : Z => t) h) as [|o l] eqn:Es.
  - pose proof (sort_length (fun t : Z => t) h) as Hl. rewrite Es in Hl. by destruct h.
  - exists o. split; [done|]. assert (Hp : o :: l ≡ₚ h) by (rewrite <- Es; apply sort_Permutation).
    split; [rewrite <- Hp; apply list_elem_of_here|]. rewrite <- Hp. constructor; [lia|].
    pose proof (sort_sorted (fun t : Z => t) (fun _ => True) h) as Hs. rewrite Es in Hs.
    assert (Hall : Forall (fun _ : Z => True) h) by (by apply Forall_true). apply Hs in Hall.
    apply StronglySorted_inv in Hall as [_ Hle]. eapply Forall_impl; [exact Hle|].
    intros d Hd. unfold in_order, Mathx.less in Hd. simpl in Hd. lia.
Qed.

(** ** The overhead *)
Section overhead.
Context `{OS : Win32}.

(** The clock readings of a run of timed sections, in the log (newest first). *)
Definition clock_events (readings : list (Z * Z)) : list event :=
  concat ((fun '(t0, t1) => [Event Z Rdtsc t1; Event Z Rdtsc t0]) <$> reverse readings).

Definition elapsed : Z * Z → TickValue := fun '(t0, t1) => s64 (t1 - t0).

Lemma empty_section t w : room w → t ≠ None → ∃ w' t0 t1,
  (Push t;; Pop_) w = Ok tt w' ∧ log w' = Event Z Rdtsc t1 :: Event Z Rdtsc t0 :: log w ∧
  ss w' = StoreResultWithTag (s64 (t1 - t0)) t (ss w) ∧ results w' = results w.
Proof.
  intros Hr Ht. unfold Push, Pop_, Pop, ReadHighresolutionTimer, gets, on_ss, modify, sys, PushWithValue, pop_entry.
  unfold room in Hr. unfold mbind, M_bind. rewrite Hr.
  destruct (os_call Rdtsc (os w)) as [t0 o0] eqn:E0. simpl. rewrite Hr.
  destruct (os_call Rdtsc o0) as [t1 o1] eqn:E1. simpl. rewrite decide_False by done.
  eexists _, t0, t1. split; [reflexivity|]. simpl. split; [done|]. split; [|done].
  by rewrite with_stack_twice, with_stack_id.
Qed.

Lemma empty_sections t n : t ≠ None → ∀ i w, room w → ∃ w' readings,
  loop_from n i (fun _ (_ : unit) => Push t;; Pop_) tt w = Ok tt w' ∧ length readings = n ∧
  log w' = clock_events readings ++ log w ∧
  perform (Sample t <$> (elapsed <$> readings)) (ss w, results w) = Some (ss w', results w').
Proof.
  intros Ht. induction n as [|n IH]; intros i w Hr.
  - exists w, []. done.
  - destruct (empty_section t w Hr Ht) as (w1 & t0 & t1 & H1 & Hl1 & Hs1 & Hr1).
    destruct (IH (i + 1) w1) as (w' & readings & H2 & Hn & Hl2 & Hp).
    { unfold room, is_full in *. destruct (store_stack (s64 (t1 - t0)) t (ss w)) as [Ea Eb]. by rewrite Hs1, Ea, Eb. }
    exists w', ((t0, t1) :: readings). split; [|split; [simpl; by rewrite Hn|split]].
    + simpl. apply (bind_intro _ _ _ _ _ _ H1). exact H2.
    + rewrite Hl2, Hl1. unfold clock_events. rewrite reverse_cons, fmap_app, concat_app, <- app_assoc. done.
    + simpl. by rewrite <- Hs1, <- Hr1.
Qed.

(** The calibration always ends, reads the clock in 50000 pairs, and takes
    as overhead the least of the differences that the history still holds: the
    last [tagHistorySize] of them. *)
Theorem overhead_is_least_recent_difference w :
  room w → 0 < _tagHistorySize (ss w) → GetTagHistory measurement_tag (ss w) = [] →
  ∃ w' readings, CalculateOverheadSimple w = Ok tt w' ∧
    Z.of_nat (length readings) = 50000 ∧ log w' = clock_events readings ++ log w ∧
    let kept := last_n (capacity (ss w)) (elapsed <$> readings) in
    GetOverheadSimpleAsTicks (ss w') ∈ kept ∧
    Forall (fun d => GetOverheadSimpleAsTicks (ss w') <= d) kept ∧
    _stack (ss w') = _stack (ss w).
Proof.
  intros Hr Hpos Hh.
  destruct (empty_sections measurement_tag (Z.to_nat 50000) ltac:(done) 0 w Hr) as (w1 & readings & H1 & Hn & Hl & Hp).
  assert (Hk : GetTagHistory measurement_tag (ss w1) = last_n (capacity (ss w)) (elapsed <$> readings)).
  { rewrite (stopwatch_history measurement_tag _ _ _ _ _ Hpos ltac:(rewrite Hh; simpl; lia) Hp).
    by rewrite ideal_samples, Hh. }
  assert (Hlen : Z.of_nat (length readings) = 50000) by (rewrite Hn; by apply Z2Nat.id). clear Hn.
  destruct (Minimum_least (GetTagHistory measurement_tag (ss w1))) as (o & Ho & Hin & Hle).
  { rewrite Hk. intros H0. apply (f_equal length) in H0. rewrite length_last_n, length_fmap in H0. unfold capacity in H0. cbn [length] in H0. lia. }
  exists (with_ss w1 (with_overheadSimple (ss w1) o)), readings. split; [|split; [done|split; [done|]]].
  - unfold CalculateOverheadSimple. apply (bind_intro _ _ _ _ _ _ H1).
    unfold history, gets, lift, on_ss, modify, mbind, M_bind. by rewrite Ho.
  - simpl. rewrite <- Hk. split; [done|]. split; [done|]. by apply perform_stack in Hp as [? _].
Qed.
End overhead.

Lemma overhead_is_least_recent_difference_witness :
  ∃ w' readings, CalculateOverheadSimple (demo_world 1000) = Ok tt w' ∧
    Z.of_nat (length readings) = 50000 ∧ log w' = clock_events readings ++ [] ∧
    let kept := last_n 1000 (elapsed <$> readings) in
    GetOverheadSimpleAsTicks (ss w') ∈ kept ∧
    Forall (fun d => GetOverheadSimpleAsTicks (ss w') <= d) kept ∧
    _stack (ss w') = [].
Proof. apply (overhead_is_least_recent_difference (demo_world 1000)); [reflexivity|reflexivity|reflexivity]. Defined.
