(* ===== verification/FileSystemProps.v ===== *)
(** * File sizes, file names and reading whole files *)
From S2P Require Import Prelude.
From S2P Require Import Words.
From S2P Require Import Win32.
From S2P Require Import Mathx.
From S2P Require Import StopwatchStack.
From S2P Require Import Machine.
From S2P Require Import Experiment.
From S2P Require Import Effects.
From S2P Require Import DemoOs.
From S2P Require Import FileSystemModel.
From S2P Require Import FileSystemExperiments.
Import FileSystemExperiment.

(** ** Powers of two *)

Lemma shiftr_gt_1 n c : 0 < n → 0 <= c → (1 <? Z.shiftr n c) = (c <? Z.log2 n).
Proof.
  intros Hn Hc. rewrite Z.shiftr_div_pow2 by done. pose proof (Z.log2_spec n Hn) as [Hlo Hhi].
  pose proof (Z.pow_pos_nonneg 2 c ltac:(lia) Hc) as Hpc. apply Bool.eq_iff_eq_true. rewrite !Z.ltb_lt. split; intros H.
  - destruct (Z_lt_le_dec c (Z.log2 n)); [done|]. exfalso.
    assert (n / 2 ^ c < 2); [|lia]. apply Z.div_lt_upper_bound; [done|].
    pose proof (Z.pow_le_mono_r 2 (Z.succ (Z.log2 n)) (c + 1)). rewrite Z.pow_add_r in * by lia. lia.
  - assert (2 <= n / 2 ^ c); [|lia]. apply Z.div_le_lower_bound; [done|].
    pose proof (Z.pow_le_mono_r 2 (c + 1) (Z.log2 n)). rewrite Z.pow_add_r in * by lia. lia.
Qed.

Lemma log2_loop_spec n fuel : 0 < n → ∀ c, 1 <= c → (Z.to_nat (Z.log2 n - c) <= fuel)%nat →
  log2_loop fuel n c = Some (Z.max c (Z.log2 n)).
Proof.
  intros Hn. induction fuel as [|fuel IH]; intros c Hc Hf; simpl; rewrite shiftr_gt_1 by lia.
  - destruct (Z.ltb_spec c (Z.log2 n)); [lia|]. f_equal. lia.
  - destruct (Z.ltb_spec c (Z.log2 n)); [|f_equal; lia]. rewrite IH by lia. f_equal. lia.
Qed.

(** [GetLog2] is the binary logarithm of what is at least 2, and 1 below. *)
Lemma GetLog2_spec n : is_u64 n → GetLog2 n = Some (Z.max 1 (Z.log2 n)).
Proof.
  unfold is_u64. intros Hn. destruct (Z.eq_dec n 0) as [->|Hne]; [reflexivity|].
  apply log2_loop_spec; [lia|lia|]. assert (Z.log2 n < 64) by (apply Z.log2_lt_pow2; lia). lia.
Qed.

(** [GuaranteedShift] is a power of two, whatever its first argument. *)
Lemma GuaranteedShift_spec num k : 0 <= k < 64 → GuaranteedShift num k = Some (2 ^ k).
Proof.
  intros Hk. unfold GuaranteedShift. pose proof (Z.div_mod k 31 ltac:(lia)) as Hd.
  pose proof (Z.mod_pos_bound k 31 ltac:(lia)). assert (0 <= k / 31 <= 2).
  { split; [apply Z.div_pos; lia|]. assert (k / 31 < 3); [|lia]. apply Z.div_lt_upper_bound; lia. }
  assert ((k / 31 * 31 <? 64) = true) as -> by (apply Z.ltb_lt; lia). f_equal.
  rewrite Z.shiftl_1_l, Z.shiftl_mul_pow2, <- Z.pow_add_r by lia. replace (k mod 31 + k / 31 * 31) with k by lia.
  apply u64_small. split; [apply Z.pow_nonneg; lia|]. apply Z.pow_lt_mono_r; lia.
Qed.

(** ** The sizes of the test files *)
Section sizes.
Context `{OS : Win32}.

Lemma push_sizes s n : ∀ i w, 0 <= i → 0 <= s → s + i + Z.of_nat n <= 64 →
  loop_from n i (fun i (_ : unit) =>
    size ← lift (GuaranteedShift 1 (u32 (i + u32 s)));
    modify (fun w => with_fileSizes w (fileSizes w ++ [size]))) tt w =
  Ok tt (with_fileSizes w (fileSizes w ++ ((fun k => 2 ^ (s + k)) <$> seqZ i (Z.of_nat n)))).
Proof.
  induction n as [|n IH]; intros i w Hi Hs Hb.
  - simpl. rewrite app_nil_r. by destruct w.
  - simpl. assert (Hu : u32 (i + u32 s) = s + i) by (unfold u32; rewrite (Z.mod_small s), Z.mod_small; lia).
    rewrite Hu, GuaranteedShift_spec by lia. unfold lift, modify, mbind, M_bind in *. rewrite IH by lia.
    unfold ret, mret, M_ret. simpl. rewrite (seqZ_cons i) by lia. simpl.
    replace (Z.pred (Z.of_nat (S n))) with (Z.of_nat n) by lia.
    replace (Z.succ i) with (i + 1) by lia. by rewrite <- app_assoc.
Qed.

(** With sectors of [2^s] bytes the constructor of the first file system
    experiment leaves the 23 sizes [2^s], ..., [2^(s+22)]; later constructors leave
    them alone. *)
Theorem file_sizes_are_sector_multiples path w o s :
  os_call (GetDiskFreeSpace path) (os w) = (Some (2 ^ s), o) → 1 <= s <= 32 → fileSizes w = [] →
  ∃ w', FileSystemExperiment_new path w = Ok tt w' ∧
    fileSizes w' = (fun i => 2 ^ (s + i)) <$> seqZ 0 23 ∧
    log w' = Event _ (GetDiskFreeSpace path) (Some (2 ^ s)) :: log w ∧
    ∀ path', FileSystemExperiment_new path' w' = Ok tt w'.
Proof.
  intros Hc Hs Hf. unfold FileSystemExperiment_new, gets, GetLogicalSectorSize, sys.
  unfold mbind, M_bind. rewrite Hf, Hc. simpl.
  rewrite GetLog2_spec by (unfold is_u64; split; [apply Z.pow_nonneg|apply Z.pow_lt_mono_r]; lia).
  rewrite Z.log2_pow2, Z.max_r by lia. simpl. unfold for_, for_state.
  pose proof (push_sizes s 23 0) as Hp. unfold mbind, M_bind in Hp. rewrite Hp by lia.
  eexists. split; [reflexivity|]. simpl. rewrite Hf. split; [done|]. split; [done|]. intros path'. done.
Qed.
End sizes.

Lemma file_sizes_are_sector_multiples_witness :
  ∃ w', FileSystemExperiment_new (OS := demo_os) devicePath (demo_world 10) = Ok tt w' ∧
    fileSizes w' = (fun i => 2 ^ (9 + i)) <$> seqZ 0 23 ∧
    log w' = Event (option Z) (GetDiskFreeSpace devicePath) (Some 512) :: [] ∧
    ∀ path', FileSystemExperiment_new path' w' = Ok tt w'.
Proof. apply (file_sizes_are_sector_multiples (OS := demo_os) devicePath (demo_world 10) 1 9); [reflexivity|lia|reflexivity]. Defined.

(** ** Reading a whole file *)

Definition is_read (e : event) : bool := match ev_call e with ReadFile _ _ => true | _ => false end.

(** The number of [ReadFile] calls in a log. *)
Definition reads (evs : list event) : nat := length (List.filter is_read evs).

Lemma reads_app a b : reads (a ++ b) = (reads a + reads b)%nat.
Proof. unfold reads. by rewrite List.filter_app, length_app. Qed.

Section reading.
Context `{OS : Win32}.

(** [m] returns, making [n] reads. *)
Definition returns {A} (m : M A) (n : nat) : Prop := ∀ w, ∃ a w' evs,
  m w = Ok a w' ∧ log w' = evs ++ log w ∧ reads evs = n.

Lemma returns_bind {A B} (m : M A) (f : A → M B) n k : returns m n → (∀ a, returns (f a) k) → returns (m ≫= f) (n + k).
Proof.
  intros Hm Hf w. destruct (Hm w) as (a & w1 & e1 & H1 & Hl1 & Hr1).
  destruct (Hf a w1) as (b & w2 & e2 & H2 & Hl2 & Hr2). exists b, w2, (e2 ++ e1).
  split; [by apply (bind_intro _ _ _ _ _ _ H1)|]. split; [by rewrite Hl2, Hl1, app_assoc|]. rewrite reads_app. lia.
Qed.

Lemma returns_ret {A} (a : A) : returns (ret a) 0.
Proof. intros w. by exists a, w, []. Qed.
Lemma returns_gets {A} (f : world → A) : returns (gets f) 0.
Proof. intros w. by exists (f w), w, []. Qed.
Lemma returns_sys {A} (c : api A) : (∀ a, is_read (Event A c a) = false) → returns (sys c) 0.
Proof.
  intros Hc w. unfold sys. destruct (os_call c (os w)) as [a o]. eexists a, _, [Event A c a].
  split; [done|]. split; [done|]. unfold reads. simpl. by rewrite Hc.
Qed.

Lemma returns_Push t : returns (Push t) 0.
Proof.
  unfold Push. apply (returns_bind _ _ 0 0); [apply returns_gets|]. intros []; [apply returns_ret|].
  apply (returns_bind _ _ 0 0); [by apply returns_sys|]. intros now w. by eexists tt, _, [].
Qed.

Lemma returns_Pop : returns Pop_ 0.
Proof.
  apply (returns_bind _ _ 0 0); [|intros; apply returns_ret]. unfold Pop. apply (returns_bind _ _ 0 0); [by apply returns_sys|].
  intros now. apply (returns_bind _ _ 0 0); [apply returns_gets|]. intros [|e st]; [apply returns_ret|].
  intros w. destruct (pop_entry e st now (ss w)) as [d s] eqn:E. exists d, (with_ss w s), []. done.
Qed.

Variables (hFile : HANDLE) (bufferSize fileSize startPosition : Z) (t : tag) (readMode : ReadMode).
Hypothesis valid_handle : hFile ≠ INVALID_HANDLE_VALUE.
Hypothesis small : 0 < bufferSize < 2 ^ 32 ∧ 0 < fileSize < 2 ^ 63.
(** The size of the file, and that its pointer can be moved. *)
Hypothesis size_known : ∀ s, (os_call (GetFileSizeEx hFile) s).1 = Some fileSize.
Hypothesis seek_works : ∀ d s, (os_call (SetFilePointer hFile d) s).1 ≠ INVALID_SET_FILE_POINTER.

Lemma returns_seek d : returns (seek hFile d) 0.
Proof using seek_works.
  intros w. unfold seek, sys, assert, mbind, M_bind. specialize (seek_works d (os w)).
  destruct (os_call _ (os w)) as [p o]. simpl in seek_works. apply Z.eqb_neq in seek_works as ->.
  by eexists tt, _, [_].
Qed.

Lemma returns_seek_random r : returns (seek hFile r;; ret tt) 0.
Proof using seek_works. apply (returns_bind _ _ 0 0); [apply returns_seek|intros; apply returns_ret]. Qed.

Definition reposition (amountRead : Z) : M unit :=
  match readMode with
  | SEQUENTIAL => when (amountRead =? 0) (seek hFile 0)
  | RANDOM =>
      r ← sys Rand;
      let randomPosition := u64 (Z.shiftl r 9) mod fileSize in
      seek hFile (s32 (randomPosition mod UINT32_MAX))
  end.

Lemma returns_reposition a : returns (reposition a) 0.
Proof using seek_works.
  unfold reposition. destruct readMode.
  - destruct (a =? 0); [apply returns_seek|apply returns_ret].
  - apply (returns_bind _ _ 0 0); [by apply returns_sys|]. intros r. apply returns_seek.
Qed.

(** One turn: a read, whatever it answers. *)
Lemma turn_step total w : total < fileSize → ∃ w' evs s,
  read_turn hFile bufferSize fileSize t readMode total w =
    Ok (inl (u64 (total + (os_call (ReadFile hFile bufferSize) s).1.2))) w' ∧
  log w' = evs ++ log w ∧ reads evs = 1%nat.
Proof using seek_works.
  intros Ht. unfold read_turn. apply Z.ltb_lt in Ht as ->.
  destruct (returns_Push t w) as ([] & w1 & e1 & H1 & Hl1 & Hr1).
  destruct (os_call (ReadFile hFile bufferSize) (os w1)) as [[ok a] o] eqn:Ec.
  set (w2 := mkWorld o (Event _ (ReadFile hFile bufferSize) (ok, a) :: log w1) (ss w1) (results w1) (fileSizes w1) (g_hiddenValue w1)).
  destruct (returns_Pop w2) as ([] & w3 & e3 & H3 & Hl3 & Hr3).
  destruct (returns_reposition a w3) as ([] & w4 & e4 & H4 & Hl4 & Hr4).
  exists w4, (e4 ++ e3 ++ Event _ (ReadFile hFile bufferSize) (ok, a) :: e1), (os w1). split.
  - apply (bind_intro _ _ _ _ _ _ H1). apply (bind_intro _ _ _ (ok, a) w2); [unfold sys; by rewrite Ec|].
    apply (bind_intro _ _ _ _ _ _ H3). apply (bind_intro _ _ _ _ _ _ H4). by rewrite Ec.
  - split; [by rewrite Hl4, Hl3, <- !app_assoc; unfold w2; simpl; rewrite Hl1|].
    rewrite !reads_app, Hr3, Hr4. simpl. unfold reads in *. simpl. by rewrite Hr1.
Qed.

Lemma turn_stops total w : fileSize <= total → read_turn hFile bufferSize fileSize t readMode total w = Ok (inr tt) w.
Proof. intros Ht. unfold read_turn. by apply Z.ltb_ge in Ht as ->. Qed.

(** The rest of [ReadEntireFile], once the loop is known to return. *)
Lemma read_entire_from_loop fuel w :
  (∀ w, ∃ w' evs, while_ fuel (read_turn hFile bufferSize fileSize t readMode) 0 w = Ok tt w' ∧ log w' = evs ++ log w ∧
    fileSize <= Z.of_nat (reads evs) * bufferSize ∧ Z.of_nat (reads evs) <= fileSize) →
  ∃ w' evs, ReadEntireFile fuel hFile bufferSize t startPosition readMode w = Ok tt w' ∧ log w' = evs ++ log w ∧
    fileSize <= Z.of_nat (reads evs) * bufferSize ∧ Z.of_nat (reads evs) <= fileSize.
Proof using valid_handle small size_known seek_works.
  intros Hloop. unfold ReadEntireFile. apply Z.eqb_neq in valid_handle.
  destruct (returns_sys (Malloc bufferSize) ltac:(done) w) as (p & w1 & e1 & H1 & Hl1 & Hr1).
  destruct (returns_seek (s32 startPosition) w1) as ([] & w2 & e2 & H2 & Hl2 & Hr2).
  set (w3 := mkWorld (os_call (GetFileSizeEx hFile) (os w2)).2 (Event _ (GetFileSizeEx hFile) (Some fileSize) :: log w2)
    (ss w2) (results w2) (fileSizes w2) (g_hiddenValue w2)).
  destruct (Hloop w3) as (w4 & e4 & H4 & Hl4 & Hb4).
  destruct (returns_sys (Free p) ltac:(done) w4) as ([] & w5 & e5 & H5 & Hl5 & Hr5).
  exists w5, (e5 ++ e4 ++ [Event _ (GetFileSizeEx hFile) (Some fileSize)] ++ e2 ++ e1). split.
  - rewrite valid_handle. apply (bind_intro _ _ _ tt w); [done|]. apply (bind_intro _ _ _ _ _ _ H1).
    apply (bind_intro _ _ _ _ _ _ H2). apply (bind_intro _ _ _ fileSize w3).
    { unfold GetFileSizeOfHandle, sys, mbind, M_bind. specialize (size_known (os w2)).
      unfold w3. destruct (os_call (GetFileSizeEx hFile) (os w2)) as [sz o]. simpl in *. subst sz.
      unfold ret, mret, M_ret. rewrite u64_small; [done|unfold is_u64; lia]. }
    assert ((0 <? fileSize) = true) as -> by lia. apply (bind_intro _ _ _ tt w3); [done|].
    apply (bind_intro _ _ _ _ _ _ H4). apply (bind_intro _ _ _ _ _ _ H5). done.
  - split; [rewrite Hl5, Hl4; unfold w3; simpl; rewrite Hl2, Hl1; by list_simplifier|].
    assert (reads (e5 ++ e4 ++ [Event _ (GetFileSizeEx hFile) (Some fileSize)] ++ e2 ++ e1) = reads e4) as ->; [|done].
    rewrite !reads_app, Hr1, Hr2, Hr5. unfold reads at 2. simpl. lia.
Qed.

Hypothesis progress : ∀ s, 1 <= (os_call (ReadFile hFile bufferSize) s).1.2 <= bufferSize.

Lemma loop_returns m : ∀ fuel total w, 0 <= total <= fileSize + bufferSize → (m < fuel)%nat →
  fileSize - total <= Z.of_nat m → ∃ w' evs,
  while_ fuel (read_turn hFile bufferSize fileSize t readMode) total w = Ok tt w' ∧ log w' = evs ++ log w ∧
  fileSize - total <= Z.of_nat (reads evs) * bufferSize ∧ Z.of_nat (reads evs) <= Z.max 0 (fileSize - total).
Proof using small seek_works progress.
  induction m as [|m IH]; intros fuel total w Ht Hf Hm; (destruct fuel as [|fuel]; [lia|]); simpl.
  - exists w, []. split; [|split; [done|unfold reads; simpl; lia]].
    by apply (bind_intro _ _ _ _ _ _ (turn_stops total w ltac:(lia))).
  - destruct (Z_lt_le_dec total fileSize) as [Hlt|Hge].
    + destruct (turn_step total w Hlt) as (w1 & e1 & s & H1 & Hl1 & Hr1). pose proof (progress s) as Hp.
      set (a := (os_call (ReadFile hFile bufferSize) s).1.2) in *.
      rewrite u64_small in H1 by (unfold is_u64; lia).
      destruct (IH fuel (total + a) w1) as (w' & e2 & H2 & Hl2 & Hb2 & Hb2'); [lia|lia|lia|].
      exists w', (e2 ++ e1). split; [by apply (bind_intro _ _ _ _ _ _ H1)|].
      split; [by rewrite Hl2, Hl1, app_assoc|]. rewrite reads_app, Hr1. nia.
    + exists w, []. split; [|split; [done|unfold reads; simpl; lia]].
      by apply (bind_intro _ _ _ _ _ _ (turn_stops total w Hge)).
Qed.

(** If every read brings between 1 and [bufferSize] bytes, [ReadEntireFile]
    returns, in either mode, after at least [fileSize / bufferSize] and at most
    [fileSize] reads; [fileSize + 1] turns of its loop are enough. *)
Theorem read_entire_file_returns fuel w : (Z.to_nat fileSize < fuel)%nat → ∃ w' evs,
  ReadEntireFile fuel hFile bufferSize t startPosition readMode w = Ok tt w' ∧ log w' = evs ++ log w ∧
  fileSize <= Z.of_nat (reads evs) * bufferSize ∧ Z.of_nat (reads evs) <= fileSize.
Proof using valid_handle small size_known seek_works progress.
  intros Hf. apply read_entire_from_loop. intros w1.
  destruct (loop_returns (Z.to_nat fileSize) fuel 0 w1) as (w' & evs & H & Hl & H1 & H2); [lia|lia|lia|].
  exists w', evs. split; [done|]. split; [done|]. lia.
Qed.
End reading.

Section stuck.
Context `{OS : Win32}.
Variables (hFile : HANDLE) (bufferSize fileSize startPosition : Z) (t : tag) (readMode : ReadMode).
Hypothesis valid_handle : hFile ≠ INVALID_HANDLE_VALUE.
Hypothesis small : 0 < fileSize < 2 ^ 63.
Hypothesis size_known : ∀ s, (os_call (GetFileSizeEx hFile) s).1 = Some fileSize.
Hypothesis seek_works : ∀ d s, (os_call (SetFilePointer hFile d) s).1 ≠ INVALID_SET_FILE_POINTER.
Hypothesis nothing_read : ∀ s, (os_call (ReadFile hFile bufferSize) s).1.2 = 0.

Lemma loop_stuck fuel : ∀ w, while_ fuel (read_turn hFile bufferSize fileSize t readMode) 0 w = OutOfFuel.
Proof using small seek_works nothing_read.
  induction fuel as [|fuel IH]; intros w; [done|]. simpl.
  destruct (turn_step hFile bufferSize fileSize t readMode seek_works 0 w ltac:(lia)) as (w1 & e1 & s & H1 & _).
  rewrite nothing_read in H1. change (u64 (0 + 0)) with 0 in H1. by apply (bind_intro _ _ _ _ _ _ H1).
Qed.

(** The success of [ReadFile] is not looked at: when the reads of a file fail
    (or are all at its end) and bring nothing, [ReadEntireFile] never returns. *)
Theorem read_entire_file_never_returns fuel w :
  ReadEntireFile fuel hFile bufferSize t startPosition readMode w = OutOfFuel.
Proof using valid_handle small size_known seek_works nothing_read.
  unfold ReadEntireFile. apply Z.eqb_neq in valid_handle. rewrite valid_handle.
  destruct (returns_sys (Malloc bufferSize) ltac:(done) w) as (p & w1 & e1 & H1 & _).
  destruct (returns_seek hFile seek_works (s32 startPosition) w1) as ([] & w2 & e2 & H2 & _).
  apply (bind_intro _ _ _ tt w); [done|]. apply (bind_intro _ _ _ _ _ _ H1). apply (bind_intro _ _ _ _ _ _ H2).
  unfold GetFileSizeOfHandle, sys. unfold mbind at 1, M_bind at 1. unfold mbind at 1, M_bind at 1.
  specialize (size_known (os w2)). destruct (os_call (GetFileSizeEx hFile) (os w2)) as [sz o]. simpl in size_known. subst sz.
  unfold ret at 1, mret at 1, M_ret at 1. rewrite u64_small by (unfold is_u64; lia).
  unfold mbind at 1, M_bind at 1. assert ((0 <? fileSize) = true) as -> by lia. simpl.
  unfold mbind, M_bind. by rewrite loop_stuck.
Qed.
End stuck.

(** The demonstration system has a file of 4096 bytes, of which a read brings 512. *)
Lemma read_entire_file_returns_witness : ∃ w' evs,
  ReadEntireFile (OS := demo_os) (Z.to_nat 5000) 14 512 (lit "t") 0 RANDOM (demo_world 10) = Ok tt w' ∧
  log w' = evs ++ [] ∧ 4096 <= Z.of_nat (reads evs) * 512 ∧ Z.of_nat (reads evs) <= 4096.
Proof.
  apply (read_entire_file_returns (OS := demo_os) 14 512 4096 0 (lit "t") RANDOM); done || (simpl; lia).
Defined.

Lemma read_entire_file_never_returns_witness :
  ReadEntireFile (OS := failing_os) 1000 14 512 (lit "t") 0 SEQUENTIAL failing_world = OutOfFuel.
Proof. apply (read_entire_file_never_returns (OS := failing_os) 14 512 4096 0 (lit "t") SEQUENTIAL); done || (simpl; lia). Defined.

(** ** Where the test files are *)
Section files.
Context `{OS : Win32}.

(** The file a call opens as a stream. *)
Definition opened_stream (e : event) : option string :=
  match ev_call e with StreamOpenRead p | StreamOpenWrite p => Some p | _ => None end.

Definition created_path (dev : string) (size : Z) : string := (dev ++ GetTestFilenameBySize size dev)%string.

Lemma CreateTestFiles_opens dev sizes replaceExisting :
  emits (fun e => ∀ p, opened_stream e = Some p → ∃ size, size ∈ sizes ∧ p = created_path dev size)
    (CreateTestFiles dev sizes replaceExisting).
Proof.
  apply emits_for_list, Forall_forall. intros size Hsize. unfold create_test_file. fold (created_path dev size).
  apply emits_bind.
  { apply emits_sys. intros a p Hp. inversion Hp; subst. by exists size. }
  intros there. destruct (there && _); [apply emits_ret|]. apply emits_bind.
  - destruct there; [apply emits_ret|]. apply emits_bind.
    + apply emits_sys. intros a p Hp. inversion Hp; subst. by exists size.
    + intros b. apply emits_bind; [apply emits_assert|]. intros _. apply emits_ret.
  - intros b. apply emits_for. intros i. destruct b; [|apply emits_ret].
    apply emits_bind; [by apply emits_sys|]. intros _. apply emits_ret.
Qed.

(** [CreateTestFiles] puts the device path in front of a name that has it
    already: every file it opens is under C:\C:\, and none is a file that
    [GetTestFilenameBySize] names, which the experiments read. *)
Theorem created_files_are_not_the_files_read sizes replaceExisting w u w' :
  CreateTestFiles devicePath sizes replaceExisting w = Ok u w' → ∃ evs, log w' = evs ++ log w ∧
  Forall (fun e => ∀ p, opened_stream e = Some p →
    (∃ size, size ∈ sizes ∧ p = ("C:\" ++ "C:\" ++ "TestFile" ++ dec size)%string) ∧
    ∀ size', p ≠ GetTestFilenameBySize size' devicePath) evs.
Proof.
  intros H. destruct (CreateTestFiles_opens _ _ _ _ _ _ H) as (evs & Hl & He). exists evs. split; [done|].
  eapply Forall_impl; [exact He|]. intros e Hp p Hopen. destruct (Hp p Hopen) as (size & Hin & ->).
  split; [by exists size|]. intros size' Heq. discriminate.
Qed.
End files.

Lemma created_files_are_not_the_files_read_witness : ∃ w' evs,
  CreateTestFiles (OS := demo_os) devicePath [512; 1024] false (demo_world 10) = Ok tt w' ∧ log w' = evs ++ [] ∧
  Forall (fun e => ∀ p, opened_stream e = Some p →
    (∃ size, size ∈ [512; 1024] ∧ p = ("C:\" ++ "C:\" ++ "TestFile" ++ dec size)%string) ∧
    ∀ size', p ≠ GetTestFilenameBySize size' devicePath) evs.
Proof.
  eexists. assert (H : CreateTestFiles (OS := demo_os) devicePath [512; 1024] false (demo_world 10) = Ok tt _) by reflexivity.
  destruct (created_files_are_not_the_files_read (OS := demo_os) _ _ _ _ _ H) as (evs & Hl & He).
  exists evs. split; [exact H|]. by split.
Defined.
