(* ===== verification/ContextSwitchProps.v ===== *)
(** * Context switches: every thread's time is kept, and their differences stored *)
From Stdlib Require Import Sorted.
From S2P Require Import Prelude.
From S2P Require Import Win32.
From S2P Require Import Mathx.
From S2P Require Import StopwatchStack.
From S2P Require Import MathxProps.
From S2P Require Import Machine.
From S2P Require Import Experiment.
From S2P Require Import ContextSwitch.
From S2P Require Import Effects.
From S2P Require Import ExperimentEffects.
From S2P Require Import StopwatchProps.
From S2P Require Import DemoOs.

Section threads.
Import Threads.

Definition id_of (p : pc) : option Z :=
  match p with
  | AtEnter | Entered | Loaded _ => None
  | Counted c | Left c | Woken c | Timed c _ | Done c _ => Some c
  end.

(** Inside the critical section. *)
Definition inside (p : pc) : bool := match p with Entered | Loaded _ | Counted _ => true | _ => false end.
Definition has_id (p : pc) : bool := match id_of p with Some _ => true | None => false end.
Definition with_id (l : list pc) : Z := Z.of_nat (length (List.filter has_id l)).

Record inv (n : nat) (s : state) : Prop := {
  inv_length : length (threads s) = n;
  inv_owner i p : threads s !! i = Some p → inside p = true → owner s = Some i;
  inv_loaded i c : threads s !! i = Some (Loaded c) → c = threadIdCounter s;
  inv_range i p c : threads s !! i = Some p → id_of p = Some c → 0 <= c < threadIdCounter s;
  inv_distinct i j p q c : threads s !! i = Some p → threads s !! j = Some q →
    id_of p = Some c → id_of q = Some c → i = j;
  inv_count : with_id (threads s) = threadIdCounter s;
  inv_memory k t : sharedMemory s !! k = Some t ↔ ∃ i, threads s !! i = Some (Done (k - 1) t);
}.

Lemma with_id_insert l i p q : l !! i = Some p →
  with_id (<[i := q]> l) = with_id l + (if has_id q then 1 else 0) - (if has_id p then 1 else 0).
Proof.
  unfold with_id. revert i. induction l as [|x l IH]; intros [|i] Hi; try done; simpl in *.
  - inversion Hi; subst. destruct (has_id p), (has_id q); simpl; lia.
  - specialize (IH i Hi). destruct (has_id x); simpl; lia.
Qed.

Lemma lookup_put s i j p q : threads s !! i = Some p → put s i q !! j = if decide (i = j) then Some q else threads s !! j.
Proof.
  intros Hi. unfold put. destruct (decide (i = j)) as [->|Hne]; [|by apply list_lookup_insert_ne].
  apply list_lookup_insert_eq. by apply lookup_lt_Some in Hi.
Qed.

(** What the proofs of the steps have in common: thread [i] goes from [p] to [q]. *)
Ltac thread_step Hi :=
  match goal with
  | H : put ?s ?i ?q !! _ = Some _ |- _ => rewrite (lookup_put _ _ _ _ _ Hi) in H; destruct (decide _); simplify_eq
  end.

(** No thread finishes or has finished in a step from [p] to [q]. *)
Lemma same_done n s i p q k t : inv n s → threads s !! i = Some p →
  (∀ c t, p ≠ Done c t) → (∀ c t, q ≠ Done c t) →
  sharedMemory s !! k = Some t ↔ ∃ j, put s i q !! j = Some (Done (k - 1) t).
Proof.
  intros I Hi Hp Hq. rewrite (inv_memory _ _ I). split; intros [j Hj]; exists j.
  - rewrite (lookup_put _ _ _ _ _ Hi). destruct (decide (i = j)) as [->|]; [|done]. rewrite Hi in Hj. naive_solver.
  - rewrite (lookup_put _ _ _ _ _ Hi) in Hj. destruct (decide (i = j)) as [->|]; [naive_solver|done].
Qed.

(** One thread at a time is inside. *)
Lemma one_inside n s i j p q : inv n s → threads s !! i = Some p → threads s !! j = Some q →
  inside p = true → inside q = true → i = j.
Proof.
  intros I Hi Hj Hp Hq. apply (inv_owner _ _ I) in Hi; [|done]. apply (inv_owner _ _ I) in Hj; [|done]. congruence.
Qed.

(** The last step of a thread. *)
Lemma record_memory n s i c t k t0 : inv n s → threads s !! i = Some (Timed c t) →
  <[1 + c := t]> (sharedMemory s) !! k = Some t0 ↔ ∃ j, put s i (Done c t) !! j = Some (Done (k - 1) t0).
Proof.
  intros I Hi. destruct (decide (1 + c = k)) as [<-|Hk].
  - rewrite lookup_insert_eq. replace (1 + c - 1) with c by lia. split.
    + intros [= ->]. exists i. rewrite (lookup_put _ _ _ _ _ Hi). by rewrite decide_True.
    + intros [j Hj]. rewrite (lookup_put _ _ _ _ _ Hi) in Hj. destruct (decide (i = j)) as [->|Hne]; [by simplify_eq|].
      exfalso. by apply Hne, (inv_distinct _ _ I i j _ _ c Hi Hj).
  - rewrite lookup_insert_ne by done. rewrite (inv_memory _ _ I).
    split; intros [j Hj]; exists j; rewrite (lookup_put _ _ _ _ _ Hi) in *; destruct (decide (i = j)) as [->|Hne]; try done.
    + rewrite Hi in Hj. done.
    + simplify_eq. lia.
Qed.

(** The store of the incremented counter gives thread [i] an identifier of its own. *)
Lemma store_fresh n s i c j p d : inv n s → threads s !! i = Some (Loaded c) → threads s !! j = Some p →
  id_of p = Some d → d ≠ c.
Proof.
  intros I Hi Hj Hd. apply (inv_loaded _ _ I) in Hi. pose proof (inv_range _ _ I _ _ _ Hj Hd). lia.
Qed.

Lemma store_inv n s i c : inv n s → threads s !! i = Some (Loaded c) →
  inv n (mkState (put s i (Counted c)) (owner s) (c + 1) (mayStart s) (clock s) (sharedMemory s)).
Proof.
  intros I Hi. pose proof (inv_loaded _ _ I _ _ Hi) as Hc. split; simpl.
  - unfold put. rewrite length_insert. apply (inv_length _ _ I).
  - intros j p Hj Hp. thread_step Hi; by eapply (inv_owner _ _ I).
  - intros j d Hj. thread_step Hi. exfalso. assert (i = j) by (by apply (one_inside _ _ _ _ _ _ I Hi Hj)). done.
  - intros j p d Hj Hd. thread_step Hi; simpl in *; simplify_eq.
    + pose proof (inv_count _ _ I). unfold with_id in *. lia.
    + pose proof (inv_range _ _ I _ _ _ Hj Hd). lia.
  - intros j k p q d Hj Hk Hp Hq. repeat thread_step Hi; simpl in *; simplify_eq; try done.
    + by destruct (store_fresh _ _ _ _ _ _ _ I Hi Hj Hp).
    + by destruct (store_fresh _ _ _ _ _ _ _ I Hi Hk Hq).
    + by apply (inv_distinct _ _ I j k p q d).
  - unfold put. rewrite (with_id_insert _ _ _ _ Hi), (inv_count _ _ I). simpl. lia.
  - intros k t. by apply (same_done _ _ _ _ _ _ _ I Hi).
Qed.

Lemma step_inv n s s' : inv n s → step s s' → inv n s'.
Proof.
  intros I Hstep. destruct Hstep as [|t Ht|i Hi Ho|i Hi|i c Hi|i c Hi|i c Hi Hm|i c Hi|i c t Hi].
  1, 2: destruct I; by split.
  3: by apply store_inv.
  all: split; simpl; intros;
    try (unfold put; rewrite length_insert; apply (inv_length _ _ I));
    try (unfold put; rewrite (with_id_insert _ _ _ _ Hi); simpl; rewrite (inv_count _ _ I); lia);
    try (by apply (same_done _ _ _ _ _ _ _ I Hi)); try (by apply (record_memory _ _ _ _ _ _ _ I Hi)).
  all: repeat thread_step Hi; simpl in *; simplify_eq;
    first [ done
          | by eapply (inv_owner _ _ I)
          | by eapply (inv_loaded _ _ I)
          | by eapply (inv_range _ _ I)
          | by eapply (inv_distinct _ _ I)
          | idtac ].
  - exfalso. eapply (inv_owner _ _ I) in H; [|done]. congruence.
  - exfalso. assert (i = i0) by (by apply (one_inside _ _ _ _ _ _ I Hi H)). done.
Qed.

Lemma init_inv n now : inv n (init n now).
Proof.
  assert (Hall : ∀ i p, replicate n AtEnter !! i = Some p → p = AtEnter).
  { intros i p Hi. by apply lookup_replicate in Hi as [-> _]. }
  split; simpl; intros;
    repeat match goal with H : replicate _ _ !! _ = Some _ |- _ => apply Hall in H; subst end; try done.
  - apply length_replicate.
  - unfold with_id. clear Hall. by induction n.
  - split; [by rewrite lookup_empty|]. intros [i Hi]. by apply Hall in Hi.
Qed.

Lemma reachable_inv n now s : reachable n now s → inv n s.
Proof. induction 1; [apply init_inv|by eapply step_inv]. Qed.

(** C20: however the threads are interleaved, the slots of the shared array are
    handed out without a clash: a slot holds exactly the time of one finished
    thread, no two threads have the same slot, and once all have finished, the
    slots are 1, ..., n and the counter is n. *)
Theorem every_time_is_recorded_once n now s : reachable n now s →
  (∀ k t, sharedMemory s !! k = Some t ↔ ∃ i, threads s !! i = Some (Done (k - 1) t)) ∧
  (∀ i j c t t', threads s !! i = Some (Done c t) → threads s !! j = Some (Done c t') → i = j) ∧
  ((∀ i p, threads s !! i = Some p → ∃ c t, p = Done c t) →
    threadIdCounter s = Z.of_nat n ∧
    ∀ i c t, threads s !! i = Some (Done c t) → 1 <= 1 + c <= Z.of_nat n ∧ sharedMemory s !! (1 + c) = Some t).
Proof.
  intros H%reachable_inv. split; [apply (inv_memory _ _ H)|]. split.
  { intros i j c t t' Hi Hj. by apply (inv_distinct _ _ H i j _ _ c Hi Hj). }
  intros Hall. assert (Hn : threadIdCounter s = Z.of_nat n).
  { rewrite <- (inv_count _ _ H), <- (inv_length _ _ H). unfold with_id. f_equal.
    rewrite filter_all; [done|]. intros i p Hi. by destruct (Hall i p Hi) as (c & t & ->). }
  split; [done|]. intros i c t Hi. split.
  - pose proof (inv_range _ _ H i _ c Hi eq_refl). lia.
  - apply (inv_memory _ _ H). exists i. by replace (1 + c - 1) with c by lia.
Qed.
End threads.

(** Two threads; the second takes the first slot. *)
Ltac next_step H c := eapply Threads.ReachStep in H; [|c; first [reflexivity | cbn; lia]]; cbn in H.

Lemma two_threads : ∃ s, Threads.reachable 2 0 s ∧
  Threads.threads s = [Threads.Done 1 7; Threads.Done 0 3] ∧ Threads.sharedMemory s = <[2 := 7]> (<[1 := 3]> ∅).
Proof.
  pose proof (Threads.ReachInit 2 0) as H. unfold Threads.init in H. cbn in H.
  next_step H ltac:(apply (Threads.StepEnter _ 1)). next_step H ltac:(apply (Threads.StepLoad _ 1)).
  next_step H ltac:(eapply (Threads.StepStore _ 1)). next_step H ltac:(eapply (Threads.StepLeave _ 1)).
  next_step H ltac:(apply (Threads.StepEnter _ 0)). next_step H ltac:(apply Threads.StepSetEvent).
  next_step H ltac:(apply (Threads.StepClock _ 3)). next_step H ltac:(apply (Threads.StepWake _ 1 0)).
  next_step H ltac:(apply (Threads.StepRead _ 1 0)). next_step H ltac:(apply (Threads.StepLoad _ 0)).
  next_step H ltac:(eapply (Threads.StepStore _ 0)). next_step H ltac:(eapply (Threads.StepLeave _ 0)).
  next_step H ltac:(apply (Threads.StepClock _ 7)). next_step H ltac:(eapply (Threads.StepWake _ 0)).
  next_step H ltac:(eapply (Threads.StepRead _ 0)). next_step H ltac:(eapply (Threads.StepRecord _ 1)).
  next_step H ltac:(eapply (Threads.StepRecord _ 0)).
  eexists. split; [exact H|]. done.
Qed.

Lemma every_time_is_recorded_once_witness : ∃ s, Threads.reachable 2 0 s ∧
  Threads.threadIdCounter s = 2 ∧ Threads.sharedMemory s !! 1 = Some 3 ∧ Threads.sharedMemory s !! 2 = Some 7.
Proof.
  destruct two_threads as (s & H & Ht & Hm). exists s. split; [exact H|].
  destruct (every_time_is_recorded_once 2 0 s H) as (_ & _ & Hend). destruct Hend as [Hc Hslots].
  - rewrite Ht. intros [|[|i]] p Hp; simpl in Hp; [|..|done]; injection Hp as <-; eauto.
  - split; [exact Hc|]. split.
    + apply (Hslots 1%nat 0 3). by rewrite Ht.
    + apply (Hslots 0%nat 1 7). by rewrite Ht.
Defined.

(** ** The times of one run *)
Section differences.
Context `{OS : Win32}.

(** The values read from the shared array, in order. *)
Definition shared_read (e : event) : option Z :=
  match e with Event _ (SharedRead _ _) v => Some v | _ => None end.
Definition shared_reads (evs : list event) : list Z := reverse (omap shared_read evs).

Lemma shared_reads_app a b : shared_reads (a ++ b) = shared_reads b ++ shared_reads a.
Proof. unfold shared_reads. by rewrite omap_app, reverse_app. Qed.

Definition no_shared_read (e : event) : Prop := shared_read e = None.

Lemma no_shared_reads evs : Forall no_shared_read evs → shared_reads evs = [].
Proof.
  intros H. unfold shared_reads. assert (omap shared_read evs = []) as ->; [|done].
  induction H as [|e evs He _ IH]; [done|]. simpl. by rewrite He.
Qed.

Lemma collect_loop p n : ∀ i l w l' w',
  loop_from n i (fun i (data : list Z) => t ← sys (SharedRead p i); ret (data ++ [t])) l w = Ok l' w' →
  ∃ evs, log w' = evs ++ log w ∧ l' = l ++ shared_reads evs.
Proof.
  induction n as [|n IH]; intros i l w l' w' H; simpl in H.
  - inversion H. exists []. split; [done|]. by rewrite app_nil_r.
  - apply bind_Ok in H as (l1 & w1 & H1 & H). apply bind_Ok in H1 as (t & w2 & H1 & H2). inversion H2; subst.
    unfold sys in H1. destruct (os_call (SharedRead p i) (os w)) as [a o]. inversion H1; subst.
    destruct (IH _ _ _ _ _ H) as (evs & Hl & ->). simpl in Hl. exists (evs ++ [Event Z (SharedRead p i) t]).
    split; [by rewrite Hl, <- app_assoc|]. rewrite shared_reads_app. by rewrite <- app_assoc.
Qed.

(** Programs that leave the stopwatch and the shared array alone. *)
Definition aside {A} (m : M A) : Prop := quiet m ∧ emits no_shared_read m.

Lemma aside_Ok {A} (m : M A) w a w' : aside m → m w = Ok a w' →
  ss w' = ss w ∧ results w' = results w ∧ ∃ evs, log w' = evs ++ log w ∧ shared_reads evs = [].
Proof.
  intros [Hq He] H. destruct (Hq _ _ _ H) as [Es Er]. destruct (He _ _ _ H) as (evs & Hl & Hn).
  split; [done|]. split; [done|]. exists evs. split; [done|]. by apply no_shared_reads.
Qed.

Lemma aside_bind {A B} (m : M A) (f : A → M B) : aside m → (∀ a, aside (f a)) → aside (m ≫= f).
Proof.
  intros [Hq He] Hf. split; [apply quiet_bind; [done|]; intros a; apply (Hf a)|].
  apply emits_bind; [done|]. intros a. apply (Hf a).
Qed.

Lemma aside_sys {A} (c : api A) : (∀ v, no_shared_read (Event A c v)) → aside (sys c).
Proof. intros Hc. split; [apply quiet_sys|by apply emits_sys]. Qed.

Lemma aside_create : aside (ContextSwitchTime.create_all (fun i => ContextSwitchTime.CreateThread)).
Proof.
  unfold ContextSwitchTime.create_all, ContextSwitchTime.CreateThread, fail_with, sys_. split; [quiet|emits].
Qed.

Lemma aside_release event workers : aside (ContextSwitchTime.release_and_wait event workers).
Proof. unfold ContextSwitchTime.release_and_wait, Read, ReadHighresolutionTimer, sys_. split; [quiet|emits]. Qed.

Lemma collect_reads p a b w data w' : ContextSwitchTime.collect p a b w = Ok data w' →
  ss w' = ss w ∧ results w' = results w ∧ length data = 642%nat ∧
  ∃ evs, log w' = evs ++ log w ∧ shared_reads evs = data.
Proof.
  intros H. pose proof (collect_length _ _ _ _ _ _ H) as Hlen.
  assert (Hq : quiet (ContextSwitchTime.collect p a b)) by (unfold ContextSwitchTime.collect; quiet).
  destruct (Hq _ _ _ H) as [Es Er]. split; [done|]. split; [done|]. split; [done|].
  unfold ContextSwitchTime.collect in H.
  apply bind_Ok in H as (u1 & w1 & H1 & H). apply bind_Ok in H as (u2 & w2 & H2 & H).
  assert (Hs : ∀ i v, aside (sys_ (SharedWrite p i v))).
  { intros i v. apply aside_bind; [by apply aside_sys|]. intros _. split; [apply quiet_ret|apply emits_ret]. }
  destruct (aside_Ok _ _ _ _ (Hs _ _) H1) as (_ & _ & e1 & Hl1 & Hr1).
  destruct (aside_Ok _ _ _ _ (Hs _ _) H2) as (_ & _ & e2 & Hl2 & Hr2).
  destruct (collect_loop _ _ _ _ _ _ _ H) as (e3 & Hl3 & ->). simpl.
  exists (e3 ++ e2 ++ e1). split; [by rewrite Hl3, Hl2, Hl1, <- !app_assoc|].
  by rewrite !shared_reads_app, Hr1, Hr2.
Qed.

(** From a sorted list, successive differences are not negative. *)
Lemma sorted_ticks data first rest : Mathx.sort (fun x : TickValue => x) data = first :: rest →
  first :: rest ≡ₚ data ∧ StronglySorted Z.le (first :: rest).
Proof.
  intros Hs. rewrite <- Hs. split; [apply sort_Permutation|].
  pose proof (sort_sorted (fun x : Z => x) (fun _ => True) data) as H.
  assert (Hall : Forall (fun _ : Z => True) data) by by apply Forall_true. apply H in Hall. clear -Hall.
  induction Hall as [|x l Hl IH Hx]; constructor; [done|]. eapply Forall_impl; [exact Hx|].
  intros y Hy. unfold in_order, Mathx.less in Hy. simpl in Hy. lia.
Qed.

(** What comes before the times are collected, and after they are stored. *)
Definition prepare (this : ContextSwitchTime.ContextSwitchTime) : M (Z * list Z * Z * (Z * Z)) :=
  assert (ContextSwitchTime._conditionThreadsMayStart this =? 0);;
  event ← sys (CreateEvent ContextSwitchTime.event_name false);
  threads ← ContextSwitchTime.create_all (fun i => ContextSwitchTime.CreateThread);
  p ← sys (Malloc ContextSwitchTime.shared_size);
  times ← ContextSwitchTime.release_and_wait event threads;
  ret (event, threads, p, times).

Definition finish (this : ContextSwitchTime.ContextSwitchTime) (event p : Z) (threads : list Z) : M ContextSwitchTime.ContextSwitchTime :=
  for_list threads (fun h => sys_ (CloseHandle h));;
  sys_ (CloseHandle event);;
  sys_ (Free p);;
  ret (ContextSwitchTime.mkCST 0 (ContextSwitchTime._criticalSectionStopwatch this) p (ContextSwitchTime._threadIdCounter this)).

Lemma aside_prepare this : aside (prepare this).
Proof.
  unfold prepare. apply aside_bind; [split; [quiet|emits]|intros _].
  apply aside_bind; [by apply aside_sys|intros event]. apply aside_bind; [apply aside_create|intros threads].
  apply aside_bind; [by apply aside_sys|intros p]. apply aside_bind; [apply aside_release|intros times].
  split; [quiet|emits].
Qed.

Lemma aside_finish this event p threads : aside (finish this event p threads).
Proof.
  unfold finish, sys_. split; [quiet|]. apply emits_bind; [|emits]. apply emits_for_list, Forall_true. intros h. emits.
Qed.

Lemma emits_report name t : emits no_shared_read (median_of name t).
Proof.
  unfold median_of, PushResultMedianAsMicroseconds, history, minus_overhead, PushResult. emits. intros x. by apply emits_modify.
Qed.

Lemma emits_differences t data : emits no_shared_read (ContextSwitchTime.store_differences t data).
Proof.
  unfold ContextSwitchTime.store_differences, undefined. destruct (Mathx.sort _ data) as [|first rest]; [by intros w a w' H|].
  apply emits_bind; [by apply emits_modify|intros _]. apply emits_bind.
  - apply emits_for_list, Forall_true. intros x. apply emits_bind; [apply emits_store|intros d]. by apply emits_modify.
  - intros _. apply emits_bind; [apply emits_store|intros d]. emits.
Qed.

Lemma threads_in_parts this w this' w' : ContextSwitchTime.RunUsingThreads this w = Ok this' w' →
  ∃ event threads p t0 t1 data w1 w2 w3 w4,
    prepare this w = Ok (event, threads, p, (t0, t1)) w1 ∧ ContextSwitchTime.collect p t0 t1 w1 = Ok data w2 ∧
    ContextSwitchTime.store_differences ContextSwitchTime._threadSwitchStopwatchTag data w2 = Ok tt w3 ∧
    median_of "Thread Switch Time (μs)" ContextSwitchTime._threadSwitchStopwatchTag w3 = Ok tt w4 ∧
    finish this event p threads w4 = Ok this' w'.
Proof.
  intros H. unfold ContextSwitchTime.RunUsingThreads in H.
  apply bind_Ok in H as (u0 & w0 & H0 & H). apply bind_Ok in H as (event & w1 & H1 & H).
  apply bind_Ok in H as (hs & w2 & H2 & H). apply bind_Ok in H as (p & w3 & H3 & H).
  apply bind_Ok in H as ([t0 t1] & w4 & H4 & H). apply bind_Ok in H as (data & w5 & H5 & H).
  apply bind_Ok in H as ([] & w6 & H6 & H). apply bind_Ok in H as ([] & w7 & H7 & H).
  exists event, hs, p, t0, t1, data, w4, w5, w6, w7. split; [|done].
  unfold prepare. apply (bind_intro _ _ _ _ _ _ H0). apply (bind_intro _ _ _ _ _ _ H1).
  apply (bind_intro _ _ _ _ _ _ H2). apply (bind_intro _ _ _ _ _ _ H3). by apply (bind_intro _ _ _ _ _ _ H4).
Qed.

Lemma perform_report name q v v' : perform [Report name q] v = Some v' →
  ∃ x, v' = (v.1, v.2 ++ [mkResult name x]).
Proof. destruct v as [s rs]. simpl. destruct (quantity_value s q) as [x|]; simpl; [|done]. intros [= <-]. by exists x. Qed.

Lemma samples_no_report t l : Forall no_report (Sample t <$> l).
Proof. induction l; simpl; by constructor. Qed.

(** A run with threads stores in the history of its tag the differences
    between successive values of the sorted array: the 640 times of the threads
    and the first and the last time of the main thread. It reports their median
    and leaves the stack of the stopwatch as it was. *)
Theorem thread_switch_times_are_differences this w this' w' :
  let t := ContextSwitchTime._threadSwitchStopwatchTag in
  room w → 0 < _tagHistorySize (ss w) → (length (GetTagHistory t (ss w)) <= capacity (ss w))%nat →
  ContextSwitchTime.RunUsingThreads this w = Ok this' w' →
  ∃ evs first rest x, log w' = evs ++ log w ∧
    length (shared_reads evs) = 642%nat ∧ first :: rest ≡ₚ shared_reads evs ∧ StronglySorted Z.le (first :: rest) ∧
    GetTagHistory t (ss w') = last_n (capacity (ss w)) (GetTagHistory t (ss w) ++ differences first rest) ∧
    results w' = results w ++ [mkResult "Thread Switch Time (μs)" x] ∧ _stack (ss w') = _stack (ss w).
Proof.
  intros t Hr Hpos Hcap H.
  apply threads_in_parts in H as (event & hs & p & t0 & t1 & data & w1 & w2 & w3 & w4 & H1 & H2 & H3 & H4 & H5).
  destruct (aside_Ok _ _ _ _ (aside_prepare this) H1) as (Es1 & Er1 & e1 & Hl1 & Hn1).
  destruct (collect_reads _ _ _ _ _ _ H2) as (Es2 & Er2 & Hlen & e2 & Hl2 & Hn2). rewrite Es1 in Es2. rewrite Er1 in Er2.
  destruct (store_differences_effects t data ltac:(done) ltac:(lia) w2 tt w3) as (effs & Hp3 & first & rest & Hs & ->);
    [unfold room in *; by rewrite Es2|done|].
  destruct (emits_differences _ _ _ _ _ H3) as (e3 & Hl3 & Hn3%no_shared_reads).
  destruct (emits_report _ _ _ _ _ H4) as (e4 & Hl4 & Hn4%no_shared_reads).
  destruct (aside_Ok _ _ _ _ (aside_finish _ _ _ _) H5) as (Es5 & Er5 & e5 & Hl5 & Hn5).
  destruct (sorted_ticks _ _ _ Hs) as [Hperm Hsorted]. rewrite Es2, Er2 in Hp3.
  pose proof (stopwatch_history t _ _ _ _ _ Hpos Hcap Hp3) as Hh. rewrite ideal_samples in Hh.
  pose proof (perform_stack _ _ _ Hp3) as [Hst _]. simpl in Hst.
  assert (Hr3 : room w3) by (apply (room_perform w w3 _ Hr Hp3)).
  destruct (shaped_median _ _ _ _ _ Hr3 H4) as (effs4 & Hp4 & Hs4).
  destruct effs4 as [|[| | |name q] [|]]; try discriminate. injection Hs4 as -> ->.
  apply perform_report in Hp4 as [x [= Es4 Er4]]. simpl in Hp3.
  pose proof (perform_no_report _ _ _ (samples_no_report t (differences first rest)) Hp3) as Er3. simpl in Er3.
  exists (e5 ++ e4 ++ e3 ++ e2 ++ e1), first, rest, x.
  rewrite !shared_reads_app, Hn1, Hn2, Hn3, Hn4, Hn5. simpl. rewrite !app_nil_r.
  split; [by rewrite Hl5, Hl4, Hl3, Hl2, Hl1, !app_assoc|]. split; [done|]. split; [done|]. split; [done|].
  split; [by rewrite Es5, Es4|]. split; [by rewrite Er5, Er4, Er3|]. by rewrite Es5, Es4.
Qed.
End differences.


(** A run on the demonstration system. *)
Definition runs_ok `{OS : Win32} {A} (o : outcome A) : bool := match o with Ok _ _ => true | _ => false end.

Lemma runs_ok_Ok `{OS : Win32} {A} (o : outcome A) : runs_ok o = true → ∃ a w, o = Ok a w.
Proof. destruct o as [a w| | | | |]; try done. by exists a, w. Qed.

Lemma demo_threads_run :
  runs_ok (ContextSwitchTime.RunUsingThreads (ContextSwitchTime.mkCST 0 0 0 0) (demo_world 1000)) = true.
Proof. vm_compute. reflexivity. Qed.

Lemma thread_switch_times_are_differences_witness :
  let t := ContextSwitchTime._threadSwitchStopwatchTag in
  ∃ (this' : ContextSwitchTime.ContextSwitchTime) (w' : @world demo_os) evs first rest x,
    log w' = evs ++ [] ∧ length (shared_reads evs) = 642%nat ∧
    first :: rest ≡ₚ shared_reads evs ∧ StronglySorted Z.le (first :: rest) ∧
    GetTagHistory t (ss w') = last_n 1000 ([] ++ differences first rest) ∧
    results w' = [mkResult "Thread Switch Time (μs)" x] ∧ _stack (ss w') = [].
Proof.
  destruct (runs_ok_Ok _ demo_threads_run) as (this' & w' & H). exists this', w'.
  apply (thread_switch_times_are_differences (ContextSwitchTime.mkCST 0 0 0 0) (demo_world 1000) this' w');
    [reflexivity|reflexivity| |exact H]. vm_compute. lia.
Defined.
