(* ===== verification/Frames.v ===== *)
(** * What no experiment changes

    [kept R m]: every normal run of [m] goes from a world to one [R] relates it to.
    For the relations of the class [Frame] -- preorders that every system call
    respects and that do not look at stopwatch, results and console variables --
    this follows from the structure of a program. *)
From Stdlib Require Import Relations.
From S2P Require Import Prelude.
From S2P Require Import Words.
From S2P Require Import Win32.
From S2P Require Import Mathx.
From S2P Require Import StopwatchStack.
From S2P Require Import Machine.
From S2P Require Import Experiment.
From S2P Require Import CpuExperiments.
From S2P Require Import ContextSwitch.
From S2P Require Import MemoryExperiments.
From S2P Require Import FakeKernelModel.
From S2P Require Import FileSystemModel.
From S2P Require Import FileSystemExperiments.
From S2P Require Import NetworkExperiments.
From S2P Require Import Effects.

Class Frame `{OS : Win32} (R : relation world) : Prop := {
  frame_pre :: PreOrder R;
  frame_call A (c : api A) w : R w (mkWorld (os_call c (os w)).2 (Event A c (os_call c (os w)).1 :: log w)
    (ss w) (results w) (fileSizes w) (g_hiddenValue w));
  frame_ss w s : R w (with_ss w s);
  frame_results w rs : R w (with_results w rs);
  frame_hidden w z : R w (with_hidden w z);
}.

Section kept.
Context `{OS : Win32} (R : relation world) `{HR : !Frame R}.

Definition kept {A} (m : M A) : Prop := ∀ w a w', m w = Ok a w' → R w w'.

Lemma kept_ret {A} (a : A) : kept (ret a).
Proof using HR. intros w b w' H. inversion H. reflexivity. Qed.
Lemma kept_bind {A B} (m : M A) (f : A → M B) : kept m → (∀ a, kept (f a)) → kept (m ≫= f).
Proof using HR. intros Hm Hf w b w' H. apply bind_Ok in H as (a & w1 & H1 & H2). etrans; [by eapply Hm|by eapply Hf]. Qed.
Lemma kept_sys {A} (c : api A) : kept (sys c).
Proof using HR.
  intros w a w' H. pose proof (frame_call A c w) as Hc. unfold sys in H. destruct (os_call c (os w)). by inversion H; subst.
Qed.
Lemma kept_gets {A} (f : world → A) : kept (gets f).
Proof using HR. intros w a w' H. inversion H. reflexivity. Qed.
Lemma kept_modify f : (∀ w, R w (f w)) → kept (modify f).
Proof using Type. intros Hf w a w' H. by inversion H. Qed.
Lemma kept_assert b : kept (assert b).
Proof using HR. intros w a w' H. unfold assert in H. destruct b; inversion H. reflexivity. Qed.
Lemma kept_lift {A} (o : option A) : kept (lift o).
Proof using HR. intros w a w' H. unfold lift in H. destruct o; inversion H. reflexivity. Qed.
Lemma kept_throw {A} s : kept (throw (A := A) s).
Proof using Type. intros w a w' H. discriminate. Qed.
Lemma kept_throw_new {A} s : kept (throw_new (A := A) s).
Proof using Type. intros w a w' H. discriminate. Qed.
Lemma kept_undefined {A} : kept (undefined (A := A)).
Proof using Type. intros w a w' H. discriminate. Qed.
Lemma kept_when b m : kept m → kept (when b m).
Proof using HR. destruct b; [done|]. intros _. apply kept_ret. Qed.
Lemma kept_for_state {S} lo hi (body : Z → S → M S) s : (∀ i s, kept (body i s)) → kept (for_state lo hi body s).
Proof using HR.
  intros Hb. unfold for_state. generalize (Z.to_nat (hi - lo)) as n. intros n. revert lo s.
  induction n as [|n IH]; intros lo s; simpl; [apply kept_ret|]. by apply kept_bind.
Qed.
Lemma kept_for_until lo hi body : (∀ i, kept (body i)) → kept (for_until lo hi body).
Proof using HR.
  intros Hb. unfold for_until. generalize (Z.to_nat (hi - lo)) as n. intros n. revert lo.
  induction n as [|n IH]; intros lo; simpl; [apply kept_ret|]. apply kept_bind; [done|]. intros []; [done|apply kept_ret].
Qed.
Lemma kept_for_list {A} (l : list A) body : (∀ a, kept (body a)) → kept (for_list l body).
Proof using HR. intros Hb. unfold for_list. induction l as [|a l IH]; simpl; [apply kept_ret|]. by apply kept_bind. Qed.
Lemma kept_while {S A} fuel (body : S → M (S + A)) s : (∀ s, kept (body s)) → kept (while_ fuel body s).
Proof using HR.
  intros Hb. revert s. induction fuel as [|fuel IH]; intros s; simpl; [intros w a w' H; discriminate|].
  apply kept_bind; [done|]. intros [s'|a]; [done|apply kept_ret].
Qed.
Lemma kept_Pop : kept Pop.
Proof using HR.
  unfold Pop. apply kept_bind; [apply kept_sys|intros v]. apply kept_bind; [apply kept_gets|intros [|e st]]; [apply kept_ret|].
  intros w d w' H. destruct (pop_entry e st v (ss w)). inversion H; subst. apply frame_ss.
Qed.
Lemma kept_PopWithValue t v : kept (ss_PopWithValue t v).
Proof using HR.
  intros w d w' H. unfold ss_PopWithValue in H. destruct (PopWithValue t v (ss w)) as [[]|]; inversion H; subst. apply frame_ss.
Qed.
Lemma kept_on_stopwatch {A} s (m : M A) : kept m → kept (on_stopwatch s m).
Proof using HR.
  intros Hm w a w' H. unfold on_stopwatch in H. destruct (m (with_ss w s)) as [b w1| | | | |] eqn:E; try done.
  inversion H; subst. etrans; [apply frame_ss|]. etrans; [by eapply Hm|apply frame_ss].
Qed.
End kept.

Ltac head_of t := match t with ?f _ => head_of f | _ => t end.

(** By the structure of the program; definitions are unfolded. *)
Ltac kept_step HR :=
  lazymatch goal with
  | |- Frame _ => exact HR
  | |- kept _ (_ ≫= _) => simple apply kept_bind
  | |- kept _ (ret _) => simple apply kept_ret
  | |- kept _ (sys _) => simple apply kept_sys
  | |- kept _ (gets _) => simple apply kept_gets
  | |- kept _ (assert _) => simple apply kept_assert
  | |- kept _ (lift _) => simple apply kept_lift
  | |- kept _ (throw _) => simple apply kept_throw
  | |- kept _ (throw_new _) => simple apply kept_throw_new
  | |- kept _ undefined => simple apply kept_undefined
  | |- kept _ (modify _) => simple apply kept_modify; intros; first [apply frame_ss | apply frame_results | apply frame_hidden]
  | |- kept _ Pop => simple apply kept_Pop
  | |- kept _ (ss_PopWithValue _ _) => simple apply kept_PopWithValue
  | |- kept _ (on_stopwatch _ _) => simple apply kept_on_stopwatch
  | |- kept _ (when _ _) => simple apply kept_when
  | |- kept _ (for_state _ _ _ _) => simple apply kept_for_state
  | |- kept _ (for_until _ _ _) => simple apply kept_for_until
  | |- kept _ (for_list _ _) => simple apply kept_for_list
  | |- kept _ (while_ _ _ _) => simple apply kept_while
  | |- kept _ (match ?x with _ => _ end) => destruct x
  | |- kept _ ?m => let h := head_of m in unfold h
  end.

Ltac kept :=
  let HR := fresh in
  (match goal with |- kept ?R _ => pose proof (_ : Frame R) as HR end); repeat (intros; kept_step HR).

(** ** The file sizes

    [FileSystemExperiment::_fileSizes] is a static that only a constructor fills:
    no [Run] of an experiment changes it. *)
Definition same_sizes `{OS : Win32} : relation world := fun w w' => fileSizes w' = fileSizes w.

#[export] Instance same_sizes_frame `{OS : Win32} : Frame same_sizes.
Proof.
  constructor; try done. split; [done|]. intros w1 w2 w3 H1 H2. unfold same_sizes in *. congruence.
Qed.

Abbreviation frames m := (kept same_sizes m).
Ltac frames := kept.

Section runs.
Context `{OS : Win32}.

Lemma frames_overhead : frames MeasurementOverhead.Run. Proof. frames. Qed.
Lemma frames_procedure : frames ProcedureOverhead.Run. Proof. frames. Qed.
Lemma frames_system_call : frames SystemCallOverhead.Run. Proof. frames. Qed.
Lemma frames_task : frames TaskCreation.Run. Proof. frames. Qed.
Lemma frames_switch this : frames (ContextSwitchTime.Run this). Proof. frames. Qed.
Lemma frames_latency : frames MemoryLatency.Run. Proof. frames. Qed.
Lemma frames_bandwidth : frames MemoryBandwidth.Run. Proof. frames. Qed.
Lemma frames_page_fault : frames MemoryPageFault.Run. Proof. frames. Qed.
Lemma frames_kernel k : frames (FakeKernel.Run k). Proof. frames. Qed.
Lemma frames_round_trip h : frames (NetworkRoundTripTime.Run h). Proof. frames. Qed.
Lemma frames_peak : frames NetworkPeakBandwidth.Run. Proof. frames. Qed.
Lemma frames_setup : frames NetworkSetupTeardown.Run. Proof. frames. Qed.
End runs.
