(* ===== verification/Completion.v ===== *)
(** * Programs that end normally

    [completes m Q]: from every world, [m] ends normally with a value in [Q] -- no
    exception, no failed assertion, no undefined behaviour, no loop without end.
    [runs m l]: from a world whose stopwatch has room and keeps histories, [m]
    ends normally and its effects have the shape [l]. *)
From S2P Require Import Prelude.
From S2P Require Import Words.
From S2P Require Import Win32.
From S2P Require Import Mathx.
From S2P Require Import StopwatchStack.
From S2P Require Import MathxProps.
From S2P Require Import FloatProps.
From S2P Require Import Machine.
From S2P Require Import Experiment.
From S2P Require Import Effects.
From S2P Require Import StopwatchProps.
From S2P Require Import DemoOs.

#[local] Opaque samples.

Section completes.
Context `{OS : Win32}.

Definition completes {A} (m : M A) (Q : A → Prop) : Prop := ∀ w, ∃ a w', m w = Ok a w' ∧ Q a.
Abbreviation total m := (completes m (fun _ => True)).

Lemma completes_ret {A} (a : A) (Q : A → Prop) : Q a → completes (ret a) Q.
Proof. intros Ha w. by exists a, w. Qed.
Lemma total_ret {A} (a : A) : total (ret a).
Proof. by apply completes_ret. Qed.

Lemma completes_mono {A} (m : M A) (Q R : A → Prop) : completes m Q → (∀ a, Q a → R a) → completes m R.
Proof. intros Hm HQ w. destruct (Hm w) as (a & w' & H & Ha). exists a, w'. auto. Qed.
Lemma completes_total {A} (m : M A) (Q : A → Prop) : completes m Q → total m.
Proof. intros H. by eapply completes_mono. Qed.

Lemma completes_bind {A B} (m : M A) (f : A → M B) (Q : A → Prop) (R : B → Prop) :
  completes m Q → (∀ a, Q a → completes (f a) R) → completes (m ≫= f) R.
Proof.
  intros Hm Hf w. destruct (Hm w) as (a & w1 & H1 & Ha). destruct (Hf a Ha w1) as (b & w2 & H2 & Hb).
  exists b, w2. split; [|done]. by apply (bind_intro _ _ _ _ _ _ H1).
Qed.
Lemma total_bind {A B} (m : M A) (f : A → M B) (R : B → Prop) :
  total m → (∀ a, completes (f a) R) → completes (m ≫= f) R.
Proof. intros Hm Hf. apply (completes_bind _ _ _ _ Hm). intros a _. apply Hf. Qed.

Lemma completes_sys {A} (c : api A) (Q : A → Prop) : (∀ s, Q (os_call c s).1) → completes (sys c) Q.
Proof.
  intros Hc w. unfold sys. specialize (Hc (os w)). destruct (os_call c (os w)) as [a o]. by eexists _, _.
Qed.
Lemma total_sys {A} (c : api A) : total (sys c).
Proof. by apply completes_sys. Qed.
Lemma total_sys_ {A} (c : api A) : total (sys_ c).
Proof. apply total_bind; [apply total_sys|]. intros. apply total_ret. Qed.
Lemma total_gets {A} (f : world → A) : total (gets f). Proof. intros w. by exists (f w), w. Qed.
Lemma total_modify f : total (modify f). Proof. intros w. by exists tt, (f w). Qed.
Lemma total_assert b : b = true → total (assert b). Proof. intros -> w. by exists tt, w. Qed.
Lemma completes_lift {A} (o : option A) a (Q : A → Prop) : o = Some a → Q a → completes (lift o) Q.
Proof. intros -> Ha w. by exists a, w. Qed.
Lemma total_lift {A} (o : option A) a : o = Some a → total (lift o).
Proof. intros ->. by apply (completes_lift _ a). Qed.
Lemma total_when b m : (b = true → total m) → total (when b m).
Proof. destruct b; [by intros H; apply H|intros _; apply total_ret]. Qed.
Lemma total_print s : total (print s). Proof. apply total_sys_. Qed.
Lemma total_print_ln s : total (print_ln s). Proof. apply total_sys_. Qed.

(** Loops, with an invariant. *)
Lemma completes_for_state {S} (I : Z → S → Prop) lo hi (body : Z → S → M S) s : lo <= hi → I lo s →
  (∀ i s, lo <= i < hi → I i s → completes (body i s) (I (i + 1))) → completes (for_state lo hi body s) (I hi).
Proof.
  intros Hle. unfold for_state. remember (Z.to_nat (hi - lo)) as n eqn:Hn. revert lo s Hle Hn.
  induction n as [|n IH]; intros lo s Hle Hn Hs Hb; simpl.
  - replace hi with lo by lia. by apply completes_ret.
  - eapply completes_bind; [apply Hb; [lia|done]|]. intros s' Hs'.
    apply IH; [lia|lia|done|]. intros i s1 Hi. apply Hb. lia.
Qed.
Lemma total_for_state {S} lo hi (body : Z → S → M S) s :
  (∀ i s, total (body i s)) → total (for_state lo hi body s).
Proof.
  intros Hb. destruct (Z_le_gt_dec lo hi).
  - apply (completes_for_state (fun _ _ => True)); [done|done|]. intros. apply Hb.
  - unfold for_state. replace (Z.to_nat (hi - lo)) with 0%nat by lia. apply total_ret.
Qed.
Lemma total_for lo hi body : (∀ i, total (body i)) → total (for_ lo hi body).
Proof. intros Hb. apply total_for_state. intros i _. apply Hb. Qed.
Lemma total_for_range lo hi body : lo <= hi → (∀ i, lo <= i < hi → total (body i)) → total (for_ lo hi body).
Proof. intros Hle Hb. apply (completes_for_state (fun _ _ => True)); [done|done|]. intros i _ Hi _. by apply Hb. Qed.
Lemma completes_until (Q : bool → Prop) lo hi body : Q true →
  (∀ i, completes (body i) Q) → completes (for_until lo hi body) Q.
Proof.
  intros HQ Hb. unfold for_until. generalize (Z.to_nat (hi - lo)) as n. intros n. revert lo.
  induction n as [|n IH]; intros lo; simpl; [by apply completes_ret|].
  eapply completes_bind; [apply Hb|]. intros [] Hq; [apply IH|by apply completes_ret].
Qed.
Lemma total_for_list {A} (l : list A) body : (∀ a, total (body a)) → total (for_list l body).
Proof.
  intros Hb. unfold for_list. induction l as [|a l IH]; simpl; [apply total_ret|]. by apply total_bind.
Qed.

(** The stopwatch never fails. *)
Lemma total_Push t : total (Push t).
Proof.
  apply total_bind; [apply total_gets|]. intros []; [apply total_ret|].
  apply total_bind; [apply total_sys|]. intros. apply total_modify.
Qed.
Lemma total_Pop : total Pop.
Proof.
  apply total_bind; [apply total_sys|intros v]. apply total_bind; [apply total_gets|intros [|e st]]; [apply total_ret|].
  intros w. destruct (pop_entry e st v (ss w)) as [d s] eqn:E. exists d, (with_ss w s). done.
Qed.
Lemma total_Pop_ : total Pop_.
Proof. apply total_bind; [apply total_Pop|]. intros. apply total_ret. Qed.
Lemma total_timed t m : total m → total (timed t m).
Proof.
  intros Hm. apply total_bind; [apply total_Push|]. intros _. apply total_bind; [done|]. intros _. apply total_Pop_.
Qed.
Lemma total_history t : total (history t). Proof. apply total_gets. Qed.
Lemma total_minus_overhead : total minus_overhead. Proof. apply total_gets. Qed.

Lemma Median_Some {V} `{Mathx.Value V} {T} (f : T → V) l : ∃ v, Mathx.Median f l = Some v.
Proof.
  unfold Mathx.Median, Mathx.nth_element. destruct l as [|x l]; [by eexists|].
  destruct (lookup_lt_is_Some_2 (Mathx.sort f (x :: l)) (length (x :: l) / 2)) as [y ->]; [|by eexists].
  rewrite sort_length. apply Nat.div_lt; simpl; lia.
Qed.

Lemma total_median_of name t : total (median_of name t).
Proof.
  apply total_bind; [apply total_history|intros h]. apply total_bind; [apply total_minus_overhead|intros a].
  apply total_bind; [apply total_gets|intros s]. destruct (Median_Some (microseconds s a) h) as [v Hv].
  rewrite Hv. apply total_bind; [by apply (completes_lift _ v)|]. intros. apply total_modify.
Qed.
Lemma total_mean_of name t : total (mean_of name t).
Proof.
  apply total_bind; [apply total_history|intros h]. apply total_bind; [apply total_minus_overhead|intros a].
  apply total_bind; [apply total_gets|intros s]. apply total_modify.
Qed.

(** A percentile strictly between 0 and 100 is defined for every history. *)
Lemma Percentile_PValue {V} `{Mathx.Value V} {T} (f : T → V) l p : 0 < p < 100 → ∃ v, Mathx.Percentile f l p = Mathx.PValue v.
Proof.
  intros Hp. unfold Mathx.Percentile.
  assert (negb ((p <=? 100) && (0 <=? p)) = false) as -> by (apply negb_false_iff, andb_true_iff; split; apply Z.leb_le; lia).
  assert ((p =? 100) = false) as -> by lia. assert ((p =? 0) = false) as -> by lia.
  destruct (p =? 50); [destruct (Median_Some f l) as [v ->]; by exists v|].
  destruct l as [|x l]; [by eexists|]. unfold Mathx.nth_element. set (k := (p * _) mod _).
  assert (Hl : 0 < Z.of_nat (length (x :: l))) by (simpl; lia).
  assert (Hk : 0 <= k <= p * Z.of_nat (length (x :: l))).
  { unfold k. split; [apply Z.mod_pos_bound; lia|]. apply Z.mod_le; nia. }
  assert (Hi : (Z.to_nat (k / 100) < length (x :: l))%nat).
  { assert (k / 100 < Z.of_nat (length (x :: l))); [|lia]. apply Z.div_lt_upper_bound; [lia|]. nia. }
  destruct (lookup_lt_is_Some_2 (Mathx.sort f (x :: l)) (Z.to_nat (k / 100))) as [y ->]; [|by eexists].
  by rewrite sort_length.
Qed.
Lemma total_percentile_of name t p : 0 < p < 100 → total (percentile_of name t p).
Proof.
  intros Hp. apply total_bind; [apply total_history|intros h]. apply total_bind; [apply total_minus_overhead|intros a].
  apply total_bind; [apply total_gets|intros s]. destruct (Percentile_PValue (microseconds s a) h p Hp) as [v ->].
  apply total_modify.
Qed.
End completes.

Abbreviation total m := (completes m (fun _ => True)).

Create HintDb total.
#[export] Hint Constants Opaque : total.
#[export] Hint Resolve total_ret total_sys total_sys_ total_gets total_modify total_print total_print_ln total_Push
  total_Pop total_Pop_ total_history total_minus_overhead total_median_of total_mean_of : total.

(** A program that cannot fail, by its structure. *)
Ltac total :=
  repeat (intros;
    first
      [ match goal with H : false = true |- _ => discriminate H end
      | simple apply total_for | simple apply total_for_state | simple apply total_for_list
      | simple apply total_when | simple apply total_timed
      | solve [eauto 2 with total]
      | simple apply total_bind
      | match goal with |- completes (match ?x with _ => _ end) _ => destruct x end ]).

(** ** With effects *)
Section runs.
Context `{OS : Win32}.

(** The stopwatch has room for an entry, keeps histories, and has the scale of a
    32-bit clock rate. *)
Definition good (w : world) : Prop := room w ∧ 0 < _tagHistorySize (ss w) ∧ scaled (ss w).

Definition runs {A} (m : M A) (l : list shape) : Prop := ∀ w, good w → ∃ a w' effs,
  m w = Ok a w' ∧ perform effs (ss w, results w) = Some (ss w', results w') ∧ shape_of <$> effs = l.

Lemma apply_size e v v' : apply_effect e v = Some v' →
  _tagHistorySize v'.1 = _tagHistorySize v.1 ∧ _ticksPerMillisecondFP v'.1 = _ticksPerMillisecondFP v.1.
Proof.
  destruct v as [s rs], e; simpl; intros Hv.
  - inversion Hv. unfold StoreResultWithTag. by destruct (_tagHistorySize s =? 0).
  - by inversion Hv.
  - destruct (Mathx.Minimum _ _); simpl in Hv; [by inversion Hv|done].
  - destruct (quantity_value s q); simpl in Hv; [by inversion Hv|done].
Qed.

Lemma perform_size effs : ∀ v v', perform effs v = Some v' →
  _tagHistorySize v'.1 = _tagHistorySize v.1 ∧ _ticksPerMillisecondFP v'.1 = _ticksPerMillisecondFP v.1.
Proof.
  induction effs as [|e effs IH]; simpl; intros v v' Hv; [by inversion Hv|].
  destruct (apply_effect e v) as [v1|] eqn:E; [|done]. simpl in Hv. destruct (IH _ _ Hv) as [-> ->]. by apply apply_size in E.
Qed.

Lemma good_perform w w' effs : good w → perform effs (ss w, results w) = Some (ss w', results w') → good w'.
Proof.
  intros (Hr & Hs & Hc) Hp. split; [by apply (room_perform w w' effs)|].
  apply perform_size in Hp as [E1 E2]. simpl in *. unfold scaled. by rewrite E1, E2.
Qed.

Lemma runs_total {A} (m : M A) l : total m → shaped m l → runs m l.
Proof.
  intros Ht Hs w [Hr Hh]. destruct (Ht w) as (a & w' & H & _). destruct (Hs w a w' Hr H) as (effs & Hp & Hl).
  by exists a, w', effs.
Qed.

Lemma runs_bind {A B} (m : M A) (f : A → M B) l1 l2 : runs m l1 → (∀ a, runs (f a) l2) → runs (m ≫= f) (l1 ++ l2).
Proof.
  intros Hm Hf w Hg. destruct (Hm w Hg) as (a & w1 & e1 & H1 & Hp1 & Hl1).
  destruct (Hf a w1 (good_perform _ _ _ Hg Hp1)) as (b & w2 & e2 & H2 & Hp2 & Hl2).
  exists b, w2, (e1 ++ e2). rewrite perform_app, Hp1, fmap_app, Hl1, Hl2.
  split; [by apply (bind_intro _ _ _ _ _ _ H1)|done].
Qed.

Lemma runs_prefix {A B} (m : M A) (f : A → M B) Q l :
  completes m Q → quiet m → (∀ a, Q a → runs (f a) l) → runs (m ≫= f) l.
Proof.
  intros Hm Hq Hf w Hg. destruct (Hm w) as (a & w1 & H1 & Ha). destruct (Hq _ _ _ H1) as [Es Er].
  destruct (Hf a Ha w1) as (b & w2 & effs & H2 & Hp & Hl).
  { unfold good, room in *. by rewrite Es. }
  exists b, w2, effs. rewrite Es, Er in Hp. split; [by apply (bind_intro _ _ _ _ _ _ H1)|done].
Qed.

Lemma runs_suffix {A B} (m : M A) (f : A → M B) l : runs m l → (∀ a, total (f a)) → (∀ a, quiet (f a)) → runs (m ≫= f) l.
Proof.
  intros Hm Ht Hq. rewrite <- (app_nil_r l). apply runs_bind; [done|].
  intros a. apply runs_total; [apply Ht|apply shaped_quiet, Hq].
Qed.

Lemma runs_for lo hi body l : lo <= hi → (∀ i, runs (body i) (l i)) → runs (for_ lo hi body) (concat (l <$> seqZ lo (hi - lo))).
Proof.
  intros Hle Hb. unfold for_, for_state. remember (Z.to_nat (hi - lo)) as n eqn:Hn.
  replace (hi - lo) with (Z.of_nat n) by lia. clear Hn Hle hi. revert lo.
  induction n as [|n IH]; intros lo; simpl.
  - apply runs_total; [apply total_ret|apply shaped_quiet, quiet_ret].
  - rewrite seqZ_cons by lia. simpl. apply runs_bind; [apply Hb|]. intros [].
    replace (Z.pred (Z.of_nat (Datatypes.S n))) with (Z.of_nat n) by lia.
    replace (Z.succ lo) with (lo + 1) by lia. apply IH.
Qed.

Lemma runs_for_same lo hi body x : lo <= hi → (∀ i, runs (body i) [x]) →
  runs (for_ lo hi body) (replicate (Z.to_nat (hi - lo)) x).
Proof. intros Hle Hb. rewrite <- (concat_replicate_seqZ x lo). by apply (runs_for lo hi body (fun _ => [x])). Qed.

Lemma runs_samples n body t : 0 <= n → (∀ i, runs (body i) [SSample t]) → runs (for_ 0 n body) (samples n t).
Proof. intros Hn Hb. rewrite samples_replicate. replace n with (n - 0) at 2 by lia. by apply runs_for_same. Qed.

Lemma runs_eq {A} (m : M A) l l' : runs m l → l = l' → runs m l'.
Proof. by intros ? <-. Qed.

(** What a program returns decides between two shapes; it returns [true]. *)
Lemma runs_true (m : M bool) l (Q : list effect → Prop) : completes m (fun b => b = true) →
  spec m (fun b effs => if b : bool then shape_of <$> effs = l else Q effs) →
  runs m l ∧ ∀ w b w', m w = Ok b w' → b = true.
Proof.
  intros Hm Hs. split.
  - intros w [Hr Hh]. destruct (Hm w) as (b & w' & H & ->). destruct (Hs w true w' Hr H) as (effs & Hp & Hl).
    by exists true, w', effs.
  - intros w b w' H. destruct (Hm w) as (b' & w1 & H1 & ->). congruence.
Qed.

(** An explicit entry on the stopwatch. *)
Lemma runs_values t v0 v1 : t ≠ None → runs (ss_PushWithValue t v0;; ss_PopWithValue t v1) [SSample t].
Proof.
  intros Ht w [Hr Hh].
  assert (H : ∃ d w', (ss_PushWithValue t v0;; ss_PopWithValue t v1) w = Ok d w').
  { unfold ss_PushWithValue, on_ss, modify, ss_PopWithValue, PopWithValue, PushWithValue, mbind, M_bind. simpl.
    unfold room in Hr. rewrite Hr. simpl. rewrite decide_True by done. by eexists _, _. }
  destruct H as (d & w' & H). destruct (shaped_values t v0 v1 Ht w d w' Hr H) as (effs & Hp & Hs).
  by exists d, w', effs.
Qed.

Lemma runs_values_then {A} t v0 v1 (k : TickValue → M A) l : t ≠ None → (∀ d, runs (k d) l) →
  runs (ss_PushWithValue t v0;; d ← ss_PopWithValue t v1; k d) (SSample t :: l).
Proof.
  intros Ht Hk w Hg. destruct (runs_bind _ _ _ _ (runs_values t v0 v1 Ht) Hk w Hg) as (a & w' & effs & H & Hp).
  exists a, w', effs. split; [|done]. apply bind_Ok in H as (d & w1 & H & H2).
  apply bind_Ok in H as (u & w2 & H & H3).
  apply (bind_intro _ _ _ _ _ _ H). by apply (bind_intro _ _ _ _ _ _ H3).
Qed.

(** ** Least and greatest of a history that is not empty *)
Lemma Minimum_Some {V} `{Mathx.Value V} {T} (f : T → V) l : l ≠ [] → ∃ v, Mathx.Minimum f l = Some v.
Proof.
  intros Hne. unfold Mathx.Minimum. destruct (lookup_lt_is_Some_2 (Mathx.sort f l) 0) as [y ->]; [|by eexists].
  rewrite sort_length. destruct l; [done|simpl; lia].
Qed.
Lemma Maximum_Some {V} `{Mathx.Value V} {T} (f : T → V) l : l ≠ [] → ∃ v, Mathx.Maximum f l = Some v.
Proof.
  intros Hne. unfold Mathx.Maximum. rewrite last_lookup.
  destruct (lookup_lt_is_Some_2 (Mathx.sort f l) (Nat.pred (length (Mathx.sort f l)))) as [y ->]; [|by eexists].
  rewrite sort_length. destruct l; [done|simpl; lia].
Qed.

(** A history that gets a sample, or has one, is not empty unless it is forgotten. *)
Lemma perform_history t effs : ∀ s rs s' rs', 0 < _tagHistorySize s → perform effs (s, rs) = Some (s', rs') →
  SReset t ∉ shape_of <$> effs → GetTagHistory t s ≠ [] ∨ SSample t ∈ shape_of <$> effs → GetTagHistory t s' ≠ [].
Proof.
  induction effs as [|e effs IH]; intros s rs s' rs' Hh Hp Hn Hor; cbn [perform] in Hp.
  - inversion Hp; subst s' rs'. destruct Hor as [Hor|Hor]; [exact Hor|]. by apply elem_of_nil in Hor.
  - destruct (apply_effect e (s, rs)) as [[s1 rs1]|] eqn:E; [|discriminate]. cbn [mbind option_bind] in Hp.
    rewrite fmap_cons in Hn, Hor. apply not_elem_of_cons in Hn as [Hne Hn]. rewrite elem_of_cons in Hor.
    pose proof (apply_size _ _ _ E) as [Eh _]. simpl in Eh. apply (IH s1 rs1 s' rs'); [lia|done|done|].
    destruct Hor as [Hor|[Hor|Hor]]; [|left|by right].
    + left. destruct e as [t' d|t'| |name q]; simpl in E.
      * inversion E; subst. destruct (store_history t t' d s Hh) as [-> _]. destruct (decide (t' = t)); [|done].
        intros [_ H0]%app_nil. discriminate.
      * inversion E; subst. unfold GetTagHistory, ResetTagHistory in *. simpl. rewrite lookup_delete_ne; [done|]. by intros ->.
      * destruct (Mathx.Minimum _ _); simpl in E; inversion E; by subst.
      * destruct (quantity_value s q); simpl in E; inversion E; by subst.
    + destruct e as [t' d| | |]; inversion Hor; subst t'. simpl in E. inversion E; subst.
      destruct (store_history t t d s Hh) as [-> _]. rewrite decide_True by done. intros [_ H0]%app_nil. discriminate.
Qed.

Lemma runs_shaped {A} (m : M A) l : (∀ w, good w → ∃ a w', m w = Ok a w') → shaped m l → runs m l.
Proof.
  intros Ht Hs w Hg. destruct (Ht w Hg) as (a & w' & H). destruct (Hs w a w' ltac:(apply Hg) H) as (effs & Hp & Hl).
  by exists a, w', effs.
Qed.

(** The tags whose samples [l] has, and keeps, have histories. *)
Definition histories (l : list shape) (w : world) : Prop :=
  ∀ t, SSample t ∈ l → SReset t ∉ l → GetTagHistory t (ss w) ≠ [].

(** A program that needs the histories the one before it leaves. *)
Lemma runs_after {A B} (m : M A) (f : A → M B) l1 l : runs m l1 → (∀ a, shaped (f a) l) →
  (∀ a w, good w → histories l1 w → ∃ b w', f a w = Ok b w') → runs (m ≫= f) (l1 ++ l).
Proof.
  intros Hm Hs Ht w Hg. destruct (Hm w Hg) as (a & w1 & e1 & H1 & Hp1 & <-).
  pose proof (good_perform _ _ _ Hg Hp1) as Hg1.
  destruct (Ht a w1 Hg1) as (b & w2 & H2).
  { intros t Hin Hn. apply (perform_history t e1 (ss w) (results w) _ (results w1)); [apply Hg|done|done|by right]. }
  destruct (Hs a w1 b w2 ltac:(apply Hg1) H2) as (e2 & Hp2 & <-).
  exists b, w2, (e1 ++ e2). rewrite perform_app, Hp1, fmap_app.
  split; [by apply (bind_intro _ _ _ _ _ _ H1)|done].
Qed.

(** Timed rounds and then a program that needs their history. *)
Lemma runs_after_samples {A B} (m : M A) (f : A → M B) t n l : runs m (samples (n + 1) t) → 0 <= n →
  (∀ a, shaped (f a) l) → (∀ a w, GetTagHistory t (ss w) ≠ [] → ∃ b w', f a w = Ok b w') →
  runs (m ≫= f) (samples (n + 1) t ++ l).
Proof.
  intros Hm Hn Hs Ht. apply runs_after; [done|done|]. intros a w _ Hh. apply Ht, Hh; rewrite samples_replicate.
  - apply elem_of_replicate. split; [done|lia].
  - by intros [? _]%elem_of_replicate.
Qed.

(** A timed call, and what is done with its answer. *)
Lemma runs_call_then {A B} t (c : api A) (f k : A → M B) l : t ≠ None → (∀ x, f x = (Pop_;; k x)) →
  (∀ s, runs (k (os_call c s).1) l) → runs (Push t;; x ← sys c; f x) (SSample t :: l).
Proof.
  intros Ht Hf Hk w Hg. destruct (total_Push t w) as ([] & w1 & H1 & _).
  destruct (os_call c (os w1)) as [x o] eqn:Ec.
  set (w2 := mkWorld o (Event A c x :: log w1) (ss w1) (results w1) (fileSizes w1) (g_hiddenValue w1)).
  assert (H2 : sys c w1 = Ok x w2) by (unfold sys; by rewrite Ec).
  destruct (total_Pop_ w2) as ([] & w3 & H3 & _).
  assert (Hs : shaped (Push t;; x ← sys c; Pop_;; ret x) [SSample t]).
  { apply shaped_push, opened_quiet_bind; [quiet|]. intros y. apply opened_pop; [done|]. intros _. apply shaped_quiet, quiet_ret. }
  destruct (Hs w x w3 ltac:(apply Hg)) as (e1 & Hp1 & Hl1).
  { apply (bind_intro _ _ _ _ _ _ H1), (bind_intro _ _ _ _ _ _ H2), (bind_intro _ _ _ _ _ _ H3). done. }
  pose proof (Hk (os w1)) as Hx. rewrite Ec in Hx. destruct (Hx w3 (good_perform _ _ _ Hg Hp1)) as (b & w4 & e2 & H4 & Hp2 & Hl2).
  exists b, w4, (e1 ++ e2). rewrite perform_app, Hp1, fmap_app, Hl1, Hl2. split; [|done].
  apply (bind_intro _ _ _ _ _ _ H1), (bind_intro _ _ _ _ _ _ H2). rewrite Hf. by apply (bind_intro _ _ _ _ _ _ H3).
Qed.

Lemma history_after_quiet {A B} t (m : M A) (f : A → M B) w : total m → quiet m → GetTagHistory t (ss w) ≠ [] →
  (∀ a w, GetTagHistory t (ss w) ≠ [] → ∃ b w', f a w = Ok b w') → ∃ b w', (m ≫= f) w = Ok b w'.
Proof.
  intros Hm Hq Hne Hf. destruct (Hm w) as (a & w1 & H1 & _). destruct (Hq _ _ _ H1) as [Es _].
  destruct (Hf a w1) as (b & w2 & H2); [by rewrite Es|]. exists b, w2. by apply (bind_intro _ _ _ _ _ _ H1).
Qed.

Lemma median_of_Ok name t w : ∃ w', median_of name t w = Ok tt w' ∧ ss w' = ss w.
Proof.
  destruct (Median_Some (microseconds (ss w) (s64 (- GetOverheadSimpleAsTicks (ss w)))) (GetTagHistory t (ss w))) as [v Hv].
  unfold median_of, PushResultMedianAsMicroseconds, history, minus_overhead, gets, mbind, M_bind. rewrite Hv. by eexists.
Qed.

Lemma minimum_of_Ok name t w : GetTagHistory t (ss w) ≠ [] → ∃ b w', minimum_of name t w = Ok b w' ∧ ss w' = ss w.
Proof.
  intros Hne. destruct (Minimum_Some (microseconds (ss w) (s64 (- GetOverheadSimpleAsTicks (ss w)))) _ Hne) as [v Hv].
  unfold minimum_of, PushResultMinimumAsMicroseconds, history, minus_overhead, gets, mbind, M_bind. rewrite Hv. by eexists _, _.
Qed.
Lemma maximum_of_Ok name t w : GetTagHistory t (ss w) ≠ [] → ∃ b w', maximum_of name t w = Ok b w'.
Proof.
  intros Hne. destruct (Maximum_Some (microseconds (ss w) (s64 (- GetOverheadSimpleAsTicks (ss w)))) _ Hne) as [v Hv].
  unfold maximum_of, PushResultMaximumAsMicroseconds, history, minus_overhead, gets, mbind, M_bind. rewrite Hv. by eexists _, _.
Qed.
End runs.

(** What is bound is [true]. *)
Lemma runs_bind_true `{OS : Win32} {A} (m : M bool) (f : bool → M A) l1 l2 :
  runs m l1 ∧ (∀ w b w', m w = Ok b w' → b = true) → runs (f true) l2 → runs (m ≫= f) (l1 ++ l2).
Proof.
  intros [Hm Ht] Hf w Hg. destruct (Hm w Hg) as (b & w1 & e1 & H1 & Hp1 & Hl1). pose proof (Ht _ _ _ H1) as ->.
  destruct (Hf w1 (good_perform _ _ _ Hg Hp1)) as (a & w2 & e2 & H2 & Hp2 & Hl2).
  exists a, w2, (e1 ++ e2). rewrite perform_app, Hp1, fmap_app, Hl1, Hl2.
  split; [by apply (bind_intro _ _ _ _ _ _ H1)|done].
Qed.

(** A continuation that is only run on what the first part can return. *)
Lemma runs_bind_where `{OS : Win32} {A B} (m : M A) (f : A → M B) (P : A → Prop) l1 l2 :
  runs m l1 → (∀ w a w', m w = Ok a w' → P a) → (∀ a, P a → runs (f a) l2) → runs (m ≫= f) (l1 ++ l2).
Proof.
  intros Hm HP Hf w Hg. destruct (Hm w Hg) as (a & w1 & e1 & H1 & Hp1 & Hl1).
  destruct (Hf a (HP _ _ _ H1) w1 (good_perform _ _ _ Hg Hp1)) as (b & w2 & e2 & H2 & Hp2 & Hl2).
  exists b, w2, (e1 ++ e2). rewrite perform_app, Hp1, fmap_app, Hl1, Hl2.
  split; [by apply (bind_intro _ _ _ _ _ _ H1)|done].
Qed.

(** ** A system whose calls succeed

    What the experiments rely on: memory is never exhausted and fits the 32-bit
    address space, the calls that make or close something succeed, the peer of a
    connection answers and closes it. *)
Class Cooperative `{OS : Win32} : Prop := {
  malloc_works n s : (os_call (Malloc n) s).1 ≠ NULL;
  malloc_range n s : 0 <= (os_call (Malloc n) s).1 < 2 ^ 32;
  create_thread_works f s : (os_call (CreateThread f) s).1 ≠ NULL;
  set_priority_works h p s : (os_call (SetThreadPriority h p) s).1 = true;
  create_process_works path line mapped window s : is_Some (os_call (CreateProcess path line mapped window) s).1;
  close_handle_works h s : (os_call (CloseHandle h) s).1 = true;
  file_mapping_works name fresh size s : (os_call (CreateFileMapping name fresh size) s).1 ≠ NULL;
  map_view_works h size s : (os_call (MapViewOfFile h size) s).1 ≠ NULL;
  wsa_startup_works s : (os_call WSAStartup s).1 = 0;
  socket_works s : (os_call WSASocket s).1 ≠ INVALID_SOCKET;
  connect_works h a p s : (os_call (WSAConnect h a p) s).1 = 0;
  send_works h n s : (os_call (WSASend h n) s).1 = 0;
  receive_ends h n s : (os_call (WSARecv h n) s).1 = (0, 0);
  shutdown_works h s : (os_call (ShutdownBoth h) s).1 = 0;
  shutdown_send_works h s : (os_call (ShutdownSend h) s).1 = 0;
  close_socket_works h s : (os_call (CloseSocket h) s).1 = 0;
  open_event_works n s : (os_call (OpenEvent n) s).1 ≠ NULL;
  icmp_works s : (os_call IcmpCreateFile s).1 ≠ INVALID_HANDLE_VALUE;
  echo_works h a n m s : (os_call (IcmpSendEcho h a n m) s).1.1 ≠ 0;
  echo_succeeds h a n m s : (os_call (IcmpSendEcho h a n m) s).1.2.1 = 0;
  echo_time h a n m s : is_u32 (os_call (IcmpSendEcho h a n m) s).1.2.2;
}.

#[export] Instance demo_cooperative : Cooperative (OS := demo_os).
Proof. constructor; done || (intros; unfold is_u32; simpl; lia). Qed.
