(* ===== verification/Reports.v ===== *)
(** * What a program reports, by name

    The number of samples a file experiment takes depends on the system; the
    names it reports under do not.  [named m names]: every normal run of [m]
    reports under [names].  [reports sizes m names]: from a good world whose
    static [_fileSizes] is [sizes], [m] runs to its end, reports under [names],
    and leaves a world of the same kind. *)
From S2P Require Import Prelude.
From S2P Require Import Words.
From S2P Require Import Win32.
From S2P Require Import Mathx.
From S2P Require Import StopwatchStack.
From S2P Require Import Machine.
From S2P Require Import Experiment.
From S2P Require Import Effects.
From S2P Require Import Frames.
From S2P Require Import Completion.

Definition report_name (s : shape) : option string := match s with SReport n _ => Some n | _ => None end.
Definition report_names (l : list shape) : list string := omap report_name l.

Lemma report_names_app a b : report_names (a ++ b) = report_names a ++ report_names b.
Proof. apply omap_app. Qed.

Lemma report_names_samples n t : report_names (samples n t) = [].
Proof. rewrite samples_replicate. generalize (Z.to_nat n). by induction n0. Qed.

Section named.
Context `{OS : Win32}.

Lemma perform_names effs : ∀ s rs s' rs', perform effs (s, rs) = Some (s', rs') →
  Name <$> rs' = (Name <$> rs) ++ report_names (shape_of <$> effs).
Proof.
  induction effs as [|e effs IH]; intros s rs s' rs' H; simpl in H.
  - inversion H. by rewrite app_nil_r.
  - destruct e as [t d|t| |name q]; simpl in H.
    + by rewrite (IH _ _ _ _ H).
    + by rewrite (IH _ _ _ _ H).
    + destruct (Mathx.Minimum _ _); simpl in H; [|done]. by rewrite (IH _ _ _ _ H).
    + destruct (quantity_value s q) as [x|]; simpl in H; [|done]. rewrite (IH _ _ _ _ H), fmap_app, <- app_assoc. done.
Qed.

Definition named {A} (m : M A) (names : list string) : Prop :=
  spec m (fun _ effs => report_names (shape_of <$> effs) = names).

Lemma named_shaped {A} (m : M A) l : shaped m l → named m (report_names l).
Proof. intros Hm. eapply spec_mono; [exact Hm|]. by intros a effs ->. Qed.
Lemma named_quiet {A} (m : M A) : quiet m → named m [].
Proof. intros Hm. by apply (named_shaped m []), shaped_quiet. Qed.

Lemma named_bind {A B} (m : M A) (f : A → M B) n1 n2 : named m n1 → (∀ a, named (f a) n2) → named (m ≫= f) (n1 ++ n2).
Proof.
  intros Hm Hf. eapply spec_mono; [by apply (spec_bind m f _ _ Hm Hf)|].
  intros b effs (a & e1 & e2 & -> & <- & <-). by rewrite fmap_app, report_names_app.
Qed.
Lemma named_quiet_bind {A B} (m : M A) (f : A → M B) n : quiet m → (∀ a, named (f a) n) → named (m ≫= f) n.
Proof. apply spec_quiet_bind. Qed.
Lemma named_lift {A B} (o : option A) v (f : A → M B) n : o = Some v → named (f v) n → named (lift o ≫= f) n.
Proof. intros -> Hf. exact Hf. Qed.
(** A part that reports nothing. *)
Lemma named_silent_bind {A B} (m : M A) (f : A → M B) n : named m [] → (∀ a, named (f a) n) → named (m ≫= f) n.
Proof. apply (named_bind m f [] n). Qed.
Lemma named_bind_silent {A B} (m : M A) (f : A → M B) n : named m n → (∀ a, named (f a) []) → named (m ≫= f) n.
Proof. intros Hm Hf. rewrite <- (app_nil_r n). by apply named_bind. Qed.

Lemma named_for lo hi body f : lo <= hi → (∀ i, named (body i) (f i)) → named (for_ lo hi body) (concat (f <$> seqZ lo (hi - lo))).
Proof.
  intros Hle Hb. unfold for_, for_state. remember (Z.to_nat (hi - lo)) as n eqn:Hn.
  replace (hi - lo) with (Z.of_nat n) by lia. clear Hn Hle hi. revert lo.
  induction n as [|n IH]; intros lo; simpl; [apply named_quiet, quiet_ret|].
  rewrite seqZ_cons by lia. simpl. apply named_bind; [apply Hb|]. intros [].
  replace (Z.pred (Z.of_nat (Datatypes.S n))) with (Z.of_nat n) by lia.
  replace (Z.succ lo) with (lo + 1) by lia. apply IH.
Qed.
Lemma concat_nils {A B} (l : list A) : concat ((fun _ => []) <$> l) = @nil B.
Proof. by induction l. Qed.
Lemma named_for_silent lo hi body : (∀ i, named (body i) []) → named (for_ lo hi body) [].
Proof.
  intros Hb. destruct (Z_le_gt_dec lo hi) as [Hle|Hgt].
  - rewrite <- (concat_nils (seqZ lo (hi - lo))). by apply (named_for lo hi body (fun _ => [])).
  - unfold for_, for_state. replace (Z.to_nat (hi - lo)) with 0%nat by lia. apply named_quiet, quiet_ret.
Qed.
Lemma named_while {S A} fuel (body : S → M (S + A)) : ∀ s, (∀ s, named (body s) []) → named (while_ fuel body s) [].
Proof.
  induction fuel as [|fuel IH]; intros s Hb; simpl; [apply named_quiet, quiet_fuel|].
  apply named_silent_bind; [apply Hb|]. intros [s'|a]; [by apply IH|apply named_quiet, quiet_ret].
Qed.

Lemma named_reset t : named (ss_ResetTagHistory t) [].
Proof. by apply (named_shaped _ [SReset t]), shaped_reset. Qed.
Lemma named_median name t : named (median_of name t) [name].
Proof. exact (named_shaped _ _ (shaped_median _ _)). Qed.
Lemma named_mean name t : named (mean_of name t) [name].
Proof. exact (named_shaped _ _ (shaped_mean _ _)). Qed.
Lemma named_percentile name t p : named (percentile_of name t p) [name].
Proof. exact (named_shaped _ _ (shaped_percentile _ _ _)). Qed.

(** A timed call, with or without a tag. *)
Lemma Pop_Ok_unnamed w e st w' u : _stack (ss w) = e :: st → room (with_ss w (with_stack (ss w) st)) → Pop_ w = Ok u w' →
  ∃ effs, perform effs (with_stack (ss w) st, results w) = Some (ss w', results w') ∧ report_names (shape_of <$> effs) = [].
Proof.
  intros Hst Hr H. unfold Pop_ in H. apply bind_Ok in H as (d & w1 & H & H1). inversion H1; subst w1.
  destruct (Pop_Ok e st w d w' Hst H) as (now & _ & Es & Er). unfold pop_entry in Es. simpl in Es. rewrite Es, Er.
  destruct (decide (e_tag e = None)); [by exists []|]. by exists [Sample (e_tag e) (s64 (now - startTime e))].
Qed.

Lemma named_timed_call {A B} t (c : api A) (q : A → M unit) (f k : A → M B) n : (∀ x, quiet (q x)) →
  (∀ x, f x = (q x;; Pop_;; k x)) → (∀ x, named (k x) n) → named (Push t;; x ← sys c; f x) n.
Proof.
  intros Hq Hf Hk w b w' Hr H. apply bind_Ok in H as (u1 & w1 & H1 & H). apply bind_Ok in H as (x & wx & Hx & H).
  rewrite Hf in H. apply bind_Ok in H as (u2 & w2 & H2 & H). apply bind_Ok in H as (u3 & w3 & H3 & H).
  destruct (Push_Ok _ _ _ _ Hr H1) as (now & Es1 & Er1). destruct (quiet_sys _ _ _ _ Hx) as [Esx Erx].
  destruct (Hq _ _ _ _ H2) as [Es2 Er2]. rewrite Esx in Es2. rewrite Erx in Er2.
  assert (Hst : _stack (ss w2) = mkEntry now t :: _stack (ss w)) by (by rewrite Es2, Es1).
  assert (Hback : with_stack (ss w2) (_stack (ss w)) = ss w) by (by rewrite Es2, Es1, with_stack_twice, with_stack_id).
  destruct (Pop_Ok_unnamed w2 _ _ w3 u3 Hst) as (e1 & Hp1 & Hn1); [unfold room in *; simpl; by rewrite Hback|done|].
  rewrite Hback, Er2, Er1 in Hp1. destruct (Hk x w3 b w' (room_perform _ _ _ Hr Hp1) H) as (e2 & Hp2 & Hn2).
  exists (e1 ++ e2). rewrite perform_app, Hp1. split; [done|]. by rewrite fmap_app, report_names_app, Hn1.
Qed.

(** On a stopwatch of its own a program that reports nothing does not show. *)
Lemma quiet_dummy {A} s (m : M A) : is_full s = false → named m [] → quiet (on_stopwatch s m).
Proof.
  intros Hs Hm. apply quiet_on_stopwatch; [done|]. eapply spec_mono; [exact Hm|]. intros a effs He.
  clear -He. induction effs as [|e effs IH]; constructor; destruct e; simpl in *; try done; by apply IH.
Qed.
End named.

(** ** With completion *)
Section reports.
Context `{OS : Win32}.
Variable sizes : list Z.

Definition reports {A} (m : M A) (names : list string) : Prop := ∀ w, good w → fileSizes w = sizes → ∃ a w',
  m w = Ok a w' ∧ good w' ∧ fileSizes w' = sizes ∧ Name <$> results w' = (Name <$> results w) ++ names.

Lemma runs_reports {A} (m : M A) l : frames m → runs m l → reports m (report_names l).
Proof.
  intros Hf Hm w Hg Hs. destruct (Hm w Hg) as (a & w' & effs & H & Hp & <-). exists a, w'. split; [done|].
  split; [by apply (good_perform w w' effs)|]. split; [by rewrite (Hf _ _ _ H)|]. by apply perform_names in Hp.
Qed.

Lemma named_reports {A} (m : M A) names : frames m → total m → named m names → reports m names.
Proof.
  intros Hf Ht Hm w Hg Hs. destruct (Ht w) as (a & w' & H & _). destruct (Hm w a w' ltac:(apply Hg) H) as (effs & Hp & <-).
  exists a, w'. split; [done|]. split; [by apply (good_perform w w' effs)|]. split; [by rewrite (Hf _ _ _ H)|].
  by apply perform_names in Hp.
Qed.

Lemma reports_ret {A} (m : M A) names : reports m names → reports (x ← m; ret tt) names.
Proof.
  intros Hm w Hg Hs. destruct (Hm w Hg Hs) as (a & w' & H & Hr). exists tt, w'.
  split; [by apply (bind_intro _ _ _ _ _ _ H)|done].
Qed.

Lemma reports_bind {A B} (m : M A) (f : A → M B) n1 n2 : reports m n1 → (∀ a, reports (f a) n2) → reports (m ≫= f) (n1 ++ n2).
Proof.
  intros Hm Hf w Hg Hs. destruct (Hm w Hg Hs) as (a & w1 & H1 & Hg1 & Hs1 & Hn1).
  destruct (Hf a w1 Hg1 Hs1) as (b & w2 & H2 & Hg2 & Hs2 & Hn2). exists b, w2.
  split; [by apply (bind_intro _ _ _ _ _ _ H1)|]. split; [done|]. split; [done|]. by rewrite Hn2, Hn1, app_assoc.
Qed.

Lemma reports_silent {A B} (m : M A) (f : A → M B) n : frames m → total m → named m [] → (∀ a, reports (f a) n) →
  reports (m ≫= f) n.
Proof. intros Hr Ht Hm Hf. apply (reports_bind m f [] n); [by apply named_reports|done]. Qed.

(** A first part that reports nothing, and what its value is. *)
Lemma reports_prefix {A B} (m : M A) (f : A → M B) Q n : completes m Q → quiet m → frames m →
  (∀ a, Q a → reports (f a) n) → reports (m ≫= f) n.
Proof.
  intros Hm Hq Hr Hf w Hg Hs. destruct (Hm w) as (a & w1 & H1 & Ha). destruct (Hq _ _ _ H1) as [Es Er].
  destruct (Hf a Ha w1) as (b & w2 & H2 & Hw2).
  { unfold good, room in *. by rewrite Es. }
  { by rewrite (Hr _ _ _ H1). }
  exists b, w2. rewrite <- Er. split; [by apply (bind_intro _ _ _ _ _ _ H1)|done].
Qed.

(** The static sizes, read. *)
Lemma reports_sizes {A B} (g : list Z → A) (f : A → M B) n : reports (f (g sizes)) n →
  reports (a ← gets (fun w => g (fileSizes w)); f a) n.
Proof.
  intros Hf w Hg Hs. destruct (Hf w Hg Hs) as (b & w' & H & Hw). exists b, w'. split; [|done].
  eapply bind_intro; [reflexivity|]. by rewrite Hs.
Qed.

Lemma reports_for lo hi body f : lo <= hi → (∀ i, lo <= i < hi → reports (body i) (f i)) →
  reports (for_ lo hi body) (concat (f <$> seqZ lo (hi - lo))).
Proof.
  intros Hle. unfold for_, for_state. remember (Z.to_nat (hi - lo)) as n eqn:Hn.
  replace (hi - lo) with (Z.of_nat n) by lia. assert (Hhi : hi = lo + Z.of_nat n) by lia. clear Hn Hle. revert lo Hhi.
  induction n as [|n IH]; intros lo Hhi Hb; simpl.
  - intros w Hg Hs. exists tt, w. by rewrite app_nil_r.
  - rewrite seqZ_cons by lia. simpl. apply reports_bind; [apply Hb; lia|]. intros [].
    replace (Z.pred (Z.of_nat (Datatypes.S n))) with (Z.of_nat n) by lia.
    replace (Z.succ lo) with (lo + 1) by lia. apply IH; [lia|]. intros i Hi. apply Hb. lia.
Qed.
End reports.
