(* ===== verification/FileRunProps.v ===== *)
(** * The file system experiments run to their end

    What they rely on: a disk whose sectors are a power of two, files that open,
    have a size and can be read.  The [fuel] that is enough is more than the size
    of the largest file. *)
From S2P Require Import Prelude.
From S2P Require Import Words.
From S2P Require Import Win32.
From S2P Require Import Mathx.
From S2P Require Import StopwatchStack.
From S2P Require Import FloatProps.
From S2P Require Import Machine.
From S2P Require Import Experiment.
From S2P Require Import FileSystemModel.
From S2P Require Import FileSystemExperiments.
From S2P Require Import Effects.
From S2P Require Import FileSystemProps.
From S2P Require Import Frames.
From S2P Require Import Completion.
From S2P Require Import Reports.
From S2P Require Import DemoOs.
Import FileSystemExperiment.

(** Sectors of [2 ^ sector] bytes; files of at most [largest] bytes; a read of a
    file brings something. *)
Class Files `{OS : Win32} (sector largest : Z) : Prop := {
  sector_range : 1 <= sector <= 31;
  largest_range : 0 < largest < 2 ^ 62;
  disk_works d s : (os_call (GetDiskFreeSpace d) s).1 = Some (2 ^ sector);
  create_file_works p r b s : (os_call (CreateFile p r b) s).1 ≠ INVALID_HANDLE_VALUE ∧ (os_call (CreateFile p r b) s).1 ≠ NULL;
  file_size_known h s : ∃ n, (os_call (GetFileSizeEx h) s).1 = Some n ∧ 0 < n <= largest;
  set_pointer_works h d s : (os_call (SetFilePointer h d) s).1 ≠ INVALID_SET_FILE_POINTER;
  read_works h n s : 0 < n → ∃ a, (os_call (ReadFile h n) s).1 = (true, a) ∧ 1 <= a <= n;
  stream_write_works p s : (os_call (StreamOpenWrite p) s).1 = true;
}.

#[export] Instance demo_files : Files (OS := demo_os) 9 4096.
Proof.
  constructor; try done; intros; simpl.
  - by exists 4096.
  - exists (Z.min n 512). split; [done|lia].
Qed.

(** The sizes of the test files. *)
Definition file_sizes (sector : Z) : list Z := (fun i => 2 ^ (i + sector)) <$> seqZ 0 NumFileSizes.

Section files.
Context `{OS : Win32} `{Coop : !Cooperative} (sector largest : Z) `{Disk : !Files sector largest}.

(** ** Reading *)
Lemma open_total path r b : completes (open_file path r b) (fun h => h ≠ INVALID_HANDLE_VALUE ∧ h ≠ NULL).
Proof using Disk.
  unfold open_file. apply (completes_bind _ _ (fun h => h ≠ INVALID_HANDLE_VALUE ∧ h ≠ NULL)); [apply completes_sys; intros; apply (create_file_works (sector := sector) (largest := largest))|].
  intros h [H1%Z.eqb_neq H2]. rewrite H1.
  apply total_bind; [apply total_ret|intros _]. apply completes_ret. split; [by apply Z.eqb_neq|done].
Qed.

Lemma close_total h : h ≠ NULL → total (CloseFile h).
Proof using Type. intros Hh%Z.eqb_neq. apply total_bind; [by apply total_assert; rewrite Hh|intros _; total]. Qed.

Lemma seek_total h d : total (seek h d).
Proof using Disk.
  apply (completes_bind _ _ (fun p => p ≠ INVALID_SET_FILE_POINTER));
    [apply completes_sys; intros; apply (set_pointer_works (sector := sector) (largest := largest))|].
  intros p Hp%Z.eqb_neq. apply total_assert. by rewrite Hp.
Qed.

Lemma sector_total d : completes (GetLogicalSectorSize d) (fun n => n = 2 ^ sector).
Proof using Disk.
  apply (completes_bind _ _ (fun o => o = Some (2 ^ sector))); [apply completes_sys; intros; apply (disk_works (largest := largest))|]. intros ? ->. by apply completes_ret.
Qed.

Lemma file_size_total h : completes (GetFileSizeOfHandle h) (fun n => 0 < n <= largest).
Proof using Disk.
  apply (completes_bind _ _ (fun o => ∃ n, o = Some n ∧ 0 < n <= largest));
    [apply completes_sys; intros; apply (file_size_known (sector := sector))|]. intros ? (n & -> & Hn).
  apply completes_ret. pose proof (largest_range (sector := sector) (largest := largest)).
  rewrite u64_small; [done|unfold is_u64; lia].
Qed.

Section loop.
Variables (h bufferSize fileSize : Z) (t : tag) (readMode : ReadMode).
Hypothesis sizes_ok : 0 < bufferSize < 2 ^ 32 ∧ 0 < fileSize < 2 ^ 62.

Lemma turn_total n : 0 <= n < fileSize →
  completes (read_turn h bufferSize fileSize t readMode n)
    (fun r => ∃ a, 1 <= a <= bufferSize ∧ r = inl (n + a)).
Proof using Disk sizes_ok.
  intros Hn. pose proof (proj2 Hn) as Hlt. unfold read_turn. apply Z.ltb_lt in Hlt as ->. apply total_bind; [total|intros _].
  apply (completes_bind _ _ (fun r => ∃ a, r = (true, a) ∧ 1 <= a <= bufferSize));
    [apply completes_sys; intros s; apply (read_works (sector := sector) (largest := largest)); lia|].
  intros ? (a & -> & Ha). apply total_bind; [total|intros _].
  rewrite u64_small by (unfold is_u64; lia). apply total_bind; [|intros _; apply completes_ret; by exists a].
  destruct readMode.
  - apply total_when. intros _. apply seek_total.
  - apply total_bind; [total|intros r]. apply seek_total.
Qed.

Lemma loop_total m : ∀ fuel n, 0 <= n <= fileSize + bufferSize → (m < fuel)%nat → fileSize - n <= Z.of_nat m →
  total (while_ fuel (read_turn h bufferSize fileSize t readMode) n).
Proof using Disk sizes_ok.
  induction m as [|m IH]; intros fuel n Ht Hf Hm; (destruct fuel as [|fuel]; [lia|]); simpl;
    (destruct (Z_lt_le_dec n fileSize) as [Hlt|Hge];
      [|unfold read_turn; apply Z.ltb_ge in Hge as ->; apply (completes_bind _ _ (fun r => r = inr tt));
        [by apply completes_ret|intros ? ->; by apply completes_ret]]); [lia|].
  eapply completes_bind; [apply turn_total; lia|]. intros ? (a & Ha & ->). apply IH; lia.
Qed.

Lemma turn_named n : named (read_turn h bufferSize fileSize t readMode n) [].
Proof using Type.
  unfold read_turn. destruct (n <? fileSize); [|apply named_quiet, quiet_ret].
  apply (named_timed_call t _ (fun _ => ret tt) _ (fun r => let n := u64 (n + r.2) in
    match readMode with
    | SEQUENTIAL => when (r.2 =? 0) (seek h 0)
    | RANDOM =>
        x ← sys Rand;
        let randomPosition := u64 (Z.shiftl x 9) mod fileSize in
        seek h (s32 (randomPosition mod UINT32_MAX))
    end;; ret (inl n))); [intros; apply quiet_ret|by intros [ok a]|].
  intros [ok a]. apply named_quiet. unfold seek. destruct readMode; quiet.
Qed.
End loop.

Lemma read_entire_total fuel h bufferSize t startPosition readMode : h ≠ INVALID_HANDLE_VALUE → 0 < bufferSize < 2 ^ 32 →
  (Z.to_nat largest < fuel)%nat → total (ReadEntireFile fuel h bufferSize t startPosition readMode).
Proof using Disk.
  intros Hh%Z.eqb_neq Hb Hf. unfold ReadEntireFile. apply total_bind; [by apply total_assert; rewrite Hh|intros _].
  apply total_bind; [total|intros b]. apply total_bind; [apply seek_total|intros _].
  apply (completes_bind _ _ (fun n => 0 < n <= largest)); [apply file_size_total|]. intros n Hn. apply total_bind; [apply total_assert; lia|intros _].
  pose proof (largest_range (sector := sector) (largest := largest)).
  apply total_bind; [apply (loop_total h bufferSize n t readMode ltac:(lia) (Z.to_nat n)); lia|intros _; total].
Qed.

Lemma read_entire_named fuel h bufferSize t startPosition readMode :
  named (ReadEntireFile fuel h bufferSize t startPosition readMode) [].
Proof using Type.
  unfold ReadEntireFile, seek, GetFileSizeOfHandle. do 4 (apply named_quiet_bind; [quiet|intros ?]).
  apply named_quiet_bind; [quiet|intros ?]. apply named_silent_bind; [|intros; apply named_quiet; quiet].
  apply named_while. intros s. apply turn_named.
Qed.

Lemma read_path_total fuel path startPosition : (Z.to_nat largest < fuel)%nat → total (ReadEntireFileOfPath fuel path startPosition).
Proof using Disk.
  intros Hf. unfold ReadEntireFileOfPath. eapply completes_bind; [apply open_total|]. intros h [Hh Hn].
  apply total_bind; [apply total_assert; by apply Z.eqb_neq in Hh as ->|intros _].
  apply total_bind; [unfold StopwatchStack_default, StopwatchStack_new; simpl; total|intros s].
  apply total_bind; [|intros _; by apply close_total].
  intros w. destruct (read_entire_total fuel h DefaultBufferSize None startPosition SEQUENTIAL Hh ltac:(done) Hf (with_ss w s))
    as (u & w' & H & _). unfold on_stopwatch. rewrite H. by eexists _, _.
Qed.

Lemma quiet_open path r b : quiet (open_file path r b).
Proof using Type. unfold open_file. quiet. Qed.
Lemma quiet_close h : quiet (CloseFile h).
Proof using Type. unfold CloseFile. quiet. Qed.

Lemma read_path_quiet fuel path startPosition : quiet (ReadEntireFileOfPath fuel path startPosition).
Proof using Type.
  unfold ReadEntireFileOfPath. apply quiet_bind; [apply quiet_open|intros h]. apply quiet_bind; [quiet|intros _].
  intros w a w' H. apply bind_Ok in H as (s & w1 & H1 & H). pose proof H1 as Hnew. destruct (quiet_StopwatchStack_new _ _ _ _ _ _ H1) as [<- <-].
  revert H. apply quiet_bind; [|intros _; apply quiet_close]. apply quiet_dummy; [|apply read_entire_named].
  destruct (StopwatchStack_new_Ok _ _ _ _ _ _ Hnew) as (Hs & Hm & _). unfold is_full. by rewrite Hs, Hm.
Qed.

(** ** The pieces of the experiments *)
Lemma slot_total h t prepare : total prepare → total (timed_slot_read h t prepare).
Proof using All.
  intros Hp. unfold timed_slot_read. apply (completes_bind _ _ (fun p => p ≠ NULL)); [apply completes_sys, malloc_works|].
  intros p Hn%Z.eqb_neq. rewrite Hn. apply total_bind; [total|intros _]. apply total_bind; [done|intros _].
  apply total_bind; [total|intros _]. apply (completes_bind _ _ (fun r => ∃ a, r = (true, a) ∧ 1 <= a <= estimatedSlotSize)).
  { apply completes_sys. intros s. by apply (read_works (sector := sector) (largest := largest)). }
  intros ? (a & -> & _). simpl. total.
Qed.

Lemma slot_named h t prepare : quiet prepare → named (timed_slot_read h t prepare) [].
Proof using Type.
  intros Hp. unfold timed_slot_read. apply named_quiet_bind; [quiet|intros b]. apply named_quiet_bind; [quiet|intros _].
  apply named_quiet_bind; [done|intros _].
  apply (named_timed_call t _ (fun r => when (negb r.1) (fail_with "File Read Failed")) _ (fun _ => sys_ (Free b)));
    [intros; quiet|by intros []|intros; apply named_quiet; quiet].
Qed.

Lemma pointer_total h d : total (set_pointer h d).
Proof using Disk.
  apply (completes_bind _ _ (fun p => p ≠ INVALID_SET_FILE_POINTER));
    [apply completes_sys; intros; apply (set_pointer_works (sector := sector) (largest := largest))|].
  intros p Hp%Z.eqb_neq. rewrite Hp. total.
Qed.
Lemma pointer_quiet h d : quiet (set_pointer h d).
Proof using Type. unfold set_pointer. quiet. Qed.

Lemma create_total d l replace : total (CreateTestFiles d l replace).
Proof using Disk.
  apply total_for_list. intros size. unfold create_test_file. apply total_bind; [total|intros there].
  destruct (there && _); [apply total_ret|]. apply total_bind; [|intros b; total]. destruct there; [total|].
  apply (completes_bind _ _ (fun b => b = true)); [apply completes_sys; intros; apply (stream_write_works (sector := sector) (largest := largest))|].
  intros ? ->. apply total_bind; [by apply total_assert|intros _; total].
Qed.
Lemma create_quiet d l replace : quiet (CreateTestFiles d l replace).
Proof using Type. apply quiet_for_list. intros size. unfold create_test_file. quiet. Qed.

Lemma defaults_total d : total (CreateDefaultTestFiles d).
Proof using Disk. apply total_bind; [total|intros l]. apply create_total. Qed.
Lemma defaults_quiet d : quiet (CreateDefaultTestFiles d).
Proof using Type. apply quiet_bind; [quiet|intros l]. apply create_quiet. Qed.

Lemma sector_quiet d : quiet (GetLogicalSectorSize d).
Proof using Type. unfold GetLogicalSectorSize. apply quiet_bind; [quiet|]. intros []; [quiet|]. unfold fail_with. quiet. Qed.

Lemma log2_sector : GetLog2 (2 ^ sector) = Some sector.
Proof using Disk.
  pose proof (sector_range (sector := sector) (largest := largest)) as Hs. rewrite GetLog2_spec.
  - f_equal. rewrite Z.log2_pow2; lia.
  - split; [lia|]. apply Z.pow_lt_mono_r; lia.
Qed.

Lemma shifted i : 0 <= i <= 23 → GuaranteedShift 1 (s32 (u64 (i + sector))) = Some (2 ^ (i + sector)).
Proof using Disk.
  pose proof (sector_range (sector := sector) (largest := largest)). intros Hi.
  rewrite u64_small, s32_small by (unfold is_u64, is_s32; lia). apply GuaranteedShift_spec. lia.
Qed.

(** Every experiment finds out the size of a sector first. *)
Lemma with_sector sizes d (f : Z → M unit) n : reports sizes (f sector) n →
  reports sizes (sectorSize ← GetLogicalSectorSize d; assert (1 <? sectorSize);; l ← lift (GetLog2 sectorSize); f l) n.
Proof using Disk.
  intros Hf. pose proof (sector_range (sector := sector) (largest := largest)) as Hs.
  apply (reports_prefix _ _ _ (fun x => x = 2 ^ sector)); [apply sector_total|apply sector_quiet|frames|intros ? ->].
  apply (reports_prefix _ _ _ (fun _ => True)); [|quiet|frames|intros _ _].
  { apply total_assert, Z.ltb_lt. by apply Z.pow_gt_1; lia. }
  apply (reports_prefix _ _ _ (fun l => l = sector)); [|quiet|frames|by intros ? ->].
  apply (completes_lift _ sector); [apply log2_sector|done].
Qed.

(** ** Cached reads *)
Definition cache_names (i : Z) : list string :=
  let resultName := ("File Read Latency Normal, File Size:" ++ tab ++ dec (2 ^ (i + sector)) ++ " bytes")%string in
  [(resultName ++ " Med")%string; (resultName ++ " Mean")%string].

Lemma cache_size_reports sizes fuel i : 0 <= i < 23 → (Z.to_nat largest < fuel)%nat →
  reports sizes (FileSystemCacheSize.file_size fuel sector i) (cache_names i).
Proof using All.
  intros Hi Hf. unfold FileSystemCacheSize.file_size, dots.
  apply (reports_prefix _ _ _ (fun _ => True)); [total|quiet|frames|intros _ _].
  apply reports_silent; [frames|apply total_modify|apply named_reset|intros _].
  apply (reports_prefix _ _ _ (fun x => x = 2 ^ (i + sector))); [|quiet|frames|intros ? ->].
  { apply (completes_lift _ (2 ^ (i + sector))); [apply shifted; lia|done]. }
  unfold OpenFileNormal. apply named_reports; [frames| |].
  - apply total_bind; [by apply read_path_total|intros _]. eapply completes_bind; [apply open_total|]. intros h [_ Hh].
    apply total_bind; [|intros _; apply total_bind; [by apply close_total|intros _; total]].
    apply total_for. intros j. apply slot_total, total_when. intros _. apply pointer_total.
  - apply named_quiet_bind; [apply read_path_quiet|intros _]. apply named_quiet_bind; [apply quiet_open|intros h].
    apply named_silent_bind; [|intros _; apply named_quiet_bind; [apply quiet_close|intros _]].
    + apply named_for_silent. intros j. apply slot_named, quiet_when, pointer_quiet.
    + apply (named_bind _ _ [_] [_]); [apply named_median|intros _; apply named_mean].
Qed.

Lemma cache_reports fuel : (Z.to_nat largest < fuel)%nat →
  reports (file_sizes sector) (FileSystemCacheSize.Run fuel) (concat (cache_names <$> seqZ 0 23)).
Proof using All.
  intros Hf. unfold FileSystemCacheSize.Run.
  apply (reports_prefix _ _ _ (fun _ => True)); [apply defaults_total|apply defaults_quiet|frames|intros _ _].
  apply with_sector, (reports_sizes _ (fun l => Z.of_nat (length l))).
  apply (reports_for _ 0 23 _ cache_names); [done|]. intros i Hi. by apply cache_size_reports.
Qed.

(** ** Unbuffered reads *)
Definition local_names (i : Z) : list string :=
  [("Unbuffered File Read Latency Sequential, File Size:" ++ tab ++ dec (2 ^ (i + sector)) ++ " bytes")%string;
   ("Unbuffered File Read Latency Random, File Size:" ++ tab ++ dec (2 ^ (i + sector)) ++ " bytes")%string].

Lemma flush_total fuel : (Z.to_nat largest < fuel)%nat → total (FileSystemLocalRead.flush fuel sector).
Proof using All.
  intros Hf. unfold FileSystemLocalRead.flush. pose proof (sector_range (sector := sector) (largest := largest)).
  apply (completes_bind _ _ (fun _ => True)); [|intros n _; apply total_bind; [apply create_total|intros _; by apply read_path_total]].
  apply (completes_lift _ (2 ^ (21 + sector))); [|done]. rewrite u64_small by (unfold is_u64; lia).
  apply GuaranteedShift_spec. lia.
Qed.
Lemma flush_quiet fuel : quiet (FileSystemLocalRead.flush fuel sector).
Proof using Type.
  unfold FileSystemLocalRead.flush. apply quiet_bind; [quiet|intros n].
  apply quiet_bind; [apply create_quiet|intros _]. apply read_path_quiet.
Qed.

Lemma local_size_total fuel i : 0 <= i < 23 → (Z.to_nat largest < fuel)%nat → total (FileSystemLocalRead.file_size fuel sector i).
Proof using All.
  intros Hi Hf. unfold FileSystemLocalRead.file_size, dots, OpenFileNoBuffering.
  apply total_bind; [total|intros _]. do 2 (apply total_bind; [apply total_modify|intros _]).
  apply (completes_bind _ _ (fun x => x = 2 ^ (i + sector))); [apply (completes_lift _ (2 ^ (i + sector))); [apply shifted; lia|done]|].
  intros ? ->. eapply completes_bind; [apply open_total|]. intros h1 [_ Hh1].
  apply total_bind; [apply total_for; intros j; apply slot_total, total_when; intros _; apply pointer_total|intros _].
  apply total_bind; [by apply close_total|intros _]. apply total_bind; [total|intros _].
  apply total_bind; [by apply flush_total|intros _]. eapply completes_bind; [apply open_total|]. intros h2 [_ Hh2].
  apply total_bind; [apply total_for; intros j; apply slot_total|intros _].
  - apply total_bind; [unfold FileSystemLocalRead.random_offset; total|intros o; apply pointer_total].
  - apply total_bind; [by apply close_total|intros _; total].
Qed.

Lemma local_size_reports sizes fuel i : 0 <= i < 23 → (Z.to_nat largest < fuel)%nat →
  reports sizes (FileSystemLocalRead.file_size fuel sector i) (local_names i).
Proof using All.
  intros Hi Hf. apply named_reports; [frames|by apply local_size_total|].
  unfold FileSystemLocalRead.file_size, dots, OpenFileNoBuffering.
  apply named_quiet_bind; [quiet|intros _]. do 2 (apply named_silent_bind; [apply named_reset|intros _]).
  eapply named_lift; [apply shifted; lia|].
  apply named_quiet_bind; [apply quiet_open|intros h1]. apply named_silent_bind.
  { apply named_for_silent. intros j. apply slot_named, quiet_when, pointer_quiet. }
  intros _. apply named_quiet_bind; [apply quiet_close|intros _]. apply (named_bind _ _ [_] [_]); [apply named_median|intros _].
  apply named_quiet_bind; [apply flush_quiet|intros _]. apply named_quiet_bind; [apply quiet_open|intros h2].
  apply named_silent_bind; [|intros _; apply named_quiet_bind; [apply quiet_close|intros _; apply named_median]].
  apply named_for_silent. intros j. apply slot_named. apply quiet_bind; [unfold FileSystemLocalRead.random_offset; quiet|].
  intros o. apply pointer_quiet.
Qed.

Lemma local_reports sizes fuel : (Z.to_nat largest < fuel)%nat →
  reports sizes (FileSystemLocalRead.Run fuel) (concat (local_names <$> seqZ 0 20)).
Proof using All.
  intros Hf. unfold FileSystemLocalRead.Run.
  apply (reports_prefix _ _ _ (fun _ => True)); [total|quiet|frames|intros now _].
  apply (reports_prefix _ _ _ (fun _ => True)); [total|quiet|frames|intros _ _].
  apply (reports_prefix _ _ _ (fun _ => True)); [apply defaults_total|apply defaults_quiet|frames|intros _ _].
  apply with_sector. rewrite <- (app_nil_r (concat _)). apply reports_bind.
  - apply (reports_for _ 0 20 _ local_names); [done|]. intros i Hi. apply local_size_reports; lia || done.
  - intros _. apply named_reports; [frames|total|apply named_quiet; quiet].
Qed.

(** ** Remote reads *)
Definition remote_names (kind : string) (i : Z) : list string :=
  (fun statistic => (kind ++ " (" ++ dec (2 ^ (i + sector)) ++ " bytes) " ++ statistic ++ " (μs)")%string)
    <$> ["Median"; "90th Percentile"]%string.

Lemma remote_name kind statistic i : 0 <= i < 23 →
  (FileSystemRemoteRead.result_names kind statistic (file_sizes sector)).[i]
    = Some (kind ++ " (" ++ dec (2 ^ (i + sector)) ++ " bytes) " ++ statistic ++ " (μs)")%string.
Proof using Type.
  intros Hi. apply zlookup_Some. split; [lia|]. unfold FileSystemRemoteRead.result_names, file_sizes.
  rewrite !list_lookup_fmap, lookup_seqZ_lt by (unfold NumFileSizes; lia). simpl. do 3 f_equal. f_equal. f_equal. f_equal. lia.
Qed.

Lemma push_reports sizes t kind i : 0 <= i < 23 →
  reports sizes (FileSystemRemoteRead.push_results t (FileSystemRemoteRead.result_names kind "Median" (file_sizes sector))
    (FileSystemRemoteRead.result_names kind "90th Percentile" (file_sizes sector)) i) (remote_names kind i).
Proof using Type.
  intros Hi. unfold FileSystemRemoteRead.push_results. rewrite !remote_name by done. apply named_reports; [frames| |].
  - apply total_bind; [by eapply total_lift|intros m]. apply total_bind; [total|intros _].
    apply total_bind; [by eapply total_lift|intros p]. by apply total_percentile_of.
  - eapply named_lift; [done|]. apply (named_bind _ _ [_] [_]); [apply named_median|intros _].
    eapply named_lift; [done|]. apply named_percentile.
Qed.

Lemma remote_file_total fuel t i : 0 <= i < 23 → (Z.to_nat largest < fuel)%nat → total (FileSystemRemoteRead.read_file fuel t i).
Proof using All.
  intros Hi Hf. unfold FileSystemRemoteRead.read_file, OpenFileNoBuffering.
  apply total_bind.
  { unfold FileSystemRemoteRead.current_size. assert ((i <? 31) = true) as -> by lia. by eapply total_lift. }
  intros n. apply total_bind; [by apply read_path_total|intros _].
  eapply completes_bind; [apply open_total|]. intros h [Hh Hn]. pose proof Hh as Hh'%Z.eqb_neq. rewrite Hh'.
  apply total_bind; [total|intros _]. apply total_bind; [by apply read_entire_total|intros _; by apply close_total].
Qed.
Lemma remote_file_named fuel t i : named (FileSystemRemoteRead.read_file fuel t i) [].
Proof using Type.
  unfold FileSystemRemoteRead.read_file, OpenFileNoBuffering. apply named_quiet_bind; [quiet|intros n].
  apply named_quiet_bind; [apply read_path_quiet|intros _]. apply named_quiet_bind; [apply quiet_open|intros h].
  apply named_quiet_bind; [quiet|intros _]. apply named_silent_bind; [apply read_entire_named|intros _].
  apply named_quiet, quiet_close.
Qed.

Lemma remote_reports fuel : (Z.to_nat largest < fuel)%nat →
  reports (file_sizes sector) (FileSystemRemoteRead.Run fuel)
    (concat (remote_names "Sequential" <$> seqZ 0 23) ++ concat (remote_names "Random" <$> seqZ 0 23)).
Proof using All.
  intros Hf. unfold FileSystemRemoteRead.Run. pose proof (sector_range (sector := sector) (largest := largest)) as Hs.
  apply (reports_prefix _ _ _ (fun x => x = 2 ^ sector)); [apply sector_total|apply sector_quiet|frames|intros ? ->].
  apply (reports_prefix _ _ _ (fun _ => True)); [|quiet|frames|intros _ _].
  { apply total_assert, Z.ltb_lt. by apply Z.pow_gt_1; lia. }
  apply (reports_prefix _ _ _ (fun p => p ≠ NULL)); [apply completes_sys, malloc_works|quiet|frames|intros p Hp%Z.eqb_neq].
  rewrite Hp. apply (reports_prefix _ _ _ (fun _ => True)); [by apply total_assert|quiet|frames|intros _ _].
  apply (reports_sizes _ (fun l => l)). change (Z.of_nat (length (file_sizes sector))) with 23.
  apply reports_silent; [frames|apply total_for; intros; apply total_modify|apply named_for_silent; intros; apply named_reset|intros _].
  apply reports_silent; [frames| | |intros _].
  - apply total_for. intros j. apply total_for. intros t. apply total_for_range; [done|]. intros i Hi. by apply remote_file_total.
  - do 3 (apply named_for_silent; intros ?). apply remote_file_named.
  - apply reports_bind; [apply (reports_for _ 0 23); [done|]; intros i Hi; by apply push_reports|intros _].
    rewrite <- (app_nil_r (concat _)). apply reports_bind; [apply (reports_for _ 0 23); [done|]; intros i Hi; by apply push_reports|].
    intros _. apply named_reports; [frames|total|apply named_quiet; quiet].
Qed.

(** ** Contention *)
Definition contention_names : list string :=
  ["Sequential Read Median (μs)"; "Sequential Read 10th Percentile (μs)"; "Sequential Read 90th Percentile (μs)"]%string.

Lemma reader_total i path : total (FileSystemContention.CreateProcess i path).
Proof using Coop.
  apply total_bind; [total|intros p].
  apply (completes_bind _ _ is_Some); [apply completes_sys, create_process_works|]. intros _ [h ->]. total.
Qed.

Lemma contention_reports sizes fuel : (Z.to_nat largest < fuel)%nat → reports sizes (FileSystemContention.Run fuel) contention_names.
Proof using All.
  intros Hf. unfold FileSystemContention.Run. pose proof (sector_range (sector := sector) (largest := largest)) as Hs.
  apply (reports_prefix _ _ _ (fun x => x = 2 ^ sector)); [apply sector_total|apply sector_quiet|frames|intros ? ->].
  apply (reports_prefix _ _ _ (fun _ => True)); [total|quiet|frames|intros e _].
  apply (reports_prefix _ _ _ (fun _ => True)); [|unfold FileSystemContention.CreateProcess; quiet|frames|intros hs _].
  { apply total_for_state. intros i l. apply total_bind; [apply reader_total|intros h; total]. }
  apply (reports_prefix _ _ _ (fun _ => True)); [total|quiet|frames|intros _ _]. unfold OpenFileNoBuffering.
  apply reports_silent; [frames| | |intros _].
  - apply total_for. intros i. eapply completes_bind; [apply open_total|]. intros h [Hh Hn].
    apply total_bind; [|intros _; by apply close_total]. apply read_entire_total; [done| |done].
    split; [lia|]. apply Z.pow_lt_mono_r; lia.
  - apply named_for_silent. intros i. apply named_quiet_bind; [apply quiet_open|intros h].
    apply named_silent_bind; [apply read_entire_named|intros _; apply named_quiet, quiet_close].
  - do 2 (apply (reports_prefix _ _ _ (fun _ => True)); [total|quiet|frames|intros _ _]).
    apply named_reports; [frames| |].
    + apply total_bind; [total|intros _]. by apply total_bind; [|intros _]; apply total_percentile_of.
    + apply (named_bind _ _ [_] [_; _]); [apply named_median|intros _].
      apply (named_bind _ _ [_] [_]); [apply named_percentile|intros _; apply named_percentile].
Qed.

(** ** The constructors *)

Lemma sizes_loop n : ∀ i w, 0 <= i → i + Z.of_nat n <= 23 → ∃ w',
  loop_from n i (fun i _ => size ← lift (GuaranteedShift 1 (u32 (i + u32 sector)));
                            modify (fun w => with_fileSizes w (fileSizes w ++ [size]))) tt w = Ok tt w' ∧
  fileSizes w' = fileSizes w ++ ((fun i => 2 ^ (i + sector)) <$> seqZ i (Z.of_nat n)).
Proof using Disk.
  pose proof (sector_range (sector := sector) (largest := largest)).
  induction n as [|n IH]; intros i w Hi Hn; cbn [loop_from]; [exists w; split; [done|by rewrite app_nil_r]|].
  destruct (IH (i + 1) (with_fileSizes w (fileSizes w ++ [2 ^ (i + sector)])) ltac:(lia) ltac:(lia)) as (w' & H1 & Hf).
  exists w'. split.
  - eapply bind_intro; [|exact H1]. rewrite (u32_small sector), u32_small, GuaranteedShift_spec by (unfold is_u32; lia). done.
  - rewrite Hf, (seqZ_cons i) by lia. simpl. rewrite <- app_assoc. do 4 f_equal; lia.
Qed.

(** The first of them fills the sizes. *)
Lemma new_fills d w : fileSizes w = [] → ∃ w', FileSystemExperiment_new d w = Ok tt w' ∧ fileSizes w' = file_sizes sector.
Proof using Disk.
  intros Hw. destruct (sector_total d w) as (n & w1 & H1 & ->).
  assert (Hframe : frames (GetLogicalSectorSize d)) by frames.
  destruct (sizes_loop 23 0 w1 ltac:(lia) ltac:(lia)) as (w' & H2 & Hf). exists w'.
  rewrite (Hframe _ _ _ H1), Hw in Hf. split; [|exact Hf].
  unfold FileSystemExperiment_new. eapply bind_intro; [reflexivity|]. rewrite Hw. apply (bind_intro _ _ _ _ _ _ H1).
  eapply bind_intro; [unfold lift; rewrite log2_sector; reflexivity|exact H2].
Qed.

Lemma new_quiet d : quiet (FileSystemExperiment_new d).
Proof using Type. unfold FileSystemExperiment_new, GetLogicalSectorSize, fail_with. quiet. Qed.

Lemma new_keeps d w : fileSizes w ≠ [] → FileSystemExperiment_new d w = Ok tt w.
Proof using Type. intros Hw. unfold FileSystemExperiment_new, mbind, M_bind, gets. by destruct (fileSizes w). Qed.
End files.


