(* ===== verification/CpuProps.v ===== *)
(** * The CPU and scheduling experiments run to their end *)
From S2P Require Import Prelude.
From S2P Require Import Words.
From S2P Require Import Win32.
From S2P Require Import Mathx.
From S2P Require Import StopwatchStack.
From S2P Require Import Machine.
From S2P Require Import Experiment.
From S2P Require Import CpuExperiments.
From S2P Require Import ContextSwitch.
From S2P Require Import MemoryExperiments.
From S2P Require Import Effects.
From S2P Require Import ExperimentEffects.
From S2P Require Import MemoryNetworkEffects.
From S2P Require Import StopwatchProps.
From S2P Require Import ContextSwitchProps.
From S2P Require Import Completion.
From S2P Require Import DemoOs.

#[local] Opaque samples.

Section cpu.
Context `{OS : Win32}.

Lemma loop_runs : runs LoopOverhead.Run loop_effects.
Proof. apply runs_total; [unfold LoopOverhead.Run; total|apply loop_shape]. Qed.

Lemma system_call_runs : runs SystemCallOverhead.Run system_call_effects.
Proof. apply runs_total; [unfold SystemCallOverhead.Run; total|apply system_call_shape]. Qed.

(** One block of the procedure calls. *)
Lemma measure_runs p name call : (∀ i, total (call i)) → (∀ i, quiet (call i)) →
  runs (ProcedureOverhead.measure p name call) (samples 5000 (lit p) ++ [SReport name (Statistic SMinimum (lit p) true)]).
Proof.
  intros Ht Hq. unfold ProcedureOverhead.measure.
  apply (runs_prefix _ _ (fun _ => True)); [apply total_modify|apply quiet_hidden|intros _ _].
  apply (runs_after_samples _ _ _ 4999); [|done|intros; apply shaped_minimum|intros a w Hne; destruct (minimum_of_Ok name (lit p) w Hne) as (b & w' & H & _); by exists b, w'].
  apply runs_samples; [done|]. intros i. apply runs_total; [total; apply Ht|].
  apply shaped_bind_quiet; [|quiet]. apply shaped_timed; [done|]. quiet.
Qed.

Lemma procedure_runs : runs ProcedureOverhead.Run procedure_effects.
Proof.
  eapply runs_eq.
  - unfold ProcedureOverhead.Run.
    do 7 (apply runs_bind; [apply measure_runs; intros; [apply total_gets|apply quiet_gets]|intros _]).
    apply measure_runs; intros; [apply total_gets|apply quiet_gets].
  - unfold procedure_effects. simpl. rewrite !app_nil_r. by rewrite <- !app_assoc.
Qed.

Lemma calibrate_runs : runs CalculateOverheadSimple (samples 50000 measurement_tag ++ [SCalibrate]).
Proof.
  apply (runs_after_samples _ _ _ 49999); [|done|..].
  - apply runs_samples; [done|]. intros i. apply runs_total; [total|].
    apply (shaped_timed measurement_tag (ret tt)); [done|apply quiet_ret].
  - intros _ w u w' Hr H. apply bind_Ok in H as (h & w1 & H1 & H2). inversion H1; subst.
    apply bind_Ok in H2 as (o & w2 & H2 & H3). unfold lift in H2.
    destruct (Mathx.Minimum _ _) as [o'|] eqn:Eo; [|done]. inversion H2; subst.
    inversion H3; subst. exists [Calibrate]. split; [|done]. simpl. by rewrite Eo.
  - intros _ w Hne. destruct (Minimum_least _ Hne) as (o & Ho & _).
    eexists _, _. unfold history, gets, lift, on_ss, modify, mbind, M_bind. rewrite Ho. done.
Qed.

Lemma overhead_runs : ∀ w, good w → ∃ w' effs, MeasurementOverhead.Run w = Ok tt w' ∧
  perform effs (ss w, results w) = Some (ss w', results w') ∧
  shape_of <$> effs = overhead_effects (negb (GetOverheadSimpleAsTicks (ss w) =? 0)).
Proof.
  intros w Hg. unfold MeasurementOverhead.Run.
  assert (Hend : ∀ w, good w → ∃ w' effs,
    (us ← gets (fun w => GetOverheadSimpleAsMicroSeconds (ss w)); PushResult "Minimum (μs)" us) w = Ok tt w' ∧
    perform effs (ss w, results w) = Some (ss w', results w') ∧ shape_of <$> effs = [SReport "Minimum (μs)" Overhead]).
  { intros w1 [Hr _]. eexists _, [Report "Minimum (μs)" Overhead]. done. }
  destruct (_ =? 0) eqn:E.
  - destruct (calibrate_runs w Hg) as ([] & w1 & e1 & H1 & Hp1 & Hs1).
    destruct (Hend w1 (good_perform _ _ _ Hg Hp1)) as (w2 & e2 & H2 & Hp2 & Hs2).
    exists w2, (e1 ++ e2). rewrite perform_app, Hp1, fmap_app, Hs1, Hs2. split; [|done].
    eapply bind_intro; [done|]. rewrite E. by apply (bind_intro _ _ _ _ _ _ H1).
  - destruct (Hend w Hg) as (w2 & e2 & H2 & Hp2 & Hs2). exists w2, e2. split; [|done].
    eapply bind_intro; [done|]. rewrite E. done.
Qed.

(** ** Threads and processes *)
Context `{Coop : !Cooperative}.

Lemma closes h : total (closed ← sys (CloseHandle h); when (negb closed) (fail_with "")).
Proof using All.
  apply (completes_bind _ _ (fun b => b = true)); [apply completes_sys, close_handle_works|]. intros b ->. apply total_ret.
Qed.

Lemma create_thread_total : total TaskCreation.create_thread.
Proof using All.
  apply total_bind; [apply total_Push|intros _].
  apply (completes_bind _ _ (fun h => h ≠ NULL)); [apply completes_sys, create_thread_works|]. intros h Hh%Z.eqb_neq.
  rewrite Hh. do 3 (apply total_bind; [total|intros _]). apply closes.
Qed.

Lemma create_process_total : total TaskCreation.create_process.
Proof using All.
  apply total_bind; [apply total_Push|intros _].
  apply (completes_bind _ _ is_Some); [apply completes_sys, create_process_works|]. intros _ [h ->].
  do 2 (apply total_bind; [total|intros _]). apply closes.
Qed.

Lemma task_runs : runs TaskCreation.Run task_effects.
Proof using All.
  apply runs_total; [|apply task_shape]. unfold TaskCreation.Run.
  apply total_bind; [apply total_for; intros; apply create_thread_total|intros _].
  apply total_bind; [total|intros _].
  apply total_bind; [apply total_for; intros; apply create_process_total|intros _]. total.
Qed.

(** ** Context switches *)

Lemma last_default {A} (z : A) rest x y : List.last (z :: rest) x = List.last (z :: rest) y.
Proof using Type. revert z. induction rest as [|a rest IH]; intros z; [done|]. apply (IH a). Qed.

(** With the right entry on top, the times are all accepted. *)
Lemma store_tail_Ok t : ∀ rest x w st, rest ≠ [] →
  _stack (ss w) = mkEntry x t :: st → room (with_ss w (with_stack (ss w) st)) →
  ∃ w', (for_list (removelast rest) (fun y => delta ← ss_PopWithValue t y; ss_PushWithValue t y);;
         delta ← ss_PopWithValue t (List.last rest x); ret tt) w = Ok tt w'.
Proof using Type.
  assert (Hpop : ∀ x y w st, _stack (ss w) = mkEntry x t :: st →
    ∃ d s', ss_PopWithValue t y w = Ok d (with_ss w s') ∧ _stack s' = st ∧ _maxDepth s' = _maxDepth (ss w)).
  { intros x y w st Hst. unfold ss_PopWithValue, PopWithValue. rewrite Hst. simpl. rewrite decide_True by done.
    unfold pop_entry. simpl. destruct (decide (t = None)); eexists _, _; (split; [done|]); [done|]. apply (store_stack (s64 (y - x)) t (with_stack (ss w) st)). }
  induction rest as [|y rest IH]; intros x w st Hne Hst Hr; [done|]. destruct rest as [|z rest].
  - destruct (Hpop x y w st Hst) as (d & s' & Hd & _). exists (with_ss w s').
    apply (bind_intro _ _ _ tt w); [done|]. by apply (bind_intro _ _ _ _ _ _ Hd).
  - destruct (Hpop x y w st Hst) as (d & s' & Hd & Hs & Hm).
    assert (Hf : is_full s' = false) by (unfold room, is_full in *; simpl in Hr; by rewrite Hs, Hm).
    assert (Hp : PushWithValue t y s' = with_stack s' (mkEntry y t :: st)) by (unfold PushWithValue; by rewrite Hf, Hs).
    destruct (IH y (with_ss w (with_stack s' (mkEntry y t :: st))) st) as (w' & H').
    + done.
    + done.
    + unfold room, is_full in *. simpl in *. by rewrite Hm.
    + rewrite <- Hp in H'.
      exists w'. apply bind_Ok in H' as ([] & w1 & H1 & H2).
      apply (bind_intro _ _ _ tt w1).
      * unfold for_list in *. simpl foldr in *. eapply bind_intro; [|exact H1].
        by apply (bind_intro _ _ _ _ _ _ Hd).
      * change (List.last (y :: z :: rest) x) with (List.last (z :: rest) x).
        by rewrite (last_default z rest x y).
Qed.

Lemma store_differences_runs t data : t ≠ None → length data = 642%nat →
  runs (ContextSwitchTime.store_differences t data) (samples 641 t).
Proof using Type.
  intros Ht Hl w [Hr Hh].
  assert (H : ∃ w', ContextSwitchTime.store_differences t data w = Ok tt w').
  { unfold ContextSwitchTime.store_differences. pose proof (MathxProps.sort_length (fun x : Z => x) data) as Hn.
    destruct (Mathx.sort _ data) as [|first [|y rest]]; [simpl in Hn; lia|simpl in Hn; lia|].
    destruct (store_tail_Ok t (y :: rest) first (with_ss w (PushWithValue t first (ss w))) (_stack (ss w))) as [w' H'].
    - done.
    - simpl. unfold PushWithValue. unfold room in Hr. by rewrite Hr.
    - simpl. unfold room, PushWithValue in *. by rewrite Hr.
    - exists w'. eapply bind_intro; [reflexivity|exact H']. }
  destruct H as [w' H]. destruct (store_shape t data Ht Hl w tt w' Hr H) as (effs & Hp & Hs).
  by exists tt, w', effs.
Qed.

Lemma collect_total p a b : completes (ContextSwitchTime.collect p a b) (fun l => length l = 642%nat).
Proof using Type.
  intros w. assert (Ht : total (ContextSwitchTime.collect p a b)) by (unfold ContextSwitchTime.collect; total).
  destruct (Ht w) as (l & w' & H & _). exists l, w'. split; [done|]. by eapply collect_length.
Qed.

Lemma collect_and_store_runs {A} p a b t name (k : M A) : t ≠ None → quiet k → total k →
  runs (data ← ContextSwitchTime.collect p a b; ContextSwitchTime.store_differences t data;; median_of name t;; k)
    (switch_effects t name).
Proof using Type.
  intros Ht Hq Hk. eapply runs_prefix; [apply collect_total|unfold ContextSwitchTime.collect; quiet|].
  intros data Hl. apply runs_bind; [by apply store_differences_runs|intros _].
  apply runs_suffix; [|by intros _..]. apply runs_total; [total|apply shaped_median].
Qed.

Lemma workers_total create : (∀ i, total (create i)) → total (ContextSwitchTime.create_all create).
Proof using Type. intros Hc. unfold ContextSwitchTime.create_all. total. Qed.

Lemma CreateThread_total : total ContextSwitchTime.CreateThread.
Proof using All.
  apply (completes_bind _ _ (fun h => h ≠ NULL)); [apply completes_sys, create_thread_works|]. intros h Hh%Z.eqb_neq.
  rewrite Hh. do 2 (apply total_bind; [total|intros _]).
  apply (completes_bind _ _ (fun b => b = true)); [apply completes_sys, set_priority_works|]. intros b ->. simpl. total.
Qed.

Lemma CreateProcess_total i : total (ContextSwitchTime.CreateProcess i).
Proof using All.
  apply total_bind; [total|intros path].
  apply (completes_bind _ _ is_Some); [apply completes_sys, create_process_works|]. intros _ [h ->]. total.
Qed.

Lemma release_total event workers : total (ContextSwitchTime.release_and_wait event workers).
Proof using Type. unfold ContextSwitchTime.release_and_wait, Read, ReadHighresolutionTimer. total. Qed.

Lemma threads_runs this : ContextSwitchTime._conditionThreadsMayStart this = 0 →
  runs (ContextSwitchTime.RunUsingThreads this)
    (switch_effects ContextSwitchTime._threadSwitchStopwatchTag "Thread Switch Time (μs)").
Proof using All.
  intros H0. unfold ContextSwitchTime.RunUsingThreads. rewrite H0.
  eapply runs_prefix; [by apply total_assert|quiet|intros _ _]. eapply runs_prefix; [apply total_sys|quiet|intros ? _].
  eapply runs_prefix; [apply workers_total; intros; apply CreateThread_total
    |apply quiet_workers; intros; unfold ContextSwitchTime.CreateThread; quiet|intros ? _].
  eapply runs_prefix; [apply total_sys|quiet|intros ? _].
  eapply runs_prefix; [apply release_total|unfold ContextSwitchTime.release_and_wait; quiet|intros [t0 t1] _].
  apply collect_and_store_runs; [done|quiet|total].
Qed.

Lemma not_null `{OS' : Win32} what h : h ≠ NULL → completes (OS := OS') (when (h =? NULL) (fail_with what)) (fun _ => True).
Proof using Type. intros ->%Z.eqb_neq. apply total_ret. Qed.

Lemma processes_runs this : ContextSwitchTime._conditionThreadsMayStart this = 0 →
  runs (ContextSwitchTime.RunUsingProcesses this)
    (switch_effects ContextSwitchTime._processSwitchStopwatchTag "Process Switch Time (μs)").
Proof using All.
  intros H0. unfold ContextSwitchTime.RunUsingProcesses. rewrite H0.
  eapply runs_prefix; [by apply total_assert|quiet|intros _ _]. eapply runs_prefix; [apply total_sys|quiet|intros ? _].
  apply (runs_prefix _ _ (fun h => h ≠ NULL)); [apply completes_sys, file_mapping_works|quiet|intros h Hh].
  eapply runs_prefix; [by apply not_null|quiet|intros _ _].
  apply (runs_prefix _ _ (fun h => h ≠ NULL)); [apply completes_sys, map_view_works|quiet|intros q Hq].
  eapply runs_prefix; [by apply not_null|quiet|intros _ _].
  eapply runs_prefix; [apply workers_total; intros; apply CreateProcess_total
    |apply quiet_workers; intros; unfold ContextSwitchTime.CreateProcess; quiet|intros ? _].
  eapply runs_prefix; [apply release_total|unfold ContextSwitchTime.release_and_wait; quiet|intros [t0 t1] _].
  apply collect_and_store_runs; [done|quiet|total].
Qed.

Lemma threads_return this w this' w' : ContextSwitchTime.RunUsingThreads this w = Ok this' w' →
  ContextSwitchTime._conditionThreadsMayStart this' = 0.
Proof using Type.
  intros (? & ? & ? & ? & ? & ? & ? & ? & ? & w4 & _ & _ & _ & _ & H)%threads_in_parts. unfold finish in H.
  do 3 (apply bind_Ok in H as (? & ? & _ & H)). by inversion H.
Qed.

Lemma context_switch_runs this : ContextSwitchTime._conditionThreadsMayStart this = 0 →
  runs (ContextSwitchTime.Run this) context_switch_effects.
Proof using All.
  intros H0. unfold ContextSwitchTime.Run.
  eapply runs_bind_where; [by apply threads_runs|intros w a w1 Hok; exact (threads_return _ _ _ _ Hok)|].
  intros this' H'. by apply processes_runs.
Qed.
End cpu.

(** The CPU measurements always run to their end: from any stopwatch that has
    room and keeps histories, whatever the system answers, [Run] throws nothing,
    and its effects are 5000 timed sections per measurement followed by the
    result -- the mean, or the least for each number of parameters -- with the
    entries of the stopwatch below as they were. *)
Theorem cpu_measurements_run_to_their_end `{OS : Win32} :
  runs LoopOverhead.Run loop_effects ∧ runs ProcedureOverhead.Run procedure_effects ∧
  runs SystemCallOverhead.Run system_call_effects ∧
  runs CalculateOverheadSimple (samples 50000 measurement_tag ++ [SCalibrate]) ∧
  ∀ w, good w → ∃ w' effs, MeasurementOverhead.Run w = Ok tt w' ∧
    perform effs (ss w, results w) = Some (ss w', results w') ∧
    shape_of <$> effs = overhead_effects (negb (GetOverheadSimpleAsTicks (ss w) =? 0)).
Proof.
  split; [apply loop_runs|]. split; [apply procedure_runs|]. split; [apply system_call_runs|].
  split; [apply calibrate_runs|apply overhead_runs].
Qed.

Lemma good_demo : good (demo_world 1000).
Proof. done. Qed.

Lemma cpu_measurements_run_to_their_end_witness : ∃ (w' : @world demo_os) effs,
  LoopOverhead.Run (demo_world 1000) = Ok tt w' ∧ shape_of <$> effs = loop_effects.
Proof.
  destruct (cpu_measurements_run_to_their_end (OS := demo_os)) as [H _].
  destruct (H _ good_demo) as ([] & w' & effs & Hr & _ & Hs). exists w', effs. split; [exact Hr|exact Hs].
Defined.

(** On a system whose calls succeed, the creation of threads and processes
    and the context switches run to their end as well: 1000 timed creations of
    each kind; 641 differences of wake-up times, of threads and of processes; and
    the medians. *)
Theorem scheduling_experiments_run_to_their_end `{OS : Win32} (C : Cooperative) cs :
  runs TaskCreation.Run task_effects ∧
  runs (ContextSwitchTime.Run (ContextSwitchTime.mkCST 0 cs 0 0)) context_switch_effects.
Proof. split; [apply task_runs|]. by apply context_switch_runs. Qed.

Lemma scheduling_experiments_run_to_their_end_witness : ∃ (w' : @world demo_os) effs,
  TaskCreation.Run (demo_world 1000) = Ok tt w' ∧ shape_of <$> effs = task_effects.
Proof.
  destruct (scheduling_experiments_run_to_their_end demo_cooperative 0) as [H _].
  destruct (H _ good_demo) as ([] & w' & effs & Hr & _ & Hs). exists w', effs. split; [exact Hr|exact Hs].
Defined.
