(* ===== verification/MemoryProps.v ===== *)
(** * Memory experiments: the pointer chase; bandwidth, page faults and MemSucker run to their end *)
From S2P Require Import Prelude.
From S2P Require Import Words.
From S2P Require Import Win32.
From S2P Require Import Mathx.
From S2P Require Import StopwatchStack.
From S2P Require Import Machine.
From S2P Require Import Experiment.
From S2P Require Import MemoryExperiments.
From S2P Require Import Effects.
From S2P Require Import ExperimentEffects.
From S2P Require Import MemoryNetworkEffects.
From S2P Require Import DemoOs.
From S2P Require Import StopwatchProps.
From S2P Require Import Completion.

#[local] Opaque samples.

(** ** The chain of [MemoryLatency] *)
Section chase.
Import MemoryLatency.
Variables (base i : Z).
Abbreviation n := (i / 4).
Hypothesis size_fits : 0 < n.
Hypothesis block_fits : 4 * n <= 2 ^ 32.
Hypothesis base_fits : 0 <= base < 2 ^ 32.

(** The address of word [j] of the block. *)
Definition slot (j : Z) : Z := u32 (base + word * j).

Lemma chain_slot_inj j k : 0 <= j < n → 0 <= k < n → slot j = slot k → j = k.
Proof using block_fits.
  unfold slot, u32, word. intros Hj Hk H.
  assert (Hd : (4 * (j - k)) mod 2 ^ 32 = 0).
  { replace (4 * (j - k)) with ((base + 4 * j) - (base + 4 * k)) by lia. rewrite Zminus_mod, H, Z.sub_diag. done. }
  apply Z.mod_divide in Hd as [q Hq]; [|lia]. nia.
Qed.

Lemma slot_0 : slot 0 = base.
Proof using base_fits. unfold slot. rewrite Z.mul_0_r, Z.add_0_r. by apply u32_small. Qed.

(** The words before [k] are linked. *)
Definition linked (k : Z) (m : memory) : Prop :=
  ∀ j, 0 <= j < k → m !! slot j = Some (slot ((j + CacheLineSize) mod n)).

Lemma link_linked k m : 0 <= k < n → linked k m → linked (k + 1) (link base i k m).
Proof using size_fits block_fits.
  intros Hk Hm j Hj. unfold link. fold (slot k). fold (slot ((k + CacheLineSize) mod n)).
  destruct (decide (j = k)) as [->|Hne]; [apply lookup_insert_eq|].
  transitivity (m !! slot j); [apply lookup_insert_ne|apply Hm; lia].
  intros Heq. apply Hne. symmetry. apply chain_slot_inj; [lia|lia|done].
Qed.

(** After [k] reads from word [j] the explorer is [64 * k] words further, cyclically. *)
Lemma follow_linked m : linked n m → ∀ k j, 0 <= j < n →
  follow k m (slot j) = Some (slot ((j + CacheLineSize * Z.of_nat k) mod n)).
Proof using size_fits.
  intros Hm k. induction k as [|k IH]; intros j Hj; cbn [follow].
  - rewrite Z.mul_0_r, Z.add_0_r, Z.mod_small by lia. done.
  - rewrite Hm by lia. cbn [mbind option_bind]. rewrite IH by (apply Z.mod_pos_bound; lia).
    do 2 f_equal. rewrite Zplus_mod_idemp_l. f_equal. lia.
Qed.
End chase.

Section latency.
Import MemoryLatency.
Context `{OS : Win32}.

Lemma initialize_links base i : 0 < i / 4 → 4 * (i / 4) <= 2 ^ 32 →
  completes (initialize base i) (linked base i (i / 4)).
Proof.
  intros Hn Hb. unfold initialize.
  apply (completes_for_state (linked base i)); [lia|intros j Hj; lia|].
  intros k m Hk Hm. apply completes_ret. by apply link_linked.
Qed.

(** The chase goes 100000 steps, and never reads a word that was not written. *)
Lemma chase_completes base i m : 0 < i / 4 → 0 <= base < 2 ^ 32 → linked base i (i / 4) m →
  completes (chase base m) (fun e => e = slot base ((CacheLineSize * 100000) mod (i / 4))).
Proof.
  intros Hn Hb Hm. unfold chase.
  eapply completes_mono; [apply (completes_for_state
    (fun k e => e = slot base ((CacheLineSize * (20 * k)) mod (i / 4)))); [done| |]|].
  - rewrite Z.mul_0_r, Zmod_0_l. symmetry. by apply slot_0.
  - intros k e Hk ->. eapply completes_lift; [apply follow_linked; [done|done|by apply Z.mod_pos_bound]|].
    f_equal. rewrite Zplus_mod_idemp_l. f_equal. lia.
  - simpl. intros e ->. done.
Qed.

(** What [malloc] may return: null, or an address of the 32-bit space. *)
Hypothesis malloc_range : ∀ n s, 0 <= (os_call (Malloc n) s).1 < 2 ^ 32.

Lemma round_total i : 4 <= i <= 2 ^ 32 → total (round i).
Proof using malloc_range.
  intros Hi. assert (0 < i / 4) by (apply Z.div_str_pos; lia).
  assert (4 * (i / 4) <= 2 ^ 32) by (pose proof (Z.mul_div_le i 4); lia).
  apply (completes_bind _ _ (fun p => 0 <= p < 2 ^ 32)); [apply completes_sys, malloc_range|]. intros p Hp.
  destruct (p =? NULL); [total|]. eapply completes_bind; [by apply initialize_links|]. intros m Hm.
  apply total_bind; [|total]. apply total_timed.
  apply total_bind; [|total]. eapply completes_mono; [by apply (chase_completes p i)|done].
Qed.

Lemma size_total i : 4 <= i <= 2 ^ 32 → total (size i).
Proof using malloc_range.
  intros Hi. unfold size. simple apply total_bind; [apply total_modify|intros _]. simple apply total_bind.
  - apply completes_until; [done|]. intros _. by apply round_total.
  - intros b. total.
Qed.

Lemma latency_loop_total n : ∀ m fuel, (m + n = 19)%nat → (n < fuel)%nat →
  total (while_ fuel latency_body (64 * 2 ^ Z.of_nat m)).
Proof using malloc_range.
  induction n as [|n IH]; intros m fuel Hm Hf; (destruct fuel as [|fuel]; [lia|]); cbn [while_].
  - assert (m = 19)%nat as -> by lia. apply (completes_bind _ _ (fun r => r = inr tt)); [by apply completes_ret|].
    intros r ->. total.
  - assert (Hle : 64 * 2 ^ Z.of_nat m <= 64 * 2 ^ 18).
    { apply Z.mul_le_mono_nonneg_l; [lia|]. apply Z.pow_le_mono_r; lia. }
    assert (Hpos : 0 < 2 ^ Z.of_nat m) by (apply Z.pow_pos_nonneg; lia).
    assert (Hlt : (64 * 2 ^ Z.of_nat m <? Z.shiftl MaxCacheSize 2) = true).
    { apply Z.ltb_lt. change (Z.shiftl MaxCacheSize 2) with (64 * 2 ^ 19). lia. }
    apply (completes_bind _ _ (fun r => r = inl (64 * 2 ^ Z.of_nat (S m)) ∨ r = inr tt)).
    + unfold latency_body. rewrite Hlt. eapply total_bind; [apply size_total; lia|]. intros []; apply completes_ret; [left|by right].
      f_equal. rewrite Z.shiftl_mul_pow2 by lia. rewrite Nat2Z.inj_succ, Z.pow_succ_r by lia. lia.
    + intros r [->| ->]; [apply IH; lia|total].
Qed.

Lemma latency_total : total MemoryLatency.Run.
Proof using malloc_range. apply (latency_loop_total 19 0 32); lia. Qed.

(** [MemoryLatency::Run] always returns, whether [malloc] succeeds or not:
    every load of the chase reads a word of the block that was written before,
    and a result is reported for each of the sizes 64, 128, ..., 16M, or, after
    a failed [malloc], for those before it. *)
Theorem memory_latency_returns w : good w → ∃ w' effs,
  MemoryLatency.Run w = Ok tt w' ∧ perform effs (ss w, results w) = Some (ss w', results w') ∧
  latency_effects (shape_of <$> effs).
Proof using malloc_range.
  intros [Hr Hh]. destruct (latency_total w) as ([] & w' & H & _).
  destruct (latency_shape w tt w' Hr H) as (effs & Hp & Hs). by exists w', effs.
Qed.

(** When [malloc] does not fail, there is no way out of the loops. *)
Hypothesis malloc_works : ∀ n s, (os_call (Malloc n) s).1 ≠ NULL.

Lemma round_true i : 4 <= i <= 2 ^ 32 → completes (round i) (fun b => b = true).
Proof using malloc_range malloc_works.
  intros Hi w. destruct (round_total i Hi w) as (b & w' & H & _). exists b, w'. split; [done|].
  unfold round in H. apply bind_Ok in H as (p & w1 & H1 & H).
  assert (Hp : p ≠ NULL).
  { unfold sys in H1. specialize (malloc_works i (os w)). destruct (os_call _ (os w)). by inversion H1; subst. }
  apply Z.eqb_neq in Hp. rewrite Hp in H. do 3 (apply bind_Ok in H as (? & ? & _ & H)). by inversion H.
Qed.

Lemma size_runs i : 4 <= i <= 2 ^ 32 → runs (size i) (latency_size_effects i) ∧ ∀ w b w', size i w = Ok b w' → b = true.
Proof using malloc_range malloc_works.
  intros Hi. eapply runs_true; [|apply latency_size_spec]. unfold size.
  simple apply total_bind; [apply total_modify|intros _].
  simple apply (completes_bind _ _ (fun b => b = true)).
  - apply completes_until; [done|]. intros _. by apply round_true.
  - intros b ->. apply total_bind; [total|]. intros _. by apply completes_ret.
Qed.

Lemma latency_loop_runs n : ∀ m fuel, (m + n = 19)%nat → (n < fuel)%nat →
  runs (while_ fuel latency_body (64 * 2 ^ Z.of_nat m)) (concat (latency_size_effects <$> drop m latency_sizes)).
Proof using malloc_range malloc_works.
  induction n as [|n IH]; intros m fuel Hm Hf; (destruct fuel as [|fuel]; [lia|]); cbn [while_].
  - assert (m = 19)%nat as -> by lia.
    apply (runs_prefix _ _ (fun r => r = inr tt)); [by apply completes_ret|apply quiet_ret|].
    intros r ->. apply runs_total; [total|apply shaped_quiet; quiet].
  - assert (Hle : 64 * 2 ^ Z.of_nat m <= 64 * 2 ^ 18).
    { apply Z.mul_le_mono_nonneg_l; [lia|]. apply Z.pow_le_mono_r; lia. }
    assert (Hpos : 0 < 2 ^ Z.of_nat m) by (apply Z.pow_pos_nonneg; lia).
    assert (Hlt : (64 * 2 ^ Z.of_nat m <? Z.shiftl MaxCacheSize 2) = true).
    { apply Z.ltb_lt. change (Z.shiftl MaxCacheSize 2) with (64 * 2 ^ 19). lia. }
    assert (Hd : drop m latency_sizes = 64 * 2 ^ Z.of_nat m :: drop (S m) latency_sizes).
    { apply drop_S. unfold latency_sizes. rewrite list_lookup_fmap, lookup_seqZ_lt by lia. done. }
    rewrite Hd. rewrite fmap_cons. cbn [concat].
    assert (Hb : runs (latency_body (64 * 2 ^ Z.of_nat m)) (latency_size_effects (64 * 2 ^ Z.of_nat m)) ∧
      ∀ w r w', latency_body (64 * 2 ^ Z.of_nat m) w = Ok r w' → r = inl (64 * 2 ^ Z.of_nat (S m))).
    { unfold latency_body. rewrite Hlt. destruct (size_runs (64 * 2 ^ Z.of_nat m)) as [Hs Ht]; [lia|].
      split; [apply runs_suffix; [done|intros; total|intros; quiet]|].
      intros w r w' H. apply bind_Ok in H as (b & w1 & H1 & H). rewrite (Ht _ _ _ H1) in H. inversion H. f_equal.
      rewrite Z.shiftl_mul_pow2 by lia. rewrite Nat2Z.inj_succ, Z.pow_succ_r by lia. lia. }
    destruct Hb as [Hb Hr]. apply (runs_bind_where _ _ _ _ _ Hb Hr). intros r ->. apply IH; lia.
Qed.

Lemma latency_runs : runs MemoryLatency.Run (concat (latency_size_effects <$> latency_sizes)).
Proof using malloc_range malloc_works. apply (latency_loop_runs 19 0 32); lia. Qed.
End latency.

(** The chain strides by 64 words, not by a cache line of 64 bytes: after [k]
    loads the explorer is at word [64 * k] of the block, cyclically.  For the
    sizes up to 256 bytes the number of words divides 64, and the chase reads one
    and the same word for ever. *)
Theorem latency_chain_strides_by_words `{OS : Win32} base i w :
  4 <= i <= 2 ^ 32 → 0 <= base < 2 ^ 32 → ∃ m w', MemoryLatency.initialize base i w = Ok m w' ∧
  ∀ k, MemoryLatency.follow k m base = Some (u32 (base + 4 * ((64 * Z.of_nat k) mod (i / 4)))) ∧
       (64 mod (i / 4) = 0 → MemoryLatency.follow k m base = Some base).
Proof.
  intros Hi Hb. assert (Hn : 0 < i / 4) by (apply Z.div_str_pos; lia).
  assert (Hf : 4 * (i / 4) <= 2 ^ 32) by (pose proof (Z.mul_div_le i 4); lia).
  destruct (initialize_links base i Hn Hf w) as (m & w' & H & Hm). exists m, w'. split; [done|]. intros k.
  assert (Hk : MemoryLatency.follow k m base = Some (u32 (base + 4 * ((64 * Z.of_nat k) mod (i / 4))))).
  { rewrite <- (slot_0 base) at 1 by done. rewrite (follow_linked base i) by (done || lia). done. }
  split; [done|]. intros Hdiv. rewrite Hk. rewrite Zmult_mod, Hdiv, Z.mul_0_l, Zmod_0_l, Z.mul_0_r, Z.add_0_r.
  by rewrite u32_small.
Qed.

Lemma memory_latency_returns_witness : ∃ (w' : @world demo_os) effs,
  MemoryLatency.Run (demo_world 1000) = Ok tt w' ∧ latency_effects (shape_of <$> effs).
Proof.
  destruct (memory_latency_returns (OS := demo_os) ltac:(done) (demo_world 1000) ltac:(done)) as (w' & effs & H & _ & Hs).
  exists w', effs. split; [exact H|exact Hs].
Defined.

Lemma latency_chain_strides_by_words_witness : ∃ m w',
  MemoryLatency.initialize 65536 256 (demo_world 10) = Ok m w' ∧
  MemoryLatency.follow 1000 m 65536 = Some 65536.
Proof.
  destruct (latency_chain_strides_by_words 65536 256 (demo_world 10)) as (m & w' & H & Hk); [lia|lia|].
  exists m, w'. split; [exact H|]. destruct (Hk 1000%nat) as [_ Hs]. apply Hs. reflexivity.
Defined.

#[local] Opaque samples.

Lemma memory_insert_eq (m : memory) a v : <[a := v]> m !! a = Some v.
Proof. apply lookup_insert_eq. Qed.
Lemma memory_insert_ne (m : memory) a b v : a ≠ b → <[a := v]> m !! b = m !! b.
Proof. apply lookup_insert_ne. Qed.

Section bandwidth.
Import MemoryBandwidth.
Context `{OS : Win32}.

(** The [int]s of the block before number [k] are written. *)
Definition written (p k : Z) (m : memory) : Prop := ∀ j, 0 <= j < k → is_Some (m !! u32 (p + word * j)).

Lemma step_address p k : u32 (u32 (p + word * k) + word) = u32 (p + word * (k + 1)).
Proof. rewrite u32_add_u32_l. f_equal. lia. Qed.

Lemma fill_written p n : 0 <= p < 2 ^ 32 → 0 <= n → completes (fill p n) (written p (n / word)).
Proof.
  intros Hp Hn. unfold fill. assert (0 <= n / word) by (apply Z.div_pos; unfold word; lia).
  eapply completes_bind; [apply (completes_for_state (fun k '(e, m) => e = u32 (p + word * k) ∧ written p k m)); [done| |]|].
  - split; [rewrite Z.mul_0_r, Z.add_0_r; symmetry; by apply u32_small|]. intros j Hj. lia.
  - intros k [e m] Hk [-> Hm]. apply completes_ret. split; [apply step_address|]. intros j Hj.
    destruct (decide (u32 (p + word * k) = u32 (p + word * j))) as [->|Hne]; [rewrite memory_insert_eq; by eexists|].
    rewrite memory_insert_ne by done. apply Hm. assert (j ≠ k) by congruence. lia.
  - intros [e m] [_ Hm]. by apply completes_ret.
Qed.

Lemma read_all_total p n m : 0 <= p < 2 ^ 32 → 0 <= n → written p (n / word) m → total (read_all p n m).
Proof.
  intros Hp Hn Hm. unfold read_all. assert (0 <= n / word) by (apply Z.div_pos; unfold word; lia).
  eapply completes_bind; [apply (completes_for_state (fun k '(e, _) => e = u32 (p + word * k))); [done| |]|].
  - rewrite Z.mul_0_r, Z.add_0_r. symmetry. by apply u32_small.
  - intros k [e v] Hk ->. destruct (Hm k) as [x Hx]; [lia|].
    eapply completes_bind; [by apply (completes_lift _ x (fun _ => True))|]. intros y _.
    apply completes_ret, step_address.
  - intros [e v] _. total.
Qed.

Lemma write_all_total p n m : total (write_all p n m).
Proof. unfold write_all. total. Qed.

Context `{Coop : !Cooperative}.

Lemma malloc_total n : completes (sys (Malloc n)) (fun p => p ≠ NULL ∧ 0 <= p < 2 ^ 32).
Proof using All. apply completes_sys. intros s. split; [apply malloc_works|apply malloc_range]. Qed.

Lemma copy_round_true n : completes (copy_round n) (fun b => b = true).
Proof using All.
  eapply completes_bind; [apply malloc_total|]. intros p [Hp%Z.eqb_neq _].
  eapply completes_bind; [apply malloc_total|]. intros q [Hq%Z.eqb_neq _]. rewrite Hp, Hq. cbn [orb].
  do 3 (apply total_bind; [total|intros _]). by apply completes_ret.
Qed.

Lemma read_round_true n : 0 <= n → completes (read_round n) (fun b => b = true).
Proof using All.
  intros Hn. eapply completes_bind; [apply malloc_total|]. intros p [Hp0%Z.eqb_neq Hp]. rewrite Hp0.
  eapply completes_bind; [by apply fill_written|]. intros m Hm. apply total_bind.
  - apply total_timed. apply total_bind; [by apply read_all_total|]. total.
  - intros _. apply total_bind; [total|]. intros _. by apply completes_ret.
Qed.

Lemma write_round_total n : 0 <= n → total (write_round n).
Proof using All.
  intros Hn. eapply completes_bind; [apply malloc_total|]. intros p [Hp0%Z.eqb_neq Hp]. rewrite Hp0.
  eapply completes_bind; [by apply fill_written|]. intros m _.
  apply total_bind; [|total]. apply total_timed. apply total_bind; [apply write_all_total|]. total.
Qed.

Lemma rounds_run body t : (∀ i, completes (body i) (fun b => b = true)) → (∀ i, spec (body i) (round_effects t)) →
  runs (for_until 0 numIterations body) (samples 100 t) ∧
  ∀ w b w', for_until 0 numIterations body w = Ok b w' → b = true.
Proof using Type. intros Hb Hs. eapply runs_true; [by apply completes_until|by apply rounds_spec]. Qed.

Lemma bandwidth_size_runs : runs (size bandwidth_bytes) (bandwidth_copy_effects ++ bandwidth_read_effects ++ bandwidth_write_effects).
Proof using All.
  assert (Hn : 0 <= bandwidth_bytes) by done. unfold size, bandwidth_copy_effects, bandwidth_read_effects, bandwidth_write_effects.
  rewrite <- !app_assoc. apply runs_bind_true; [apply rounds_run; intros; [apply copy_round_true|apply copy_round_spec]|].
  cbn [negb]. apply (runs_bind _ _ [_]); [apply runs_total; [total|apply shaped_median]|intros _].
  apply runs_bind_true; [apply rounds_run; intros; [by apply read_round_true|apply read_round_spec]|].
  cbn [negb]. apply (runs_bind _ _ [_]); [apply runs_total; [total|apply shaped_median]|intros _].
  apply runs_bind.
  - apply runs_samples; [done|]. intros i. apply runs_total; [by apply write_round_total|apply write_round_shape].
  - intros _. apply runs_suffix; [apply runs_total; [total|apply shaped_median]|intros; total|intros; quiet].
Qed.

Lemma bandwidth_runs : runs MemoryBandwidth.Run (bandwidth_copy_effects ++ bandwidth_read_effects ++ bandwidth_write_effects).
Proof using All.
  unfold MemoryBandwidth.Run. apply runs_suffix; [|intros; total|intros; quiet].
  unfold for_until. cbn [loop_until]. change (Z.to_nat (2 - 1)) with 1%nat. cbn [loop_until].
  apply runs_suffix; [apply bandwidth_size_runs|intros []; total|intros []; quiet].
Qed.
End bandwidth.

(** ** Page faults *)
Section faults.
Import MemoryPageFault.
Context `{OS : Win32} `{Coop : !Cooperative}.

Lemma touch_pages_total p : p ≠ NULL → total (touch_pages p).
Proof using Type.
  intros Hp%Z.eqb_neq. unfold touch_pages. apply total_for_state. intros i m. unfold store_char. rewrite Hp.
  by eapply completes_lift.
Qed.

Lemma launch_suckers_total : total launch_suckers.
Proof using All.
  unfold launch_suckers. apply total_for_state. intros i hs.
  apply (completes_bind _ _ is_Some); [apply completes_sys, create_process_works|]. intros _ [h ->]. total.
Qed.

Lemma fault_runs p r : runs (fault p r) [SSample tag_fault].
Proof using Type.
  unfold fault. apply (runs_for_same 0 1 _ (SSample tag_fault)); [done|]. intros i.
  eapply runs_prefix; [apply total_sys|quiet|intros t0 _]. eapply runs_prefix; [apply total_ret|quiet|intros e _].
  eapply runs_prefix; [apply total_sys|quiet|intros t1 _].
  apply (runs_values_then _ _ _ _ []); [done|]. intros d. apply runs_total; [total|apply shaped_quiet; quiet].
Qed.

Lemma report_faults p (hs : list HANDLE) w : GetTagHistory tag_fault (ss w) ≠ [] → ∃ b w',
  (sys_ (Free p);;
   for_list hs (fun h => ok ← sys (TerminateProcess h); when (negb ok) (sys_ GetLastError));;
   median_of "Page Fault Time Median (μs)" tag_fault;;
   maximum_of "Page Fault Time Max (μs)" tag_fault) w = Ok b w'.
Proof using Type.
  intros Hne. apply (history_after_quiet tag_fault); [total|quiet|done|]. clear w Hne. intros _ w Hne.
  apply (history_after_quiet tag_fault); [total|quiet|done|]. clear w Hne. intros _ w Hne.
  destruct (median_of_Ok "Page Fault Time Median (μs)" tag_fault w) as (w1 & H1 & Es).
  destruct (maximum_of_Ok "Page Fault Time Max (μs)" tag_fault w1) as (b & w2 & H2); [by rewrite Es|].
  exists b, w2. by apply (bind_intro _ _ _ _ _ _ H1).
Qed.

Lemma page_fault_runs : runs MemoryPageFault.Run page_fault_effects.
Proof using All.
  unfold MemoryPageFault.Run. eapply runs_prefix; [unfold lower_priority; total|unfold lower_priority; quiet|intros _ _].
  eapply runs_prefix; [apply malloc_total|quiet|intros p [Hp _]].
  eapply runs_prefix; [by apply touch_pages_total|unfold touch_pages; quiet|intros m _].
  eapply runs_prefix; [apply launch_suckers_total|unfold launch_suckers; quiet|intros hs _].
  eapply runs_prefix; [total|quiet|intros _ _].
  apply (runs_after_samples _ _ _ 99); [|done| |intros _ w; apply report_faults].
  - apply runs_samples; [done|]. intros r. apply fault_runs.
  - intros _. do 2 (apply shaped_quiet_bind; [quiet|intros ?]).
    apply (shaped_bind _ _ [_] [_]); [apply shaped_median|intros _; apply shaped_maximum].
Qed.
End faults.

Lemma memory_runs `{OS : Win32} `{Coop : !Cooperative} :
  runs MemoryLatency.Run (concat (latency_size_effects <$> latency_sizes)) ∧
  runs MemoryBandwidth.Run (bandwidth_copy_effects ++ bandwidth_read_effects ++ bandwidth_write_effects) ∧
  runs MemoryPageFault.Run page_fault_effects.
Proof.
  split; [apply latency_runs; [apply malloc_range|apply malloc_works]|].
  split; [apply bandwidth_runs|apply page_fault_runs].
Qed.

(** On a system whose calls succeed, the memory experiments run to their end.
    For each of the 19 sizes from 64 bytes to 16M the latency experiment forgets
    the history, times 200 chases and reports their median; the bandwidth
    experiment reads only words it has written and reports three medians -- the
    median of the writes under the title of the reads -- and the page fault
    experiment times 100 sections and reports median and maximum. *)
Theorem memory_experiments_run_to_their_end `{OS : Win32} (C : Cooperative) :
  runs MemoryLatency.Run (concat (latency_size_effects <$> latency_sizes)) ∧
  runs MemoryBandwidth.Run (bandwidth_copy_effects ++ bandwidth_read_effects ++ bandwidth_write_effects) ∧
  runs MemoryPageFault.Run page_fault_effects.
Proof. apply memory_runs. Qed.

Lemma memory_experiments_run_to_their_end_witness : ∃ (w' : @world demo_os) effs,
  MemoryPageFault.Run (demo_world 1000) = Ok tt w' ∧ shape_of <$> effs = page_fault_effects.
Proof.
  destruct (memory_experiments_run_to_their_end demo_cooperative) as (_ & _ & H).
  destruct (H (demo_world 1000) ltac:(done)) as ([] & w' & effs & Hr & _ & Hs). exists w', effs.
  split; [exact Hr|exact Hs].
Defined.

(** ** MemSucker *)
Section sucker.
Import MemSucker.
Context `{OS : Win32}.

Lemma turn_goes_on p k m w : p ≠ NULL → 0 <= k < Gibby →
  ∃ m', turn p (k, m) w = Ok (inl (k + 1, m')) w.
Proof.
  intros Hp%Z.eqb_neq Hk. unfold turn, store_char, lift, mbind, M_bind. rewrite Hp. unfold ret, mret, M_ret.
  assert ((u32 k mod Gibby =? 0) && (0 <? k) = false) as ->; [|by eexists].
  unfold Gibby in *. rewrite u32_small by (unfold is_u32; lia). rewrite Z.mod_small by lia.
  destruct (Z.eqb_spec k 0); [subst k; done|done].
Qed.

Lemma gibby_turn_stops p m w : p ≠ NULL → turn p (Gibby, m) w = Ok (inr 0) w.
Proof. intros Hp%Z.eqb_neq. unfold turn, store_char, lift, mbind, M_bind. by rewrite Hp. Qed.

Lemma sucking p : p ≠ NULL → ∀ fuel k m w, 0 <= k <= Gibby →
  while_ fuel (turn p) (k, m) w = if Gibby - k <? Z.of_nat fuel then Ok 0 w else OutOfFuel.
Proof.
  intros Hp. induction fuel as [|fuel IH]; intros k m w Hk.
  - destruct (Z.ltb_spec (Gibby - k) (Z.of_nat 0)); [lia|done].
  - cbn [while_]. unfold mbind, M_bind. destruct (decide (k = Gibby)) as [->|Hne].
    + rewrite gibby_turn_stops by done. destruct (Z.ltb_spec (Gibby - Gibby) (Z.of_nat (S fuel))); [done|lia].
    + destruct (turn_goes_on p k m w) as [m' ->]; [done|lia|]. rewrite IH by lia.
      destruct (Z.ltb_spec (Gibby - (k + 1)) (Z.of_nat fuel)), (Z.ltb_spec (Gibby - k) (Z.of_nat (S fuel))); done || lia.
Qed.

(** The loop of MemSucker is not endless: when the block is allocated, [main]
    returns 0, after exactly 2^30 + 1 turns. *)
Theorem memsucker_returns fuel w : (∀ s, (os_call (Malloc Gibby) s).1 ≠ NULL) →
  (2 ^ 30 < Z.of_nat fuel → ∃ w', main fuel w = Ok 0 w') ∧ (Z.of_nat fuel <= 2 ^ 30 → main fuel w = OutOfFuel).
Proof.
  intros Hm.
  assert (Hpre : ∃ p w1, p ≠ NULL ∧ main fuel w = while_ fuel (turn p) (0, ∅) w1).
  { unfold main. assert (Hc : completes (hProcess ← sys GetCurrentProcess;
      sys_ (SetPriorityClass hProcess NORMAL_PRIORITY_CLASS);; hThread ← sys GetCurrentThread;
      sys_ (SetThreadPriority hThread THREAD_PRIORITY_NORMAL);; sys (Malloc Gibby)) (fun p => p ≠ NULL)).
    { do 4 (apply total_bind; [total|intros ?]). by apply completes_sys. }
    destruct (Hc w) as (p & w1 & H & Hp). exists p, w1. split; [done|].
    repeat (apply bind_Ok in H as (? & ? & H1 & H); apply (bind_intro _ _ _ _ _ _ H1); clear H1).
    by apply (bind_intro _ _ _ _ _ _ H). }
  destruct Hpre as (p & w1 & Hp & ->). rewrite sucking by (done || unfold Gibby; lia). split; intros Hf.
  - exists w1. destruct (Z.ltb_spec (Gibby - 0) (Z.of_nat fuel)); [done|unfold Gibby in *; lia].
  - destruct (Z.ltb_spec (Gibby - 0) (Z.of_nat fuel)); [unfold Gibby in *; lia|done].
Qed.
End sucker.

Lemma memsucker_returns_witness : ∃ w' : @world demo_os, MemSucker.main (Z.to_nat (2 ^ 30 + 1)) (demo_world 10) = Ok 0 w'.
Proof.
  destruct (memsucker_returns (OS := demo_os) (Z.to_nat (2 ^ 30 + 1)) (demo_world 10)) as [H _]; [done|].
  apply H. rewrite Z2Nat.id; lia.
Defined.
