(* ===== verification/FakeKernelProps.v ===== *)
(** * The fake kernel keeps its tables *)
From S2P Require Import Prelude.
From S2P Require Import Words.
From S2P Require Import Win32.
From S2P Require Import Mathx.
From S2P Require Import StopwatchStack.
From S2P Require Import Machine.
From S2P Require Import Experiment.
From S2P Require Import FakeKernelModel.
From S2P Require Import Effects.
From S2P Require Import ExperimentEffects.
From S2P Require Import MemoryNetworkEffects.
From S2P Require Import StopwatchProps.
From S2P Require Import Completion.
From S2P Require Import DemoOs.
Import FakeKernel.

#[local] Opaque samples.

(** ** The tables *)

(** A table of whole objects, not empty. *)
Definition table (m : gmap Z FakeKernelObject) : Prop :=
  m ≠ ∅ ∧ map_Forall (fun _ o => Z.of_nat (length o) = object_size) m.

Record kernel_inv (k : FakeKernel) : Prop := {
  inv_handles : table (_handleObjects k);
  inv_threads : table (_threads k);
  inv_processes : table (_processes k);
  inv_keys : table (_registryKeys k);
  inv_sockets : table (_sockets k);
  inv_free_handle : _handleObjects k !! u32 (-1) = None;
  inv_free_key : _registryKeys k !! u64 (-1) = None;
}.

Lemma map_insert_lookup k o m j : map_insert k o m !! j =
  match m !! j with Some x => Some x | None => if decide (k = j) then Some o else None end.
Proof.
  unfold map_insert. destruct (m !! k) as [x|] eqn:Ek.
  - destruct (m !! j) eqn:Ej; [done|]. by rewrite decide_False by congruence.
  - destruct (decide (k = j)) as [<-|Hne]; [by rewrite Ek, lookup_insert_eq|].
    rewrite lookup_insert_ne by done. by destruct (m !! j).
Qed.

Lemma foldl_insert l : ∀ m j, foldl (fun m i => map_insert i FakeKernelObject_new m) m l !! j =
  match m !! j with Some x => Some x | None => if decide (j ∈ l) then Some FakeKernelObject_new else None end.
Proof.
  induction l as [|i l IH]; intros m j; cbn [foldl].
  - destruct (m !! j); [done|]. destruct (decide (j ∈ [])) as [H|]; [by apply not_elem_of_nil in H|done].
  - rewrite IH, map_insert_lookup. destruct (m !! j); [done|]. destruct (decide (i = j)) as [->|Hne].
    + rewrite decide_True; [done|]. apply list_elem_of_here.
    + destruct (decide (j ∈ l)); [by rewrite decide_True by (by apply list_elem_of_further)|].
      rewrite decide_False; [done|]. rewrite elem_of_cons. intros [?|?]; congruence.
Qed.

(** The keys are 1, ..., [n]. *)
Lemma populate_lookup n j : populate n !! j = if decide (1 <= j < 1 + n) then Some FakeKernelObject_new else None.
Proof.
  unfold populate. rewrite foldl_insert, lookup_empty.
  destruct (decide (j ∈ seqZ 1 n)) as [H|H]; rewrite elem_of_seqZ in H.
  - by rewrite decide_True.
  - by rewrite decide_False.
Qed.

Lemma populate_table n : 1 <= n → table (populate n).
Proof.
  intros Hn. split.
  - intros H0. pose proof (populate_lookup n 1) as H. rewrite H0, lookup_empty, decide_True in H by lia. done.
  - intros j o H. rewrite populate_lookup in H. destruct (decide _); [|done]. injection H as <-.
    unfold FakeKernelObject_new. rewrite length_replicate. by apply Z2Nat.id.
Qed.

Lemma new_inv : kernel_inv FakeKernel_new.
Proof.
  split; try (by apply populate_table); cbn [FakeKernel_new _handleObjects _registryKeys]; rewrite populate_lookup.
  - change (u32 (-1)) with 4294967295. by rewrite decide_False by (unfold NumInitialHandles; lia).
  - change (u64 (-1)) with 18446744073709551615. by rewrite decide_False by (unfold NumInitialRegistryKeys; lia).
Qed.

Lemma table_size m : table m → size_of m ≠ 0.
Proof. intros [Hne _] H0. apply Hne, map_size_empty_iff. unfold size_of in H0. lia. Qed.

Lemma delete_map_insert k o m : m !! k = None → delete k (map_insert k o m) = m.
Proof. intros Hk. unfold map_insert. rewrite Hk. by rewrite delete_insert_id. Qed.

Section kernel.
Context `{OS : Win32}.

Lemma rand_mod_total n : n ≠ 0 → total (rand_mod n).
Proof. intros Hn%Z.eqb_neq. unfold rand_mod. rewrite Hn. total. Qed.

Lemma rand_byte : completes (rand_mod object_size) (fun r => 0 <= r < object_size).
Proof.
  unfold rand_mod. apply total_bind; [total|]. intros r. apply completes_ret. by apply Z.mod_pos_bound.
Qed.

(** Random bytes of two objects are within the objects. *)
Lemma compare_total objA objB : Z.of_nat (length objA) = object_size → Z.of_nat (length objB) = object_size →
  total (compare_objects objA objB).
Proof.
  intros Ha Hb. unfold compare_objects. apply total_for. intros _.
  apply (completes_bind _ _ _ _ rand_byte). intros r0 H0. apply (completes_bind _ _ _ _ rand_byte). intros r1 H1.
  destruct (zlookup_lt objA r0) as [a Ea]; [lia|]. destruct (zlookup_lt objB r1) as [b Eb]; [lia|].
  rewrite Ea, Eb. do 2 (apply total_bind; [by eapply completes_lift|intros ?]). total.
Qed.

Definition whole (o : option FakeKernelObject) : Prop :=
  match o with Some o => Z.of_nat (length o) = object_size | None => True end.

Lemma inspect_total objects : Forall whole objects → ∀ before, Forall whole before → total (inspect before objects).
Proof.
  intros Hobjects. induction Hobjects as [|o objects Ho _ IH]; intros before Hb; simpl; [total|].
  destruct o as [objA|]; [|apply IH, Forall_app; auto]. apply total_bind; [|intros _; apply IH, Forall_app; auto].
  unfold for_list. clear IH. induction Hb as [|o before Hwo _ IHb]; simpl; [total|].
  apply total_bind; [|intros _; exact IHb]. destruct o as [objB|]; [by apply compare_total|total].
Qed.

Lemma find_whole key m : table m → whole (find key m).
Proof.
  intros [_ Hm]. unfold find. destruct (key =? 0); [done|]. unfold whole. destruct (m !! key) as [o|] eqn:E; [|done].
  by apply (Hm key o).
Qed.

Lemma verify_total k : kernel_inv k → total (verify_once k).
Proof.
  intros [H1 H2 H3 H4 H5 _ _]. unfold verify_once.
  do 5 (apply total_bind; [by apply rand_mod_total, table_size|intros ?]).
  apply total_timed. apply inspect_total; [|done]. repeat (constructor; [by apply find_whole|]). constructor.
Qed.

Context `{Coop : !Cooperative}.

(** What is allocated is taken back. *)
Lemma allocation_keeps k memorySize keySize : kernel_inv k → keySize = 4 ∨ keySize = 8 →
  completes (FakeResourceAllocation memorySize keySize k) (fun k' => k' = k).
Proof using All.
  intros [_ _ _ _ _ Hh Hk] Hs. unfold FakeResourceAllocation. destruct k as [handles threads processes keys sockets].
  cbn [_handleObjects _threads _processes _registryKeys _sockets] in *.
  assert ((keySize =? 4) || (keySize =? 8) = true) as -> by (destruct Hs; subst; done).
  apply total_bind; [by apply total_assert|intros _].
  destruct (if keySize =? 4 then _ else _) as [handles' keys'] eqn:E.
  apply (completes_bind _ _ (fun p => p ≠ NULL)); [apply completes_sys, malloc_works|]. intros p Hp%Z.eqb_neq. rewrite Hp.
  do 2 (apply total_bind; [total|intros _]). apply completes_ret.
  destruct Hs; subst keySize; injection E as <- <-; f_equal; by first [apply delete_map_insert|apply delete_id].
Qed.

Lemma allocate_keeps k i : kernel_inv k → 0 <= i → completes (allocate_once i k) (fun k' => k' = k).
Proof using All.
  intros Hk Hi. unfold allocate_once. apply total_bind; [total|intros _].
  eapply completes_bind; [apply allocation_keeps; [done|]|].
  - pose proof (Z.rem_bound_pos i 2 Hi). lia.
  - intros k' ->. apply total_bind; [total|intros _]. by apply completes_ret.
Qed.

Lemma run_keeps k : kernel_inv k → completes (Run k) (fun k' => k' = k).
Proof using All.
  intros Hk. unfold Run. apply total_bind; [apply total_for; intros; by apply verify_total|intros _].
  apply total_bind; [total|intros _]. eapply completes_bind.
  - apply (completes_for_state (fun _ k' => k' = k)); [done|done|]. intros i k' Hi ->. apply allocate_keeps; [done|lia].
  - intros k' ->. apply total_bind; [total|intros _]. by apply completes_ret.
Qed.
End kernel.

(** C36: the fake kernel, run on tables that are not empty and have no entry under
    the key -1 (the tables its constructor fills are such), throws nothing and
    reads no byte outside an object; every object inserted is erased again, so
    the tables are the same at the end; its effects are 5000 timed checks, 5000
    timed allocations and their medians. *)
Theorem fake_kernel_keeps_its_tables `{OS : Win32} (C : Cooperative) :
  kernel_inv FakeKernel_new ∧
  ∀ k w, kernel_inv k → good w → ∃ w' effs, Run k w = Ok k w' ∧
    perform effs (ss w, results w) = Some (ss w', results w') ∧ shape_of <$> effs = kernel_effects.
Proof.
  split; [apply new_inv|]. intros k w Hk [Hr Hh]. destruct (run_keeps k Hk w) as (k' & w' & H & ->).
  destruct (kernel_shape k w k w' Hr H) as (effs & Hp & Hs). by exists w', effs.
Qed.

Lemma fake_kernel_keeps_its_tables_witness : ∃ (w' : @world demo_os) effs,
  Run FakeKernel_new (demo_world 1000) = Ok FakeKernel_new w' ∧ shape_of <$> effs = kernel_effects.
Proof.
  destruct (fake_kernel_keeps_its_tables demo_cooperative) as [Hn H].
  destruct (H FakeKernel_new (demo_world 1000) Hn ltac:(done)) as (w' & effs & Hr & _ & Hs).
  exists w', effs. split; [exact Hr|exact Hs].
Defined.
