(* ===== verification/NetworkProps.v ===== *)
(** * The network experiments run to their end *)
From S2P Require Import Prelude.
From S2P Require Import Words.
From S2P Require Import Win32.
From S2P Require Import Mathx.
From S2P Require Import StopwatchStack.
From S2P Require Import Machine.
From S2P Require Import Experiment.
From S2P Require Import NetworkExperiments.
From S2P Require Import Effects.
From S2P Require Import ExperimentEffects.
From S2P Require Import MemoryNetworkEffects.
From S2P Require Import FloatProps.
From S2P Require Import StopwatchProps.
From S2P Require Import Completion.
From S2P Require Import DemoOs.
Import NetworkPeakBandwidth.

#[local] Opaque samples.

Section network.
Context `{OS : Win32} `{Coop : !Cooperative}.

Lemma wsa_require_total b what : b = true → total (wsa_require b what).
Proof using Type. intros ->. unfold wsa_require. simpl. total. Qed.

(** A call whose return code is checked. *)
Lemma checked {A} (c : api Z) good what (f : M A) (Q : A → Prop) : (∀ s, (os_call c s).1 = good) → completes f Q →
  completes (r ← sys c; wsa_require (r =? good) what;; f) Q.
Proof using Type.
  intros Hc Hf. apply (completes_bind _ _ (fun r => r = good)); [by apply completes_sys|]. intros r ->.
  apply total_bind; [apply wsa_require_total, Z.eqb_refl|]. by intros _.
Qed.

Lemma create_socket_total : total create_socket.
Proof using All.
  apply (completes_bind _ _ (fun s => s ≠ INVALID_SOCKET)); [apply completes_sys, socket_works|]. intros s Hs%Z.eqb_neq.
  apply total_bind; [apply wsa_require_total; by rewrite Hs|]. intros _. total.
Qed.

Lemma close_socket_total s : total (close_socket s).
Proof using All.
  unfold close_socket. apply (completes_bind _ _ (fun r => r = 0)); [apply completes_sys, close_socket_works|].
  intros r ->. by apply wsa_require_total.
Qed.

Lemma InitWinsock_total : total InitWinsock.
Proof using All.
  unfold InitWinsock. apply (completes_bind _ _ (fun r => r = 0)); [apply completes_sys, wsa_startup_works|].
  intros r ->. simpl. total.
Qed.

Lemma server_total n : total (CreateLocalChildServer n).
Proof using All.
  apply total_bind; [total|intros path].
  apply (completes_bind _ _ is_Some); [apply completes_sys, create_process_works|]. intros _ [h ->]. total.
Qed.

Lemma send_chunk_total s c n t r : total (send_chunk s c n t r).
Proof using All.
  unfold send_chunk. apply total_bind; [total|intros _]. apply checked; [apply send_works|]. total.
Qed.

Lemma connect_and_send_runs a p c t : t ≠ None → runs (ConnectAndSend a p c 500 t) (samples 251 t).
Proof using All.
  intros Ht. apply runs_total; [|by apply connect_and_send_shape]. unfold ConnectAndSend.
  apply total_bind; [apply create_socket_total|intros s]. apply total_bind; [total|intros port].
  apply checked; [apply connect_works|].
  apply (completes_bind _ _ (fun p => p ≠ NULL)); [apply completes_sys, malloc_works|]. intros d Hd%Z.eqb_neq. rewrite Hd.
  apply total_bind; [total|intros _].
  apply total_bind; [apply total_for; intros; apply send_chunk_total|intros _].
  apply checked; [apply shutdown_works|]. apply close_socket_total.
Qed.

Lemma push_bandwidth_total name t : total (push_bandwidth name t).
Proof using Type.
  unfold push_bandwidth. apply total_bind; [total|intros h].
  destruct (Median_Some (fun ticks : TickValue => ticks) h) as [v Hv]. rewrite Hv.
  apply total_bind; [by apply (completes_lift _ v)|intros m]. apply total_bind; [total|intros s]. apply total_modify.
Qed.

Lemma peak_runs : runs NetworkPeakBandwidth.Run peak_effects.
Proof using All.
  unfold NetworkPeakBandwidth.Run. eapply runs_prefix; [apply InitWinsock_total|apply quiet_init|intros _ _].
  eapply runs_prefix; [apply server_total|apply quiet_server|intros h _].
  apply runs_bind; [by apply connect_and_send_runs|intros _].
  apply runs_bind; [apply runs_total; [apply push_bandwidth_total|apply push_bandwidth_shape]|intros _].
  apply runs_bind; [by apply connect_and_send_runs|intros _].
  apply runs_suffix; [apply runs_total; [apply push_bandwidth_total|apply push_bandwidth_shape]| |];
    intros; unfold CleanupWinsock; [total|quiet].
Qed.

(** ** Connections *)
Import NetworkSetupTeardown.

Lemma connection_total a p s d : total (ConnectAndDisconnect a p s d).
Proof using All.
  unfold ConnectAndDisconnect. apply total_bind; [apply create_socket_total|intros socket].
  do 2 (apply total_bind; [total|intros ?]).
  apply (completes_bind _ _ (fun r => r = 0)); [apply completes_sys, connect_works|]. intros c ->.
  apply total_bind; [total|intros _]. apply total_bind; [by apply wsa_require_total|intros _].
  apply total_bind; [total|intros _].
  apply (completes_bind _ _ (fun r => r = 0)); [apply completes_sys, shutdown_send_works|]. intros r ->.
  apply (completes_bind _ _ (fun r => r = (0, 0))); [apply completes_sys, receive_ends|]. intros _ ->.
  apply total_bind; [total|intros _].
  apply (completes_bind _ _ (fun r => r = 0)); [apply completes_sys, shutdown_send_works|]. intros r ->.
  do 2 (apply total_bind; [by apply wsa_require_total|intros _]). apply close_socket_total.
Qed.

Lemma setup_runs : runs NetworkSetupTeardown.Run setup_effects.
Proof using All.
  apply runs_total; [|apply setup_shape]. unfold NetworkSetupTeardown.Run.
  apply total_bind; [apply InitWinsock_total|intros _]. apply total_bind; [apply server_total|intros h].
  assert (Hside : ∀ a s d sn dn, total (side a s d sn dn)).
  { intros a s d sn dn. unfold side. apply total_bind; [|intros _; total]. apply total_for. intros i.
    apply total_bind; [apply connection_total|intros _; total]. }
  do 2 (apply total_bind; [apply Hside|intros _]). unfold CleanupWinsock. total.
Qed.

(** ** Pings *)
Import NetworkRoundTripTime.

(** The reported time, a push and a pop with explicit values. *)
Lemma reported_runs t ms : t ≠ None → is_u32 ms →
  runs (ss_PushWithValue t 0;; s ← gets ss; ticks ← lift (MillisecondsToTicks s (double_of ms));
        delta ← ss_PopWithValue t ticks; ret tt) [SSample t].
Proof using Type.
  intros Ht Hms w Hg. destruct Hg as (Hr & Hh & Hsc).
  set (s := PushWithValue t 0 (ss w)).
  assert (Hs : scaled s) by (unfold s, PushWithValue; by destruct (is_full (ss w))).
  destruct (scaled_conversion s ms Hs Hms) as (ticks & Hc & _).
  destruct (runs_values_then t 0 ticks (fun _ => ret tt) [] Ht (fun _ => runs_total _ _ (total_ret tt) (shaped_quiet _ (quiet_ret tt))) w)
    as (u & w' & effs & H & Hp); [done|].
  exists u, w', effs. split; [|done]. apply bind_Ok in H as (v & w1 & H1 & H2). inversion H1; subst.
  apply (bind_intro _ _ _ _ _ _ H1). eapply bind_intro; [reflexivity|]. eapply bind_intro; [|exact H2].
  unfold lift. simpl. fold s. by rewrite Hc.
Qed.

(** What follows a timed echo. *)
Definition after_echo (t : tag) (answer : Z * (Z * Z)) : M unit :=
  when (answer.1 =? 0) (sys_ GetLastError;; throw_new "Send Echo failed.");;
  when (negb (answer.2.1 =? 0)) (throw_new "Echo status not success.");;
  ss_PushWithValue t 0;;
  s ← gets ss;
  ticks ← lift (MillisecondsToTicks s (double_of answer.2.2));
  delta ← ss_PopWithValue t ticks;
  ret tt.

Lemma ping_runs h b t1 t2 d : b ≠ NULL → t1 ≠ None → t2 ≠ None → runs (PerformPing h b t1 t2 d) [SSample t1; SSample t2].
Proof using All.
  intros Hb%Z.eqb_neq H1 H2. unfold PerformPing. rewrite Hb.
  apply (runs_prefix _ _ (fun _ => True)); [by apply total_assert|quiet|intros _ _].
  apply (runs_call_then t1 _ _ (after_echo t2)); [done|by intros (? & ? & ?)|]. intros s. unfold after_echo.
  pose proof (echo_works h d requestSize _icmpResponseBufferSize s) as Hc.
  pose proof (echo_succeeds h d requestSize _icmpResponseBufferSize s) as Hst.
  pose proof (echo_time h d requestSize _icmpResponseBufferSize s) as Htime.
  destruct (os_call _ s) as [[c [st ms]] o]. simpl in *. subst st. apply Z.eqb_neq in Hc as ->.
  do 2 (apply (runs_prefix _ _ (fun _ => True)); [simpl; total|quiet|intros _ _]). by apply reported_runs.
Qed.

(** Rounds of two samples each. *)
Lemma pairs_histories n t1 t2 w : 0 < n → histories (pairs n t1 t2) w →
  GetTagHistory t1 (ss w) ≠ [] ∧ GetTagHistory t2 (ss w) ≠ [].
Proof using Type.
  intros Hn Hh. assert (Hin : ∀ x, x ∈ pairs n t1 t2 ↔ x ∈ [SSample t1; SSample t2]).
  { intros x. unfold pairs. rewrite list_elem_of_In, in_concat. setoid_rewrite <- list_elem_of_In. split.
    - by intros (l & [-> _]%elem_of_replicate & Hx).
    - intros Hx. eexists. split; [|exact Hx]. apply elem_of_replicate. split; [done|lia]. }
  split; apply Hh; rewrite Hin, !elem_of_cons; [by left|by intros [?|[?|?%elem_of_nil]]|by right; left|by intros [?|[?|?%elem_of_nil]]].
Qed.

Lemma side_runs h b d t1 t2 n1 n2 : b ≠ NULL → t1 ≠ None → t2 ≠ None → runs (side h b d t1 t2 n1 n2) (ping_effects t1 t2 n1 n2).
Proof using All.
  intros Hb H1 H2. unfold side. apply runs_after.
  - rewrite <- pairs_seqZ. apply (runs_for 0 numIterations _ (fun _ => [SSample t1; SSample t2])); [done|]. intros i.
    apply runs_suffix; [by apply ping_runs|total|quiet].
  - intros _. apply (shaped_bind _ _ [_] [_]); [apply shaped_minimum|intros _].
    by apply (shaped_minimum_with n2 t2 (fun _ => 0) false).
  - intros _ w _ Hh. apply pairs_histories in Hh as [G1 G2]; [|done].
    destruct (minimum_of_Ok n1 t1 w G1) as ([] & w1 & Hm & Es).
    destruct (Minimum_Some (microseconds (ss w1) 0) (GetTagHistory t2 (ss w1))) as [v Hv]; [by rewrite Es|].
    exists tt. eexists. apply (bind_intro _ _ _ _ _ _ Hm). eapply bind_intro; [reflexivity|].
    unfold PushResultMinimumAsMicroseconds. eapply bind_intro; [reflexivity|]. eapply bind_intro; [unfold lift; by rewrite Hv|].
    reflexivity.
Qed.

Lemma round_trip_runs h : runs (NetworkRoundTripTime.Run h) round_trip_effects.
Proof using All.
  unfold NetworkRoundTripTime.Run. apply (runs_prefix _ _ (fun b => b ≠ NULL)); [apply completes_sys, malloc_works|quiet|intros b Hb].
  apply runs_bind; [by apply side_runs|intros _]. apply runs_suffix; [by apply side_runs|total|quiet].
Qed.
End network.

(** On a system whose calls succeed, the three network experiments run to
    their end.  The round trips time 500 pings of each machine and keep, beside
    each time, the one the system reports, converted to ticks, which is always
    defined; they report the least of both.  The bandwidth experiment times 251 of the 500 sends to each machine --
    the middle half, both ends included -- and reports bytes per second from
    their median; the other one times 500 connections and disconnections of each
    machine, in alternation, and reports their medians. *)
Theorem network_experiments_run_to_their_end `{OS : Win32} (C : Cooperative) :
  runs NetworkPeakBandwidth.Run peak_effects ∧ runs NetworkSetupTeardown.Run setup_effects ∧
  ∀ icmpHandle, runs (NetworkRoundTripTime.Run icmpHandle) round_trip_effects.
Proof. split; [apply peak_runs|]. split; [apply setup_runs|intros h; apply round_trip_runs]. Qed.

Lemma network_experiments_run_to_their_end_witness : ∃ (w' : @world demo_os) effs,
  NetworkPeakBandwidth.Run (demo_world 1000) = Ok tt w' ∧ shape_of <$> effs = peak_effects.
Proof.
  destruct (network_experiments_run_to_their_end demo_cooperative) as [H _].
  destruct (H (demo_world 1000) ltac:(done)) as ([] & w' & effs & Hr & _ & Hs). exists w', effs.
  split; [exact Hr|exact Hs].
Defined.
