(* ===== verification/ProfilerProps.v ===== *)
(** * The profiler as a whole: what is run is what is reported *)
From S2P Require Import Prelude.
From S2P Require Import Words.
From S2P Require Import Win32.
From S2P Require Import Mathx.
From S2P Require Import StopwatchStack.
From S2P Require Import Machine.
From S2P Require Import Experiment.
From S2P Require Import CpuExperiments.
From S2P Require Import ContextSwitch.
From S2P Require Import MemoryExperiments.
From S2P Require Import FakeKernelModel.
From S2P Require Import MicroBench.
From S2P Require Import FileSystemModel.
From S2P Require Import FileSystemExperiments.
From S2P Require Import NetworkExperiments.
From S2P Require Import Effects.
From S2P Require Import ExperimentEffects.
From S2P Require Import MemoryNetworkEffects.
From S2P Require Import StopwatchProps.
From S2P Require Import FloatProps.
From S2P Require Import Frames.
From S2P Require Import Completion.
From S2P Require Import Reports.
From S2P Require Import FileRunProps.
From S2P Require Import NetworkProps.
From S2P Require Import CpuProps.
From S2P Require Import MemoryProps.
From S2P Require Import FakeKernelProps.
From S2P Require Import DemoOs.
Import Profiler.

#[local] Opaque samples.

Section names.
Context `{OS : Win32}.

(** An experiment whose [Run] reports under [names]. *)
Definition experiment_reports (sizes : list Z) (h : held) (names : list string) : Prop := reports sizes (Run h.1) names.

Lemma run_one_reports sizes h names : experiment_reports sizes h names → ∀ w, good w → fileSizes w = sizes → ∃ rs w',
  run_one h w = Ok (GetName h.1, rs) w' ∧ good w' ∧ fileSizes w' = sizes ∧ Name <$> rs = names.
Proof.
  intros Hh w Hg Hz. unfold run_one. destruct (total_print_ln ("Running '" ++ GetName h.1 ++ "'...") w) as ([] & w1 & H1 & _).
  destruct (quiet_print_ln _ _ _ _ H1) as [Es _].
  assert (Hf : frames (print_ln ("Running '" ++ GetName h.1 ++ "'..."))) by frames. apply Hf in H1 as Ez.
  destruct (Hh (with_results w1 [])) as ([] & w2 & H2 & Hg2 & Hz2 & Hn).
  { unfold good, room in *. simpl. by rewrite Es. }
  { simpl. congruence. }
  exists (results w2), w2. split; [|by split].
  apply (bind_intro _ _ _ _ _ _ H1). eapply bind_intro; [reflexivity|]. by apply (bind_intro _ _ _ _ _ _ H2).
Qed.

Lemma run_all_reports sizes hs nss : Forall2 (experiment_reports sizes) hs nss → ∀ w, good w → fileSizes w = sizes → ∃ rs w',
  run_all hs w = Ok rs w' ∧ rs.*1 = (fun h : held => GetName h.1) <$> hs ∧
  (fun r : string * list Result => Name <$> r.2) <$> rs = nss.
Proof.
  induction 1 as [|h names hs nss Hh _ IH]; intros w Hg Hz; simpl; [by exists [], w|].
  destruct (run_one_reports sizes h names Hh w Hg Hz) as (r & w1 & H1 & Hg1 & Hz1 & Hn).
  destruct (IH w1 Hg1 Hz1) as (rs & w2 & H2 & Hf & Hs). exists ((GetName h.1, r) :: rs), w2.
  split; [apply (bind_intro _ _ _ _ _ _ H1); by apply (bind_intro _ _ _ _ _ _ H2)|].
  split; [simpl; f_equal; exact Hf|simpl; f_equal; [exact Hn|exact Hs]].
Qed.

(** What the destructors do: a handle of the ICMP helper is closed. *)
Definition closing (e : event) : Prop := match ev_call e with IcmpCloseHandle _ => True | _ => False end.
Definition only_closes (m : M unit) : Prop := total m ∧ emits closing m.

Lemma only_closes_ret : only_closes (ret tt).
Proof. split; [apply total_ret|apply emits_ret]. Qed.

Lemma delete_all hs : Forall (fun h : held => only_closes h.2) hs → only_closes (for_list hs snd).
Proof.
  intros Hh. split.
  - unfold for_list. induction Hh as [|h hs [Ht _] _ IH]; simpl; [apply total_ret|]. by apply total_bind.
  - apply emits_for_list. eapply Forall_impl; [exact Hh|]. by intros h [_ He].
Qed.

(** ** The sets of experiments *)
Context `{Coop : !Cooperative} (sector largest : Z) `{Disk : !Files sector largest}.

(** Every experiment of [hs] reports under fixed names. *)
Definition reporting (sizes : list Z) (hs : list held) (nss : list (list string)) : Prop :=
  Forall2 (experiment_reports sizes) hs nss ∧ Forall (fun h : held => only_closes h.2) hs.

Lemma reporting_app sizes hs1 hs2 n1 n2 : reporting sizes hs1 n1 → reporting sizes hs2 n2 → reporting sizes (hs1 ++ hs2) (n1 ++ n2).
Proof using Type. intros [H1 D1] [H2 D2]. split; [by apply Forall2_app|by apply Forall_app]. Qed.

Definition names_set1 : list (list string) :=
  [["Minimum (μs)"%string]; report_names procedure_effects; report_names system_call_effects; report_names task_effects;
   report_names context_switch_effects].
Definition names_set2 : list (list string) :=
  [report_names (concat (latency_size_effects <$> latency_sizes));
   report_names (bandwidth_copy_effects ++ bandwidth_read_effects ++ bandwidth_write_effects);
   report_names page_fault_effects].
Definition names_set3 : list (list string) :=
  [report_names round_trip_effects; report_names peak_effects; report_names setup_effects].
Definition names_set4 : list (list string) :=
  [concat (cache_names sector <$> seqZ 0 23); concat (local_names sector <$> seqZ 0 20);
   concat (remote_names sector "Sequential" <$> seqZ 0 23) ++ concat (remote_names sector "Random" <$> seqZ 0 23);
   contention_names].
Definition names_setX : list (list string) := [report_names kernel_effects].

Definition experiments_set1 : list string :=
  ["Measurement Overhead"; "Procedure Call Overhead"; "System Call Overhead"; "Task Creation Time"; "Context Switch Time"]%string.
Definition experiments_set2 : list string :=
  ["Memory Latency Overhead"; "Memory Bandwidth Overhead"; "Memory Page Fault Overhead"]%string.
Definition experiments_set3 : list string :=
  ["Network Round Trip Time"; "Network Peak Bandwidth"; "Network Setup & Teardown"]%string.
Definition experiments_set4 : list string :=
  ["File System Cache Size determination"; "File System Local Reads"; "File System Remote Reads"; "File System Contention"]%string.
Definition experiments_setX : list string := ["Fake Kernel"]%string.

Lemma overhead_reports sizes : reports sizes MeasurementOverhead.Run ["Minimum (μs)"%string].
Proof using Type.
  intros w Hg Hz. destruct (overhead_runs w Hg) as (w' & effs & H & Hp & Hs). exists tt, w'. split; [done|].
  split; [by apply (good_perform w w' effs)|]. split; [by rewrite (frames_overhead _ _ _ H)|].
  apply perform_names in Hp. rewrite Hp, Hs. f_equal.
  unfold overhead_effects. destruct (negb _); [done|]. by rewrite <- app_assoc, report_names_app, report_names_samples.
Qed.

(** What [make_set1] etc. return, and the sizes they find and leave. *)
Definition makes (found left_ sizes : list Z) (m : M (list held)) (names : list string) (nss : list (list string)) : Prop :=
  quiet m ∧ ∀ w, fileSizes w = found → ∃ hs w', m w = Ok hs w' ∧ fileSizes w' = left_ ∧
    reporting sizes hs nss ∧ (fun h : held => GetName h.1) <$> hs = names.

Lemma makes_frames found sizes m names nss : quiet m → frames m →
  completes m (fun hs => reporting sizes hs nss ∧ (fun h : held => GetName h.1) <$> hs = names) →
  makes found found sizes m names nss.
Proof using Type.
  intros Hq Hf Hc. split; [done|]. intros w Hw. destruct (Hc w) as (hs & w' & H & Hr). exists hs, w'.
  split; [done|]. split; [by rewrite (Hf _ _ _ H)|done].
Qed.

Lemma makes_set1 found sizes : makes found found sizes make_set1 experiments_set1 names_set1.
Proof using Coop.
  apply makes_frames; [unfold make_set1, ContextSwitchTime.ContextSwitchTime_new; quiet|frames|].
  apply (completes_bind _ _ (fun this => ContextSwitchTime._conditionThreadsMayStart this = 0)).
  { apply total_bind; [total|]. intros cs. by apply completes_ret. }
  intros this H0. apply completes_ret. split; [|done]. split; [|by repeat constructor; apply only_closes_ret].
  repeat (apply Forall2_cons; split); [..|by constructor]; unfold experiment_reports; simpl.
  - apply overhead_reports.
  - apply runs_reports; [apply frames_procedure|apply procedure_runs].
  - apply runs_reports; [apply frames_system_call|apply system_call_runs].
  - apply runs_reports; [apply frames_task|apply task_runs].
  - apply reports_ret, runs_reports; [apply frames_switch|by apply context_switch_runs].
Qed.

Lemma makes_set2 found sizes : makes found found sizes make_set2 experiments_set2 names_set2.
Proof using Coop.
  apply makes_frames; [unfold make_set2; quiet|frames|]. apply completes_ret. split; [|done].
  split; [|by repeat constructor; apply only_closes_ret].
  destruct memory_runs as (H1 & H2 & H3).
  repeat (apply Forall2_cons; split); [..|by constructor]; unfold experiment_reports; cbn [fst plain Run MemoryLatency.experiment
    MemoryBandwidth.experiment MemoryPageFault.experiment].
  - apply runs_reports; [apply frames_latency|exact H1].
  - apply runs_reports; [apply frames_bandwidth|exact H2].
  - apply runs_reports; [apply frames_page_fault|exact H3].
Qed.

Lemma makes_set3 found sizes : makes found found sizes make_set3 experiments_set3 names_set3.
Proof using Coop.
  apply makes_frames; [unfold make_set3, NetworkRoundTripTime.NetworkRoundTripTime_new; quiet|frames|].
  apply total_bind.
  { apply (completes_bind _ _ (fun h => h ≠ INVALID_HANDLE_VALUE)); [apply completes_sys, icmp_works|].
    intros h Hh%Z.eqb_neq. rewrite Hh. total. }
  intros icmp. apply completes_ret. split; [|done]. split.
  - repeat (apply Forall2_cons; split); [..|by constructor]; unfold experiment_reports; cbn [fst plain Run
      NetworkRoundTripTime.experiment NetworkPeakBandwidth.experiment NetworkSetupTeardown.experiment].
    + apply runs_reports; [apply frames_round_trip|apply round_trip_runs].
    + apply runs_reports; [apply frames_peak|apply peak_runs].
    + apply runs_reports; [apply frames_setup|apply setup_runs].
  - repeat constructor; try apply only_closes_ret; unfold NetworkRoundTripTime.NetworkRoundTripTime_delete, sys_; simpl; [total|emits].
Qed.

Lemma makes_set4 fuel : (Z.to_nat largest < fuel)%nat →
  makes [] (file_sizes sector) (file_sizes sector) (make_set4 fuel) experiments_set4 names_set4.
Proof using Coop Disk.
  intros Hf. split.
  - unfold make_set4. do 4 (apply quiet_bind; [apply new_quiet|intros _]). quiet.
  - intros w Hw. destruct (new_fills sector largest devicePath w Hw) as (w' & H & Hs). eexists _, w'.
    assert (Hne : fileSizes w' ≠ []) by (by rewrite Hs). pose proof (new_keeps devicePath w' Hne) as Hk. split.
    { unfold make_set4. apply (bind_intro _ _ _ _ _ _ H). do 3 apply (bind_intro _ _ _ _ _ _ Hk). reflexivity. }
    split; [done|]. split; [|done]. split; [|by repeat constructor; apply only_closes_ret].
    repeat (apply Forall2_cons; split); [..|by constructor]; unfold experiment_reports; simpl.
    + by apply (cache_reports sector largest).
    + by apply (local_reports sector largest).
    + by apply (remote_reports sector largest).
    + by apply (contention_reports sector largest).
Qed.

Lemma makes_setX found sizes : makes found found sizes make_setX experiments_setX names_setX.
Proof using Coop.
  apply makes_frames; [unfold make_setX; quiet|frames|]. apply completes_ret. split; [|done].
  split; [|by repeat constructor; apply only_closes_ret].
  repeat (apply Forall2_cons; split); [..|by constructor]. apply reports_ret, runs_reports; [apply frames_kernel|].
  apply runs_total; [eapply completes_mono; [apply run_keeps, new_inv|done]|apply kernel_shape].
Qed.

Lemma makes_guard (b : bool) found left_ sizes m names nss : makes found left_ sizes m names nss →
  makes found (if b then left_ else found) sizes (guard b m) (if b then names else []) (if b then nss else []).
Proof using Type.
  intros Hm. destruct b; [done|]. split; [apply quiet_ret|]. intros w Hw. by exists [], w.
Qed.

(** The experiments of the sets that are on, and what they report. *)
Definition experiments_on (on : sets) : list string :=
  (if set1 on then experiments_set1 else []) ++ (if set2 on then experiments_set2 else [])
  ++ (if set3 on then experiments_set3 else []) ++ (if set4 on then experiments_set4 else [])
  ++ (if setX on then experiments_setX else []).
Definition names_on (on : sets) : list (list string) :=
  (if set1 on then names_set1 else []) ++ (if set2 on then names_set2 else [])
  ++ (if set3 on then names_set3 else []) ++ (if set4 on then names_set4 else []) ++ (if setX on then names_setX else []).

Lemma make_experiments_makes fuel on : (Z.to_nat largest < fuel)%nat →
  let sizes := if set4 on then file_sizes sector else [] in
  makes [] sizes sizes (make_experiments fuel on) (experiments_on on) (names_on on).
Proof using Coop Disk.
  intros Hf sizes. unfold make_experiments.
  destruct (makes_guard (set1 on) [] _ _ _ _ _ (makes_set1 [] sizes)) as [Q1 C1].
  destruct (makes_guard (set2 on) [] _ _ _ _ _ (makes_set2 [] sizes)) as [Q2 C2].
  destruct (makes_guard (set3 on) [] _ _ _ _ _ (makes_set3 [] sizes)) as [Q3 C3].
  assert (H4 : makes [] sizes sizes (guard (set4 on) (make_set4 fuel))
    (if set4 on then experiments_set4 else []) (if set4 on then names_set4 else [])).
  { unfold sizes. destruct (set4 on); [by apply makes_set4|split; [apply quiet_ret|intros w Hw; by exists [], w]]. }
  destruct H4 as [Q4 C4]. destruct (makes_guard (setX on) sizes _ _ _ _ _ (makes_setX sizes sizes)) as [QX CX]. split.
  - do 5 (apply quiet_bind; [done|intros ?]). apply quiet_ret.
  - intros w Hw. destruct (C1 w Hw) as (s1 & w1 & H1 & Z1 & R1 & E1).
    destruct (C2 w1) as (s2 & w2 & H2 & Z2 & R2 & E2); [by destruct (set1 on)|].
    destruct (C3 w2) as (s3 & w3 & H3 & Z3 & R3 & E3); [by destruct (set2 on)|].
    destruct (C4 w3) as (s4 & w4 & H4 & Z4 & R4 & E4); [by destruct (set3 on)|].
    destruct (CX w4) as (sX & wX & HX & ZX & RX & EX); [done|].
    exists (s1 ++ s2 ++ s3 ++ s4 ++ sX), wX. split; [|split; [by destruct (setX on)|split]].
    + apply (bind_intro _ _ _ _ _ _ H1), (bind_intro _ _ _ _ _ _ H2), (bind_intro _ _ _ _ _ _ H3), (bind_intro _ _ _ _ _ _ H4).
      by apply (bind_intro _ _ _ _ _ _ HX).
    + by repeat apply reporting_app.
    + unfold experiments_on. by rewrite !fmap_app, E1, E2, E3, E4, EX.
Qed.

(** The last writes of a run: one per report. *)
Definition written_reports (rs : list (string * list Result)) : list event :=
  (fun r : string * list Result => Event unit (ConsoleWrite (ToString r.1 r.2)) tt) <$> reverse rs.

Lemma print_reports rs : ∀ w, ∃ w', for_list rs (fun '(name, rs) => print (ToString name rs)) w = Ok tt w' ∧
  log w' = written_reports rs ++ log w ∧ ss w' = ss w.
Proof using Type.
  unfold for_list. induction rs as [|[name r] rs IH]; intros w; simpl; [by exists w|].
  destruct (total_print (ToString name r) w) as ([] & w1 & H1 & _). destruct (quiet_print _ _ _ _ H1) as [Es1 _].
  destruct (IH w1) as (w2 & H2 & Hl & Es). exists w2. split; [by apply (bind_intro _ _ _ _ _ _ H1)|].
  rewrite Hl, Es, Es1. split; [|done]. unfold written_reports. rewrite reverse_cons, fmap_app, <- app_assoc. f_equal.
  unfold print, sys_ in H1. apply bind_Ok in H1 as ([] & w0 & H0 & H1). inversion H1; subst.
  unfold sys in H0. destruct (os_call _ (os w)) as [[] o]. by inversion H0.
Qed.

Lemma good_with_quiet {A} (m : M A) w a w' : quiet m → m w = Ok a w' → good w → good w'.
Proof using Type. intros Hq H Hg. destruct (Hq _ _ _ H) as [Es _]. unfold good, room in *. by rewrite Es. Qed.

(** What happens on the stopwatch [performExperiments] creates. *)
Lemma perform_on_good fuel on w : (Z.to_nat largest < fuel)%nat → fileSizes w = [] → good w → ∃ rs w1 closed w',
  (print_ln "Calculating Stopwatch overhead...";;
   CalculateOverheadSimple;;
   experiments ← make_experiments fuel on;
   reports ← run_all experiments;
   print_ln "Printing results...";;
   for_list reports (fun '(name, rs) => print (ToString name rs));;
   for_list experiments snd) w = Ok tt w' ∧
  rs.*1 = experiments_on on ∧ (fun r : string * list Result => Name <$> r.2) <$> rs = names_on on ∧
  log w' = closed ++ written_reports rs ++ log w1 ∧ Forall closing closed.
Proof using Coop Disk.
  intros Hf Hz Hg. destruct (total_print_ln "Calculating Stopwatch overhead..." w) as ([] & w1 & H1 & _).
  pose proof (good_with_quiet _ _ _ _ (quiet_print_ln _) H1 Hg) as Hg1.
  destruct (calibrate_runs w1 Hg1) as ([] & w2 & e2 & H2 & Hp2 & _). pose proof (good_perform _ _ _ Hg1 Hp2) as Hg2.
  assert (Hz2 : fileSizes w2 = []).
  { assert (F1 : frames (print_ln "Calculating Stopwatch overhead...")) by frames.
    assert (F2 : frames CalculateOverheadSimple) by frames. by rewrite (F2 _ _ _ H2), (F1 _ _ _ H1). }
  destruct (make_experiments_makes fuel on Hf) as [Hq Hc].
  destruct (Hc w2 Hz2) as (hs & w3 & Hm & Hz3 & [Hrep Hdel] & Hnames).
  pose proof (good_with_quiet _ _ _ _ Hq Hm Hg2) as Hg3.
  destruct (run_all_reports _ hs _ Hrep w3 Hg3 Hz3) as (rs & w4 & H5 & Hs & Hn).
  destruct (total_print_ln "Printing results..." w4) as ([] & w5 & H6 & _).
  destruct (print_reports rs w5) as (w6 & H7 & Hl & _). destruct (delete_all hs Hdel) as [Td Ed].
  destruct (Td w6) as ([] & w7 & H8 & _). destruct (Ed _ _ _ H8) as (closed & Hl8 & Hc8). exists rs, w5, closed, w7.
  split; [|by rewrite Hs, Hnames, Hl8, Hl].
  apply (bind_intro _ _ _ _ _ _ H1), (bind_intro _ _ _ _ _ _ H2), (bind_intro _ _ _ _ _ _ Hm).
  by apply (bind_intro _ _ _ _ _ _ H5), (bind_intro _ _ _ _ _ _ H6), (bind_intro _ _ _ _ _ _ H7).
Qed.
End names.

Section whole.
Context `{OS : Win32}.

Lemma new_stopwatch_good w : ∃ s w', StopwatchStack_new 100 1000 false w = Ok s w' ∧ good (with_ss w' s) ∧ fileSizes w' = fileSizes w.
Proof.
  assert (Ht : completes (StopwatchStack_new 100 1000 false) scaled).
  { apply total_bind; [by apply total_when|intros _]. apply (completes_bind _ _ is_u32).
    { apply total_bind; [total|intros mhz]. apply completes_ret, u32_range. }
    intros ticks Ht. apply total_bind; [total|intros _]. by apply completes_ret, init_scaled. }
  assert (Hf : frames (StopwatchStack_new 100 1000 false)) by frames.
  destruct (Ht w) as (s & w' & H & Hsc). exists s, w'. split; [done|]. split; [|by apply Hf in H].
  destruct (StopwatchStack_new_Ok _ _ _ _ _ _ H) as (Hst & Hm & Hh & _).
  unfold good, room, is_full. simpl. rewrite Hst, Hm, Hh. done.
Qed.

Lemma performExperiments_completes (C : Cooperative) sector largest (D : Files sector largest) fuel on w :
  (Z.to_nat largest < fuel)%nat → fileSizes w = [] → ∃ rs w1 closed w',
  performExperiments fuel on w = Ok tt w' ∧
  rs.*1 = experiments_on on ∧ (fun r : string * list Result => Name <$> r.2) <$> rs = names_on sector on ∧
  log w' = closed ++ written_reports rs ++ log w1 ∧ Forall closing closed.
Proof.
  intros Hf Hz. destruct (new_stopwatch_good w) as (s & w0 & H0 & Hg & Hz0).
  destruct (perform_on_good sector largest fuel on (with_ss w0 s) Hf ltac:(simpl; congruence) Hg) as (rs & w1 & closed & w2 & H & Hl).
  exists rs, w1, closed, (with_ss w2 (ss w0)). split; [|done]. unfold performExperiments. apply (bind_intro _ _ _ _ _ _ H0).
  unfold on_stopwatch. by rewrite H.
Qed.
End whole.



(** ** As the program stands *)
Section idle.
Context `{OS : Win32}.

(** The calls that only configure the process, read the clock, or use the console. *)
Definition idle (e : event) : Prop :=
  match ev_call e with
  | SetModeU16 | ConsoleWrite _ | ConsoleRead | GetCurrentProcess | SetPriorityClass _ _ | GetCurrentThread
  | SetThreadAffinityMask _ _ | SetThreadPriority _ _ | RegGetMhz | CriticalSectionNew | Rdtsc => True
  | _ => False
  end.

Definition idles {A} (m : M A) : Prop := total m ∧ emits idle m.

Lemma idles_bind {A B} (m : M A) (f : A → M B) : idles m → (∀ a, idles (f a)) → idles (m ≫= f).
Proof.
  intros [Hm Em] Hf. split; [apply total_bind; [done|]; intros a; apply (Hf a)|].
  apply emits_bind; [done|]. intros a. apply (Hf a).
Qed.
Lemma idles_ret {A} (a : A) : idles (ret a).
Proof. split; [apply total_ret|apply emits_ret]. Qed.
Lemma idles_sys {A} (c : api A) : (∀ a, idle (Event A c a)) → idles (sys c).
Proof. intros Hc. split; [apply total_sys|by apply emits_sys]. Qed.
Lemma idles_sys_ {A} (c : api A) : (∀ a, idle (Event A c a)) → idles (sys_ c).
Proof. intros Hc. apply idles_bind; [by apply idles_sys|]. intros. apply idles_ret. Qed.

Lemma idles_Push t : idles (Push t).
Proof. split; [apply total_Push|by apply emits_Push]. Qed.
Lemma idles_Pop_ : idles Pop_.
Proof. split; [apply total_Pop_|by apply emits_Pop_]. Qed.

Lemma calibrate_emits : emits idle CalculateOverheadSimple.
Proof.
  unfold CalculateOverheadSimple. apply emits_bind.
  - apply emits_for. intros i. apply emits_bind; [apply idles_Push|]. intros _. apply idles_Pop_.
  - intros _. unfold history, on_ss. emits. intros m. by apply emits_modify.
Qed.

Lemma idle_performExperiments fuel w : ∃ w' evs, performExperiments fuel enabled w = Ok tt w' ∧
  log w' = evs ++ log w ∧ Forall idle evs.
Proof.
  destruct (new_stopwatch_good w) as (s & w0 & H0 & Hg & _).
  assert (E0 : emits idle (StopwatchStack_new 100 1000 false)) by (unfold StopwatchStack_new, sys_; emits).
  destruct (E0 _ _ _ H0) as (e0 & Hl0 & He0).
  destruct (idles_sys_ (ConsoleWrite ("Calculating Stopwatch overhead..." ++ newline)) ltac:(done)) as [Tp Ep].
  destruct (Tp (with_ss w0 s)) as ([] & w1 & H1 & _). destruct (Ep _ _ _ H1) as (e1 & Hl1 & He1).
  pose proof (good_with_quiet _ _ _ _ (quiet_print_ln _) H1 Hg) as Hg1.
  destruct (calibrate_runs w1 Hg1) as ([] & w2 & _ & H2 & _). destruct (calibrate_emits _ _ _ H2) as (e2 & Hl2 & He2).
  destruct (idles_sys_ (ConsoleWrite ("Printing results..." ++ newline)) ltac:(done)) as [Tq Eq].
  destruct (Tq w2) as ([] & w3 & H3 & _). destruct (Eq _ _ _ H3) as (e3 & Hl3 & He3).
  exists (with_ss w3 (ss w0)), (e3 ++ e2 ++ e1 ++ e0). split; [|split].
  - unfold performExperiments. apply (bind_intro _ _ _ _ _ _ H0). unfold on_stopwatch.
    erewrite bind_intro; [|exact H1|apply (bind_intro _ _ _ _ _ _ H2); eapply bind_intro; [reflexivity|];
      eapply bind_intro; [reflexivity|]; apply (bind_intro _ _ _ _ _ _ H3); reflexivity]. done.
  - simpl. rewrite Hl3, Hl2, Hl1. simpl. by rewrite Hl0, !app_assoc.
  - by repeat (apply Forall_app; split).
Qed.

(** As the program stands every set of experiments is switched off: started
    without arguments, [main] always returns 0, and all it does meanwhile is to
    configure its process, read the clock and use the console: it allocates
    nothing and opens, creates or connects nothing. *)
Theorem main_runs_no_experiment fuel program w : ∃ w' evs,
  wmain fuel [program] w = Ok 0 w' ∧ log w' = evs ++ log w ∧ Forall idle evs.
Proof.
  assert (Hpre : idles (configureConsoleForUnicode false;; when (Z.of_nat (length [program]) <? 2) banner;; configure_process)).
  { unfold configureConsoleForUnicode, banner, configure_process, print_ln, print. simpl.
    repeat first [apply idles_bind; [|intros ?] | apply idles_ret | by apply idles_sys | by apply idles_sys_]. }
  destruct Hpre as [Tp Ep]. destruct (Tp w) as ([] & w1 & H1 & _). destruct (Ep _ _ _ H1) as (e1 & Hl1 & He1).
  destruct (idle_performExperiments fuel w1) as (w2 & e2 & H2 & Hl2 & He2).
  assert (Hend : idles (waitForEnterToQuit;; ret 0)).
  { unfold waitForEnterToQuit, print_ln, print.
    repeat first [apply idles_bind; [|intros ?] | apply idles_ret | by apply idles_sys | by apply idles_sys_]. }
  assert (H3 : ∃ w3, (waitForEnterToQuit;; ret 0) w2 = Ok 0 w3).
  { destruct Hend as [Tq _]. destruct (Tq w2) as (z & w3 & H3 & _). exists w3.
    pose proof H3 as H3'. apply bind_Ok in H3' as (? & ? & _ & H4). by inversion H4; subst. }
  destruct H3 as [w3 H3]. destruct Hend as [_ Eq]. destruct (Eq _ _ _ H3) as (e3 & Hl3 & He3).
  exists w3, (e3 ++ e2 ++ e1). split; [|split].
  - apply bind_Ok in H1 as (? & wa & Ha & H1). apply bind_Ok in H1 as (? & wb & Hb & H1). unfold wmain.
    apply (bind_intro _ _ _ _ _ _ Ha). apply (bind_intro _ _ _ _ _ _ Hb). apply (bind_intro _ _ _ _ _ _ H1).
    by apply (bind_intro _ _ _ _ _ _ H2).
  - by rewrite Hl3, Hl2, Hl1, !app_assoc.
  - by repeat (apply Forall_app; split).
Qed.
End idle.
