(* ===== verification/StopwatchTypes.v ===== *)
(** * The stopwatch is well formed, whatever happens

    The invariant of class [StopwatchStack], that every member keeps it, and that
    the whole program does: on any system, with any answers to its calls, however
    it ends. *)
From S2P Require Import Prelude.
From S2P Require Import Words.
From S2P Require Import Win32.
From S2P Require Import Mathx.
From S2P Require Import StopwatchStack.
From S2P Require Import MathxProps.
From S2P Require Import Machine.
From S2P Require Import Experiment.
From S2P Require Import CpuExperiments.
From S2P Require Import ContextSwitch.
From S2P Require Import MemoryExperiments.
From S2P Require Import FakeKernelModel.
From S2P Require Import FileSystemModel.
From S2P Require Import FileSystemExperiments.
From S2P Require Import NetworkExperiments.
From S2P Require Import MicroBench.
From S2P Require Import Frames.
From S2P Require Import DemoOs.
From S2P Require Import StopwatchProps.

(** ** The type of a stopwatch *)

(** A history kept under a tag: not empty, within the size, of 64-bit times. *)
Definition history_ok (size : Z) (h : TagHistory) : Prop :=
  h ≠ [] ∧ Z.of_nat (length h) <= size ∧ Forall is_s64 h.

Record stopwatch_ok (s : StopwatchStack) : Prop := {
  so_depth : is_u32 (_maxDepth s);
  so_size : is_u32 (_tagHistorySize s);
  so_stack : Z.of_nat (length (_stack s)) <= _maxDepth s;
  so_history : map_Forall (fun _ => history_ok (_tagHistorySize s)) (_tagHistory s);
  so_overhead : is_s64 (_overheadSimple s);
}.

Section members.
Implicit Types s : StopwatchStack.

Lemma init_typed reservationSize tagHistorySize kernel ticks :
  stopwatch_ok (StopwatchStack_init reservationSize tagHistorySize kernel ticks).
Proof.
  split; simpl; try apply u32_range; [apply map_Forall_empty|unfold is_s64; lia].
Qed.

Lemma push_typed t v s : stopwatch_ok s → stopwatch_ok (PushWithValue t v s).
Proof.
  intros Hs. unfold PushWithValue, is_full. destruct (Z.leb_spec (_maxDepth s) (Z.of_nat (length (_stack s)))); [done|].
  destruct Hs. split; try done. simpl. lia.
Qed.

Lemma history_typed t s : stopwatch_ok s →
  Forall is_s64 (GetTagHistory t s) ∧ Z.of_nat (length (GetTagHistory t s)) <= _tagHistorySize s.
Proof.
  intros Hs. unfold GetTagHistory. destruct (_tagHistory s !! t) as [h|] eqn:E; simpl.
  - destruct (so_history s Hs t h E) as (_ & ? & ?). done.
  - split; [done|]. pose proof (so_size s Hs) as Hsz. unfold is_u32 in Hsz. lia.
Qed.

Lemma store_typed d t s : stopwatch_ok s → is_s64 d → stopwatch_ok (StoreResultWithTag d t s).
Proof.
  intros Hs Hd. destruct (history_typed t s Hs) as [Ht Hlen]. unfold GetTagHistory in *.
  pose proof Hs as [Hdep Hsz Hst Hh Ho]. unfold StoreResultWithTag. unfold is_u32 in Hsz.
  destruct (Z.eqb_spec (_tagHistorySize s) 0); [done|].
  set (h := default [] (_tagHistory s !! t)) in *.
  split; try done. simpl. apply map_Forall_insert_2; [|done]. split; [by intros [_ ?]%app_eq_nil|].
  assert (Htail : Forall is_s64 (tail h)) by (destruct h; [done|by inversion Ht]).
  rewrite length_app. simpl. destruct (Z.leb_spec (_tagHistorySize s) (Z.of_nat (length h))).
  - split; [|by apply Forall_app; split; [|by constructor]]. destruct h; simpl in *; lia.
  - split; [lia|]. by apply Forall_app; split; [|by constructor].
Qed.

Lemma pop_entry_typed e rest v s : stopwatch_ok s → Z.of_nat (length rest) <= _maxDepth s →
  is_s64 (pop_entry e rest v s).1 ∧ stopwatch_ok (pop_entry e rest v s).2.
Proof.
  intros Hs Hr. unfold pop_entry. simpl. split; [apply s64_range|].
  assert (stopwatch_ok (with_stack s rest)) by (by destruct Hs).
  case_decide; [done|]. apply store_typed; [done|apply s64_range].
Qed.

Lemma pop_typed t v s d s' : stopwatch_ok s → PopWithValue t v s = Some (d, s') → is_s64 d ∧ stopwatch_ok s'.
Proof.
  intros Hs E. unfold PopWithValue in E. destruct (_stack s) as [|e rest] eqn:Est.
  - injection E as <- <-. split; [unfold is_s64; lia|done].
  - case_decide; [|done]. injection E as <- <-. apply pop_entry_typed; [done|].
    pose proof (so_stack s Hs) as Hl. rewrite Est in Hl. simpl in Hl. lia.
Qed.

Lemma reset_typed t s : stopwatch_ok s → stopwatch_ok (ResetTagHistory t s).
Proof. intros []. split; try done. simpl. by apply map_Forall_delete. Qed.

Lemma overhead_typed o s : stopwatch_ok s → is_s64 o → stopwatch_ok (with_overheadSimple s o).
Proof. intros [] ?. by split. Qed.
End members.

#[export] Hint Resolve init_typed push_typed store_typed reset_typed overhead_typed : cpp.

(** ** Programs that keep it *)
Section keeps.
Context `{OS : Win32}.

(** However [m] ends, the stopwatch is well formed; a value it returns is as [Q] says. *)
Definition keeps {A} (m : M A) (Q : A → Prop) : Prop := ∀ w, stopwatch_ok (ss w) →
  match m w with
  | Ok a w' => stopwatch_ok (ss w') ∧ Q a
  | Threw _ w' | ThrewPointer _ w' | AssertionFailed w' => stopwatch_ok (ss w')
  | Undefined | OutOfFuel => True
  end.
Definition typed {A} (m : M A) : Prop := keeps m (fun _ => True).

Lemma keeps_bind {A B} (m : M A) (f : A → M B) P Q : keeps m P → (∀ a, P a → keeps (f a) Q) → keeps (m ≫= f) Q.
Proof.
  intros Hm Hf w Hw. specialize (Hm w Hw). unfold mbind, M_bind. destruct (m w) as [a w'| | | | |]; try done.
  destruct Hm as [Hw' Ha]. by apply Hf.
Qed.
Lemma keeps_weaken {A} (m : M A) (P Q : A → Prop) : keeps m P → (∀ a, P a → Q a) → keeps m Q.
Proof. intros Hm HPQ w Hw. specialize (Hm w Hw). destruct (m w); try done. destruct Hm. split; [done|by apply HPQ]. Qed.
Lemma keeps_after {A B} (m : M A) (f : A → M B) Q : typed m → (∀ a, keeps (f a) Q) → keeps (m ≫= f) Q.
Proof. intros Hm Hf. eapply keeps_bind; [exact Hm|]. intros a _. apply Hf. Qed.
Lemma keeps_ret {A} (a : A) (Q : A → Prop) : Q a → keeps (ret a) Q.
Proof. by intros Ha w Hw. Qed.

Lemma typed_bind {A B} (m : M A) (f : A → M B) : typed m → (∀ a, typed (f a)) → typed (m ≫= f).
Proof. apply keeps_after. Qed.
Lemma typed_ret {A} (a : A) : typed (ret a).
Proof. by apply keeps_ret. Qed.
Lemma typed_sys {A} (c : api A) : typed (sys c).
Proof. intros w Hw. unfold sys. by destruct (os_call c (os w)). Qed.
Lemma typed_gets {A} (f : world → A) : typed (gets f).
Proof. by intros w Hw. Qed.
Lemma typed_modify f : (∀ w, ss (f w) = ss w) → typed (modify f).
Proof. intros Hf w Hw. simpl. by rewrite Hf. Qed.
Lemma typed_assert b : typed (assert b).
Proof. intros w Hw. unfold assert. by destruct b. Qed.
Lemma typed_lift {A} (o : option A) : typed (lift o).
Proof. intros w Hw. unfold lift. by destruct o. Qed.
Lemma typed_throw {A} s : typed (throw (A := A) s).
Proof. by intros w Hw. Qed.
Lemma typed_throw_new {A} s : typed (throw_new (A := A) s).
Proof. by intros w Hw. Qed.
Lemma typed_undefined {A} : typed (undefined (A := A)).
Proof. by intros w Hw. Qed.
Lemma typed_when b m : typed m → typed (when b m).
Proof. destruct b; [done|]. intros _. apply typed_ret. Qed.
Lemma typed_for_state {S} lo hi (body : Z → S → M S) s : (∀ i s, typed (body i s)) → typed (for_state lo hi body s).
Proof.
  intros Hb. unfold for_state. generalize (Z.to_nat (hi - lo)) as n. intros n. revert lo s.
  induction n as [|n IH]; intros lo s; simpl; [apply typed_ret|]. by apply typed_bind.
Qed.
Lemma typed_for_until lo hi body : (∀ i, typed (body i)) → typed (for_until lo hi body).
Proof.
  intros Hb. unfold for_until. generalize (Z.to_nat (hi - lo)) as n. intros n. revert lo.
  induction n as [|n IH]; intros lo; simpl; [apply typed_ret|]. apply typed_bind; [done|]. intros []; [done|apply typed_ret].
Qed.
Lemma typed_for_list {A} (l : list A) body : Forall (fun a => typed (body a)) l → typed (for_list l body).
Proof. intros Hb. unfold for_list. induction Hb as [|a l Ha _ IH]; simpl; [apply typed_ret|]. by apply typed_bind. Qed.
Lemma typed_while {S A} fuel (body : S → M (S + A)) s : (∀ s, typed (body s)) → typed (while_ fuel body s).
Proof.
  intros Hb. revert s. induction fuel as [|fuel IH]; intros s; simpl; [by intros w Hw|].
  apply typed_bind; [done|]. intros [s'|a]; [done|apply typed_ret].
Qed.

(** The members. *)
Lemma typed_on_ss f : (∀ s, stopwatch_ok s → stopwatch_ok (f s)) → typed (on_ss f).
Proof. intros Hf w Hw. simpl. split; [by apply Hf|done]. Qed.
Lemma keeps_Pop : keeps Pop is_s64.
Proof.
  intros w Hw. unfold Pop, ReadHighresolutionTimer, sys, gets, mbind, M_bind.
  destruct (os_call Rdtsc (os w)) as [v o]. simpl. destruct (_stack (ss w)) as [|e rest] eqn:Est.
  - split; [done|]. unfold is_s64. lia.
  - assert (Hl : Z.of_nat (length rest) <= _maxDepth (ss w)).
    { pose proof (so_stack _ Hw) as Hl. rewrite Est in Hl. simpl in Hl. lia. }
    destruct (pop_entry_typed e rest v (ss w) Hw Hl) as [Hd Hs].
    split; [exact Hs|exact Hd].
Qed.
Lemma typed_Pop : typed Pop.
Proof. by eapply keeps_weaken; [apply keeps_Pop|]. Qed.
Lemma typed_PopWithValue t v : typed (ss_PopWithValue t v).
Proof.
  intros w Hw. unfold ss_PopWithValue. destruct (PopWithValue t v (ss w)) as [[d s]|] eqn:E; [|done].
  split; [|done]. by apply (pop_typed t v (ss w) d s Hw).
Qed.
Lemma typed_on_stopwatch {A} s (m : M A) : stopwatch_ok s → typed m → typed (on_stopwatch s m).
Proof.
  intros Hs Hm w Hw. unfold on_stopwatch. specialize (Hm (with_ss w s) Hs). by destruct (m (with_ss w s)).
Qed.
Lemma keeps_StopwatchStack_new r h k : keeps (StopwatchStack_new r h k) stopwatch_ok.
Proof.
  unfold StopwatchStack_new. apply keeps_after; [apply typed_when, typed_assert|intros []]. apply keeps_after.
  { destruct k; [apply typed_sys|]. apply typed_bind; [apply typed_sys|]. intros. apply typed_ret. }
  intros ticks. apply keeps_after; [apply typed_bind; [apply typed_sys|intros; apply typed_ret]|]. intros []. apply keeps_ret, init_typed.
Qed.
Lemma typed_own_stopwatch {A} r h k (f : StopwatchStack → M A) :
  (∀ s, stopwatch_ok s → typed (f s)) → typed (StopwatchStack_new r h k ≫= f).
Proof. intros Hf. eapply keeps_bind; [apply keeps_StopwatchStack_new|done]. Qed.

(** The overhead is one of the times of a history. *)
Lemma Minimum_in (h : TagHistory) o : Mathx.Minimum (fun t : TickValue => t) h = Some o → o ∈ h.
Proof.
  intros E. destruct (decide (h = [])) as [->|Hne]; [done|].
  destruct (Minimum_least h Hne) as (o' & E' & Hin & _). rewrite E in E'. by injection E' as <-.
Qed.

Lemma typed_CalculateOverheadSimple : typed CalculateOverheadSimple.
Proof.
  unfold CalculateOverheadSimple. apply typed_bind.
  { apply typed_for_state. intros i s. apply typed_bind; [|intros _; apply typed_bind; [apply typed_Pop|intros; apply typed_ret]].
    unfold Push. apply typed_bind; [apply typed_gets|]. intros [|]; [apply typed_ret|].
    apply typed_bind; [apply typed_sys|]. intros now. apply typed_on_ss. intros s0. apply push_typed. }
  intros _. apply (keeps_bind _ _ (Forall is_s64)).
  { intros w Hw. split; [done|]. by apply history_typed. }
  intros h Hh. apply (keeps_bind _ _ is_s64).
  { intros w Hw. unfold lift. destruct (Mathx.Minimum _ h) as [o|] eqn:E; [|done]. split; [done|].
    exact (proj1 (Forall_forall _ _) Hh o (Minimum_in h o E)). }
  intros o Ho. apply typed_on_ss. intros s Hs. by apply overhead_typed.
Qed.
End keeps.

(** By the structure of the program; definitions are unfolded. *)
Ltac typed_step :=
  lazymatch goal with
  | |- typed CalculateOverheadSimple => simple apply typed_CalculateOverheadSimple
  | |- typed (StopwatchStack_new _ _ _ ≫= _) => simple apply typed_own_stopwatch
  | |- typed (StopwatchStack_default ≫= _) => unfold StopwatchStack_default; simple apply typed_own_stopwatch
  | |- typed (_ ≫= _) => simple apply typed_bind
  | |- typed (ret _) => simple apply typed_ret
  | |- typed (sys _) => simple apply typed_sys
  | |- typed (gets _) => simple apply typed_gets
  | |- typed (assert _) => simple apply typed_assert
  | |- typed (lift _) => simple apply typed_lift
  | |- typed (throw _) => simple apply typed_throw
  | |- typed (throw_new _) => simple apply typed_throw_new
  | |- typed undefined => simple apply typed_undefined
  | |- typed (on_ss _) => simple apply typed_on_ss; intros; solve [auto with cpp]
  | |- typed (modify _) => simple apply typed_modify; intros; reflexivity
  | |- typed Pop => simple apply typed_Pop
  | |- typed (ss_PopWithValue _ _) => simple apply typed_PopWithValue
  | |- typed (on_stopwatch _ _) => simple apply typed_on_stopwatch; [assumption|]
  | |- typed (when _ _) => simple apply typed_when
  | |- typed (for_state _ _ _ _) => simple apply typed_for_state
  | |- typed (for_until _ _ _) => simple apply typed_for_until
  | |- typed (for_list _ _) => simple apply typed_for_list; apply Forall_true
  | |- typed (while_ _ _ _) => simple apply typed_while
  | |- typed (match ?x with _ => _ end) => destruct x
  | |- typed ?m => let h := head_of m in unfold h
  end.
Ltac typed := repeat (intros; typed_step).

Section runs.
Context `{OS : Win32}.

Lemma typed_overhead : typed MeasurementOverhead.Run. Proof. typed. Qed.
Lemma typed_procedure : typed ProcedureOverhead.Run. Proof. typed. Qed.
Lemma typed_system_call : typed SystemCallOverhead.Run. Proof. typed. Qed.
Lemma typed_task : typed TaskCreation.Run. Proof. typed. Qed.
Lemma typed_switch this : typed (ContextSwitchTime.Run this). Proof. typed. Qed.
Lemma typed_latency : typed MemoryLatency.Run. Proof. typed. Qed.
Lemma typed_bandwidth : typed MemoryBandwidth.Run. Proof. typed. Qed.
Lemma typed_page_fault : typed MemoryPageFault.Run. Proof. typed. Qed.
Lemma typed_kernel k : typed (FakeKernel.Run k). Proof. typed. Qed.
Lemma typed_round_trip h : typed (NetworkRoundTripTime.Run h). Proof. typed. Qed.
Lemma typed_peak : typed NetworkPeakBandwidth.Run. Proof. typed. Qed.
Lemma typed_setup : typed NetworkSetupTeardown.Run. Proof. typed. Qed.

Lemma typed_cache_size fuel : typed (FileSystemCacheSize.Run fuel). Proof. typed. Qed.
Lemma typed_local_read fuel : typed (FileSystemLocalRead.Run fuel). Proof. typed. Qed.
Lemma typed_remote_read fuel : typed (FileSystemRemoteRead.Run fuel). Proof. typed. Qed.
Lemma typed_contention fuel : typed (FileSystemContention.Run fuel). Proof. typed. Qed.
Lemma typed_switch_child argv : typed (ContextSwitchTime.ChildProcessMain argv). Proof. typed. Qed.
Lemma typed_server fuel argv : typed (NetworkPeakBandwidth.ChildProcessMain fuel argv). Proof. typed. Qed.
Lemma typed_reader fuel argv : typed (FileSystemContention.ChildProcessMain fuel argv). Proof. typed. Qed.

(** ** The whole program *)
Import Profiler.

(** An experiment that keeps the stopwatch well formed, to its destructor. *)
Definition held_typed (h : held) : Prop := typed (Run h.1) ∧ typed h.2.

Lemma plain_typed e : typed (Run e) → held_typed (plain e).
Proof. intros He. split; [done|]. apply typed_ret. Qed.

Lemma make_typed {A} (m : M A) (f : A → list held) : typed m → (∀ a, Forall held_typed (f a)) →
  keeps (a ← m; ret (f a)) (Forall held_typed).
Proof. intros Hm Hf. eapply keeps_bind; [exact Hm|]. intros a _. by apply keeps_ret. Qed.

Lemma guard_typed b m : keeps m (Forall held_typed) → keeps (guard b m) (Forall held_typed).
Proof. destruct b; [done|]. intros _. by apply keeps_ret. Qed.

Lemma make_set1_typed : keeps make_set1 (Forall held_typed).
Proof.
  apply make_typed; [typed|]. intros this. repeat apply Forall_cons_2; try apply plain_typed; [..|by constructor].
  - apply typed_overhead.
  - apply typed_procedure.
  - apply typed_system_call.
  - apply typed_task.
  - apply typed_bind; [apply typed_switch|intros; apply typed_ret].
Qed.

Lemma make_set2_typed : keeps make_set2 (Forall held_typed).
Proof.
  apply keeps_ret. repeat apply Forall_cons_2; try apply plain_typed; [..|by constructor].
  - apply typed_latency.
  - apply typed_bandwidth.
  - apply typed_page_fault.
Qed.

Lemma make_set3_typed : keeps make_set3 (Forall held_typed).
Proof.
  apply make_typed; [typed|]. intros icmp. repeat apply Forall_cons_2; try apply plain_typed; [..|by constructor].
  - split; [apply typed_round_trip|]. simpl. typed.
  - apply typed_peak.
  - apply typed_setup.
Qed.

Lemma make_set4_typed fuel : keeps (make_set4 fuel) (Forall held_typed).
Proof.
  unfold make_set4. do 3 (apply keeps_after; [typed|intros []]).
  apply make_typed; [typed|]. intros _. repeat apply Forall_cons_2; try apply plain_typed; [..|by constructor].
  - apply typed_cache_size.
  - apply typed_local_read.
  - apply typed_remote_read.
  - apply typed_contention.
Qed.

Lemma make_setX_typed : keeps make_setX (Forall held_typed).
Proof.
  apply keeps_ret. apply Forall_cons_2; [|by constructor]. apply plain_typed.
  apply typed_bind; [apply typed_kernel|intros; apply typed_ret].
Qed.

Lemma make_experiments_typed fuel on : keeps (make_experiments fuel on) (Forall held_typed).
Proof.
  unfold make_experiments.
  eapply keeps_bind; [apply guard_typed, make_set1_typed|intros s1 H1].
  eapply keeps_bind; [apply guard_typed, make_set2_typed|intros s2 H2].
  eapply keeps_bind; [apply guard_typed, make_set3_typed|intros s3 H3].
  eapply keeps_bind; [apply guard_typed, make_set4_typed|intros s4 H4].
  eapply keeps_bind; [apply guard_typed, make_setX_typed|intros sX HX].
  apply keeps_ret. by repeat apply Forall_app_2.
Qed.

Lemma run_one_typed h : held_typed h → typed (run_one h).
Proof.
  intros [Hr _]. unfold run_one. apply typed_bind; [typed|intros []]. apply typed_bind; [typed|intros []].
  apply typed_bind; [done|intros []]. typed.
Qed.

Lemma run_all_typed hs : Forall held_typed hs → typed (run_all hs).
Proof.
  induction 1 as [|h hs Hh _ IH]; simpl; [apply typed_ret|]. apply typed_bind; [by apply run_one_typed|intros r].
  apply typed_bind; [done|intros rs]. apply typed_ret.
Qed.

Lemma performExperiments_typed fuel on : typed (performExperiments fuel on).
Proof.
  unfold performExperiments. apply typed_own_stopwatch. intros s Hs. apply typed_on_stopwatch; [done|].
  apply typed_bind; [typed|intros []]. apply typed_bind; [apply typed_CalculateOverheadSimple|intros []].
  eapply keeps_bind; [apply make_experiments_typed|intros hs Hhs].
  apply typed_bind; [by apply run_all_typed|intros reports]. apply typed_bind; [typed|intros []].
  apply typed_bind; [typed|intros []]. apply typed_for_list. eapply Forall_impl; [exact Hhs|]. by intros h [_ Hh].
Qed.

Lemma wmain_typed fuel argv : typed (wmain fuel argv).
Proof.
  unfold wmain. apply typed_bind; [typed|intros []]. apply typed_bind; [typed|intros []]. apply typed_bind; [typed|intros []].
  assert (Hrun : typed (performExperiments fuel enabled;; waitForEnterToQuit;; ret 0)).
  { apply typed_bind; [apply performExperiments_typed|intros []]. typed. }
  destruct argv as [|arg0 [|arg1 argv]]; [done..|]. unfold child_main.
  repeat match goal with |- typed (if ?b then _ else _) => destruct b end.
  - apply typed_bind; [apply typed_switch_child|intros; apply typed_ret].
  - apply typed_bind; [apply typed_server|intros; apply typed_ret].
  - apply typed_bind; [apply typed_reader|intros; apply typed_ret].
  - apply typed_throw.
Qed.

(** The stopwatch of the world a program ends in. *)
Definition ends_well_formed {A} (o : outcome A) : Prop :=
  match o with
  | Ok _ w | Threw _ w | ThrewPointer _ w | AssertionFailed w => stopwatch_ok (ss w)
  | Undefined | OutOfFuel => True
  end.

End runs.

