(* ===== verification/ChildProps.v ===== *)
(** * The child processes

    The profiler starts itself again with arguments on the command line.  What a
    parent writes there its child reads back; a child of the context switch
    experiment records its time in its own slot; the bandwidth server answers the
    connections it is told to; and arguments that are missing or not known end the
    process with an exception.

    A child of the contention experiment reads its file over and over, polling
    before each reading the event its parent sets.  It stops at the first poll that
    finds the event set. *)
From Stdlib Require Import Relations.
From S2P Require Import Prelude.
From S2P Require Import Words.
From S2P Require Import TraceFormat.
From S2P Require Import Win32.
From S2P Require Import Mathx.
From S2P Require Import StopwatchStack.
From S2P Require Import Machine.
From S2P Require Import Experiment.
From S2P Require Import ContextSwitch.
From S2P Require Import FileSystemModel.
From S2P Require Import FileSystemExperiments.
From S2P Require Import NetworkExperiments.
From S2P Require Import MicroBench.
From S2P Require Import Effects.
From S2P Require Import DemoOs.
From S2P Require Import Frames.
From S2P Require Import Completion.
From S2P Require Import FileRunProps.

Import Profiler.

(** ** Numbers on the command line *)
Lemma digit_of_char d : (d < 10)%N → digit_val 10 (pretty_N_char d) = Some (Z.of_N d) ∧
  is_space (pretty_N_char d) = false ∧ ∀ t, read_sign (pretty_N_char d :: t) = (false, pretty_N_char d :: t).
Proof.
  intros Hd. assert (∃ n : nat, (n < 10)%nat ∧ d = N.of_nat n) as (n & Hn & ->) by (exists (N.to_nat d); lia).
  do 10 (destruct n as [|n]; [split; [|split]; reflexivity|]). lia.
Qed.

Lemma read_digits_cons_char x acc c s d :
  digit_val 10 c = Some d → x = acc * 10 + d → read_digits 10 acc (c :: s) = read_digits 10 x s.
Proof. intros Hc ->. simpl. by rewrite Hc. Qed.

(** [pretty] puts the digits of a number in front of a text; reading them back
    gives the number. *)
Lemma read_pretty x : ∀ s, let l := String.list_ascii_of_string s in
  read_digits 10 0 (String.list_ascii_of_string (pretty_N_go x s)) = read_digits 10 (Z.of_N x) l ∧
  ((0 < x)%N → ∃ c d t, String.list_ascii_of_string (pretty_N_go x s) = c :: t ∧ digit_val 10 c = Some d ∧
    is_space c = false ∧ ∀ t, read_sign (c :: t) = (false, c :: t)).
Proof.
  induction (N.lt_wf_0 x) as [x _ IH]; intros s. cbv zeta.
  destruct (decide (x = 0)%N) as [->|Hx]; [by rewrite pretty_N_go_0|].
  rewrite pretty_N_go_step by lia.
  assert (Hm : (x mod 10 < 10)%N) by (by apply N.mod_lt).
  assert (Hlt : (x `div` 10 < x)%N) by (apply N.div_lt; lia).
  destruct (digit_of_char _ Hm) as (Hd & Hs & Hg).
  destruct (IH (x `div` 10)%N Hlt (String (pretty_N_char (x `mod` 10)) s)) as [E Hc].
  split.
  - rewrite E. simpl String.list_ascii_of_string. apply (read_digits_cons_char _ _ _ _ _ Hd).
    pose proof (N.div_mod' x 10). lia.
  - intros _. destruct (decide (x `div` 10 = 0)%N) as [E0|E0]; [|by apply Hc, N.neq_0_lt_0].
    rewrite E0, pretty_N_go_0. simpl. by eexists _, _, _.
Qed.

Lemma dec_pos p : dec (Z.pos p) = pretty_N_go (N.pos p) "".
Proof. reflexivity. Qed.
Lemma dec_neg p : dec (Z.neg p) = String "-" (pretty_N_go (N.pos p) "").
Proof. reflexivity. Qed.

(** Reading an [int] from its decimal digits. *)
Lemma extract_dec i : - 2 ^ 31 <= i < 2 ^ 31 → extract_int (dec i) = (i, false).
Proof.
  intros Hi. destruct i as [|p|p]; [reflexivity|..];
    destruct (read_pretty (N.pos p) "") as [E H]; destruct (H eq_refl) as (c & d & t & Ec & Hd & Hs & Hg);
    unfold extract_int; rewrite ?dec_pos, ?dec_neg; simpl String.list_ascii_of_string; rewrite Ec in *; simpl in E;
    rewrite Hd in E.
  - simpl skip_ws. rewrite Hs, Hg, Hd. simpl read_digits. rewrite Hd, E. simpl fst.
    destruct (Z.ltb_spec (Z.pos p) (- 2 ^ 31)), (Z.leb_spec (2 ^ 31) (Z.pos p)); done || lia.
  - simpl skip_ws. simpl read_sign. cbv iota. rewrite Hd. simpl read_digits. rewrite Hd, E. simpl fst. cbv iota.
    change (- Z.pos p) with (Z.neg p).
    destruct (Z.ltb_spec (Z.neg p) (- 2 ^ 31)), (Z.leb_spec (2 ^ 31) (Z.neg p)); done || lia.
Qed.

(** ** What a run shows *)
Section tells.
Context `{OS : Win32} {X : Type} (view : event → option X).

(** The calls of a log, the oldest first, as [view] shows them. *)
Definition shown (evs : list event) : list X := omap view (reverse evs).

Lemma shown_app a b : shown (a ++ b) = shown b ++ shown a.
Proof. unfold shown. by rewrite reverse_app, omap_app. Qed.

(** From a system state in [P], [m] ends normally in one in [R], and what it shows
    is in [Q]. *)
Definition tells {A} (P : os_state → Prop) (m : M A) (Q : A → list X → Prop) (R : A → os_state → Prop) : Prop :=
  ∀ w, P (os w) → ∃ a w' evs, m w = Ok a w' ∧ log w' = evs ++ log w ∧ Q a (shown evs) ∧ R a (os w').

Lemma tells_ret {A} (a : A) P Q (R : A → os_state → Prop) : Q a [] → (∀ o, P o → R a o) → tells P (ret a) Q R.
Proof. intros Hq HR w Hp. exists a, w, []. split_and!; try done. by apply HR. Qed.

Lemma tells_mono {A} P (m : M A) (Q Q' : A → list X → Prop) (R R' : A → os_state → Prop) :
  tells P m Q R → (∀ a l, Q a l → Q' a l) → (∀ a o, R a o → R' a o) → tells P m Q' R'.
Proof. intros Hm HQ HR w Hp. destruct (Hm w Hp) as (a & w' & evs & H & Hl & Hq & Hr). exists a, w', evs. auto. Qed.

Lemma tells_bind {A B} P (m : M A) (f : A → M B) Q1 R1 (Q : B → list X → Prop) (R : B → os_state → Prop) :
  tells P m Q1 R1 → (∀ a l, Q1 a l → tells (R1 a) (f a) (fun b l' => Q b (l ++ l')) R) → tells P (m ≫= f) Q R.
Proof.
  intros Hm Hf w Hp. destruct (Hm w Hp) as (a & w1 & e1 & H1 & Hl1 & Hq1 & Hr1).
  destruct (Hf a _ Hq1 w1 Hr1) as (b & w2 & e2 & H2 & Hl2 & Hq2 & Hr2). exists b, w2, (e2 ++ e1).
  split; [by apply (bind_intro _ _ _ _ _ _ H1)|]. split; [by rewrite Hl2, Hl1, app_assoc|].
  by rewrite shown_app.
Qed.

Lemma tells_pre {A} (P P' : os_state → Prop) (m : M A) Q R : (∀ o, P' o → P o) → tells P m Q R → tells P' m Q R.
Proof. intros HP Hm w Hp. by apply Hm, HP. Qed.

(** A first part that shows nothing. *)
Lemma tells_then {A B} P (m : M A) (f : A → M B) (T : A → Prop) R1 (Q : B → list X → Prop) (R : B → os_state → Prop) :
  tells P m (fun a l => l = [] ∧ T a) R1 → (∀ a, T a → tells (R1 a) (f a) Q R) → tells P (m ≫= f) Q R.
Proof.
  intros Hm Hf. apply (tells_bind _ _ _ _ _ _ _ Hm). intros a l [-> Ha]. simpl.
  apply (tells_mono _ _ _ _ _ _ (Hf a Ha)); done.
Qed.

(** A call, whose answer is in [T]. *)
Lemma tells_sys {A} (c : api A) P (Q : A → list X → Prop) (R : A → os_state → Prop) :
  (∀ o, P o → Q (os_call c o).1 (option_list (view (Event A c (os_call c o).1))) ∧ R (os_call c o).1 (os_call c o).2) →
  tells P (sys c) Q R.
Proof.
  intros Hc w Hp. destruct (Hc (os w) Hp) as [Hq Hr]. unfold sys. destruct (os_call c (os w)) as [a o].
  exists a, (mkWorld o (Event A c a :: log w) (ss w) (results w) (fileSizes w) (g_hiddenValue w)), [Event A c a].
  split; [done|]. split; [done|]. split; [|done]. unfold shown, reverse. simpl in *. by destruct (view _).
Qed.

(** A call that does not show. *)
Lemma tells_hidden {A} (c : api A) P (T : A → Prop) (R : A → os_state → Prop) :
  (∀ a, view (Event A c a) = None) → (∀ o, P o → T (os_call c o).1 ∧ R (os_call c o).1 (os_call c o).2) →
  tells P (sys c) (fun a l => l = [] ∧ T a) R.
Proof. intros Hv Hc. apply tells_sys. intros o Ho. rewrite Hv. destruct (Hc o Ho). done. Qed.

Lemma tells_on_stopwatch {A} s P (m : M A) Q R : tells P m Q R → tells P (on_stopwatch s m) Q R.
Proof.
  intros Hm w Hp. destruct (Hm (with_ss w s) Hp) as (a & w' & evs & H & Hl & Hq & Hr).
  exists a, (with_ss w' (ss w)), evs. unfold on_stopwatch. by rewrite H.
Qed.
End tells.

(** ** Children of the context switch experiment *)

(** A parent joins the arguments with spaces. *)
Definition command_line (args : list string) : string := String.concat " " args.
Definition switch_child (i : Z) : list string := ["Profiler.exe"; "-ContextSwitchTimeChildProcess"; dec i]%string.

Inductive milestone : Type :=
| Waits
| Clock (ticks : TickValue)
| Records (slot : Z) (value : TickValue).

Section switch_child.
Context `{OS : Win32}.

(** What a child does, and which children a parent starts. *)
Definition milestone_of (e : event) : option milestone :=
  match ev_call e in api T return T → option milestone with
  | WaitForSingleObject _ _ => fun _ => Some Waits
  | Rdtsc => fun t => Some (Clock t)
  | SharedWrite _ i v => fun _ => Some (Records i v)
  | _ => fun _ => None
  end (ev_answer e).
Definition started (e : event) : option string :=
  match ev_call e with Win32.CreateProcess _ line _ _ => Some line | _ => None end.

Definition anywhere (o : os_state) : Prop := True.

(** [m] ends, and does not show. *)
Definition silent {X A} (view : event → option X) (m : M A) : Prop :=
  tells view anywhere m (fun a l => l = [] ∧ True) (fun _ _ => True).

Lemma silent_sys {X A} (view : event → option X) (c : api A) : (∀ a, view (Event A c a) = None) → silent view (sys c).
Proof. intros Hc. by apply tells_hidden. Qed.
Lemma silent_ret {X A} (view : event → option X) (a : A) : silent view (ret a).
Proof. apply tells_ret; done. Qed.
Lemma silent_bind {X A B} (view : event → option X) (m : M A) (f : A → M B) :
  silent view m → (∀ a, silent view (f a)) → silent view (m ≫= f).
Proof. intros Hm Hf. apply (tells_then view anywhere m f (fun _ => True) (fun _ _ => True)); [exact Hm|intros a _; apply Hf]. Qed.
Lemma silent_sys_ {X A} (view : event → option X) (c : api A) : (∀ a, view (Event A c a) = None) → silent view (sys_ c).
Proof. intros Hc. apply silent_bind; [by apply silent_sys|]. intros. apply silent_ret. Qed.

(** Going on after a call that shows. *)
Lemma after_shown {X B} (view : event → option X) {A} (c : api A) x (f : unit → M B) Q R :
  (∀ a, view (Event A c a) = Some x) → tells view anywhere (f tt) (fun b l => Q b (x :: l)) R →
  tells view anywhere (sys_ c ≫= f) Q R.
Proof.
  intros Hc Hf. apply (tells_bind _ _ _ _ (fun _ l => l = [x]) (fun _ _ => True)).
  - apply (tells_bind _ _ _ _ (fun _ l => l = [x]) (fun _ _ => True)).
    + apply tells_sys. intros o _. by rewrite Hc.
    + intros a l ->. by apply tells_ret.
  - by intros [] l ->.
Qed.

(** Going on after something silent. *)
Lemma after_silent {X A B} (view : event → option X) (m : M A) (f : A → M B) Q R :
  silent view m → (∀ a, tells view anywhere (f a) Q R) → tells view anywhere (m ≫= f) Q R.
Proof. intros Hm Hf. apply (tells_then view anywhere m f (fun _ => True) (fun _ _ => True)); [exact Hm|intros a _; apply Hf]. Qed.

Lemma silent_then_stuck {X A B} (view : event → option X) (m : M A) (f : A → M B) w :
  silent view m → (∀ a w, f a w = OutOfFuel) → (m ≫= f) w = OutOfFuel.
Proof. intros Hm H. destruct (Hm w I) as (a & w2 & _ & E & _). by apply (bind_intro _ _ _ _ _ _ E). Qed.

(** A call whose answer is checked. *)
Lemma after_check {X B} (view : event → option X) (c : api Z) (f : Z → M B) (T : Z → Prop) Q R :
  (∀ a, view (Event Z c a) = None) → (∀ o, T (os_call c o).1) → (∀ a, T a → tells view anywhere (f a) Q R) →
  tells view anywhere (sys c ≫= f) Q R.
Proof.
  intros Hv Hc Hf. apply (tells_then _ _ _ _ T (fun _ _ => True)); [|by intros a Ha; apply Hf].
  apply tells_hidden; [done|]. intros o _. by split.
Qed.

Lemma silent_when {X} (view : event → option X) b m : (b = true → silent view m) → silent view (when b m).
Proof. destruct b; [by intros H; apply H|intros _; apply silent_ret]. Qed.
End switch_child.

(** A silent program, by its structure. *)
Ltac silent :=
  repeat (intros;
    first
      [ match goal with H : false = true |- _ => discriminate H end
      | simple apply silent_ret | simple apply silent_when
      | simple apply silent_sys; intros; done | simple apply silent_sys_; intros; done
      | simple apply silent_bind
      | progress unfold print_ln, print ]).

Section switch_child_props.
Context `{OS : Win32} `{Coop : !Cooperative}.

Lemma handle_valid (h : Z) : h ≠ NULL → (h =? NULL) = false.
Proof using Type. apply Z.eqb_neq. Qed.

Lemma switch_child_tells i : - 2 ^ 31 <= i < 2 ^ 31 →
  tells milestone_of anywhere (ContextSwitchTime.ChildProcessMain (switch_child i))
    (fun _ l => ∃ t, l = [Waits; Clock t; Records (1 + i) t]) (fun _ _ => True).
Proof using All.
  intros Hi. unfold ContextSwitchTime.ChildProcessMain, switch_child. rewrite (extract_dec i Hi). cbv zeta. simpl fst.
  apply after_silent; [unfold StopwatchStack_default, StopwatchStack_new; silent|intros s]. apply tells_on_stopwatch.
  apply (after_check _ _ _ (fun h => h ≠ NULL)); [done|apply file_mapping_works|intros m Hm].
  rewrite (handle_valid m Hm). apply after_silent; [silent|intros _].
  apply (after_check _ _ _ (fun h => h ≠ NULL)); [done|apply map_view_works|intros p Hp].
  rewrite (handle_valid p Hp). apply after_silent; [silent|intros _].
  apply (after_check _ _ _ (fun h => h ≠ NULL)); [done|apply open_event_works|intros h Hh].
  rewrite (handle_valid h Hh). apply after_silent; [silent|intros _].
  apply (after_shown _ _ Waits); [done|]. apply (tells_bind _ _ _ _ (fun t l => l = [Clock t]) (fun _ _ => True)); [by apply tells_sys|].
  intros t _ ->. apply after_silent; [silent|intros _].
  apply (after_shown _ _ (Records (1 + i) t)); [done|]. apply (tells_mono _ _ _ (fun _ l => l = [] ∧ True) _ (fun _ _ => True)); [silent| |done].
  intros _ l [-> _]. by exists t.
Qed.

(** With an argument, [wmain] is [child_main] after a silent prologue. *)
Lemma wmain_child_tells {X} (view : event → option X) fuel program arg1 args Q :
  silent view (configureConsoleForUnicode false) → silent view configure_process →
  tells view anywhere (child_main fuel (program :: arg1 :: args) arg1) Q (fun _ _ => True) →
  tells view anywhere (wmain fuel (program :: arg1 :: args)) Q (fun _ _ => True).
Proof using Type.
  intros Hc Hp Hk. unfold wmain. apply after_silent; [exact Hc|intros _].
  apply after_silent; [|intros _; apply after_silent; [exact Hp|intros _; exact Hk]].
  apply silent_when. intros H%Z.ltb_lt. simpl in H. lia.
Qed.

Lemma create_child_tells i :
  tells started anywhere (ContextSwitchTime.CreateProcess i) (fun _ l => l = [command_line (switch_child i)]) (fun _ _ => True).
Proof using All.
  unfold ContextSwitchTime.CreateProcess. apply after_silent; [silent|intros path].
  set (line := ("Profiler.exe" ++ " -ContextSwitchTimeChildProcess " ++ dec i)%string).
  apply (tells_bind _ _ _ _ (fun h l => l = [line] ∧ is_Some h) (fun _ _ => True)).
  - apply tells_sys. intros o _. split; [|done]. split; [done|]. apply create_process_works.
  - intros _ _ [-> [h ->]]. by apply tells_ret.
Qed.
End switch_child_props.

(** C29: parent and child of the context switch experiment agree: worker [i] is
    started with one process whose command line is its program, the child's switch
    and the number [i]; and the profiler started with these arguments, on a system
    whose calls succeed, ends normally, and after it was let go reads the clock
    once and records that very time in slot [1 + i] of the shared array -- one of
    the slots the parent reads, and no other child's. *)
Theorem context_switch_child_fills_its_slot `{OS : Win32} (C : Cooperative) fuel i w0 w (Hi : 0 <= i < ContextSwitchTime.count) :
  (∃ h w' evs, ContextSwitchTime.CreateProcess i w0 = Ok h w' ∧ log w' = evs ++ log w0 ∧
     shown started evs = [command_line (switch_child i)]) ∧
  (∃ w' evs t, wmain fuel (switch_child i) w = Ok 0 w' ∧ log w' = evs ++ log w ∧
     shown milestone_of evs = [Waits; Clock t; Records (1 + i) t]).
Proof.
  split.
  - destruct (create_child_tells i w0 I) as (h & w' & evs & H & Hl & Hs & _). by exists h, w', evs.
  - unfold ContextSwitchTime.count, ContextSwitchTime.batchSize in Hi.
    assert (Hm : tells milestone_of anywhere (wmain fuel (switch_child i))
      (fun z l => z = 0 ∧ ∃ t, l = [Waits; Clock t; Records (1 + i) t]) (fun _ _ => True)).
    { apply wmain_child_tells; [unfold configureConsoleForUnicode; silent|unfold configure_process; silent|]. unfold child_main. simpl String.eqb. cbv iota.
      apply (tells_bind _ _ _ _ _ _ _ _ (switch_child_tells i ltac:(lia))). intros _ l [t ->].
      apply tells_ret; [|done]. split; [done|]. by exists t. }
    destruct (Hm w I) as (z & w' & evs & H & Hl & [-> [t Ht]] & _). by exists w', evs, t.
Qed.

Lemma context_switch_child_fills_its_slot_witness :
  ∃ (w' : @world demo_os) evs t, wmain (OS := demo_os) 0 (switch_child 7) (demo_world 10) = Ok 0 w' ∧
    log w' = evs ++ [] ∧ shown milestone_of evs = [Waits; Clock t; Records 8 t].
Proof.
  destruct (context_switch_child_fills_its_slot demo_cooperative 0 7 (demo_world 10) (demo_world 10) ltac:(by vm_compute))
    as [_ (w' & evs & t & H & Hl & Hs)].
  exists w', evs, t. split; [exact H|]. split; [exact Hl|exact Hs].
Defined.

(** ** The bandwidth server *)

(** A network whose calls succeed: a connection that is accepted has at most
    [max_chunks] chunks to deliver, a receive that brings data delivers one, and
    writing to the console delivers none. *)
Class Peers `{OS : Win32} := {
  undelivered : os_state → nat;
  max_chunks : nat;
  peers_startup o : (os_call WSAStartup o).1 = 0;
  peers_socket o : (os_call WSASocket o).1 ≠ INVALID_SOCKET;
  peers_bind h p o : (os_call (Bind h p) o).1 = 0;
  peers_listen h o : (os_call (Listen h) o).1 ≠ SOCKET_ERROR;
  peers_accept h o : (os_call (WSAAccept h) o).1 ≠ INVALID_SOCKET ∧ (undelivered (os_call (WSAAccept h) o).2 <= max_chunks)%nat;
  peers_receive h n o : (os_call (WSARecv h n) o).1.1 = 0 → (os_call (WSARecv h n) o).1.2 ≠ 0 →
    (undelivered (os_call (WSARecv h n) o).2 < undelivered o)%nat;
  peers_console s o : (undelivered (os_call (ConsoleWrite s) o).2 <= undelivered o)%nat;
  peers_shutdown h o : (os_call (ShutdownReceive h) o).1 = 0;
  peers_close h o : (os_call (CloseSocket h) o).1 = 0;
}.

Definition server_child (n : Z) : list string := ["Profiler.exe"; "-NetworkBandwidthChildServer"; dec n]%string.

Section server.
Context `{OS : Win32} `{Net : !Peers}.
Import NetworkPeakBandwidth.

(** The connections a log accepts. *)
Definition accepted (e : event) : option Z :=
  match ev_call e in api T return T → option Z with WSAAccept _ => fun s => Some s | _ => fun _ => None end (ev_answer e).

Lemma wsa_require_silent b what : b = true → silent accepted (wsa_require b what).
Proof using Type. intros ->. unfold wsa_require. simpl. silent. Qed.

(** A call whose return code must be [good]. *)
Lemma after_code {B} (c : api Z) good what (f : M B) Q R :
  (∀ a, accepted (Event Z c a) = None) → (∀ o, (os_call c o).1 = good) → tells accepted anywhere f Q R →
  tells accepted anywhere (r ← sys c; wsa_require (r =? good) what;; f) Q R.
Proof using Type.
  intros Hv Hc Hf. apply (after_check _ _ _ (fun r => r = good)); [done|done|]. intros r ->.
  apply after_silent; [apply wsa_require_silent, Z.eqb_refl|]. by intros _.
Qed.

Lemma create_socket_silent : silent accepted create_socket.
Proof using All.
  unfold create_socket. apply (after_check _ _ _ (fun s => s ≠ INVALID_SOCKET)); [done|apply peers_socket|].
  intros s Hs%Z.eqb_neq. apply after_silent; [apply wsa_require_silent; by rewrite Hs|intros _]. silent.
Qed.

Lemma close_socket_silent s : silent accepted (close_socket s).
Proof using All.
  unfold close_socket. apply (after_check _ _ _ (fun r => r = 0)); [done|apply peers_close|]. intros r ->.
  by apply wsa_require_silent.
Qed.

Lemma print_ln_silent s j :
  tells accepted (fun o => (undelivered o <= j)%nat) (print_ln s) (fun _ l => l = [] ∧ True) (fun _ o => (undelivered o <= j)%nat).
Proof using All.
  unfold print_ln, print, sys_. apply (tells_then _ _ _ _ (fun _ => True) (fun _ o => (undelivered o <= j)%nat)).
  - apply tells_hidden; [done|]. intros o Ho. split; [done|]. etrans; [apply peers_console|done].
  - intros [] _. by apply tells_ret.
Qed.

(** The loop of [receive_all] ends with the connection. *)
Lemma receive_loop_silent socket j : ∀ fuel once, (j < fuel)%nat →
  tells accepted (fun o => (undelivered o <= j)%nat)
    (while_ fuel (fun receivedOnce : bool =>
      '(r, bytesRead) ← sys (WSARecv socket bufferSize);
      if (r =? 0) && negb (bytesRead =? 0)
      then when (negb receivedOnce) (print_ln "Receiving data...");; ret (inl true)
      else ret (inr tt)) once) (fun _ l => l = [] ∧ True) (fun _ _ => True).
Proof using All.
  induction j as [j IH] using lt_wf_ind. intros [|fuel] once Hf; [lia|]. simpl.
  set (more := fun (a : Z * Z) => (a.1 =? 0) && negb (a.2 =? 0)).
  apply (tells_then _ _ _ _ (fun r => match r with inl _ => (0 < j)%nat | inr _ => True end)
    (fun r o => match r with inl _ => (undelivered o <= pred j)%nat | inr _ => True end)).
  - apply (tells_then _ _ _ _ (fun a => more a = true → (0 < j)%nat) (fun a o => more a = true → (undelivered o <= pred j)%nat)).
    + apply tells_hidden; [done|]. intros o Ho. pose proof (peers_receive socket bufferSize o) as Hp.
      unfold more. split; intros [H1%Z.eqb_eq H2%negb_true_iff%Z.eqb_neq]%andb_true_iff; specialize (Hp H1 H2); lia.
    + intros [r n] Hr. unfold more in *. simpl in *. destruct ((r =? 0) && negb (n =? 0)); [|by apply tells_ret].
      specialize (Hr eq_refl). apply (tells_pre _ (fun o => (undelivered o <= pred j)%nat)); [by auto|].
      apply (tells_then _ _ _ _ (fun _ => True) (fun _ o => (undelivered o <= pred j)%nat)); [|by intros; apply tells_ret].
      destruct (negb once); [apply print_ln_silent|by apply tells_ret].
  - intros [once'|[]] Hr; [|by apply tells_ret]. apply (IH (pred j)); lia.
Qed.

Lemma receive_all_silent fuel socket : (max_chunks < fuel)%nat →
  tells accepted (fun o => (undelivered o <= max_chunks)%nat) (receive_all fuel socket) (fun _ l => l = [] ∧ True) (fun _ _ => True).
Proof using All.
  intros Hf. unfold receive_all.
  apply (tells_then _ _ _ _ (fun _ => True) (fun _ _ => True)); [by apply receive_loop_silent|].
  intros [] _. unfold print_ln, print. change (fun _ : os_state => True) with anywhere. silent.
Qed.

(** One connection. *)
Lemma serve_one_tells fuel socket : (max_chunks < fuel)%nat →
  tells accepted anywhere (serve_one fuel socket) (fun _ l => length l = 1%nat) (fun _ _ => True).
Proof using All.
  intros Hf. unfold serve_one. apply after_silent; [silent|intros _].
  apply (tells_bind _ _ _ _ (fun s l => length l = 1%nat ∧ s ≠ INVALID_SOCKET)
    (fun _ o => (undelivered o <= max_chunks)%nat)).
  { apply tells_sys. intros o _. destruct (peers_accept socket o) as [Ha Hu]. done. }
  intros s l [Hl Hs%Z.eqb_neq]. rewrite Hs. simpl.
  apply (tells_then _ _ _ _ (fun _ => True) (fun _ o => (undelivered o <= max_chunks)%nat)); [by apply tells_ret|intros _ _].
  apply (tells_then _ _ _ _ (fun _ => True) (fun _ _ => True)); [by apply receive_all_silent|intros _ _].
  change (fun _ : os_state => True) with anywhere. apply after_code; [done|apply peers_shutdown|].
  eapply tells_mono; [apply close_socket_silent| |done]. intros _ l' [-> _]. by rewrite app_nil_r.
Qed.

(** [n] connections, from number [i] on. *)
Lemma serve_tells fuel socket n : (max_chunks < fuel)%nat → ∀ k f i, (k < f)%nat → 0 <= i → n = i + Z.of_nat k →
  tells accepted anywhere
    (while_ f (fun i => if (i <? n) || (n =? -1) then serve_one fuel socket;; ret (inl (i + 1)) else ret (inr tt)) i)
    (fun _ l => length l = k) (fun _ _ => True).
Proof using All.
  intros Hf. induction k as [|k IH]; intros [|f] i Hk Hi Hn; try lia; simpl.
  - assert ((i <? n) || (n =? -1) = false) as -> by lia. by apply tells_ret.
  - assert ((i <? n) || (n =? -1) = true) as -> by lia.
    apply (tells_bind _ _ _ _ (fun r l => r = inl (i + 1) ∧ length l = 1%nat) (fun _ _ => True)).
    { apply (tells_bind _ _ _ _ _ _ _ _ (serve_one_tells fuel socket Hf)). intros _ l Hl. apply tells_ret; [|done].
      by rewrite app_nil_r. }
    intros r l [-> Hl]. eapply tells_mono; [apply IH; lia| |done]. intros u l' Hl'. rewrite length_app. simpl in *. lia.
Qed.

(** Without a number it never stops. *)
Lemma serve_for_ever fuel socket : (max_chunks < fuel)%nat → ∀ f i w,
  while_ f (fun i => if (i <? -1) || (-1 =? -1) then serve_one fuel socket;; ret (inl (A := Z) (B := unit) (i + 1)) else ret (inr tt)) i w = OutOfFuel.
Proof using All.
  intros Hf. induction f as [|f IH]; intros i w; [done|]. simpl. rewrite orb_true_r.
  destruct (serve_one_tells fuel socket Hf w I) as ([] & w1 & evs & H & _).
  eapply bind_intro; [apply (bind_intro _ _ _ _ _ _ H); reflexivity|]. apply IH.
Qed.

Lemma start_listening_silent : silent accepted start_listening.
Proof using All.
  unfold start_listening. apply after_silent; [apply create_socket_silent|intros s].
  do 2 (apply after_silent; [silent|intros ?]). apply after_code; [done|apply peers_bind|].
  apply after_silent; [silent|intros _].
  apply (after_check _ _ _ (fun r => r ≠ SOCKET_ERROR)); [done|apply peers_listen|]. intros r Hr%Z.eqb_neq.
  apply after_silent; [apply wsa_require_silent; by rewrite Hr|intros _]. silent.
Qed.

Lemma InitWinsock_silent : silent accepted InitWinsock.
Proof using All.
  unfold InitWinsock. apply (after_check _ _ _ (fun r => r = 0)); [done|apply peers_startup|]. intros r ->. simpl. silent.
Qed.

(** The server, once it knows how often to listen. *)
Definition serve_process (fuel : nat) (numTimesToListen : Z) : M unit :=
  hThread ← sys GetCurrentThread;
  sys_ (SetThreadAffinityMask hThread 2);;
  InitWinsock;;
  socketListener ← start_listening;
  serve fuel socketListener numTimesToListen;;
  close_socket socketListener;;
  CleanupWinsock.

Lemma serve_process_tells fuel n : (max_chunks < fuel)%nat → 0 <= n < Z.of_nat fuel →
  tells accepted anywhere (serve_process fuel n) (fun _ l => Z.of_nat (length l) = n) (fun _ _ => True).
Proof using All.
  intros Hf Hn. unfold serve_process. do 2 (apply after_silent; [silent|intros ?]).
  apply after_silent; [apply InitWinsock_silent|intros _]. apply after_silent; [apply start_listening_silent|intros s].
  apply (tells_bind _ _ _ _ (fun _ l => length l = Z.to_nat n) (fun _ _ => True)).
  { unfold serve. apply (serve_tells fuel s n Hf (Z.to_nat n)); lia. }
  intros _ l Hl. apply after_silent; [apply close_socket_silent|intros _].
  eapply tells_mono; [unfold CleanupWinsock; apply silent_sys_; done| |done].
  intros _ l' [-> _]. rewrite app_nil_r. lia.
Qed.

Lemma serve_process_stuck fuel w : (max_chunks < fuel)%nat → serve_process fuel (-1) w = OutOfFuel.
Proof using All.
  intros Hf. unfold serve_process.
  do 2 (apply (silent_then_stuck accepted); [silent|intros ? ?]).
  apply (silent_then_stuck accepted); [apply InitWinsock_silent|intros _ v1].
  apply (silent_then_stuck accepted); [apply start_listening_silent|intros s v2].
  pose proof (serve_for_ever fuel s Hf fuel 0 v2) as E. unfold serve, mbind at 1, M_bind at 1.
  unfold mbind, M_bind in E |- *. by rewrite E.
Qed.
End server.


(** Each connection brings four chunks. *)
Definition chunked_os : Win32 := {|
  os_state := nat;
  os_call A c left :=
    match c in api T return T * nat with
    | WSARecv _ n => ((0, if left is O then 0 else Z.min n 1000), pred left)
    | WSAAccept _ => (21, 4%nat)
    | c => (demo_answer c 0, left)
    end;
  format_double _ := ""%string;
  literal_address _ := 4096 |}.

#[export] Instance chunked_peers : Peers (OS := chunked_os).
Proof.
  refine {| undelivered := (fun left : nat => left) : @os_state chunked_os → nat; max_chunks := 4 |};
    try (simpl; intros; done || lia).
  intros h n [|left]; simpl; [done|lia].
Defined.

Definition chunked_world : @world chunked_os :=
  @mkWorld chunked_os O [] (StopwatchStack_init 100 10 false 1000000000) [] [] 0.


(** ** Arguments that are refused *)
Definition child_switches : list string :=
  ["-ContextSwitchTimeChildProcess"; "-NetworkBandwidthChildServer"; "-FileSystemChildProcess"]%string.

Section refused.
Context `{OS : Win32}.

(** [m] ends in [e], an exception or a failed assertion. *)
Definition ends_in {A} (e : world → outcome A) (m : M A) : Prop := ∀ w, ∃ w', m w = e w'.

Lemma ends_in_bind {A B} (m : M A) (f : A → M B) what : ends_in (Threw what) m → ends_in (Threw what) (m ≫= f).
Proof. intros Hm w. destruct (Hm w) as [w' E]. exists w'. unfold mbind, M_bind. by rewrite E. Qed.
Lemma assertion_bind {A B} (m : M A) (f : A → M B) : ends_in AssertionFailed m → ends_in AssertionFailed (m ≫= f).
Proof. intros Hm w. destruct (Hm w) as [w' E]. exists w'. unfold mbind, M_bind. by rewrite E. Qed.

Lemma wmain_child_ends_in fuel program arg1 args e :
  ends_in e (child_main fuel (program :: arg1 :: args) arg1) → ends_in e (wmain fuel (program :: arg1 :: args)).
Proof.
  intros Hk w. unfold wmain.
  assert (Hs : ∀ A (m : M A) k, silent accepted m → (∀ a w, ∃ w', k a w = e w') → ∀ w, ∃ w', (m ≫= k) w = e w').
  { intros A m k Hm H w1. destruct (Hm w1 I) as (a & w2 & _ & E & _). destruct (H a w2) as [w3 E3].
    exists w3. by apply (bind_intro _ _ _ _ _ _ E). }
  apply Hs; [unfold configureConsoleForUnicode; silent|intros _ w1].
  apply Hs; [apply silent_when; intros H%Z.ltb_lt; simpl in H; lia|intros _ w2].
  apply Hs; [unfold configure_process; silent|intros _]. exact Hk.
Qed.

Lemma unknown_refused fuel argv a : a ∉ child_switches → ends_in (Threw "Unknown commandline arguments.") (child_main fuel argv a).
Proof.
  intros Ha w. unfold child_main.
  assert (Hne : ∀ x, x ∈ child_switches → String.eqb a x = false).
  { intros x Hx. apply String.eqb_neq. by intros ->. }
  rewrite !Hne by (unfold child_switches; set_solver). by exists w.
Qed.
End refused.

(** C39: what a child refuses, on any system: an argument that is no child's switch
    and a switch without the arguments it needs end the process with an exception,
    and so does a child of the file system experiment whose number is none; a
    server told to listen a negative number of times, or more than 2^20 times,
    stops at an assertion. *)
Theorem child_arguments_are_checked `{OS : Win32} fuel program :
  (∀ a args, a ∉ child_switches → ends_in (Threw "Unknown commandline arguments.") (wmain fuel (program :: a :: args))) ∧
  ends_in (Threw "Missing arguments.") (wmain fuel [program; "-ContextSwitchTimeChildProcess"]%string) ∧
  (∀ args, (length args < 2)%nat →
     ends_in (Threw "Missing arguments.") (wmain fuel (program :: "-FileSystemChildProcess"%string :: args))) ∧
  (∀ number file args, (extract_int number).2 = true →
     ends_in (Threw "Not an integer.") (wmain fuel (program :: "-FileSystemChildProcess"%string :: number :: file :: args))) ∧
  (∀ n args, - 2 ^ 31 <= n < 0 ∨ 2 ^ 20 <= n < 2 ^ 31 →
     ends_in AssertionFailed (wmain fuel (program :: "-NetworkBandwidthChildServer"%string :: dec n :: args))).
Proof.
  split; [|split; [|split; [|split]]].
  - intros a args Ha. by apply wmain_child_ends_in, unknown_refused.
  - apply wmain_child_ends_in. intros w. by exists w.
  - intros args Hl. apply wmain_child_ends_in. intros w. exists w. by destruct args as [|? [|? ?]]; [..|simpl in Hl; lia].
  - intros number file args Hn. apply wmain_child_ends_in. intros w. exists w.
    unfold child_main. simpl String.eqb. cbv iota. unfold FileSystemContention.ChildProcessMain, ParseInteger.
    destruct (extract_int number) as [z []]; [done|discriminate].
  - intros n args Hn. apply wmain_child_ends_in. intros w. exists w.
    unfold child_main. simpl String.eqb. cbv iota.
    unfold NetworkPeakBandwidth.ChildProcessMain, NetworkPeakBandwidth.parse_listens. rewrite extract_dec by lia. cbv zeta. cbn [fst].
    destruct Hn as [Hn|Hn].
    + assert ((0 <=? n) = false) as -> by lia. done.
    + assert ((0 <=? n) = true) as -> by lia. assert ((n <? 1024 * 1024) = false) as -> by lia. done.
Qed.

Lemma child_arguments_are_checked_witness :
  (∃ w', wmain (OS := demo_os) 0 ["Profiler.exe"; "-help"]%string (demo_world 10) = Threw "Unknown commandline arguments." w') ∧
  (∃ w', wmain (OS := demo_os) 0 ["Profiler.exe"; "-FileSystemChildProcess"; "x"; "a.bin"]%string (demo_world 10) = Threw "Not an integer." w') ∧
  (∃ w', wmain (OS := demo_os) 0 ["Profiler.exe"; "-NetworkBandwidthChildServer"; dec (-3)]%string (demo_world 10) = AssertionFailed w').
Proof.
  destruct (child_arguments_are_checked (OS := demo_os) 0 "Profiler.exe") as (H1 & _ & _ & H4 & H5).
  split; [|split].
  - apply (H1 "-help"%string []). apply (bool_decide_unpack _). by vm_compute.
  - by apply (H4 "x"%string "a.bin"%string []).
  - apply (H5 (-3) []). lia.
Defined.

Import Profiler.

(** A system in which only so many more polls of an event can time out. *)
Class Signal `{OS : Win32} := {
  polls_left : os_state → nat;
  polls_kept A (c : api A) o : (polls_left (os_call c o).2 <= polls_left o)%nat;
  poll_again h ms o : (os_call (WaitForSingleObject h ms) o).1 = WAIT_TIMEOUT →
    (polls_left (os_call (WaitForSingleObject h ms) o).2 < polls_left o)%nat;
}.

Definition reader_child (i : Z) (file : string) : list string := ["Profiler.exe"; "-FileSystemChildProcess"; dec i; file]%string.

Section reader.
Context `{OS : Win32} `{Sig : !Signal}.

(** The answers to the polls of a log. *)
Definition poll_answer (e : event) : option Z :=
  match ev_call e in api T return T → option Z with WaitForSingleObject _ _ => fun r => Some r | _ => fun _ => None end (ev_answer e).

Definition polls_down : relation world := fun w w' => (polls_left (os w') <= polls_left (os w))%nat.

#[export] Instance polls_down_frame : Frame polls_down.
Proof using All.
  constructor; try (unfold polls_down; simpl; done).
  - split; [intros w; unfold polls_down; lia|]. intros w1 w2 w3 H1 H2. unfold polls_down in *. lia.
  - intros A c w. apply polls_kept.
Qed.

Definition at_most (j : nat) (o : os_state) : Prop := (polls_left o <= j)%nat.

(** [m] does not poll, and does not put the signal off. *)
Definition unpolled {A} (m : M A) : Prop := emits (fun e => poll_answer e = None) m ∧ kept polls_down m.

Lemma not_shown evs : Forall (fun e => poll_answer e = None) evs → shown poll_answer evs = [].
Proof using Type.
  intros H. assert (Hr : Forall (fun e => poll_answer e = None) (reverse evs)) by (by apply Forall_reverse).
  unfold shown. induction Hr as [|e l He _ IH]; simpl; [done|]. by rewrite He.
Qed.

(** Going on after a part that does not poll. *)
Lemma after_unpolled {A B} (m : M A) (f : A → M B) T j Q R : completes m T → unpolled m →
  (∀ a, T a → tells poll_answer (at_most j) (f a) Q R) → tells poll_answer (at_most j) (m ≫= f) Q R.
Proof using Type.
  intros Hc [He Hk] Hf. apply (tells_then poll_answer _ m f T (fun _ => at_most j)); [|done].
  intros w Hw. destruct (Hc w) as (a & w' & H & Ha). destruct (He _ _ _ H) as (evs & Hl & Hn). exists a, w', evs.
  split; [done|]. split; [done|]. split; [by rewrite not_shown|]. pose proof (Hk _ _ _ H). unfold at_most, polls_down in *. lia.
Qed.

(** Polling until the event is set, with [m] in between. *)
Lemma polling (h : HANDLE) (m : M unit) : total m → unpolled m → ∀ j fuel, (j < fuel)%nat →
  tells poll_answer (at_most j)
    (while_ fuel (fun _ : unit =>
       r ← sys (WaitForSingleObject h 0);
       if r =? WAIT_TIMEOUT then m;; ret (inl tt) else ret (inr tt)) tt)
    (fun _ l => ∃ k a, (k <= j)%nat ∧ a ≠ WAIT_TIMEOUT ∧ l = replicate k WAIT_TIMEOUT ++ [a]) (fun _ _ => True).
Proof using Type.
  intros Ht Hu j. induction j as [j IH] using lt_wf_ind. intros [|fuel] Hf; [lia|]. cbn [while_].
  set (timeout := fun a : Z => a = WAIT_TIMEOUT).
  apply (tells_bind poll_answer _ _ _
    (fun r l => ∃ a, l = [a] ∧ match r with inl _ => a = WAIT_TIMEOUT ∧ (0 < j)%nat | inr _ => a ≠ WAIT_TIMEOUT end)
    (fun r o => match r with inl _ => at_most (pred j) o | inr _ => True end)).
  - apply (tells_bind poll_answer _ _ _ (fun a l => l = [a] ∧ (a = WAIT_TIMEOUT → (0 < j)%nat))
      (fun a o => a = WAIT_TIMEOUT → at_most (pred j) o)).
    + apply tells_sys. intros o Ho. pose proof (poll_again h 0 o) as Hp. unfold at_most in *. split; [split; [done|]|]; intros Ha; specialize (Hp Ha); lia.
    + intros a l [-> Ha]. destruct (Z.eqb_spec a WAIT_TIMEOUT) as [E|E].
      * specialize (Ha E). apply (tells_pre _ (at_most (pred j))); [by auto|].
        apply (after_unpolled _ _ _ _ _ _ Ht Hu). intros _ _. apply tells_ret; [by exists a|done].
      * apply tells_ret; [by exists a|done].
  - intros [[]|[]] l (a & -> & Ha).
    + destruct Ha as [-> Hj]. eapply tells_mono; [apply (IH (pred j)); lia| |done].
      intros _ l (k & b & Hk & Hb & ->). exists (S k), b. split; [lia|]. by split.
    + apply tells_ret; [|done]. exists 0%nat, a. split; [lia|]. by split.
Qed.

(** ** The child *)
Context `{Coop : !Cooperative} (sector largest : Z) `{Disk : !Files sector largest}.
Import FileSystemExperiment.

Lemma read_unpolled fuel h : unpolled (ReadEntireFile fuel h DefaultBufferSize None 0 RANDOM).
Proof using Type. split; [|kept]. unfold ReadEntireFile, read_turn, seek, GetFileSizeOfHandle, sys_, throw_new. emits; done. Qed.
Lemma open_unpolled path r b : unpolled (open_file path r b).
Proof using Type. split; [|kept]. unfold open_file, fail_with, sys_. emits; done. Qed.
Lemma size_unpolled h : unpolled (GetFileSizeOfHandle h).
Proof using Type. split; [|kept]. unfold GetFileSizeOfHandle, sys_, throw_new. emits; done. Qed.

Lemma reader_tells fuel i file j : - 2 ^ 31 <= i < 2 ^ 31 → (Z.to_nat largest < fuel)%nat → (j < fuel)%nat →
  tells poll_answer (at_most j) (FileSystemContention.ChildProcessMain fuel (reader_child i file))
    (fun _ l => ∃ k a, (k <= j)%nat ∧ a ≠ WAIT_TIMEOUT ∧ l = replicate k WAIT_TIMEOUT ++ [a]) (fun _ _ => True).
Proof using All.
  intros Hi Hf Hj. unfold FileSystemContention.ChildProcessMain, reader_child, OpenFileNoBuffering, ParseInteger.
  rewrite (extract_dec i Hi). cbv beta iota.
  apply (after_unpolled _ _ (fun _ => True)); [apply total_ret|split; [emits|kept]|intros n _].
  eapply after_unpolled; [apply (open_total sector largest)|apply open_unpolled|intros h [Hh Hn]].
  eapply after_unpolled; [apply (file_size_total sector largest)|apply size_unpolled|intros size _].
  apply (after_unpolled _ _ (fun e => e ≠ NULL)); [apply completes_sys, open_event_works|split; [emits|kept]|intros e He%Z.eqb_neq].
  rewrite He. apply (after_unpolled _ _ (fun _ => True)); [by apply total_when|split; [apply emits_ret|kept]|intros _ _].
  apply (after_unpolled _ _ (fun _ => True));
    [unfold StopwatchStack_default, StopwatchStack_new; simpl; total|
     split; [unfold StopwatchStack_default, StopwatchStack_new, sys_; emits; done|kept]|intros s _].
  apply (tells_bind poll_answer _ _ _
    (fun _ l => ∃ k a, (k <= j)%nat ∧ a ≠ WAIT_TIMEOUT ∧ l = replicate k WAIT_TIMEOUT ++ [a]) (fun _ _ => True)).
  - apply tells_on_stopwatch, polling; [|apply read_unpolled|done]. by apply (read_entire_total sector largest).
  - intros _ l Hl. apply (tells_mono _ _ _ (fun _ l => l = [] ∧ True) _ (fun _ _ => True)); [| |done].
    + unfold CloseFile. apply silent_bind; [|intros; silent]. by apply Z.eqb_neq in Hn as ->; apply tells_ret.
    + intros _ l' [-> _]. by rewrite app_nil_r.
Qed.
End reader.

(** What [wmain] does before it looks at its arguments. *)
Ltac prologue :=
  unfold configureConsoleForUnicode, banner, configure_process, print_ln, print, sys_; simpl; solve [total | emits; done].


(** The demonstration system, on which three more polls time out. *)
Definition signal_os : Win32 := {|
  os_state := nat;
  os_call A c left :=
    match c in api T return T * nat with
    | WaitForSingleObject _ _ => (if left is O then 0 else WAIT_TIMEOUT, pred left)
    | c => (demo_answer c 0, left)
    end;
  format_double _ := ""%string;
  literal_address _ := 4096 |}.

#[export] Instance signal_cooperative : Cooperative (OS := signal_os).
Proof. constructor; done || (intros; unfold is_u32; simpl; lia). Qed.

#[export] Instance signal_files : Files (OS := signal_os) 9 4096.
Proof.
  constructor; try done; intros; simpl.
  - by exists 4096.
  - exists (Z.min n 512). split; [done|lia].
Qed.

#[export] Instance signal_signal : Signal (OS := signal_os).
Proof.
  refine {| polls_left := (fun left : nat => left) : @os_state signal_os → nat |}.
  - intros A [] left; simpl; lia.
  - intros h ms [|left]; simpl; [done|lia].
Defined.

Definition signal_world : @world signal_os :=
  @mkWorld signal_os 3%nat [] (StopwatchStack_init 100 10 false 1000000000) [] [] 0.

