(* ===== verification/ByteMemory.v ===== *)
(** * Byte-addressed memory

    The memory of a 32-bit x86 process, as the C programs see it that cast pointers
    to [unsigned] and write through them: an address is mapped and holds a byte, or
    touching it is a fault ([None]). A 32-bit word is four bytes, the low one first. *)
From S2P Require Import Prelude.
From S2P Require Import Words.

Definition memory : Type := Z → option Z.

(** Storing a byte in a mapped address. *)
Definition store8 (m : memory) (a v : Z) : option memory :=
  _ ← m a;
  Some (fun x => if x =? a then Some v else m x).

Definition load32 (m : memory) (a : Z) : option Z :=
  b0 ← m a;
  b1 ← m (a + 1);
  b2 ← m (a + 2);
  b3 ← m (a + 3);
  Some (b0 + 2 ^ 8 * b1 + 2 ^ 16 * b2 + 2 ^ 24 * b3).

Definition store32 (m : memory) (a v : Z) : option memory :=
  m ← store8 m a (v mod 2 ^ 8);
  m ← store8 m (a + 1) (v / 2 ^ 8 mod 2 ^ 8);
  m ← store8 m (a + 2) (v / 2 ^ 16 mod 2 ^ 8);
  store8 m (a + 3) (v / 2 ^ 24 mod 2 ^ 8).

Fixpoint read_bytes (m : memory) (a : Z) (n : nat) : option (list Z) :=
  match n with
  | O => Some []
  | S n => b ← m a; l ← read_bytes m (a + 1) n; Some (b :: l)
  end.

Fixpoint write_bytes (m : memory) (a : Z) (l : list Z) : option memory :=
  match l with
  | [] => Some m
  | b :: l => m ← store8 m a b; write_bytes m (a + 1) l
  end.

(** [memcpy]: the ranges must not overlap. *)
Definition memcpy (m : memory) (dst src : Z) (n : nat) : option memory :=
  if Z.abs (dst - src) <? Z.of_nat n then None else l ← read_bytes m src n; write_bytes m dst l.

Definition memset (m : memory) (a v : Z) (n : nat) : option memory := write_bytes m a (replicate n v).

(** ** What is mapped *)
Definition mapped (m : memory) (a n : Z) : Prop := ∀ x, a <= x < a + n → is_Some (m x).

(** [m'] is [m] with the addresses [a .. a+n-1] changed at most. *)
Record changes (m : memory) (a n : Z) (m' : memory) : Prop := {
  ch_frame : ∀ x, x < a ∨ a + n <= x → m' x = m x;
  ch_mapped : ∀ x, is_Some (m' x) ↔ is_Some (m x);
}.

Lemma changes_refl m a n : changes m a n m.
Proof. done. Qed.

Lemma changes_trans m1 m2 m3 a n : changes m1 a n m2 → changes m2 a n m3 → changes m1 a n m3.
Proof.
  intros [F1 M1] [F2 M2]. split; intros x; [intros Hx; by rewrite F2, F1|]. by rewrite M2, M1.
Qed.

Lemma changes_weaken m m' a n b k : changes m a n m' → b <= a → a + n <= b + k → changes m b k m'.
Proof. intros [F M] H1 H2. split; [|done]. intros x Hx. apply F. lia. Qed.

Lemma changes_maps m a n m' b k : changes m a n m' → mapped m b k → mapped m' b k.
Proof. intros [_ M] Hm x Hx. by apply M, Hm. Qed.

Lemma load32_agree m m' a : (∀ x, a <= x < a + 4 → m' x = m x) → load32 m' a = load32 m a.
Proof. intros H. unfold load32. by rewrite !H by lia. Qed.

Lemma load32_changes m m' b n a : changes m b n m' → a + 4 <= b ∨ b + n <= a → load32 m' a = load32 m a.
Proof. intros [F _] Ha. apply load32_agree. intros x Hx. apply F. lia. Qed.

Lemma load32_maps m a v : load32 m a = Some v → mapped m a 4.
Proof.
  unfold load32. intros H. apply bind_Some in H as (b0 & H0 & H). apply bind_Some in H as (b1 & H1 & H).
  apply bind_Some in H as (b2 & H2 & H). apply bind_Some in H as (b3 & H3 & _).
  intros x Hx. assert (x = a ∨ x = a + 1 ∨ x = a + 2 ∨ x = a + 3) as [->|[->|[->| ->]]] by lia; by eexists.
Qed.

(** ** Stores *)
Lemma store8_ok m a v : is_Some (m a) → ∃ m', store8 m a v = Some m' ∧ m' a = Some v ∧ changes m a 1 m'.
Proof.
  intros [b Hb]. unfold store8. rewrite Hb. eexists. split; [done|]. split; [by rewrite Z.eqb_refl|].
  split; intros x.
  - intros Hx. destruct (Z.eqb_spec x a); [lia|done].
  - destruct (Z.eqb_spec x a) as [->|]; [|done]. rewrite Hb. split; intros _; by eexists.
Qed.

Lemma store32_ok m a v : is_u32 v → mapped m a 4 →
  ∃ m', store32 m a v = Some m' ∧ load32 m' a = Some v ∧ changes m a 4 m'.
Proof.
  intros Hv Hm. unfold store32.
  destruct (store8_ok m a (v mod 2 ^ 8)) as (m1 & -> & L1 & C1); [apply Hm; lia|]. cbn [mbind option_bind].
  destruct (store8_ok m1 (a + 1) (v / 2 ^ 8 mod 2 ^ 8)) as (m2 & -> & L2 & C2); [apply (ch_mapped _ _ _ _ C1), Hm; lia|].
  cbn [mbind option_bind].
  destruct (store8_ok m2 (a + 2) (v / 2 ^ 16 mod 2 ^ 8)) as (m3 & -> & L3 & C3);
    [apply (ch_mapped _ _ _ _ C2), (ch_mapped _ _ _ _ C1), Hm; lia|]. cbn [mbind option_bind].
  destruct (store8_ok m3 (a + 3) (v / 2 ^ 24 mod 2 ^ 8)) as (m4 & -> & L4 & C4);
    [apply (ch_mapped _ _ _ _ C3), (ch_mapped _ _ _ _ C2), (ch_mapped _ _ _ _ C1), Hm; lia|].
  exists m4. split; [done|]. split.
  - unfold load32. rewrite L4, (ch_frame _ _ _ _ C4), L3 by lia. rewrite (ch_frame _ _ _ _ C4), (ch_frame _ _ _ _ C3), L2 by lia.
    rewrite (ch_frame _ _ _ _ C4), (ch_frame _ _ _ _ C3), (ch_frame _ _ _ _ C2), L1 by lia. cbn [mbind option_bind]. f_equal.
    unfold is_u32 in Hv.
    pose proof (Z.div_mod v (2 ^ 8)). pose proof (Z.div_mod (v / 2 ^ 8) (2 ^ 8)).
    pose proof (Z.div_mod (v / 2 ^ 16) (2 ^ 8)). rewrite Zdiv.Zdiv_Zdiv in * by lia.
    rewrite (Z.mod_small (v / 2 ^ 24)) by (split; [apply Z.div_pos; lia|apply Z.div_lt_upper_bound; lia]).
    change (2 ^ 8 * 2 ^ 8) with (2 ^ 16) in *. change (2 ^ 16 * 2 ^ 8) with (2 ^ 24) in *. lia.
  - apply (changes_trans _ m3); [apply (changes_trans _ m2); [apply (changes_trans _ m1)|]|];
      eapply changes_weaken; try done; lia.
Qed.

Lemma store32_fault m a v : ¬ is_Some (m a) → store32 m a v = None.
Proof. intros H. unfold store32, store8. destruct (m a); [by destruct H|done]. Qed.

(** ** Blocks of bytes *)
Lemma read_bytes_Some m a n : mapped m a (Z.of_nat n) → ∃ l, read_bytes m a n = Some l ∧ length l = n.
Proof.
  revert a. induction n as [|n IH]; intros a Hm; simpl; [by eexists|].
  destruct (Hm a ltac:(lia)) as [b ->]. destruct (IH (a + 1)) as (l & -> & <-); [intros x Hx; apply Hm; lia|]. by eexists.
Qed.

Lemma read_bytes_lookup m a n l : read_bytes m a n = Some l → ∀ i, (i < n)%nat → m (a + Z.of_nat i) = l !! i.
Proof.
  revert a l. induction n as [|n IH]; intros a l H i Hi; [lia|]. simpl in H.
  apply bind_Some in H as (b & Hb & H). apply bind_Some in H as (l' & Hl & H). injection H as <-.
  destruct i as [|i]; simpl; [by rewrite Z.add_0_r|]. rewrite <- (IH (a + 1) l' Hl i) by lia. f_equal. lia.
Qed.

Lemma write_bytes_ok l : ∀ m a, mapped m a (Z.of_nat (length l)) →
  ∃ m', write_bytes m a l = Some m' ∧ changes m a (Z.of_nat (length l)) m' ∧
    ∀ i, (i < length l)%nat → m' (a + Z.of_nat i) = l !! i.
Proof.
  induction l as [|b l IH]; intros m a Hm; simpl; [exists m; split_and!; [done|done|intros; lia]|].
  simpl in Hm. destruct (store8_ok m a b) as (m1 & -> & L1 & C1); [apply Hm; lia|]. cbn [mbind option_bind].
  destruct (IH m1 (a + 1)) as (m' & -> & C & L).
  { intros x Hx. apply (ch_mapped _ _ _ _ C1), Hm. lia. }
  exists m'. split; [done|]. split.
  - apply (changes_trans _ m1); eapply changes_weaken; try done; lia.
  - intros [|i] Hi; simpl.
    + by rewrite Z.add_0_r, (ch_frame _ _ _ _ C), L1 by lia.
    + rewrite <- L by lia. f_equal. lia.
Qed.

Lemma memcpy_ok m dst src n :
  mapped m dst (Z.of_nat n) → mapped m src (Z.of_nat n) → Z.of_nat n <= Z.abs (dst - src) →
  ∃ m', memcpy m dst src n = Some m' ∧ changes m dst (Z.of_nat n) m' ∧
    ∀ i, 0 <= i < Z.of_nat n → m' (dst + i) = m (src + i).
Proof.
  intros Hd Hs Ho. unfold memcpy. destruct (Z.ltb_spec (Z.abs (dst - src)) (Z.of_nat n)); [lia|].
  destruct (read_bytes_Some m src n Hs) as (l & Hl & Hlen). rewrite Hl. cbn [mbind option_bind].
  destruct (write_bytes_ok l m dst) as (m' & -> & C & L); [by rewrite Hlen|]. rewrite Hlen in *.
  exists m'. split; [done|]. split; [done|]. intros i Hi.
  replace i with (Z.of_nat (Z.to_nat i)) by lia. rewrite L by lia. by rewrite (read_bytes_lookup _ _ _ _ Hl) by lia.
Qed.

Lemma memset_ok m a v n : mapped m a (Z.of_nat n) →
  ∃ m', memset m a v n = Some m' ∧ changes m a (Z.of_nat n) m' ∧ ∀ i, 0 <= i < Z.of_nat n → m' (a + i) = Some v.
Proof.
  intros Hm. unfold memset. destruct (write_bytes_ok (replicate n v) m a) as (m' & -> & C & L); [by rewrite length_replicate|].
  rewrite length_replicate in *. exists m'. split; [done|]. split; [done|]. intros i Hi.
  replace i with (Z.of_nat (Z.to_nat i)) by lia. rewrite L by lia. apply lookup_replicate_2. lia.
Qed.
