(* ===== verification/TmallocModel.v ===== *)
(** * The heap allocator of the target programs (src/cse127/pp1/targets/tmalloc.c)

    The arena is a chain of chunks, each with a header of two words: the address of
    the chunk before it, and the address of the chunk after it with the free bit in
    its low bit. Everything is done through these words in memory, whatever they
    hold: a corrupted header is followed like any other. [None] is a fault, an
    overlapping [memcpy], or a search of the chain that has run out of fuel.

    An i386: pointers and [unsigned] have 32 bits, [sizeof(CHUNK)] is 8. *)
From S2P Require Import Prelude.
From S2P Require Import Words.
From S2P Require Import ByteMemory.

Definition sizeof_CHUNK : Z := 8.
Definition ARENA_CHUNKS : Z := 65536 / sizeof_CHUNK.
Definition NULL : Z := 0.

(** The static variables, and the memory. *)
Record heap : Type := mkHeap {
  bot : Z;
  top : Z;
  mem : memory;
}.

(** [chunk->s.l] and [chunk->s.r]. *)
Definition get_l (m : memory) (p : Z) : option Z := load32 m p.
Definition get_r (m : memory) (p : Z) : option Z := load32 m (u32 (p + 4)).
Definition set_l (m : memory) (p v : Z) : option memory := store32 m p v.
Definition set_r (m : memory) (p v : Z) : option memory := store32 m (u32 (p + 4)) v.

Definition SET_FREEBIT (m : memory) (p : Z) : option memory := r ← get_r m p; set_r m p (Z.lor r 1).
Definition CLR_FREEBIT (m : memory) (p : Z) : option memory := r ← get_r m p; set_r m p (Z.land r (2 ^ 32 - 2)).
Definition GET_FREEBIT (m : memory) (p : Z) : option bool := r ← get_r m p; Some (Z.testbit r 0).
Definition RIGHT (m : memory) (p : Z) : option Z := r ← get_r m p; Some (Z.land (2 ^ 32 - 2) r).
Definition CHUNKSIZE (m : memory) (p : Z) : option Z := r ← RIGHT m p; Some (u32 (r - p)).

Definition TOCHUNK (vp : Z) : Z := u32 (vp - sizeof_CHUNK).
Definition FROMCHUNK (p : Z) : Z := u32 (p + sizeof_CHUNK).

Section allocator.
Context (arena : Z).

Definition init (m : memory) : option heap :=
  let b := arena in
  let t := arena + sizeof_CHUNK * (ARENA_CHUNKS - 1) in
  m ← set_l m b NULL;
  m ← set_r m b t;
  m ← set_l m t b;
  m ← set_r m t NULL;
  m ← SET_FREEBIT m b;
  m ← CLR_FREEBIT m t;
  Some (mkHeap b t m).

(** The bytes a request needs, header included. *)
Definition need (nbytes : Z) : Z :=
  u32 (sizeof_CHUNK * u32 (u32 (nbytes + sizeof_CHUNK - 1) / sizeof_CHUNK + 1)).

(** [for (p = bot; p != NULL; p = RIGHT(p)) if (...) break;] *)
Fixpoint find_chunk (fuel : nat) (m : memory) (size p : Z) : option Z :=
  if p =? NULL then Some NULL
  else
    match fuel with
    | O => None
    | S fuel =>
        free ← GET_FREEBIT m p;
        found ← (if free : bool then n ← CHUNKSIZE m p; Some (size <=? n) else Some false);
        if found : bool then Some p else r ← RIGHT m p; find_chunk fuel m size r
    end.

(** The remainder chunk stays in front; the chunk returned is the end of [p]. *)
Definition split_chunk (m : memory) (p size : Z) : option (Z * memory) :=
  m ← CLR_FREEBIT m p;
  n ← CHUNKSIZE m p;
  let q := u32 (p + n - size) in
  pr ← get_r m p;
  m ← set_l m q p;
  m ← set_r m q pr;
  m ← set_r m p q;
  m ← set_l m pr q;
  m ← SET_FREEBIT m p;
  Some (q, m).

Definition tmalloc (fuel : nat) (h : heap) (nbytes : Z) : option (Z * heap) :=
  h ← (if bot h =? NULL then init (mem h) else Some h);
  let size := need nbytes in
  p ← find_chunk fuel (mem h) size (bot h);
  if p =? NULL then Some (NULL, h)
  else
    n ← CHUNKSIZE (mem h) p;
    '(p, m) ← (if size <? n then split_chunk (mem h) p size else Some (p, mem h));
    m ← CLR_FREEBIT m p;
    Some (FROMCHUNK p, mkHeap (bot h) (top h) m).

(** Consolidation to the left: the chunk [p] becomes part of a free chunk before it. *)
Definition join_left (m : memory) (p : Z) : option (Z * memory) :=
  q ← get_l m p;
  free ← (if q =? NULL then Some false else GET_FREEBIT m q);
  if free : bool then
    m ← CLR_FREEBIT m q;
    r ← get_r m p;
    m ← set_r m q r;
    r ← get_r m p;
    m ← set_l m r q;
    m ← SET_FREEBIT m q;
    Some (q, m)
  else Some (p, m).

(** Consolidation to the right. *)
Definition join_right (m : memory) (p : Z) : option memory :=
  q ← RIGHT m p;
  free ← (if q =? NULL then Some false else GET_FREEBIT m q);
  if free : bool then
    m ← CLR_FREEBIT m q;
    r ← get_r m q;
    m ← set_r m p r;
    r ← get_r m q;
    m ← set_l m r p;
    SET_FREEBIT m q
  else Some m.

Definition tfree (h : heap) (vp : Z) : option heap :=
  if vp =? NULL then Some h
  else
    let p := TOCHUNK vp in
    m ← CLR_FREEBIT (mem h) p;
    '(p, m) ← join_left m p;
    m ← join_right m p;
    m ← SET_FREEBIT m p;
    Some (mkHeap (bot h) (top h) m).

Definition trealloc (fuel : nat) (h : heap) (vp newbytes : Z) : option (Z * heap) :=
  if vp =? NULL then tmalloc fuel h newbytes
  else if newbytes =? 0 then h ← tfree h vp; Some (NULL, h)
  else
    '(newp, h) ← tmalloc fuel h newbytes;
    if newp =? NULL then Some (NULL, h)
    else
      n ← CHUNKSIZE (mem h) (TOCHUNK vp);
      let bytes := u32 (n - sizeof_CHUNK) in
      let bytes := if newbytes <? bytes then newbytes else bytes in
      m ← memcpy (mem h) newp vp (Z.to_nat bytes);
      h ← tfree (mkHeap (bot h) (top h) m) vp;
      Some (newp, h).

Definition tcalloc (fuel : nat) (h : heap) (nelem elsize : Z) : option (Z * heap) :=
  let nbytes := u32 (nelem * elsize) in
  '(vp, h) ← tmalloc fuel h nbytes;
  if vp =? NULL then Some (NULL, h)
  else m ← memset (mem h) vp 0 (Z.to_nat nbytes); Some (vp, mkHeap (bot h) (top h) m).
End allocator.
