(* ===== verification/TmallocSpec.v ===== *)
(** * The chain of chunks, as a list

    A heap whose arena holds a well-formed chain is a list of sizes and free bits.
    The header operations of [TmallocModel] are operations on that list, and touch
    no byte of a chunk in use. *)
From S2P Require Import Prelude.
From S2P Require Import Words.
From S2P Require Import ByteMemory.
From S2P Require Import TmallocModel.

(** A chunk: its size, header included, and its free bit. *)
Record seg : Type := mkSeg { s_size : Z; s_free : bool }.

Definition total (segs : list seg) : Z := foldr (fun s t => s_size s + t) 0 segs.

Definition seg_ok (s : seg) : Prop := 8 <= s_size s ∧ s_size s mod 8 = 0.

Lemma total_app l1 l2 : total (l1 ++ l2) = total l1 + total l2.
Proof. induction l1 as [|s l1 IH]; simpl; [done|]. unfold total in *. simpl. lia. Qed.

Lemma total_cons s l : total (s :: l) = s_size s + total l.
Proof. done. Qed.

Lemma total_nil p : p + total [] = p.
Proof. apply Z.add_0_r. Qed.

Lemma total_next p s l : p + s_size s + total l = p + total (s :: l).
Proof. rewrite total_cons. lia. Qed.

Lemma total_snoc l s : total (l ++ [s]) = total l + s_size s.
Proof. rewrite total_app, total_cons. change (total []) with 0. lia. Qed.

Lemma total_pos l : Forall seg_ok l → 0 <= total l ∧ total l mod 8 = 0 ∧ 8 * Z.of_nat (length l) <= total l.
Proof.
  induction 1 as [|s l [H1 H2] _ (IH1 & IH2 & IH3)]; [done|]. rewrite total_cons. simpl length.
  split; [lia|]. split; [|lia]. pose proof (Z.div_mod (s_size s) 8). pose proof (Z.div_mod (total l) 8).
  replace (s_size s + total l) with ((s_size s / 8 + total l / 8) * 8) by lia. apply Z.mod_mul. lia.
Qed.

(** ** Headers *)

(** The header of a chunk at [p]. *)
Record header (m : memory) (prev p next : Z) (free : bool) : Prop := {
  hd_l : load32 m p = Some prev;
  hd_r : load32 m (p + 4) = Some (next + if free then 1 else 0);
  hd_even : next mod 2 = 0;
  hd_next : 0 <= next <= 2 ^ 32 - 2;
  hd_range : 0 <= p <= 2 ^ 32 - 8;
}.

Lemma bit_split next (f : bool) : next mod 2 = 0 → 0 <= next <= 2 ^ 32 - 2 →
  let r := next + if f then 1 else 0 in
  Z.testbit r 0 = f ∧ Z.land (2 ^ 32 - 2) r = next ∧ Z.land r (2 ^ 32 - 2) = next ∧ Z.lor r 1 = next + 1.
Proof.
  intros He Hr. pose proof (Z.div_mod next 2 ltac:(lia)) as Hd. rewrite He in Hd. set (k := next / 2) in *. clearbody k.
  assert (Hn : next = 2 * k) by lia. clear Hd. cbv zeta.
  assert (Hland : Z.land (2 ^ 32 - 2) (next + if f then 1 else 0) = next).
  { replace (next + if f then 1 else 0) with (2 * k + Z.b2z f) by (rewrite Hn; by destruct f).
    apply Z.bits_inj'. intros i Hi. rewrite Z.land_spec. destruct (Z.eq_dec i 0) as [->|Hi0].
    - rewrite Hn, Z.testbit_even_0. done.
    - replace i with (Z.succ (i - 1)) by lia. rewrite Z.testbit_succ_r by lia.
      rewrite Hn, Z.testbit_even_succ by lia. change (2 ^ 32 - 2) with (2 * Z.ones 31). rewrite Z.testbit_even_succ by lia.
      destruct (Z.ltb_spec (i - 1) 31) as [Hlt|Hge].
      + rewrite Z.ones_spec_low by lia. done.
      + rewrite Z.ones_spec_high by lia. symmetry. rewrite Z.testbit_false by lia.
        rewrite Z.div_small; [done|]. split; [lia|]. apply Z.lt_le_trans with (2 ^ 31); [lia|]. apply Z.pow_le_mono_r; lia. }
  split; [rewrite Hn; destruct f; [apply Z.testbit_odd_0|rewrite Z.add_0_r; apply Z.testbit_even_0]|].
  split; [done|]. split; [by rewrite Z.land_comm|].
  rewrite Hn. apply Z.bits_inj'. intros i Hi. rewrite Z.lor_spec. destruct (Z.eq_dec i 0) as [->|Hi0].
  - rewrite Z.testbit_odd_0. apply orb_true_r.
  - rewrite (Z.bits_above_log2 1 i) by (simpl; lia). rewrite orb_false_r.
    replace i with (Z.succ (i - 1)) by lia. rewrite Z.testbit_odd_succ by lia.
    destruct f; [apply Z.testbit_odd_succ; lia|rewrite Z.add_0_r; apply Z.testbit_even_succ; lia].
Qed.

Section macros.
Context (m : memory) (prev p next : Z) (free : bool) (H : header m prev p next free).

Lemma field_r : u32 (p + 4) = p + 4.
Proof. apply u32_small. destruct H as [_ _ _ _ Hp]. unfold is_u32. lia. Qed.

Lemma get_r_header : get_r m p = Some (next + if free then 1 else 0).
Proof. unfold get_r. rewrite field_r. apply H. Qed.

Lemma GET_FREEBIT_ok : GET_FREEBIT m p = Some free.
Proof. unfold GET_FREEBIT. rewrite get_r_header. cbn [mbind option_bind]. by destruct (bit_split next free (hd_even _ _ _ _ _ H) (hd_next _ _ _ _ _ H)) as [-> _]. Qed.

Lemma RIGHT_ok : RIGHT m p = Some next.
Proof. unfold RIGHT. rewrite get_r_header. cbn [mbind option_bind]. by destruct (bit_split next free (hd_even _ _ _ _ _ H) (hd_next _ _ _ _ _ H)) as (_ & -> & _). Qed.

Lemma CHUNKSIZE_ok : CHUNKSIZE m p = Some (u32 (next - p)).
Proof. unfold CHUNKSIZE. by rewrite RIGHT_ok. Qed.

Lemma set_r_ok v (f : bool) :
  v mod 2 = 0 → 0 <= v <= 2 ^ 32 - 2 →
  ∃ m', set_r m p (v + if f then 1 else 0) = Some m' ∧ header m' prev p v f ∧ changes m (p + 4) 4 m'.
Proof.
  intros He Hv. pose proof H as [Hl Hr _ _ Hp]. unfold set_r. rewrite field_r.
  destruct (store32_ok m (p + 4) (v + if f then 1 else 0)) as (m' & -> & L & C).
  - unfold is_u32. destruct f; lia.
  - by eapply load32_maps.
  - exists m'. split; [done|]. split; [|done]. split; try done. rewrite (load32_changes _ _ _ _ _ C) by lia. done.
Qed.

Lemma SET_FREEBIT_ok : ∃ m', SET_FREEBIT m p = Some m' ∧ header m' prev p next true ∧ changes m (p + 4) 4 m'.
Proof.
  unfold SET_FREEBIT. rewrite get_r_header. cbn [mbind option_bind]. destruct (bit_split next free (hd_even _ _ _ _ _ H) (hd_next _ _ _ _ _ H)) as (_ & _ & _ & ->).
  apply (set_r_ok next true); apply H.
Qed.

Lemma CLR_FREEBIT_ok : ∃ m', CLR_FREEBIT m p = Some m' ∧ header m' prev p next false ∧ changes m (p + 4) 4 m'.
Proof.
  unfold CLR_FREEBIT. rewrite get_r_header. cbn [mbind option_bind].
  destruct (bit_split next free (hd_even _ _ _ _ _ H) (hd_next _ _ _ _ _ H)) as (_ & _ & -> & _).
  destruct (set_r_ok next false) as (m' & E & ?); [apply H..|]. rewrite Z.add_0_r in E. by exists m'.
Qed.

Lemma set_l_ok v : is_u32 v → ∃ m', set_l m p v = Some m' ∧ header m' v p next free ∧ changes m p 4 m'.
Proof.
  intros Hv. pose proof H as [Hl Hr He Hn Hp]. unfold set_l.
  destruct (store32_ok m p v Hv) as (m' & -> & L & C); [by eapply load32_maps|].
  exists m'. split; [done|]. split; [|done]. split; try done. rewrite (load32_changes _ _ _ _ _ C) by lia. done.
Qed.
End macros.

(** A new header. *)
Lemma write_header m p prev next :
  mapped m p 8 → is_u32 prev → next mod 2 = 0 → 0 <= next <= 2 ^ 32 - 2 → 0 <= p <= 2 ^ 32 - 8 →
  ∃ m1 m2, set_l m p prev = Some m1 ∧ set_r m1 p next = Some m2 ∧ header m2 prev p next false ∧ changes m p 8 m2.
Proof.
  intros Hm Hv He Hn Hp. unfold set_l, set_r. rewrite (u32_small (p + 4)) by (unfold is_u32; lia).
  destruct (store32_ok m p prev Hv) as (m1 & E1 & L1 & C1); [intros x Hx; apply Hm; lia|].
  destruct (store32_ok m1 (p + 4) next) as (m2 & E2 & L2 & C2); [unfold is_u32; lia|apply (changes_maps _ _ _ _ _ _ C1); intros x Hx; apply Hm; lia|].
  exists m1, m2. split; [done|]. split; [done|]. split.
  - split; try done; [rewrite (load32_changes _ _ _ _ _ C2) by lia; done|by rewrite L2, Z.add_0_r].
  - apply (changes_trans _ m1); eapply changes_weaken; try done; lia.
Qed.

Lemma header_changes m m' b n prev p next free :
  header m prev p next free → changes m b n m' → p + 8 <= b ∨ b + n <= p → header m' prev p next free.
Proof.
  intros [Hl Hr He Hn Hp] C Hd. split; try done; rewrite (load32_changes _ _ _ _ _ C) by lia; done.
Qed.

(** ** Chains *)

(** The headers of the chunks [segs], the first at [p] with [prev] before it. *)
Fixpoint lseg (m : memory) (prev p : Z) (segs : list seg) : Prop :=
  match segs with
  | [] => True
  | s :: r => header m prev p (p + s_size s) (s_free s) ∧ lseg m p (p + s_size s) r
  end.

(** The last header before the end of [segs]. *)
Fixpoint prev_of (prev p : Z) (segs : list seg) : Z :=
  match segs with
  | [] => prev
  | s :: r => prev_of p (p + s_size s) r
  end.

Lemma lseg_app m l1 : ∀ prev p l2,
  lseg m prev p (l1 ++ l2) ↔ lseg m prev p l1 ∧ lseg m (prev_of prev p l1) (p + total l1) l2.
Proof.
  induction l1 as [|s l1 IH]; intros prev p l2; cbn [app lseg prev_of].
  - rewrite total_nil. tauto.
  - rewrite IH, total_next. tauto.
Qed.

Lemma prev_of_app l1 : ∀ prev p l2, prev_of prev p (l1 ++ l2) = prev_of (prev_of prev p l1) (p + total l1) l2.
Proof.
  induction l1 as [|s l1 IH]; intros prev p l2; cbn [app lseg prev_of].
  - by rewrite total_nil.
  - by rewrite IH, total_next.
Qed.

Lemma lseg_changes m m' b n segs : ∀ prev p,
  Forall seg_ok segs → lseg m prev p segs → changes m b n m' → p + total segs <= b ∨ b + n <= p → lseg m' prev p segs.
Proof.
  induction segs as [|s r IH]; intros prev p Hok Hl C Hd; [done|]. apply Forall_cons in Hok as [Hs Hr].
  destruct Hl as [Hh Hl]. rewrite total_cons in Hd. pose proof (total_pos r Hr). destruct Hs as [Hs _].
  split; [exact (header_changes _ _ b n _ _ _ _ Hh C ltac:(lia))|]. apply IH; [done..|lia].
Qed.

(** A byte of a chunk in use. *)
Fixpoint busy_body (p : Z) (segs : list seg) (x : Z) : Prop :=
  match segs with
  | [] => False
  | s :: r => s_free s = false ∧ p + 8 <= x < p + s_size s ∨ busy_body (p + s_size s) r x
  end.

Lemma busy_body_app l1 : ∀ p l2 x, busy_body p (l1 ++ l2) x ↔ busy_body p l1 x ∨ busy_body (p + total l1) l2 x.
Proof.
  induction l1 as [|s l1 IH]; intros p l2 x; cbn [app busy_body].
  - rewrite total_nil. tauto.
  - rewrite IH, total_next. tauto.
Qed.

Lemma busy_body_range segs : ∀ p x, Forall seg_ok segs → busy_body p segs x → p + 8 <= x < p + total segs.
Proof.
  induction segs as [|s r IH]; intros p x Hok Hx; [done|]. apply Forall_cons in Hok as [[Hs _] Hr].
  rewrite total_cons. pose proof (total_pos r Hr). destruct Hx as [[_ Hx]|Hx]; [lia|]. specialize (IH _ _ Hr Hx). lia.
Qed.

Section arena.
Context (arena : Z).
Definition arena_end : Z := arena + 65528.

(** The chain from [p] on to the delimiter chunk at the end of the arena. *)
Record suffix (m : memory) (prev p : Z) (segs : list seg) : Prop := {
  sx_segs : lseg m prev p segs;
  sx_top : header m (prev_of prev p segs) arena_end 0 false;
  sx_total : p + total segs = arena_end;
  sx_ok : Forall seg_ok segs;
}.

(** The arena holds the chain of [segs]. *)
Record chain (m : memory) (segs : list seg) : Prop := {
  cn_segs : suffix m 0 arena segs;
  cn_mapped : mapped m arena 65536;
}.

Lemma suffix_app m prev p L R :
  suffix m prev p (L ++ R) ↔ lseg m prev p L ∧ Forall seg_ok L ∧ suffix m (prev_of prev p L) (p + total L) R.
Proof.
  split.
  - intros [Hs Ht Hn Hok]. apply lseg_app in Hs as [H1 H2]. apply Forall_app in Hok as [Ho1 Ho2].
    rewrite prev_of_app in Ht. rewrite total_app in Hn. split; [done|]. split; [done|]. split; try done. lia.
  - intros (H1 & Ho1 & [H2 Ht Hn Ho2]). split; [by apply lseg_app|by rewrite prev_of_app|rewrite total_app; lia|by apply Forall_app].
Qed.

Lemma suffix_cons m prev p s R :
  suffix m prev p (s :: R) ↔ header m prev p (p + s_size s) (s_free s) ∧ seg_ok s ∧ suffix m p (p + s_size s) R.
Proof.
  split.
  - intros [[Hh Hs] Ht Hn [Ho1 Ho2]%Forall_cons]. rewrite total_cons in Hn. split; [done|]. split; [done|]. split; try done. lia.
  - intros (Hh & Ho1 & [Hs Ht Hn Ho2]). split; [done|done|rewrite total_cons; lia|by apply Forall_cons].
Qed.

Lemma suffix_range m prev p segs : suffix m prev p segs → p <= arena_end ∧ (arena_end - p) mod 8 = 0.
Proof. intros [_ _ Hn Hok]. pose proof (total_pos segs Hok) as (H1 & H2 & _). split; [lia|]. by replace (arena_end - p) with (total segs) by lia. Qed.

Lemma suffix_changes m m' b n prev p segs :
  suffix m prev p segs → changes m b n m' → b + n <= p ∨ arena_end + 8 <= b → suffix m' prev p segs.
Proof.
  intros [Hs Ht Hn Hok] C Hd. pose proof (total_pos segs Hok). split; [|apply (header_changes _ _ b n _ _ _ _ Ht C); lia|done..].
  apply (lseg_changes _ _ b n _ _ _ Hok Hs C). lia.
Qed.

(** Another chunk in front of the chain. *)
Lemma suffix_relink m prev p segs v :
  suffix m prev p segs → is_u32 v → ∃ m', set_l m p v = Some m' ∧ suffix m' v p segs ∧ changes m p 4 m'.
Proof.
  intros Hx Hv. destruct segs as [|s r].
  - destruct Hx as [_ Ht Hn _]. rewrite total_nil in Hn. simpl in Ht. subst p.
    destruct (set_l_ok _ _ _ _ _ Ht v Hv) as (m' & E & Hh & C). exists m'. split; [done|]. split; [|done].
    split; [done|done|by rewrite total_nil|by apply Forall_nil].
  - apply suffix_cons in Hx as (Hh & Hok & Hx). destruct (set_l_ok _ _ _ _ _ Hh v Hv) as (m' & E & Hh' & C).
    exists m'. split; [done|]. split; [|done]. apply suffix_cons. split; [done|]. split; [done|].
    apply (suffix_changes _ _ _ _ _ _ _ Hx C). destruct Hok. lia.
Qed.

(** What the allocator leaves alone: memory outside the arena, and the chunks in use. *)
Record keeps (segs : list seg) (m m' : memory) : Prop := {
  kp_frame : ∀ x, x < arena ∨ arena + 65536 <= x ∨ busy_body arena segs x → m' x = m x;
  kp_mapped : ∀ x, is_Some (m' x) ↔ is_Some (m x);
}.

Lemma keeps_refl segs m : keeps segs m m.
Proof. done. Qed.

Lemma keeps_trans segs m1 m2 m3 : keeps segs m1 m2 → keeps segs m2 m3 → keeps segs m1 m3.
Proof. intros [F1 M1] [F2 M2]. split; intros x; [intros Hx; by rewrite F2, F1|]. by rewrite M2, M1. Qed.

(** Addresses of the arena outside every chunk in use. *)
Definition spare (segs : list seg) (a n : Z) : Prop :=
  arena <= a ∧ a + n <= arena + 65536 ∧ ∀ x, a <= x < a + n → ¬ busy_body arena segs x.

Lemma changes_keeps segs m a n m' : changes m a n m' → spare segs a n → keeps segs m m'.
Proof.
  intros [F M] (H1 & H2 & H3). split; [|done]. intros x Hx. apply F.
  destruct (Z.lt_ge_cases x a) as [?|Hge]; [by left|]. destruct (Z.lt_ge_cases x (a + n)) as [Hlt|?]; [|by right].
  destruct Hx as [?|[?|Hx]]; [lia..|]. by destruct (H3 x ltac:(lia)).
Qed.

Lemma spare_weaken segs a n b k : spare segs a n → a <= b → b + k <= a + n → spare segs b k.
Proof. intros (H1 & H2 & H3) Ha Hb. split_and!; [lia..|]. intros x Hx. apply H3. lia. Qed.

(** Headers are spare, and free chunks, and the end of the arena. *)
Lemma split_ok L s R : Forall seg_ok (L ++ s :: R) → Forall seg_ok L ∧ seg_ok s ∧ Forall seg_ok R.
Proof. intros [HL [Hs HR]%Forall_cons]%Forall_app. done. Qed.

Lemma spare_chunk L s R n :
  Forall seg_ok (L ++ s :: R) → arena + total (L ++ s :: R) = arena_end →
  n = 8 ∨ s_free s = true ∧ n = s_size s → spare (L ++ s :: R) (arena + total L) n.
Proof.
  intros Hok Ht Hn. destruct (split_ok _ _ _ Hok) as (HL & [Hs _] & HR). rewrite total_app, total_cons in Ht.
  pose proof (total_pos L HL). pose proof (total_pos R HR). unfold arena_end in Ht.
  split; [lia|]. split; [lia|]. intros x Hx Hb. apply busy_body_app in Hb as [Hb|[[Hf Hb]|Hb]].
  - pose proof (busy_body_range _ _ _ HL Hb). lia.
  - destruct Hn as [->|[Ht' _]]; [lia|congruence].
  - pose proof (busy_body_range _ _ _ HR Hb). lia.
Qed.

Lemma spare_top segs : Forall seg_ok segs → arena + total segs = arena_end → spare segs arena_end 8.
Proof.
  intros Hok Ht. pose proof (total_pos segs Hok). unfold arena_end in *. split; [lia|]. split; [lia|].
  intros x Hx Hb. pose proof (busy_body_range _ _ _ Hok Hb). lia.
Qed.

(** The arena lies in the address space, aligned as a [double] on an i386. *)
Definition arena_ok : Prop := 0 < arena ∧ arena mod 4 = 0 ∧ arena + 65536 <= 2 ^ 32.

(** ** Operations on headers *)
Lemma chain_app m L R :
  chain m (L ++ R) ↔ lseg m 0 arena L ∧ Forall seg_ok L ∧ suffix m (prev_of 0 arena L) (arena + total L) R ∧ mapped m arena 65536.
Proof.
  split.
  - intros [Hx Hm]. by apply suffix_app in Hx as (? & ? & ?).
  - intros (? & ? & ? & ?). split; [by apply suffix_app|done].
Qed.

Lemma chain_header m L s R : chain m (L ++ s :: R) →
  header m (prev_of 0 arena L) (arena + total L) (arena + total L + s_size s) (s_free s).
Proof. intros (_ & _ & Hx & _)%chain_app. by apply suffix_cons in Hx as (Hh & _). Qed.

(** The header of one chunk is written. *)
Lemma chain_rewrite m m' L s R f :
  chain m (L ++ s :: R) → header m' (prev_of 0 arena L) (arena + total L) (arena + total L + s_size s) f →
  changes m (arena + total L) 8 m' → chain m' (L ++ mkSeg (s_size s) f :: R).
Proof.
  intros (HL & HoL & Hx & Hm)%chain_app Hh C. apply suffix_cons in Hx as (_ & Hs & Hx). apply chain_app.
  split; [by apply (lseg_changes _ _ _ _ _ _ _ HoL HL C); lia|]. split; [done|]. split; [|by eapply changes_maps].
  apply suffix_cons. split; [done|]. split; [done|]. apply (suffix_changes _ _ _ _ _ _ _ Hx C). destruct Hs. simpl. lia.
Qed.

Lemma chain_set_bit m L s R : chain m (L ++ s :: R) →
  ∃ m', SET_FREEBIT m (arena + total L) = Some m' ∧ chain m' (L ++ mkSeg (s_size s) true :: R) ∧ changes m (arena + total L) 8 m'.
Proof.
  intros Hc. destruct (SET_FREEBIT_ok _ _ _ _ _ (chain_header _ _ _ _ Hc)) as (m' & E & Hh & C).
  assert (C' : changes m (arena + total L) 8 m') by (eapply changes_weaken; [done|lia..]).
  exists m'. split; [done|]. split; [|done]. by apply (chain_rewrite _ _ _ _ _ _ Hc).
Qed.

Lemma chain_clr_bit m L s R : chain m (L ++ s :: R) →
  ∃ m', CLR_FREEBIT m (arena + total L) = Some m' ∧ chain m' (L ++ mkSeg (s_size s) false :: R) ∧ changes m (arena + total L) 8 m'.
Proof.
  intros Hc. destruct (CLR_FREEBIT_ok _ _ _ _ _ (chain_header _ _ _ _ Hc)) as (m' & E & Hh & C).
  assert (C' : changes m (arena + total L) 8 m') by (eapply changes_weaken; [done|lia..]).
  exists m'. split; [done|]. split; [|done]. by apply (chain_rewrite _ _ _ _ _ _ Hc).
Qed.

(** Bytes behind the header of a chunk do not matter. *)
Lemma chain_body m m' L s R b n :
  chain m (L ++ s :: R) → changes m b n m' → arena + total L + 8 <= b → b + n <= arena + total L + s_size s → chain m' (L ++ s :: R).
Proof.
  intros (HL & HoL & Hx & Hm)%chain_app C H1 H2. apply suffix_cons in Hx as (Hh & Hs & Hx). apply chain_app.
  split; [by apply (lseg_changes _ _ _ _ _ _ _ HoL HL C); lia|]. split; [done|]. split; [|by eapply changes_maps].
  apply suffix_cons. split; [apply (header_changes _ _ _ _ _ _ _ _ Hh C); lia|]. split; [done|].
  apply (suffix_changes _ _ _ _ _ _ _ Hx C). lia.
Qed.

(** Unlinking the chunk [t] behind [s]: the four memory accesses of both consolidations. *)
Lemma chain_merge m L s t R :
  let p := arena + total L in let q := p + s_size s in let nx := q + s_size t in
  arena_ok → chain m (L ++ s :: t :: R) → s_free t = false →
  get_r m q = Some nx ∧ ∃ m1, set_r m p nx = Some m1 ∧ changes m p 8 m1 ∧ get_r m1 q = Some nx ∧
  ∃ m2, set_l m1 nx p = Some m2 ∧ changes m1 nx 4 m2 ∧ header m2 p q nx false ∧
    chain m2 (L ++ mkSeg (s_size s + s_size t) false :: R).
Proof.
  intros p q nx (Ha1 & Ha2 & Ha3) (HL & HoL & Hx & Hm)%chain_app Hft.
  pose proof (total_pos L HoL) as (HpL & _).
  apply suffix_cons in Hx as (Hh & Hs & Hx). apply suffix_cons in Hx as (Hht & Ht & Hx). fold p q nx in Hh, Hht, Hx. rewrite Hft in Hht.
  pose proof (suffix_range _ _ _ _ Hx) as [Hend _]. unfold arena_end in Hend. destruct Hs as [Hs Hs8], Ht as [Ht Ht8].
  split; [rewrite (get_r_header _ _ _ _ _ Hht); f_equal; lia|].
  destruct (set_r_ok _ _ _ _ _ Hh nx false (hd_even _ _ _ _ _ Hht) (hd_next _ _ _ _ _ Hht)) as (m1 & E1 & Hh1 & C1).
  rewrite Z.add_0_r in E1. exists m1. split; [done|]. split; [eapply changes_weaken; [done|lia..]|].
  assert (Hht1 : header m1 p q nx false) by (apply (header_changes _ _ _ _ _ _ _ _ Hht C1); lia).
  split; [rewrite (get_r_header _ _ _ _ _ Hht1); f_equal; lia|].
  assert (Hx1 : suffix m1 q nx R) by (apply (suffix_changes _ _ _ _ _ _ _ Hx C1); lia).
  destruct (suffix_relink _ _ _ _ p Hx1) as (m2 & E2 & Hx2 & C2); [unfold is_u32; lia|].
  exists m2. split; [done|]. split; [done|]. split; [apply (header_changes _ _ _ _ _ _ _ _ Hht1 C2); lia|].
  apply chain_app. split.
  { apply (lseg_changes m1 _ _ _ _ _ _ HoL) with (2 := C2); [|unfold p in *; lia].
    apply (lseg_changes m _ _ _ _ _ _ HoL) with (2 := C1); [done|unfold p in *; lia]. }
  split; [done|]. split; [|by eapply changes_maps, changes_maps].
  apply suffix_cons. fold p. cbn [s_size s_free]. replace (p + (s_size s + s_size t)) with nx by (unfold nx, q; lia).
  split; [apply (header_changes _ _ _ _ _ _ _ _ Hh1 C2); lia|]. split; [split; simpl; [lia|]|done].
  rewrite Z.add_mod by lia. by rewrite Hs8, Ht8.
Qed.

(** Cutting [n] bytes off the end of [s]: the stores of [split_chunk]. *)
Lemma chain_split m L s R n :
  let p := arena + total L in let q := p + s_size s - n in let nx := p + s_size s in
  arena_ok → chain m (L ++ s :: R) → s_free s = false → 8 <= n → n mod 8 = 0 → n < s_size s →
  ∃ m1 m2 m3 m4, set_l m q p = Some m1 ∧ set_r m1 q nx = Some m2 ∧ set_r m2 p q = Some m3 ∧ set_l m3 nx q = Some m4 ∧
    changes m q 8 m2 ∧ changes m2 p 8 m3 ∧ changes m3 nx 4 m4 ∧
    chain m4 (L ++ mkSeg (s_size s - n) false :: mkSeg n false :: R).
Proof.
  intros p q nx (Ha1 & Ha2 & Ha3) (HL & HoL & Hx & Hm)%chain_app Hfs Hn Hn8 Hlt.
  pose proof (total_pos L HoL) as (HpL & HpL8 & _).
  apply suffix_cons in Hx as (Hh & Hs & Hx). fold p nx in Hh, Hx. rewrite Hfs in Hh.
  pose proof (suffix_range _ _ _ _ Hx) as [Hend _]. unfold arena_end in Hend. destruct Hs as [Hs Hs8].
  assert (Hdiv : (s_size s - n) mod 8 = 0) by (rewrite Zminus_mod, Hs8, Hn8; done).
  assert (Hgap : 8 <= s_size s - n).
  { pose proof (Z.div_mod (s_size s - n) 8). lia. }
  assert (Hq2 : q mod 2 = 0).
  { pose proof (hd_even _ _ _ _ _ Hh) as He. unfold q. fold nx. pose proof (Z.div_mod n 8). pose proof (Z.div_mod nx 2).
    replace (nx - n) with ((nx / 2 - 4 * (n / 8)) * 2) by lia. apply Z.mod_mul. lia. }
  assert (Hmq : mapped m q 8) by (intros x Hr; apply Hm; unfold q, nx, p in *; lia).
  assert (HL' : ∀ m' b n', changes m b n' m' → p <= b → lseg m' 0 arena L).
  { intros m' b n' C Hb. apply (lseg_changes m _ _ _ _ _ _ HoL) with (2 := C); [done|left; exact Hb]. }
  destruct (write_header m q p nx Hmq) as (m1 & m2 & E1 & E2 & Hhq & C2).
  { unfold is_u32, p. lia. } { by destruct Hh. } { by destruct Hh. } { unfold q, p. lia. }
  assert (Hh2 : header m2 (prev_of 0 arena L) p nx false) by (apply (header_changes _ _ _ _ _ _ _ _ Hh C2); unfold q; lia).
  destruct (set_r_ok _ _ _ _ _ Hh2 q false Hq2) as (m3 & E3 & Hh3 & C3); [unfold q, p, nx in *; lia|]. rewrite Z.add_0_r in E3.
  assert (Hx3 : suffix m3 p nx R).
  { apply (suffix_changes m2 _ (p + 4) 4); [apply (suffix_changes m _ q 8); [done|done|unfold q, nx; lia]|done|unfold nx; lia]. }
  destruct (suffix_relink _ _ _ _ q Hx3) as (m4 & E4 & Hx4 & C4); [unfold is_u32, q, p, nx in *; lia|].
  exists m1, m2, m3, m4. split_and!; try done; [eapply changes_weaken; [done|lia..]|].
  apply chain_app. split.
  { apply (lseg_changes m3 _ _ _ _ _ _ HoL) with (2 := C4); [|left; unfold nx, p; lia].
    apply (lseg_changes m2 _ _ _ _ _ _ HoL) with (2 := C3); [|left; unfold p; lia]. apply (HL' _ _ _ C2). unfold q. lia. }
  split; [done|]. split; [|by eapply changes_maps, changes_maps, changes_maps].
  apply suffix_cons. fold p. cbn [s_size s_free]. replace (p + (s_size s - n)) with q by (unfold q; lia).
  split; [apply (header_changes _ _ _ _ _ _ _ _ Hh3 C4); unfold nx; lia|]. split; [by split; simpl|].
  apply suffix_cons. cbn [s_size s_free]. replace (q + n) with nx by (unfold q, nx; lia).
  split; [|split; [by split; simpl|done]].
  apply (header_changes m3 _ nx 4); [apply (header_changes m2 _ (p + 4) 4)|done|]; try done; unfold q, nx; lia.
Qed.
End arena.
