(* ===== verification/TmallocRefine.v ===== *)
(** * The allocator implements first fit on a list of chunks

    [alloc] and [release] are the allocator without memory. [tmalloc] and [tfree]
    do the same to the chain in the arena. *)
From S2P Require Import Prelude.
From S2P Require Import Words.
From S2P Require Import ByteMemory.
From S2P Require Import TmallocModel.
From S2P Require Import TmallocSpec.

(** ** The abstract allocator *)

(** The first free chunk of at least [n] bytes. *)
Fixpoint find_fit (n : Z) (segs : list seg) : option (list seg * seg * list seg) :=
  match segs with
  | [] => None
  | s :: r =>
      if s_free s && (n <=? s_size s) then Some ([], s, r)
      else '(L, t, R) ← find_fit n r; Some (s :: L, t, R)
  end.

(** The end of [s] is used, all of it when nothing is left over. *)
Definition cut (n : Z) (s : seg) : list seg :=
  if n <? s_size s then [mkSeg (s_size s - n) true; mkSeg n false] else [mkSeg (s_size s) false].

(** The offset of the chunk, and the chunks then. *)
Definition alloc (n : Z) (segs : list seg) : option (Z * list seg) :=
  '(L, s, R) ← find_fit n segs;
  Some (total L + (s_size s - n), L ++ cut n s ++ R).

(** The chunk at offset [o], and those before it, the nearest first. *)
Fixpoint seek (o : Z) (before segs : list seg) : option (list seg * seg * list seg) :=
  match segs with
  | [] => None
  | s :: r => if o =? 0 then Some (before, s, r) else seek (o - s_size s) (s :: before) r
  end.

(** A neighbour that is free is consolidated. *)
Definition take_free (l : list seg) : Z * list seg :=
  match l with
  | t :: l' => if s_free t then (s_size t, l') else (0, l)
  | [] => (0, [])
  end.

Definition release (o : Z) (segs : list seg) : option (list seg) :=
  '(L, s, R) ← seek o [] segs;
  if s_free s then None
  else
    let '(a, L) := take_free L in
    let '(b, R) := take_free R in
    Some (rev L ++ mkSeg (a + s_size s + b) true :: R).

(** No two neighbours are free, the first of [segs] coming after a chunk with free
    bit [f]. *)
Fixpoint coalesced (f : bool) (segs : list seg) : Prop :=
  match segs with
  | [] => True
  | s :: r => f && s_free s = false ∧ coalesced (s_free s) r
  end.

Definition last_free (f : bool) (segs : list seg) : bool := from_option s_free f (last segs).

Lemma coalesced_app l1 : ∀ f l2, coalesced f (l1 ++ l2) ↔ coalesced f l1 ∧ coalesced (last_free f l1) l2.
Proof.
  induction l1 as [|s l1 IH]; intros f l2; cbn [app coalesced]; [tauto|]. rewrite IH.
  replace (last_free f (s :: l1)) with (last_free (s_free s) l1); [tauto|].
  unfold last_free. rewrite last_cons. by destruct (last l1).
Qed.

Lemma find_fit_Some n segs L s R : find_fit n segs = Some (L, s, R) →
  segs = L ++ s :: R ∧ s_free s = true ∧ n <= s_size s.
Proof.
  revert L. induction segs as [|t r IH]; intros L; [done|]. cbn [find_fit]. destruct (s_free t && (n <=? s_size t)) eqn:E.
  - intros [= <- <- <-]. apply andb_true_iff in E as [? ?%Z.leb_le]. done.
  - intros H. apply bind_Some in H as ([[L' t'] R'] & H & [= <- <- <-]). destruct (IH L' H) as (-> & ? & ?). done.
Qed.

Lemma seek_Some segs : ∀ o before L s R, seek o before segs = Some (L, s, R) →
  ∃ M, L = rev M ++ before ∧ segs = M ++ s :: R ∧ total M = o.
Proof.
  induction segs as [|t r IH]; intros o before L s R; [done|]. cbn [seek]. destruct (Z.eqb_spec o 0) as [->|].
  - intros [= <- <- <-]. by exists [].
  - intros H. destruct (IH _ _ _ _ _ H) as (M & -> & -> & Ht). exists (t :: M).
    split; [simpl; by rewrite <- app_assoc|]. split; [done|]. rewrite total_cons. lia.
Qed.

Lemma need_ok nbytes : 0 <= nbytes <= 2 ^ 32 - 16 →
  need nbytes mod 8 = 0 ∧ nbytes + 8 <= need nbytes < nbytes + 16 ∧ 8 <= need nbytes.
Proof.
  intros Hn. unfold need, sizeof_CHUNK. rewrite (u32_small (nbytes + 8 - 1)) by (unfold is_u32; lia).
  set (k := (nbytes + 8 - 1) / 8). pose proof (Z.div_mod (nbytes + 8 - 1) 8). pose proof (Z.mod_pos_bound (nbytes + 8 - 1) 8).
  fold k in H. rewrite (u32_small (k + 1)) by (unfold is_u32; lia). rewrite u32_small by (unfold is_u32; lia).
  split; [rewrite Z.mul_comm; apply Z.mod_mul; lia|lia].
Qed.

Section refine.
Context (arena : Z).
Implicit Types (segs : list seg) (m : memory).
#[local] Abbreviation arena_end := (arena_end arena).
#[local] Abbreviation chain := (chain arena).

(** The first word of the program's heap: before the first call there is no chain. *)
Definition heap_rep (h : heap) (segs : list seg) : Prop :=
  coalesced false segs ∧
  (bot h = NULL ∧ segs = [mkSeg 65528 true] ∧ mapped (mem h) arena 65536 ∨
   bot h = arena ∧ top h = arena_end ∧ chain (mem h) segs).

(** ** Finding a chunk *)
Lemma find_chunk_ok m size segs : ∀ fuel prev p,
  arena_ok arena → suffix arena m prev p segs → arena <= p → (length segs < fuel)%nat →
  find_chunk fuel m size p = Some (match find_fit size segs with Some (L, s, R) => p + total L | None => NULL end).
Proof.
  induction segs as [|s r IH]; intros fuel prev p Ha Hx Hp Hf; (destruct fuel as [|fuel]; [simpl in Hf; lia|]);
    pose proof Ha as (Ha1 & _ & _); cbn [find_chunk find_fit]; unfold NULL in *; (destruct (Z.eqb_spec p 0); [lia|]).
  - destruct Hx as [_ Ht Hn _]. rewrite total_nil in Hn. subst p. simpl prev_of in Ht.
    rewrite (GET_FREEBIT_ok _ _ _ _ _ Ht), (RIGHT_ok _ _ _ _ _ Ht). cbn [mbind option_bind]. by destruct fuel.
  - apply suffix_cons in Hx as (Hh & Hs & Hx). rewrite (GET_FREEBIT_ok _ _ _ _ _ Hh). cbn [mbind option_bind].
    pose proof (suffix_range _ _ _ _ _ Hx) as [Hend _]. unfold TmallocSpec.arena_end in Hend. pose proof Ha as (_ & _ & Ha3).
    assert (Hrest : find_chunk fuel m size (p + s_size s) =
      Some (match ('(L, t, R) ← find_fit size r; Some (s :: L, t, R)) with Some (L, s, R) => p + total L | None => 0 end)).
    { destruct Hs as [Hs _]. rewrite (IH fuel p (p + s_size s)); [|done|done|lia|simpl in Hf; lia].
      destruct (find_fit size r) as [[[L t] R]|]; simpl; [|done]. by rewrite total_next. }
    destruct (s_free s); cbn [andb].
    + rewrite (CHUNKSIZE_ok _ _ _ _ _ Hh). cbn [mbind option_bind]. destruct Hs as [Hs _].
      rewrite u32_small by (unfold is_u32; lia). replace (p + s_size s - p) with (s_size s) by lia.
      destruct (size <=? s_size s); [by rewrite total_nil|]. rewrite (RIGHT_ok _ _ _ _ _ Hh). exact Hrest.
    + rewrite (RIGHT_ok _ _ _ _ _ Hh). exact Hrest.
Qed.

(** ** tmalloc *)
#[local] Abbreviation keeps := (keeps arena).
#[local] Abbreviation spare := (spare arena).

Lemma init_ok m : arena_ok arena → mapped m arena 65536 →
  ∃ m', init arena m = Some (mkHeap arena arena_end m') ∧ chain m' [mkSeg 65528 true] ∧ keeps [mkSeg 65528 true] m m'.
Proof.
  intros (Ha1 & Ha2 & Ha3) Hm. unfold init, sizeof_CHUNK, ARENA_CHUNKS, NULL. change (65536 / sizeof_CHUNK) with 8192.
  replace (arena + 8 * (8192 - 1)) with arena_end by (unfold TmallocSpec.arena_end; lia). set (t := arena_end).
  assert (Ht : t = arena + 65528) by done.
  assert (He : arena mod 2 = 0) by (pose proof (Z.div_mod arena 4); replace arena with (arena / 4 * 2 * 2) by lia; apply Z.mod_mul; lia).
  assert (Het : t mod 2 = 0) by (rewrite Ht, Z.add_mod, He by lia; done).
  destruct (write_header m arena 0 t) as (m1 & m2 & -> & E2 & H2 & C2); try (unfold is_u32; lia); [intros x Hx; apply Hm; lia|].
  cbn [mbind option_bind]. rewrite E2. cbn [mbind option_bind].
  destruct (write_header m2 t arena 0) as (m3 & m4 & -> & E4 & H4 & C4); try (unfold is_u32; lia); try done.
  { apply (changes_maps _ _ _ _ _ _ C2). intros x Hx. apply Hm. lia. }
  cbn [mbind option_bind]. rewrite E4. cbn [mbind option_bind].
  assert (H4' : header m4 0 arena t false) by (apply (header_changes _ _ _ _ _ _ _ _ H2 C4); lia).
  destruct (SET_FREEBIT_ok _ _ _ _ _ H4') as (m5 & -> & H5 & C5). cbn [mbind option_bind].
  assert (H5' : header m5 arena t 0 false) by (apply (header_changes _ _ _ _ _ _ _ _ H4 C5); lia).
  destruct (CLR_FREEBIT_ok _ _ _ _ _ H5') as (m6 & -> & H6 & C6). cbn [mbind option_bind].
  exists m6. split; [done|]. split.
  - split; [split|]; try done.
    + split; [|done]. simpl. rewrite <- Ht. apply (header_changes _ _ _ _ _ _ _ _ H5 C6). lia.
    + by apply Forall_singleton.
    + by eapply changes_maps, changes_maps, changes_maps, changes_maps.
  - apply (changes_keeps _ _ _ arena 65536).
    + apply (changes_trans _ m5); [apply (changes_trans _ m4); [apply (changes_trans _ m2)|]|];
        eapply changes_weaken; try done; lia.
    + split; [lia|]. split; [lia|]. intros x _ [[]|[]]; done.
Qed.

(** The word in front of the next chunk, or of the end of the arena. *)
Lemma spare_next L s R :
  Forall seg_ok (L ++ s :: R) → arena + total (L ++ s :: R) = arena_end →
  spare (L ++ s :: R) (arena + total L + s_size s) 8.
Proof.
  intros Hok Ht. destruct R as [|t R].
  - replace (arena + total L + s_size s) with arena_end; [by apply spare_top|].
    rewrite total_snoc in Ht. lia.
  - replace (L ++ s :: t :: R) with ((L ++ [s]) ++ t :: R) in * by by rewrite <- app_assoc.
    replace (arena + total L + s_size s) with (arena + total (L ++ [s])) by (rewrite total_snoc; lia).
    apply spare_chunk; auto.
Qed.

Lemma chain_ok m segs : chain m segs → Forall seg_ok segs ∧ arena + total segs = arena_end.
Proof. intros [[]]. done. Qed.

Lemma split_chunk_ok m L s R n :
  arena_ok arena → chain m (L ++ s :: R) → s_free s = true → 8 <= n → n mod 8 = 0 → n < s_size s →
  ∃ m', split_chunk m (arena + total L) n = Some (arena + total L + s_size s - n, m') ∧
    chain m' (L ++ mkSeg (s_size s - n) true :: mkSeg n false :: R) ∧ keeps (L ++ s :: R) m m'.
Proof.
  intros Ha Hc Hf Hn Hn8 Hlt. destruct (chain_ok _ _ Hc) as [Hok Ht].
  pose proof (spare_chunk arena L s R (s_size s) Hok Ht ltac:(auto)) as Sp. pose proof (spare_next L s R Hok Ht) as Snx.
  pose proof Sp as (Sp1 & Sp2 & _). set (p := arena + total L) in *. pose proof Ha as (Ha1 & Ha2 & Ha3).
  unfold split_chunk. destruct (chain_clr_bit _ _ _ _ _ Hc) as (m1 & E1 & Hc1 & C1). fold p in E1, C1. rewrite E1. cbn [mbind option_bind].
  pose proof (chain_header _ _ _ _ _ Hc1) as Hh1. fold p in Hh1. cbn [s_size s_free] in Hh1.
  rewrite (CHUNKSIZE_ok _ _ _ _ _ Hh1), (get_r_header _ _ _ _ _ Hh1), Z.add_0_r. cbn [mbind option_bind].
  replace (p + s_size s - p) with (s_size s) by lia. rewrite (u32_small (s_size s)) by (unfold is_u32; lia).
  rewrite (u32_small (p + s_size s - n)) by (unfold is_u32; lia). cbv zeta.
  destruct (chain_split arena m1 L _ R n Ha Hc1 eq_refl Hn Hn8 Hlt) as (m2 & m3 & m4 & m5 & E2 & E3 & E4 & E5 & C3 & C4 & C5 & Hc5).
  cbn [s_size] in *. fold p in E2, E3, E4, E5, C3, C4, C5. rewrite E2. cbn [mbind option_bind]. rewrite E3. cbn [mbind option_bind].
  rewrite E4. cbn [mbind option_bind]. rewrite E5. cbn [mbind option_bind].
  destruct (chain_set_bit _ _ _ _ _ Hc5) as (m6 & E6 & Hc6 & C6). fold p in E6, C6. rewrite E6. cbn [mbind option_bind].
  exists m6. split; [done|]. split; [done|].
  assert (Sh : spare (L ++ s :: R) p 8) by (eapply spare_weaken; [exact Sp|lia..]).
  apply (keeps_trans _ _ _ m5); [apply (keeps_trans _ _ _ m4); [apply (keeps_trans _ _ _ m3); [apply (keeps_trans _ _ _ m1)|]|]|].
  - by apply (changes_keeps _ _ _ _ _ _ C1).
  - apply (changes_keeps _ _ _ _ _ _ C3). eapply spare_weaken; [exact Sp|lia..].
  - by apply (changes_keeps _ _ _ _ _ _ C4).
  - apply (changes_keeps _ _ _ _ _ _ C5). eapply spare_weaken; [exact Snx|lia..].
  - by apply (changes_keeps _ _ _ _ _ _ C6).
Qed.

Lemma coalesced_false f segs : coalesced f segs → coalesced false segs.
Proof. destruct segs as [|s r]; [done|]. by intros [_ H]. Qed.

Lemma coalesced_cut L s R n : coalesced false (L ++ s :: R) → s_free s = true → coalesced false (L ++ cut n s ++ R).
Proof.
  intros (HL & Hs & HR)%coalesced_app Hf. rewrite Hf, andb_true_r in Hs. rewrite Hf in HR. apply coalesced_app. split; [done|].
  unfold cut. destruct (n <? s_size s); simpl; rewrite ?Hs; simpl; split_and!; try done; by eapply coalesced_false.
Qed.

(** The chain, after the first call has made it. *)
Lemma started_ok h segs : arena_ok arena → heap_rep h segs →
  ∃ h', (if bot h =? NULL then init arena (mem h) else Some h) = Some h' ∧
    bot h' = arena ∧ top h' = arena_end ∧ chain (mem h') segs ∧ keeps segs (mem h) (mem h').
Proof.
  intros Ha [_ [(Hb & -> & Hm)|(Hb & Ht & Hc)]]; rewrite Hb; unfold NULL.
  - destruct (init_ok (mem h) Ha Hm) as (m' & -> & Hc & Hk). eexists. split; [done|]. by split_and!.
  - destruct Ha as (Ha & _). destruct (Z.eqb_spec arena 0); [lia|]. exists h. split; [done|]. by split_and!.
Qed.

Lemma chain_length m segs : chain m segs → Z.of_nat (length segs) <= 8191.
Proof.
  intros Hc. destruct (chain_ok _ _ Hc) as [Hok Ht]. pose proof (total_pos segs Hok) as (_ & _ & H).
  unfold TmallocSpec.arena_end in Ht. lia.
Qed.

(** [tmalloc] implements [alloc]; NULL when no chunk fits. *)
Lemma tmalloc_ok fuel h segs nbytes :
  arena_ok arena → heap_rep h segs → 0 <= nbytes <= 2 ^ 32 - 16 → 8192 <= Z.of_nat fuel →
  ∃ h', tmalloc arena fuel h nbytes = Some (match alloc (need nbytes) segs with Some (o, _) => arena + o + 8 | None => NULL end, h') ∧
    heap_rep h' (match alloc (need nbytes) segs with Some (_, segs') => segs' | None => segs end) ∧
    keeps segs (mem h) (mem h').
Proof.
  intros Ha Hr Hn Hf. destruct (need_ok nbytes Hn) as (Hn8 & Hn1 & Hn2). pose proof (proj1 Hr) as Hco.
  destruct (started_ok h segs Ha Hr) as (h1 & E1 & Hb & Htop & Hc & Hk). unfold tmalloc. rewrite E1. cbn [mbind option_bind].
  pose proof (chain_length _ _ Hc) as Hlen. destruct (chain_ok _ _ Hc) as [Hok Ht]. pose proof Ha as (Ha1 & Ha2 & Ha3).
  cbv zeta. rewrite Hb, (find_chunk_ok _ _ segs fuel 0 arena Ha (cn_segs _ _ _ Hc)) by lia. cbn [mbind option_bind].
  unfold alloc. destruct (find_fit (need nbytes) segs) as [[[L s] R]|] eqn:Efit; cbn [mbind option_bind].
  2:{ exists h1. split; [done|]. split; [|done]. split; [done|]. by right. }
  destruct (find_fit_Some _ _ _ _ _ Efit) as (-> & Hfree & Hfit). clear Efit.
  destruct (split_ok _ _ _ Hok) as (HoL & [Hs _] & HoR). pose proof (total_pos L HoL). pose proof (total_pos R HoR).
  rewrite total_app, total_cons in Ht. unfold TmallocSpec.arena_end in Ht.
  unfold NULL. destruct (Z.eqb_spec (arena + total L) 0); [lia|].
  pose proof (chain_header _ _ _ _ _ Hc) as Hh. rewrite (CHUNKSIZE_ok _ _ _ _ _ Hh). cbn [mbind option_bind].
  replace (arena + total L + s_size s - (arena + total L)) with (s_size s) by lia. rewrite (u32_small (s_size s)) by (unfold is_u32; lia).
  pose proof (coalesced_cut L s R (need nbytes) Hco Hfree) as Hco'. unfold cut in *.
  destruct (Z.ltb_spec (need nbytes) (s_size s)) as [Hlt|Hge].
  - destruct (split_chunk_ok (mem h1) L s R (need nbytes) Ha Hc Hfree Hn2 Hn8 Hlt) as (m2 & -> & Hc2 & Hk2). cbn [mbind option_bind].
    replace (L ++ mkSeg (s_size s - need nbytes) true :: mkSeg (need nbytes) false :: R)
      with ((L ++ [mkSeg (s_size s - need nbytes) true]) ++ mkSeg (need nbytes) false :: R) in Hc2 by by rewrite <- app_assoc.
    destruct (chain_clr_bit _ _ _ _ _ Hc2) as (m3 & E3 & Hc3 & C3). rewrite total_snoc in E3, C3. cbn [s_size] in E3, C3, Hc3.
    replace (arena + total L + s_size s - need nbytes) with (arena + (total L + (s_size s - need nbytes))) by lia. rewrite E3.
    cbn [mbind option_bind]. eexists. split; [unfold FROMCHUNK, sizeof_CHUNK; by rewrite u32_small by (unfold is_u32; lia)|].
    split; [split; [done|right; split; [done|]; split; [done|]; rewrite <- app_assoc in Hc3; exact Hc3]|].
    apply (keeps_trans _ _ _ (mem h1) _ Hk), (keeps_trans _ _ _ m2 _ Hk2), (changes_keeps _ _ _ _ _ _ C3).
    eapply spare_weaken; [apply (spare_chunk arena L s R (s_size s)); [done|by apply (chain_ok _ _ Hc)|auto]|lia..].
  - assert (Es : s_size s - need nbytes = 0) by lia. rewrite Es, Z.add_0_r. cbn [mbind option_bind].
    destruct (chain_clr_bit _ _ _ _ _ Hc) as (m3 & -> & Hc3 & C3). cbn [mbind option_bind].
    eexists. split; [unfold FROMCHUNK, sizeof_CHUNK; by rewrite u32_small by (unfold is_u32; lia)|].
    split; [split; [done|by right]|].
    apply (keeps_trans _ _ _ (mem h1) _ Hk), (changes_keeps _ _ _ _ _ _ C3).
    apply (spare_chunk arena L s R 8); [done|by apply (chain_ok _ _ Hc)|auto].
Qed.

(** ** tfree *)
Lemma prev_of_snoc L t : prev_of 0 arena (L ++ [t]) = arena + total L.
Proof. by rewrite prev_of_app. Qed.

Lemma join_left_ok m L s R :
  arena_ok arena → chain m (L ++ s :: R) → s_free s = false →
  ∃ f m', join_left m (arena + total L) = Some (arena + total (rev (take_free (rev L)).2), m') ∧
    chain m' (rev (take_free (rev L)).2 ++ mkSeg ((take_free (rev L)).1 + s_size s) f :: R) ∧ keeps (L ++ s :: R) m m'.
Proof.
  intros Ha Hc Hs. pose proof (chain_header _ _ _ _ _ Hc) as Hh. unfold join_left, get_l. rewrite (hd_l _ _ _ _ _ Hh). cbn [mbind option_bind].
  destruct L as [|t L _] using rev_ind.
  { exists false, m. simpl. destruct s as [sz f]. simpl in Hs. subst f. done. }
  rewrite prev_of_snoc, rev_unit in *. rewrite total_snoc in *. cbn [take_free].
  assert (Hc' : chain m (L ++ t :: s :: R)) by (by rewrite <- app_assoc in Hc).
  pose proof (chain_header _ _ _ _ _ Hc') as Hht. destruct (chain_ok _ _ Hc') as [Hok Ht].
  pose proof (total_pos L (proj1 (split_ok _ _ _ Hok))). pose proof Ha as (Ha1 & _ & _).
  unfold NULL. destruct (Z.eqb_spec (arena + total L) 0); [lia|]. rewrite (GET_FREEBIT_ok _ _ _ _ _ Hht). cbn [mbind option_bind].
  destruct (s_free t) eqn:Hft; cbn [fst snd].
  2:{ exists false, m. cbn [rev]. rewrite rev_involutive, total_snoc, Z.add_0_l, Z.add_assoc.
      destruct s as [sz f]. simpl in Hs. subst f. done. }
  rewrite rev_involutive. destruct (chain_clr_bit _ _ _ _ _ Hc') as (m1 & -> & Hc1 & C1). cbn [mbind option_bind].
  destruct (chain_merge arena m1 L _ s R Ha Hc1 Hs) as (G1 & m2 & E2 & C2 & G2 & m3 & E3 & C3 & _ & Hc3). cbn [s_size] in *.
  rewrite Z.add_assoc, G1. cbn [mbind option_bind]. rewrite E2. cbn [mbind option_bind]. rewrite G2. cbn [mbind option_bind]. rewrite E3.
  cbn [mbind option_bind]. destruct (chain_set_bit _ _ _ _ _ Hc3) as (m4 & -> & Hc4 & C4). cbn [mbind option_bind].
  exists true, m4. split; [done|]. split; [done|]. rewrite <- app_assoc. cbn [app].
  pose proof (spare_chunk arena L t (s :: R) 8 Hok Ht ltac:(auto)) as S1.
  apply (keeps_trans _ _ _ m3); [apply (keeps_trans _ _ _ m2); [apply (keeps_trans _ _ _ m1)|]|];
    try (by eapply changes_keeps). apply (changes_keeps _ _ _ _ _ _ C3).
  replace (L ++ t :: s :: R) with ((L ++ [t]) ++ s :: R) in * by (by rewrite <- app_assoc).
  replace (arena + total L + s_size t) with (arena + total (L ++ [t])) by (rewrite total_snoc; lia).
  eapply spare_weaken; [by apply spare_next|lia..].
Qed.

Lemma join_right_ok S0 m L s R :
  arena_ok arena → chain m (L ++ s :: R) → spare S0 (arena + total L) 8 →
  (∀ t R0, R = t :: R0 → spare S0 (arena + total L + s_size s) 8 ∧ spare S0 (arena + total L + s_size s + s_size t) 8) →
  ∃ f m', join_right m (arena + total L) = Some m' ∧
    chain m' (L ++ mkSeg (s_size s + (take_free R).1) f :: (take_free R).2) ∧ keeps S0 m m'.
Proof.
  intros Ha Hc Sp Sq. pose proof (chain_header _ _ _ _ _ Hc) as Hh. unfold join_right. rewrite (RIGHT_ok _ _ _ _ _ Hh). cbn [mbind option_bind].
  destruct (chain_ok _ _ Hc) as [Hok Ht]. destruct (split_ok _ _ _ Hok) as (HoL & [Hs Hs8] & HoR). pose proof (total_pos L HoL).
  pose proof Ha as (Ha1 & _ & _). unfold NULL. destruct (Z.eqb_spec (arena + total L + s_size s) 0); [lia|].
  assert (Hsame : chain m (L ++ mkSeg (s_size s + 0) (s_free s) :: R)) by (rewrite Z.add_0_r; by destruct s).
  destruct R as [|t R].
  { pose proof (cn_segs _ _ _ Hc) as [_ Htop _ _]. rewrite prev_of_snoc in Htop. rewrite total_snoc in Ht.
    rewrite Z.add_assoc in Ht. rewrite Ht, (GET_FREEBIT_ok _ _ _ _ _ Htop). by exists (s_free s), m. }
  assert (Hct : chain m ((L ++ [s]) ++ t :: R)) by (by rewrite <- app_assoc).
  pose proof (chain_header _ _ _ _ _ Hct) as Hht. rewrite total_snoc, Z.add_assoc in Hht. rewrite (GET_FREEBIT_ok _ _ _ _ _ Hht).
  cbn [mbind option_bind take_free]. destruct (s_free t) eqn:Hft; cbn [fst snd]; [|by exists (s_free s), m].
  destruct (chain_clr_bit _ _ _ _ _ Hct) as (m1 & E1 & Hc1 & C1). rewrite total_snoc, Z.add_assoc in E1, C1. rewrite E1. cbn [mbind option_bind].
  rewrite <- app_assoc in Hc1. cbn [app] in Hc1.
  destruct (chain_merge arena m1 L s _ R Ha Hc1 eq_refl) as (G1 & m2 & E2 & C2 & G2 & m3 & E3 & C3 & Hq & Hc3). cbn [s_size] in *.
  rewrite G1. cbn [mbind option_bind]. rewrite E2. cbn [mbind option_bind]. rewrite G2. cbn [mbind option_bind]. rewrite E3.
  cbn [mbind option_bind]. destruct (SET_FREEBIT_ok _ _ _ _ _ Hq) as (m4 & -> & _ & C4).
  pose proof (Forall_cons_1 _ _ _ HoR) as [[Ht0 _] _]. destruct (Sq t R eq_refl) as [Sq1 Sq2].
  exists false, m4. split; [done|]. split; [apply (chain_body _ _ _ _ _ _ _ _ Hc3 C4); simpl; lia|].
  apply (keeps_trans _ _ _ m3); [apply (keeps_trans _ _ _ m2); [apply (keeps_trans _ _ _ m1)|]|].
  - by apply (changes_keeps _ _ _ _ _ _ C1).
  - by apply (changes_keeps _ _ _ _ _ _ C2).
  - apply (changes_keeps _ _ _ _ _ _ C3). eapply spare_weaken; [exact Sq2|lia..].
  - apply (changes_keeps _ _ _ _ _ _ C4). eapply spare_weaken; [exact Sq1|lia..].
Qed.

Lemma take_free_coalesced f l : coalesced f l → coalesced true (take_free l).2.
Proof.
  destruct l as [|t l]; cbn [take_free]; [done|]. intros [Hf Hl]. destruct (s_free t) eqn:Ht; cbn [fst snd].
  - done.
  - cbn [coalesced]. by rewrite Ht.
Qed.

Lemma take_free_total l : total (take_free l).2 + (take_free l).1 = total l.
Proof. destruct l as [|t l]; [done|]. cbn [take_free]. destruct (s_free t); cbn [fst snd]; rewrite ?total_cons; lia. Qed.

Lemma total_rev l : total (rev l) = total l.
Proof. induction l as [|s l IH]; [done|]. cbn [rev]. rewrite total_snoc, IH, total_cons. lia. Qed.

(** Consolidation leaves no two free neighbours. *)
Lemma coalesced_release M s R n :
  coalesced false (M ++ s :: R) → s_free s = false →
  coalesced false (rev (take_free (rev M)).2 ++ mkSeg n true :: (take_free R).2).
Proof.
  intros (HM & _ & HR)%coalesced_app Hs. apply coalesced_app.
  assert (coalesced true (take_free R).2) by (by eapply take_free_coalesced).
  assert (coalesced false (rev (take_free (rev M)).2) ∧ last_free false (rev (take_free (rev M)).2) = false) as [H1 H2].
  { destruct M as [|t M _] using rev_ind; [done|]. rewrite rev_unit. cbn [take_free]. apply coalesced_app in HM as [HM [Ht _]].
    destruct (s_free t) eqn:Hft; cbn [snd]; [rewrite rev_involutive; rewrite andb_true_r in Ht; done|].
    cbn [rev]. rewrite rev_involutive. split; [apply coalesced_app; cbn [coalesced]; by rewrite Hft, andb_false_r|].
    unfold last_free. by rewrite last_snoc. }
  split; [done|]. cbn [coalesced s_free]. by rewrite H2.
Qed.

Lemma spare_left M s R :
  Forall seg_ok (M ++ s :: R) → arena + total (M ++ s :: R) = arena_end →
  spare (M ++ s :: R) (arena + total (rev (take_free (rev M)).2)) 8.
Proof.
  intros Hok Ht. destruct M as [|t M _] using rev_ind; [apply spare_chunk; auto|]. rewrite rev_unit. cbn [take_free].
  destruct (s_free t); cbn [snd rev]; rewrite rev_involutive; [|apply spare_chunk; auto].
  rewrite <- app_assoc in *. apply spare_chunk; auto.
Qed.

(** [tfree] implements [release]. *)
Lemma tfree_ok h segs o segs' :
  arena_ok arena → heap_rep h segs → release o segs = Some segs' →
  ∃ h', tfree h (arena + o + 8) = Some h' ∧ heap_rep h' segs' ∧ keeps segs (mem h) (mem h').
Proof.
  intros Ha [Hco Hr] Hrel. unfold release in Hrel. apply bind_Some in Hrel as ([[L s] R] & Hseek & Hrel).
  destruct (s_free s) eqn:Hs; [done|].
  destruct Hr as [(_ & -> & _)|(Hb & Htop & Hc)].
  { cbn [seek] in Hseek. destruct (o =? 0); [|done]. injection Hseek as _ <- _. done. }
  apply seek_Some in Hseek as (M & -> & -> & <-). rewrite app_nil_r in Hrel.
  rewrite (surjective_pairing (take_free (rev M))), (surjective_pairing (take_free R)) in Hrel. injection Hrel as <-.
  destruct (chain_ok _ _ Hc) as [Hok Ht]. destruct (split_ok _ _ _ Hok) as (HoM & [Hs8 _] & HoR).
  pose proof (total_pos M HoM). pose proof (total_pos R HoR). pose proof Ha as (Ha1 & Ha2 & Ha3).
  pose proof Ht as Ht'. rewrite total_app, total_cons in Ht'. unfold TmallocSpec.arena_end in Ht'.
  pose proof (coalesced_release M s R ((take_free (rev M)).1 + s_size s + (take_free R).1) Hco Hs) as Hco'.
  unfold tfree, NULL, TOCHUNK, sizeof_CHUNK. destruct (Z.eqb_spec (arena + total M + 8) 0); [lia|].
  replace (arena + total M + 8 - 8) with (arena + total M) by lia. rewrite (u32_small (arena + total M)) by (unfold is_u32; lia).
  cbv zeta. destruct (chain_clr_bit _ _ _ _ _ Hc) as (m1 & -> & Hc1 & C1). cbn [mbind option_bind].
  destruct (join_left_ok m1 M _ R Ha Hc1 eq_refl) as (f2 & m2 & -> & Hc2 & K2). cbn [mbind option_bind s_size] in *.
  set (L := rev (take_free (rev M)).2) in *. set (a := (take_free (rev M)).1) in *.
  assert (Hend : arena + total L + (a + s_size s) = arena + total M + s_size s).
  { pose proof (take_free_total (rev M)) as E. rewrite total_rev in E. unfold L. rewrite total_rev. fold a in E. lia. }
  pose proof (spare_left M s R Hok Ht) as Sp. fold L in Sp.
  destruct (join_right_ok (M ++ s :: R) m2 L _ R Ha Hc2 Sp) as (f3 & m3 & -> & Hc3 & K3).
  { intros t R0 ->. cbn [s_size]. rewrite Hend.
    replace (M ++ s :: t :: R0) with ((M ++ [s]) ++ t :: R0) in * by (by rewrite <- app_assoc).
    replace (arena + total M + s_size s) with (arena + total (M ++ [s])) by (rewrite total_snoc; lia).
    split; [apply spare_chunk; auto|by apply spare_next]. }
  cbn [mbind option_bind s_size] in *. destruct (chain_set_bit _ _ _ _ _ Hc3) as (m4 & -> & Hc4 & C4). cbn [mbind option_bind].
  eexists. split; [done|]. split.
  - split; [exact Hco'|]. right. split; [done|]. split; [done|exact Hc4].
  - apply (keeps_trans _ _ _ m1); [apply (changes_keeps _ _ _ _ _ _ C1), spare_chunk; auto|].
    apply (keeps_trans _ _ _ m2); [by destruct s as [sz f]; simpl in Hs; subst f|].
    apply (keeps_trans _ _ _ m3); [done|by apply (changes_keeps _ _ _ _ _ _ C4)].
Qed.
End refine.
