(* ===== verification/TmallocProps.v ===== *)
(** * Properties of the heap allocator

    A client that asks for blocks, writes inside them and frees each once: the
    allocator never faults, keeps its chain, and keeps the client's blocks apart
    and their contents. And what happens to a client that asks for too much. *)
From S2P Require Import Prelude.
From S2P Require Import Words.
From S2P Require Import ByteMemory.
From S2P Require Import TmallocModel.
From S2P Require Import TmallocSpec.
From S2P Require Import TmallocRefine.

(** ** The chunks by address *)

(** The chunk [s] is at [a], when the first of [segs] is at [p]. *)
Fixpoint placed (p : Z) (segs : list seg) (a : Z) (s : seg) : Prop :=
  match segs with
  | [] => False
  | t :: r => a = p ∧ s = t ∨ placed (p + s_size t) r a s
  end.

Lemma placed_app l1 : ∀ p l2 a s, placed p (l1 ++ l2) a s ↔ placed p l1 a s ∨ placed (p + total l1) l2 a s.
Proof.
  induction l1 as [|t l1 IH]; intros p l2 a s; cbn [app placed]; [rewrite total_nil; tauto|].
  rewrite IH, total_next. tauto.
Qed.

Lemma placed_split segs : ∀ p a s, placed p segs a s → ∃ M R, segs = M ++ s :: R ∧ a = p + total M.
Proof.
  induction segs as [|t r IH]; intros p a s; [done|]. intros [[-> ->]|H]; [exists [], r; by rewrite total_nil|].
  destruct (IH _ _ _ H) as (M & R & -> & ->). exists (t :: M), R. split; [done|]. by rewrite total_next.
Qed.

Lemma placed_range segs p a s : Forall seg_ok segs → placed p segs a s → p <= a ∧ a + s_size s <= p + total segs ∧ seg_ok s.
Proof.
  intros Hok H. destruct (placed_split _ _ _ _ H) as (M & R & -> & ->). destruct (split_ok _ _ _ Hok) as (HM & Hs & HR).
  pose proof (total_pos M HM). pose proof (total_pos R HR). rewrite total_app, total_cons. split; [lia|]. split; [lia|done].
Qed.

(** Two chunks are the same or apart. *)
Lemma placed_apart segs : ∀ p a s a' s', Forall seg_ok segs → placed p segs a s → placed p segs a' s' →
  a = a' ∧ s = s' ∨ a + s_size s <= a' ∨ a' + s_size s' <= a.
Proof.
  induction segs as [|t r IH]; intros p a s a' s' Hok; [done|]. apply Forall_cons in Hok as [Ht Hr].
  intros [[-> ->]|H] [[-> ->]|H'].
  - by left.
  - right. left. by destruct (placed_range _ _ _ _ Hr H').
  - right. right. by destruct (placed_range _ _ _ _ Hr H).
  - by apply (IH (p + s_size t)).
Qed.

Lemma placed_body segs : ∀ p a s x, placed p segs a s → s_free s = false → a + 8 <= x < a + s_size s → busy_body p segs x.
Proof.
  induction segs as [|t r IH]; intros p a s x; [done|]. intros [[-> ->]|H] Hs Hx; [by left|right]. by apply (IH _ a s).
Qed.

Lemma seek_complete M : ∀ before s R, Forall seg_ok M → seek (total M) before (M ++ s :: R) = Some (rev M ++ before, s, R).
Proof.
  induction M as [|t M IH]; intros before s R HM; [done|]. apply Forall_cons in HM as [[Ht _] HM].
  pose proof (total_pos M HM). cbn [app seek rev]. rewrite total_cons. destruct (Z.eqb_spec (s_size t + total M) 0); [lia|].
  replace (s_size t + total M - s_size t) with (total M) by lia. rewrite (IH _ _ _ HM). by rewrite <- app_assoc.
Qed.

Lemma cut_total n s : total (cut n s) = s_size s.
Proof. unfold cut. destruct (n <? s_size s); rewrite !total_cons; change (total []) with 0; simpl; lia. Qed.

(** Allocation keeps the chunks in use where they are, *)
Lemma alloc_placed arena n segs o segs' a s :
  alloc n segs = Some (o, segs') → placed arena segs a s → s_free s = false → placed arena segs' a s.
Proof.
  unfold alloc. intros H. apply bind_Some in H as ([[L t] R] & Hf & [= <- <-]). destruct (find_fit_Some _ _ _ _ _ Hf) as (-> & Ht & Hn).
  intros Hp Hs. apply placed_app in Hp as [Hp|[[-> ->]|Hp]]; [apply placed_app; by left|congruence|].
  apply placed_app. right. apply placed_app. right. by rewrite cut_total.
Qed.

(** and cuts the new one out of a free one. *)
Lemma alloc_new arena n segs o segs' :
  Forall seg_ok segs → 8 <= n → alloc n segs = Some (o, segs') →
  placed arena segs' (arena + o) (mkSeg n false) ∧
  ∀ a s, placed arena segs a s → s_free s = false → a + s_size s <= arena + o ∨ arena + o + n <= a.
Proof.
  unfold alloc. intros Hok Hn H. apply bind_Some in H as ([[L t] R] & Hf & [= <- <-]).
  destruct (find_fit_Some _ _ _ _ _ Hf) as (-> & Ht & Hfit). split.
  - apply placed_app. right. apply placed_app. left. unfold cut. destruct (Z.ltb_spec n (s_size t)).
    + right. left. split; [simpl; lia|done].
    + left. split; [lia|]. f_equal. lia.
  - intros a s Hp Hs. assert (Hpt : placed arena (L ++ t :: R) (arena + total L) t) by (apply placed_app; right; by left).
    destruct (placed_apart _ _ _ _ _ _ Hok Hp Hpt) as [[_ ->]|[?|?]]; [congruence|left; lia|right; lia].
Qed.

(** Release takes one away. *)
Lemma take_free_split l : ∃ F, l = F ++ (take_free l).2 ∧ (F = [] ∨ ∃ t, F = [t] ∧ s_free t = true) ∧ total F = (take_free l).1.
Proof.
  destruct l as [|t l]; [by exists []; split_and!; auto|]. cbn [take_free]. destruct (s_free t) eqn:Ht; cbn [fst snd].
  - exists [t]. split; [done|]. split; [right; by exists t|]. apply Z.add_0_r.
  - exists []. by split_and!; auto.
Qed.

Lemma free_not_placed F p a s : (F = [] ∨ ∃ t, F = [t] ∧ s_free t = true) → placed p F a s → s_free s = true.
Proof. intros [->|(t & -> & Ht)]; [done|]. intros [[_ ->]|[]]. done. Qed.

Lemma release_placed arena segs o segs' a s :
  release o segs = Some segs' → placed arena segs a s → s_free s = false → a ≠ arena + o → placed arena segs' a s.
Proof.
  unfold release. intros H. apply bind_Some in H as ([[L t] R] & Hseek & H). destruct (s_free t); [done|].
  apply seek_Some in Hseek as (M & -> & -> & <-). rewrite app_nil_r in H.
  rewrite (surjective_pairing (take_free (rev M))), (surjective_pairing (take_free R)) in H. injection H as <-.
  destruct (take_free_split (rev M)) as (F & EM & HF & EF). destruct (take_free_split R) as (G & ER & HG & EG).
  rewrite <- EF, <- EG. clear EF EG. revert EM ER. generalize (take_free (rev M)).2, (take_free R).2. intros A R2 EM ER.
  assert (M = rev A ++ rev F) as -> by (by rewrite <- rev_app_distr, <- EM, rev_involutive).
  assert (HF' : rev F = [] ∨ ∃ t, rev F = [t] ∧ s_free t = true) by (destruct HF as [->|(u & -> & Hu)]; [by left|right; by exists u]).
  intros Hp Hs Hne. rewrite <- app_assoc in Hp. apply placed_app in Hp as [Hp|Hp]; [apply placed_app; by left|].
  apply placed_app in Hp as [Hp|Hp]; [by rewrite (free_not_placed _ _ _ _ HF' Hp) in Hs|].
  destruct Hp as [[-> ->]|Hp]; [destruct Hne; rewrite total_app; lia|]. rewrite ER in Hp.
  apply placed_app in Hp as [Hp|Hp]; [by rewrite (free_not_placed _ _ _ _ HG Hp) in Hs|].
  apply placed_app. right. right. cbn [s_size].
  replace (arena + total (rev A) + (total F + s_size t + total G)) with (arena + total (rev A) + total (rev F) + s_size t + total G)
    by (rewrite (total_rev F); lia). done.
Qed.

(** A chunk in use can be released. *)
Lemma placed_release arena segs a s :
  Forall seg_ok segs → placed arena segs a s → s_free s = false → is_Some (release (a - arena) segs).
Proof.
  intros Hok Hp Hs. destruct (placed_split _ _ _ _ Hp) as (M & R & -> & ->). destruct (split_ok _ _ _ Hok) as (HM & _ & _).
  unfold release. replace (arena + total M - arena) with (total M) by lia. rewrite (seek_complete M [] s R HM). cbn [mbind option_bind].
  rewrite Hs. destruct (take_free _), (take_free _). by eexists.
Qed.

(** ** Clients *)

(** What a client knows of a block: its size, and the bytes it can rely on. *)
Record block : Type := mkBlock { b_size : Z; b_known : Z → option Z }.

Inductive action : Type :=
| Malloc (n : Z)
| Calloc (nelem elsize : Z)
| Realloc (p n : Z)
| Free (p : Z)
| Write (p i v : Z).

Abbreviation blocks := (gmap Z block).

Definition nothing_known : Z → option Z := fun _ => None.
Definition zeros (n : Z) : Z → option Z := fun i => if (0 <=? i) && (i <? n) then Some 0 else None.
Definition first_bytes (n : Z) (w : Z → option Z) : Z → option Z := fun i => if i <? n then w i else None.

(** A new block, when there is one. *)
Definition got (p : Z) (b : block) (bs : blocks) : blocks := if p =? NULL then bs else <[p := b]> bs.

Section clients.
Context (arena : Z) (Harena : arena_ok arena).

(** What an action does, to the memory and to what the client knows. *)
Definition act (fuel : nat) (h : heap) (bs : blocks) (a : action) : option (heap * blocks) :=
  match a with
  | Malloc n => '(p, h) ← tmalloc arena fuel h n; Some (h, got p (mkBlock n nothing_known) bs)
  | Calloc nelem elsize =>
      '(p, h) ← tcalloc arena fuel h nelem elsize; Some (h, got p (mkBlock (nelem * elsize) (zeros (nelem * elsize))) bs)
  | Realloc p n =>
      '(q, h) ← trealloc arena fuel h p n;
      Some (h, if n =? 0 then delete p bs else
        if q =? NULL then bs else <[q := mkBlock n (first_bytes n (default nothing_known (b_known <$> bs !! p)))]> (delete p bs))
  | Free p => h ← tfree h p; Some (h, delete p bs)
  | Write p i v =>
      m ← store8 (mem h) (p + i) v;
      Some (mkHeap (bot h) (top h) m,
        alter (fun b => mkBlock (b_size b) (fun j => if j =? i then Some v else b_known b j)) p bs)
  end.

(** What a client may do. *)
Definition small (n : Z) : Prop := 0 <= n <= 2 ^ 32 - 16.

Definition legal (bs : blocks) (a : action) : Prop :=
  match a with
  | Malloc n => small n
  | Calloc nelem elsize => 0 <= nelem ∧ 0 <= elsize ∧ small (nelem * elsize)
  | Realloc p n => is_Some (bs !! p) ∧ small n
  | Free p => is_Some (bs !! p)
  | Write p i v => ∃ b, bs !! p = Some b ∧ 0 <= i < b_size b
  end.

(** The states a client reaches, with a fresh arena. *)
Inductive client (fuel : nat) : heap → blocks → Prop :=
| client_start h : bot h = NULL → mapped (mem h) arena 65536 → client fuel h ∅
| client_act h bs a h' bs' : client fuel h bs → legal bs a → act fuel h bs a = Some (h', bs') → client fuel h' bs'.

(** ** The invariant *)

(** The block [b] at [p], in the memory [m] with the chunks [segs]. *)
Record block_ok (m : memory) (segs : list seg) (p : Z) (b : block) : Prop := {
  bk_chunk : ∃ s, placed arena segs (p - 8) s ∧ s_free s = false ∧ b_size b + 8 <= s_size s;
  bk_size : 0 <= b_size b;
  bk_known : ∀ i v, b_known b i = Some v → 0 <= i < b_size b ∧ m (p + i) = Some v;
}.

Definition client_inv (h : heap) (bs : blocks) : Prop :=
  ∃ segs, heap_rep arena h segs ∧ ∀ p b, bs !! p = Some b → block_ok (mem h) segs p b.

Lemma heap_rep_ok h segs : heap_rep arena h segs → Forall seg_ok segs ∧ arena + total segs = arena_end arena.
Proof.
  intros [_ [(_ & -> & _)|(_ & _ & Hc)]]; [|by apply (chain_ok _ _ _ Hc)].
  split; [by apply Forall_singleton|]. unfold total, arena_end. simpl. lia.
Qed.

(** A block keeps its place and its bytes when the allocator works on others. *)
Lemma block_kept m m' segs segs' p b :
  block_ok m segs p b → keeps arena segs m m' →
  (∀ s, placed arena segs (p - 8) s → s_free s = false → placed arena segs' (p - 8) s) → block_ok m' segs' p b.
Proof.
  intros [(s & Hp & Hs & Hsz) H0 Hk] [F _] Hpl. split; [exists s; auto|done|]. intros i v Hi. destruct (Hk i v Hi) as [Hr Hv]. split; [done|].
  rewrite F; [done|]. right. right. apply (placed_body _ _ _ _ _ Hp Hs). lia.
Qed.

(** Writing inside a block leaves the chain alone. *)
Lemma body_ok h segs a s m b n :
  heap_rep arena h segs → placed arena segs a s → s_free s = false → changes (mem h) b n m → a + 8 <= b → b + n <= a + s_size s →
  heap_rep arena (mkHeap (bot h) (top h) m) segs.
Proof.
  intros [Hco Hr] Hp Hs C H1 H2. split; [done|]. destruct Hr as [(_ & -> & _)|(Hb & Ht & Hc)].
  { destruct Hp as [[_ ->]|[]]. done. }
  right. split; [done|]. split; [done|]. destruct (placed_split _ _ _ _ Hp) as (M & R & -> & ->).
  by apply (chain_body arena _ _ M s R b n Hc C).
Qed.

Lemma keeps_outside segs m m' : keeps arena segs m m' → ∀ b n, mapped m b n → mapped m' b n.
Proof. intros [_ M] b n Hm x Hx. by apply M, Hm. Qed.

Lemma heap_rep_mapped h segs : heap_rep arena h segs → mapped (mem h) arena 65536.
Proof. intros [_ [(_ & _ & Hm)|(_ & _ & Hc)]]; [done|]. exact (cn_mapped _ _ _ Hc). Qed.

(** ** The four calls, for a client *)

(** A call of [tmalloc] gives NULL, or a new block apart from the others. *)
Lemma tmalloc_client fuel h segs n :
  heap_rep arena h segs → small n → 8192 <= Z.of_nat fuel →
  ∃ p h' segs', tmalloc arena fuel h n = Some (p, h') ∧ heap_rep arena h' segs' ∧ keeps arena segs (mem h) (mem h') ∧
    (∀ a s, placed arena segs a s → s_free s = false → placed arena segs' a s) ∧
    (p ≠ NULL → ∃ s, placed arena segs' (p - 8) s ∧ s_free s = false ∧ n + 8 <= s_size s ∧
      ∀ a t, placed arena segs a t → s_free t = false → a + s_size t <= p - 8 ∨ p - 8 + s_size s <= a).
Proof.
  intros Hr Hn Hf. destruct (heap_rep_ok h segs Hr) as [Hok _]. destruct (need_ok n Hn) as (_ & Hn1 & Hn2).
  destruct (tmalloc_ok arena fuel h segs n Harena Hr Hn Hf) as (h' & E & Hr' & Hk).
  destruct (alloc (need n) segs) as [[o segs']|] eqn:Ea.
  - exists (arena + o + 8), h', segs'. split; [done|]. split; [done|]. split; [done|].
    split; [intros a s; by apply (alloc_placed arena _ _ _ _ _ _ Ea)|]. intros _.
    destruct (alloc_new arena _ _ _ _ Hok Hn2 Ea) as [Hnew Hapart]. exists (mkSeg (need n) false). cbn [s_size s_free].
    replace (arena + o + 8 - 8) with (arena + o) by lia. split_and!; [done|done|lia|done].
  - exists NULL, h', segs. by split_and!.
Qed.

(** [tfree] of a block: the others stay. *)
Lemma tfree_client h segs a s :
  heap_rep arena h segs → placed arena segs a s → s_free s = false →
  ∃ h' segs', tfree h (a + 8) = Some h' ∧ heap_rep arena h' segs' ∧ keeps arena segs (mem h) (mem h') ∧
    ∀ a' s', placed arena segs a' s' → s_free s' = false → a' ≠ a → placed arena segs' a' s'.
Proof.
  intros Hr Hp Hs. destruct (heap_rep_ok h segs Hr) as [Hok _].
  destruct (placed_release arena segs a s Hok Hp Hs) as [segs' Hrel].
  destruct (tfree_ok arena h segs _ segs' Harena Hr Hrel) as (h' & E & Hr' & Hk).
  replace (arena + (a - arena) + 8) with (a + 8) in E by lia. exists h', segs'. split_and!; try done.
  intros a' s' Hp' Hs' Hne. apply (release_placed arena _ _ _ _ _ Hrel Hp' Hs'). lia.
Qed.

(** Bytes that are not the block's are written. *)
Lemma block_apart m m' segs p b x n :
  block_ok m segs p b → changes m x n m' → x + n <= p ∨ p + b_size b <= x → block_ok m' segs p b.
Proof.
  intros [Hc H0 Hk] [F _] Ha. split; [done|done|]. intros i v Hi. destruct (Hk i v Hi) as [Hr Hv]. split; [done|].
  rewrite F; [done|lia].
Qed.

Lemma chunk_header h segs a s : heap_rep arena h segs → placed arena segs a s → s_free s = false →
  ∃ prev, header (mem h) prev a (a + s_size s) false.
Proof.
  intros [_ Hr] Hp Hs. destruct Hr as [(_ & -> & _)|(_ & _ & Hc)]; [destruct Hp as [[_ ->]|[]]; done|].
  destruct (placed_split _ _ _ _ Hp) as (M & R & -> & ->). pose proof (chain_header _ _ _ _ _ Hc) as Hh. rewrite Hs in Hh. by eexists.
Qed.

Lemma act_malloc fuel h bs n : client_inv h bs → small n → 8192 <= Z.of_nat fuel →
  ∃ h' bs', act fuel h bs (Malloc n) = Some (h', bs') ∧ client_inv h' bs'.
Proof.
  intros (segs & Hr & Hb) Hn Hf. destruct (tmalloc_client fuel h segs n Hr Hn Hf) as (p & h' & segs' & E & Hr' & Hk & Hpl & Hnew).
  cbn [act]. rewrite E. eexists _, _. split; [done|]. exists segs'. split; [done|]. unfold got. intros q b Hq.
  assert (Hold : bs !! q = Some b → block_ok (mem h') segs' q b).
  { intros H. apply (block_kept (mem h) _ segs); auto. }
  destruct (Z.eqb_spec p NULL) as [|Hp]; [auto|]. apply lookup_insert_Some in Hq as [[<- <-]|[_ Hq]]; [|auto].
  destruct (Hnew Hp) as (s & Hs1 & Hs2 & Hs3 & _). destruct Hn. split; [exists s; by split_and!|done|done].
Qed.

Lemma act_calloc fuel h bs nelem elsize : client_inv h bs → 0 <= nelem → 0 <= elsize → small (nelem * elsize) → 8192 <= Z.of_nat fuel →
  ∃ h' bs', act fuel h bs (Calloc nelem elsize) = Some (h', bs') ∧ client_inv h' bs'.
Proof.
  intros (segs & Hr & Hb) H1 H2 Hn Hf. cbn [act]. unfold tcalloc. rewrite (u32_small (nelem * elsize)) by (unfold is_u32; destruct Hn; lia).
  set (n := nelem * elsize) in *. clearbody n.
  destruct (tmalloc_client fuel h segs n Hr Hn Hf) as (p & h' & segs' & -> & Hr' & Hk & Hpl & Hnew). cbn [mbind option_bind].
  assert (Hold : ∀ q b, bs !! q = Some b → block_ok (mem h') segs' q b) by (intros q b H; apply (block_kept (mem h) _ segs); auto).
  unfold got. destruct (Z.eqb_spec p NULL) as [->|Hp]; [eexists _, _; split; [done|]; by exists segs'|].
  destruct (Hnew Hp) as (s & Hs1 & Hs2 & Hs3 & Hapart). destruct (heap_rep_ok h' segs' Hr') as [Hok' Ht'].
  destruct (placed_range _ _ _ _ Hok' Hs1) as (Hr1 & Hr2 & _). destruct Hn as [Hn0 _]. unfold arena_end in Ht'.
  destruct (memset_ok (mem h') p 0 (Z.to_nat n)) as (m2 & -> & C & L).
  { intros x Hx. apply (heap_rep_mapped _ _ Hr'). lia. }
  rewrite Z2Nat.id in * by lia. cbn [mbind option_bind]. destruct (Z.eqb_spec p NULL); [done|]. eexists _, _. split; [done|]. exists segs'.
  split; [apply (body_ok _ _ _ _ _ _ _ Hr' Hs1 Hs2 C); lia|]. intros q b Hq.
  apply lookup_insert_Some in Hq as [[<- <-]|[_ Hq]].
  - split; [exists s; by split_and!|done|]. unfold zeros. simpl. intros i v Hi.
    destruct (Z.leb_spec 0 i), (Z.ltb_spec i n); simpl in Hi; try done. injection Hi as <-. split; [lia|]. apply L. lia.
  - apply (block_apart (mem h') _ _ _ _ p n); [by apply Hold|done|].
    destruct (bk_chunk _ _ _ _ (Hb q b Hq)) as (t & Ht1 & Ht2 & Ht3). destruct (Hapart _ _ Ht1 Ht2); lia.
Qed.

Lemma act_free fuel h bs p : client_inv h bs → is_Some (bs !! p) →
  ∃ h' bs', act fuel h bs (Free p) = Some (h', bs') ∧ client_inv h' bs'.
Proof.
  intros (segs & Hr & Hb) [b Hp]. destruct (bk_chunk _ _ _ _ (Hb p b Hp)) as (s & Hs1 & Hs2 & _).
  destruct (tfree_client h segs _ s Hr Hs1 Hs2) as (h' & segs' & E & Hr' & Hk & Hpl). rewrite Z.sub_add in E.
  cbn [act]. rewrite E. eexists _, _. split; [done|]. exists segs'. split; [done|]. intros q c Hq.
  apply lookup_delete_Some in Hq as [Hne Hq]. apply (block_kept (mem h) _ segs); [auto|done|]. intros t Ht Hf. apply Hpl; [done|done|lia].
Qed.

Lemma act_write fuel h bs p i v b : client_inv h bs → bs !! p = Some b → 0 <= i < b_size b →
  ∃ h' bs', act fuel h bs (Write p i v) = Some (h', bs') ∧ client_inv h' bs'.
Proof.
  intros (segs & Hr & Hb) Hp Hi. destruct (bk_chunk _ _ _ _ (Hb p b Hp)) as (s & Hs1 & Hs2 & Hs3).
  destruct (heap_rep_ok h segs Hr) as [Hok Ht]. destruct (placed_range _ _ _ _ Hok Hs1) as (H1 & H2 & _). unfold arena_end in Ht.
  destruct (store8_ok (mem h) (p + i) v) as (m & E & L & C); [apply (heap_rep_mapped _ _ Hr); lia|].
  cbn [act]. rewrite E. eexists _, _. split; [done|]. exists segs.
  split; [apply (body_ok _ _ _ _ _ _ _ Hr Hs1 Hs2 C); lia|]. intros q c Hq. cbn [mem].
  apply lookup_alter_Some in Hq as [(<- & b0 & Hp0 & ->)|[Hne Hq]].
  - assert (b0 = b) as -> by congruence. destruct (Hb p b Hp) as [Hc H0 Hk]. split; [done|done|].
    cbn [b_known b_size]. intros j w. destruct (Z.eqb_spec j i) as [->|Hj]; [intros [= <-]; done|].
    intros Hw. destruct (Hk j w Hw) as [Hrj Hv]. split; [done|]. rewrite (ch_frame _ _ _ _ C); [done|lia].
  - pose proof (Hb q c Hq) as Hqc. apply (block_apart (mem h) _ _ _ _ (p + i) 1 Hqc C).
    destruct (bk_chunk _ _ _ _ Hqc) as (t & Ht1 & Ht2 & Ht3).
    destruct (placed_apart _ _ _ _ _ _ Hok Hs1 Ht1) as [[? _]|[?|?]]; lia.
Qed.

(** The copy [trealloc] makes: all the bytes of the old block that fit. *)
Lemma realloc_copies h segs p q s t n :
  heap_rep arena h segs → placed arena segs (p - 8) s → s_free s = false → placed arena segs (q - 8) t → s_free t = false →
  0 < n → n + 8 <= s_size t → q - 8 + s_size t <= p - 8 ∨ p - 8 + s_size s <= q - 8 →
  let bytes := if n <? u32 (u32 (s_size s) - sizeof_CHUNK) then n else u32 (u32 (s_size s) - sizeof_CHUNK) in
  bytes = Z.min n (s_size s - 8) ∧ 0 <= bytes ∧
  ∃ m, memcpy (mem h) q p (Z.to_nat bytes) = Some m ∧ changes (mem h) q bytes m ∧ ∀ i, 0 <= i < bytes → m (q + i) = mem h (p + i).
Proof.
  intros Hr Hp Hs Hq Ht Hn Hnt Hapart bytes. destruct (heap_rep_ok h segs Hr) as [Hok Hend]. unfold arena_end in Hend.
  destruct (placed_range _ _ _ _ Hok Hp) as (H1 & H2 & [H3 _]). destruct (placed_range _ _ _ _ Hok Hq) as (H4 & H5 & _).
  pose proof Harena as (Ha1 & _ & Ha3).
  assert (Eb : bytes = Z.min n (s_size s - 8)).
  { unfold bytes, sizeof_CHUNK. rewrite (u32_small (s_size s)), (u32_small (s_size s - 8)) by (unfold is_u32; lia).
    destruct (Z.ltb_spec n (s_size s - 8)); lia. }
  clearbody bytes. split; [done|]. split; [lia|].
  destruct (memcpy_ok (mem h) q p (Z.to_nat bytes)) as (m & E & C & L);
    [intros x Hx; apply (heap_rep_mapped _ _ Hr); lia..|lia|].
  rewrite Z2Nat.id in * by lia. by exists m.
Qed.

Lemma act_realloc fuel h bs p n : client_inv h bs → is_Some (bs !! p) → small n → 8192 <= Z.of_nat fuel →
  ∃ h' bs', act fuel h bs (Realloc p n) = Some (h', bs') ∧ client_inv h' bs'.
Proof.
  intros Hinv [b Hp] Hn Hf. pose proof Hinv as (segs & Hr & Hb). destruct (Hb p b Hp) as [(s & Hs1 & Hs2 & Hs3) Hb0 Hbk].
  destruct (heap_rep_ok h segs Hr) as [Hok Hend]. destruct (placed_range _ _ _ _ Hok Hs1) as (Hr1 & Hr2 & _).
  unfold arena_end in Hend. pose proof Harena as (Ha1 & _ & Ha3). cbn [act]. unfold trealloc.
  destruct (Z.eqb_spec p NULL) as [->|_]; [unfold NULL in *; lia|].
  destruct (Z.eqb_spec n 0) as [->|Hn0].
  { destruct (act_free fuel h bs p Hinv ltac:(by eexists)) as (h' & bs' & E & Hi). cbn [act] in E.
    destruct (tfree h p) as [h1|]; [|done]. injection E as <- <-. cbn [mbind option_bind]. by eexists _, _. }
  destruct (tmalloc_client fuel h segs n Hr Hn Hf) as (q & h1 & segs1 & -> & Hr1' & Hk1 & Hpl1 & Hnew). cbn [mbind option_bind].
  assert (Hold : ∀ r c, bs !! r = Some c → block_ok (mem h1) segs1 r c) by (intros r c H; apply (block_kept (mem h) _ segs); auto).
  destruct (Z.eqb_spec q NULL) as [->|Hq]; [cbn [mbind option_bind]; eexists _, _; split; [done|]; by exists segs1|].
  destruct (Hnew Hq) as (t & Ht1 & Ht2 & Ht3 & Hapart). pose proof (Hpl1 _ _ Hs1 Hs2) as Hs1'.
  destruct (chunk_header h1 segs1 _ s Hr1' Hs1' Hs2) as [prev Hh].
  assert (TOCHUNK p = p - 8) as -> by (apply u32_small; unfold is_u32, sizeof_CHUNK; lia). rewrite (CHUNKSIZE_ok _ _ _ _ _ Hh). cbn [mbind option_bind].
  replace (p - 8 + s_size s - (p - 8)) with (s_size s) by lia. destruct Hn as [Hn1 Hn2].
  destruct (realloc_copies h1 segs1 p q s t n Hr1' Hs1' Hs2 Ht1 Ht2 ltac:(lia) ltac:(lia)) as (Eb & Eb0 & m2 & E2 & C2 & L2).
  { destruct (Hapart _ _ Hs1 Hs2); [right|left]; lia. }
  cbv zeta. rewrite E2. cbn [mbind option_bind].
  pose proof (body_ok _ _ _ _ _ _ _ Hr1' Ht1 Ht2 C2 ltac:(lia) ltac:(lia)) as Hr2'.
  destruct (tfree_client _ segs1 _ s Hr2' Hs1' Hs2) as (h3 & segs3 & E3 & Hr3 & Hk3 & Hpl3). rewrite Z.sub_add in E3. rewrite E3.
  cbn [mbind option_bind]. destruct (Z.eqb_spec q NULL); [done|]. eexists _, _. split; [done|]. exists segs3. split; [done|].
  rewrite Hp. cbn [fmap option_fmap option_map default]. intros r c Hrc. apply lookup_insert_Some in Hrc as [[<- <-]|[_ Hrc]].
  - apply (block_kept m2 _ segs1); [|done|intros u Hu1 Hu2; apply Hpl3; [done|done|destruct (Hapart _ _ Hs1 Hs2); lia]].
    split; [exists t; by split_and!|done|]. unfold first_bytes. cbn [b_known b_size]. intros i v Hi.
    destruct (Z.ltb_spec i n); [|done]. destruct (bk_known _ _ _ _ (Hold p b Hp) i v Hi) as [Hi1 Hi2].
    split; [lia|]. by rewrite L2 by lia.
  - apply lookup_delete_Some in Hrc as [Hne Hrc]. destruct (bk_chunk _ _ _ _ (Hb r c Hrc)) as (u & Hu1 & Hu2 & Hu3).
    apply (block_kept m2 _ segs1); [|done|intros u' Hu1' Hu2'; apply Hpl3; [done|done|lia]].
    apply (block_apart (mem h1) _ _ _ _ q _ (Hold r c Hrc) C2). destruct (Hapart _ _ Hu1 Hu2); lia.
Qed.

(** Every action of a client that keeps the rules is carried out. *)
Lemma act_ok fuel h bs a : client_inv h bs → legal bs a → 8192 <= Z.of_nat fuel →
  ∃ h' bs', act fuel h bs a = Some (h', bs') ∧ client_inv h' bs'.
Proof.
  intros Hi Hl Hf. destruct a as [n|nelem elsize|p n|p|p i v]; simpl in Hl.
  - by apply act_malloc.
  - destruct Hl as (? & ? & ?). by apply act_calloc.
  - destruct Hl as [? ?]. by apply act_realloc.
  - by apply act_free.
  - destruct Hl as (b & ? & ?). by apply (act_write fuel h bs p i v b).
Qed.

Lemma client_invariant fuel h bs : 8192 <= Z.of_nat fuel → client fuel h bs → client_inv h bs.
Proof.
  intros Hf. induction 1 as [h Hb Hm|h bs a h' bs' _ IH Hl E].
  - exists [mkSeg 65528 true]. split; [|done]. split; [done|]. by left.
  - destruct (act_ok fuel h bs a IH Hl Hf) as (h1 & bs1 & E1 & Hi). rewrite E in E1. by injection E1 as <- <-.
Qed.

(** C10: the allocator serves every client that keeps the rules - requests of less
    than 2 ^ 32 - 15 bytes, writes inside blocks it holds, each block freed or
    reallocated once: no call faults or runs out of fuel, the blocks lie in the
    arena and apart from one another and from the headers, and hold what was last
    written to them, zeros at first if from [tcalloc], and the common part of the
    old block if from [trealloc]. *)
Theorem allocator_serves_clients fuel h bs (Hf : 8192 <= Z.of_nat fuel) (Hc : client fuel h bs) :
  (∀ a, legal bs a → is_Some (act fuel h bs a)) ∧
  ∀ p b, bs !! p = Some b →
    arena + 8 <= p ∧ p + b_size b <= arena + 65528 ∧
    (∀ i v, b_known b i = Some v → 0 <= i < b_size b ∧ mem h (p + i) = Some v) ∧
    ∀ p' b', bs !! p' = Some b' → p' ≠ p → p + b_size b + 8 <= p' ∨ p' + b_size b' + 8 <= p.
Proof.
  pose proof (client_invariant fuel h bs Hf Hc) as Hi. split.
  { intros a Hl. destruct (act_ok fuel h bs a Hi Hl Hf) as (h' & bs' & -> & _). by eexists. }
  destruct Hi as (segs & Hr & Hb). destruct (heap_rep_ok h segs Hr) as [Hok Ht]. unfold arena_end in Ht.
  intros p b Hp. destruct (Hb p b Hp) as [(s & Hs1 & Hs2 & Hs3) H0 Hk]. destruct (placed_range _ _ _ _ Hok Hs1) as (H1 & H2 & _).
  split; [lia|]. split; [lia|]. split; [done|]. intros p' b' Hp' Hne.
  destruct (Hb p' b' Hp') as [(s' & Hs1' & Hs2' & Hs3') _ _].
  destruct (placed_apart _ _ _ _ _ _ Hok Hs1 Hs1') as [[? _]|[?|?]]; lia.
Qed.

(** C11: the allocator is first fit on a list of chunks, without fragmentation by
    free neighbours: [tmalloc] and [tfree], through the headers in memory, do what
    [alloc] and [release] do to the list - the end of the first free chunk that is
    large enough, NULL when none is; a freed chunk joins its free neighbours - and
    touch no byte of a chunk in use nor of the memory outside the arena. *)
Theorem allocator_implements_first_fit fuel h segs
    (Hr : heap_rep arena h segs) (Hf : 8192 <= Z.of_nat fuel) :
  (∀ n, small n → ∃ h',
    tmalloc arena fuel h n = Some (match alloc (need n) segs with Some (o, _) => arena + o + 8 | None => NULL end, h') ∧
    heap_rep arena h' (match alloc (need n) segs with Some (_, segs') => segs' | None => segs end) ∧
    keeps arena segs (mem h) (mem h')) ∧
  (∀ o segs', release o segs = Some segs' → ∃ h',
    tfree h (arena + o + 8) = Some h' ∧ heap_rep arena h' segs' ∧ keeps arena segs (mem h) (mem h')).
Proof.
  split; [intros n Hn; by apply tmalloc_ok|]. intros o segs' Hrel. by apply tfree_ok.
Qed.
End clients.

(** ** A client, and requests that are too large *)
Definition demo_arena : Z := 134520864. (* 0x0804a020 *)
Definition demo_heap : heap := mkHeap NULL NULL (fun a => if (demo_arena <=? a) && (a <? demo_arena + 65536) then Some 0 else None).
Definition demo_fuel : nat := Z.to_nat 8192.

Lemma demo_arena_ok : arena_ok demo_arena.
Proof. unfold arena_ok, demo_arena. split_and!; [lia|done|lia]. Qed.

Lemma demo_mapped : mapped (mem demo_heap) demo_arena 65536.
Proof. intros x Hx. simpl. rewrite (proj2 (Z.leb_le _ _)), (proj2 (Z.ltb_lt _ _)) by lia. by eexists. Qed.

(** The state after an action. *)
Definition after (st : heap * blocks) (a : action) : heap * blocks := default st (act demo_arena demo_fuel st.1 st.2 a).

Lemma after_client st a : client demo_arena demo_fuel st.1 st.2 → legal st.2 a → client demo_arena demo_fuel (after st a).1 (after st a).2.
Proof.
  intros Hc Hl. apply (client_act demo_arena demo_fuel st.1 st.2 a); [done|done|].
  destruct (act_ok demo_arena demo_arena_ok demo_fuel st.1 st.2 a) as (h & bs & E & _); [|done|unfold demo_fuel; lia|].
  - apply (client_invariant demo_arena demo_arena_ok demo_fuel); [unfold demo_fuel; lia|done].
  - unfold after. by rewrite E.
Qed.

(** Two blocks, a byte written to the first, the second made larger. *)
Definition demo_client : heap * blocks :=
  let st := after (after (demo_heap, ∅) (Malloc 500)) (Calloc 3 100) in
  after (after st (Write (demo_arena + 65024) 7 42)) (Realloc (demo_arena + 64712) 1000).

Lemma demo_client_reached : client demo_arena demo_fuel demo_client.1 demo_client.2.
Proof.
  apply after_client; [apply after_client; [apply after_client; [apply after_client|]|]|].
  - apply client_start; [done|exact demo_mapped].
  - simpl. unfold small. lia.
  - simpl. unfold small. lia.
  - exists (mkBlock 500 nothing_known). split; [vm_compute; reflexivity|]. simpl. lia.
  - split; [vm_compute; by eexists|unfold small; lia].
Qed.

Lemma allocator_serves_clients_witness :
  dom demo_client.2 = {[demo_arena + 65024; demo_arena + 63704]} ∧
  (∀ a, legal demo_client.2 a → is_Some (act demo_arena demo_fuel demo_client.1 demo_client.2 a)) ∧
  ∀ p b, demo_client.2 !! p = Some b →
    demo_arena + 8 <= p ∧ p + b_size b <= demo_arena + 65528 ∧
    (∀ i v, b_known b i = Some v → 0 <= i < b_size b ∧ mem demo_client.1 (p + i) = Some v) ∧
    ∀ p' b', demo_client.2 !! p' = Some b' → p' ≠ p → p + b_size b + 8 <= p' ∨ p' + b_size b' + 8 <= p.
Proof.
  split; [apply set_eq; intros x; vm_compute; tauto|].
  exact (allocator_serves_clients demo_arena demo_arena_ok demo_fuel demo_client.1 demo_client.2
    ltac:(unfold demo_fuel; lia) demo_client_reached).
Defined.

Lemma allocator_implements_first_fit_witness :
  heap_rep demo_arena demo_heap [mkSeg 65528 true] ∧
  (∀ n, small n → ∃ h',
    tmalloc demo_arena demo_fuel demo_heap n =
      Some (match alloc (need n) [mkSeg 65528 true] with Some (o, _) => demo_arena + o + 8 | None => NULL end, h') ∧
    heap_rep demo_arena h' (match alloc (need n) [mkSeg 65528 true] with Some (_, segs') => segs' | None => [mkSeg 65528 true] end) ∧
    keeps demo_arena [mkSeg 65528 true] (mem demo_heap) (mem h')) ∧
  (∀ o segs', release o [mkSeg 65528 true] = Some segs' → ∃ h',
    tfree demo_heap (demo_arena + o + 8) = Some h' ∧ heap_rep demo_arena h' segs' ∧
    keeps demo_arena [mkSeg 65528 true] (mem demo_heap) (mem h')).
Proof.
  assert (Hr : heap_rep demo_arena demo_heap [mkSeg 65528 true]) by (split; [done|left; split_and!; [done|done|exact demo_mapped]]).
  split; [exact Hr|].
  exact (allocator_implements_first_fit demo_arena demo_arena_ok demo_fuel demo_heap [mkSeg 65528 true] Hr ltac:(unfold demo_fuel; lia)).
Defined.

(** [size] wraps for the largest requests: a header alone is enough for them, or
    nothing at all. *)
Theorem huge_requests_wrap n (Hn : 2 ^ 32 - 15 <= n < 2 ^ 32) : need n = if n <? 2 ^ 32 - 7 then 0 else 8.
Proof.
  unfold need, sizeof_CHUNK. destruct (Z.ltb_spec n (2 ^ 32 - 7)) as [Hlt|Hge].
  - rewrite (u32_small (n + 8 - 1)) by (unfold is_u32; lia). replace ((n + 8 - 1) / 8) with (2 ^ 29 - 1); [done|].
    symmetry. pose proof (Z.div_mod (n + 8 - 1) 8). pose proof (Z.mod_pos_bound (n + 8 - 1) 8). lia.
  - replace (u32 (n + 8 - 1)) with (n + 8 - 1 - 2 ^ 32).
    + replace ((n + 8 - 1 - 2 ^ 32) / 8) with 0; [done|]. symmetry. apply Z.div_small. lia.
    + unfold u32. replace (n + 8 - 1) with (n + 8 - 1 - 2 ^ 32 + 1 * 2 ^ 32) at 2 by lia.
      rewrite Z.mod_add by lia. symmetry. apply Z.mod_small. lia.
Qed.

(** The first request for 2 ^ 32 - 1 bytes is served with a pointer to the delimiter
    chunk; the product of [tcalloc] wraps as well. *)
Theorem huge_request_gets_the_delimiter :
  fst <$> tmalloc demo_arena demo_fuel demo_heap (2 ^ 32 - 1) = Some (arena_end demo_arena) ∧
  fst <$> tcalloc demo_arena demo_fuel demo_heap 65536 65536 = Some (arena_end demo_arena).
Proof. split; vm_compute; reflexivity. Qed.
