(* ===== verification/TargetProps.v ===== *)
(** * The target programs (src/cse127/pp1/targets/target1.c to target4.c)

    Four programs with a memory error each, to be attacked through their argument.
    Buffers and strings are addresses in one memory; what lies next to a buffer is
    not known, so a write outside of it is a write like any other. The theorems say how
    far each of them writes, and what the second [tfree] of target4 does. *)
From S2P Require Import Prelude.
From S2P Require Import Words.
From S2P Require Import ByteMemory.
From S2P Require Import TmallocModel.
From S2P Require Import TmallocSpec.
From S2P Require Import TmallocRefine.
From S2P Require Import TmallocProps.

(** The empty loop that skips a string: the address behind its NUL. *)
Fixpoint skip_string (fuel : nat) (m : memory) (s : Z) : option Z :=
  match fuel with
  | O => None
  | S fuel => c ← m s; if c =? 0 then Some (s + 1) else skip_string fuel m (s + 1)
  end.

Definition strlen (fuel : nat) (m : memory) (s : Z) : option Z := e ← skip_string fuel m s; Some (e - s - 1).

(** [strcpy], byte by byte up to the NUL. *)
Fixpoint strcpy (fuel : nat) (m : memory) (dst src : Z) : option memory :=
  match fuel with
  | O => None
  | S fuel => c ← m src; m ← store8 m dst c; if c =? 0 then Some m else strcpy fuel m (dst + 1) (src + 1)
  end.

(** target1: [foo], with its [buf] of 200 bytes. *)
Definition target1_foo (fuel : nat) (m : memory) (buf arg : Z) : option memory := strcpy fuel m buf arg.

(** target2: [nstrcpy]. *)
Definition nstrcpy (fuel : nat) (m : memory) (out outl inp : Z) : option memory :=
  n ← strlen fuel m inp;
  let len := s32 n in
  let len := if outl <? len then outl else len in
  for_each (Z.to_nat (len + 1)) (fun i m => c ← m (inp + Z.of_nat i); store8 m (out + Z.of_nat i) c) m.

Definition target2_bar (fuel : nat) (m : memory) (buf arg : Z) : option memory := nstrcpy fuel m buf 200 arg.

(** target3: [foo]; on an i386 a [struct widget_t] has 28 bytes. *)
Definition sizeof_widget_t : Z := 28.
Definition MAX_WIDGETS : Z := 200.

Definition target3_foo (m : memory) (buf inp count : Z) : option memory :=
  if count <? MAX_WIDGETS then memcpy m buf inp (Z.to_nat (u32 (count * sizeof_widget_t))) else Some m.

(** target4: [obsd_strlcpy]. The loop, with [n] bytes to go; [n] is 0 at its end when
    there was not enough room. *)
Fixpoint strlcpy_loop (n : nat) (m : memory) (d s : Z) : option (nat * memory * Z * Z) :=
  match n with
  | O => Some (O, m, d, s)
  | S n' =>
      c ← m s;
      m ← store8 m d c;
      if c =? 0 then Some (n, m, d + 1, s + 1)
      else strlcpy_loop n' m (d + 1) (s + 1)
  end.

Definition obsd_strlcpy (fuel : nat) (m : memory) (dst src siz : Z) : option (Z * memory) :=
  '(n, m, d, s) ← (if siz =? 0 then Some (O, m, dst, src) else strlcpy_loop (Z.to_nat (siz - 1)) m dst src);
  match n with
  | O =>
      m ← (if siz =? 0 then Some m else store8 m d 0);
      s ← skip_string fuel m s;
      Some (s - src - 1, m)
  | S _ => Some (s - src - 1, m)
  end.

(** How [foo] ends. *)
Inductive outcome : Type :=
| Exited (code : Z)
| Returned (h : heap).

Definition EXIT_FAILURE : Z := 1.

Definition target4_foo (arena : Z) (fuel : nat) (h : heap) (arg : Z) : option outcome :=
  '(p, h) ← tmalloc arena fuel h 500;
  if p =? NULL then Some (Exited EXIT_FAILURE)
  else
    '(q, h) ← tmalloc arena fuel h 300;
    if q =? NULL then Some (Exited EXIT_FAILURE)
    else
      h ← tfree h p;
      h ← tfree h q;
      '(p, h) ← tmalloc arena fuel h 1000;
      if p =? NULL then Some (Exited EXIT_FAILURE)
      else
        '(_, m) ← obsd_strlcpy fuel (mem h) p arg 1000;
        h ← tfree (mkHeap (bot h) (top h) m) q;
        Some (Returned h).

(** The string [l] is at [s]. *)
Definition string_at (m : memory) (s : Z) (l : list Z) : Prop :=
  Forall (fun c => c ≠ 0) l ∧ (∀ i c, l !! i = Some c → m (s + Z.of_nat i) = Some c) ∧ m (s + Z.of_nat (length l)) = Some 0.

Lemma string_cons m s c l : string_at m s (c :: l) → c ≠ 0 ∧ m s = Some c ∧ string_at m (s + 1) l.
Proof.
  intros ([Hc Hl]%Forall_cons & Hm & Hn). split; [done|]. split; [rewrite <- (Hm O c eq_refl); f_equal; lia|].
  split; [done|]. split.
  - intros i d Hi. rewrite <- (Hm (S i) d Hi). f_equal. lia.
  - rewrite <- Hn. f_equal. simpl. lia.
Qed.

Lemma string_changes m m' s l a n : string_at m s l → changes m a n m' → s + Z.of_nat (length l) < a ∨ a + n <= s → string_at m' s l.
Proof.
  intros (Hz & Hm & Hn) C Ha. split; [done|]. split.
  - intros i c Hi. pose proof (lookup_lt_Some _ _ _ Hi). rewrite (ch_frame _ _ _ _ C) by lia. by apply Hm.
  - by rewrite (ch_frame _ _ _ _ C) by lia.
Qed.

Lemma skip_string_ok l : ∀ fuel m s, string_at m s l → (length l < fuel)%nat → skip_string fuel m s = Some (s + Z.of_nat (length l) + 1).
Proof.
  induction l as [|c l IH]; intros fuel m s Hs Hf; (destruct fuel as [|fuel]; [simpl in Hf; lia|]); cbn [skip_string].
  - destruct Hs as (_ & _ & Hn). simpl in Hn. rewrite Z.add_0_r in Hn. rewrite Hn. cbn [mbind option_bind]. simpl. f_equal. lia.
  - destruct (string_cons _ _ _ _ Hs) as (Hc & -> & Hl). cbn [mbind option_bind]. destruct (Z.eqb_spec c 0); [done|].
    rewrite (IH fuel m (s + 1) Hl) by (simpl in Hf; lia). f_equal. simpl length. lia.
Qed.

(** ** target4: strlcpy *)

(** What has been copied: the first [k] bytes of [l]. *)
Definition copied (m : memory) (d : Z) (l : list Z) (k : nat) : Prop := ∀ i c, (i < k)%nat → l !! i = Some c → m (d + Z.of_nat i) = Some c.

Lemma copied_cons m d c l k : m d = Some c → copied m (d + 1) l k → copied m d (c :: l) (S k).
Proof.
  intros Hc Hl [|i] b Hi; simpl; [intros [= <-]; by rewrite Z.add_0_r|]. intros Hb.
  rewrite <- (Hl i b ltac:(lia) Hb). f_equal. lia.
Qed.

Lemma strlcpy_loop_ok n : ∀ m d s l,
  string_at m s l → mapped m d (Z.of_nat n) → d + Z.of_nat n <= s ∨ s + Z.of_nat (length l) < d →
  let k := Nat.min n (length l) in
  ∃ n' m' d' s', strlcpy_loop n m d s = Some (n', m', d', s') ∧ copied m' d l k ∧ changes m d (Z.of_nat n) m' ∧
    (n' = O → (n <= length l)%nat ∧ d' = d + Z.of_nat n ∧ s' = s + Z.of_nat n ∧ string_at m' s' (drop n l)) ∧
    (n' ≠ O → (length l < n)%nat ∧ s' = s + Z.of_nat (length l) + 1 ∧ m' (d + Z.of_nat (length l)) = Some 0).
Proof.
  induction n as [|n IH]; intros m d s l Hs Hm Hd k; cbn [strlcpy_loop].
  - exists O, m, d, s. split; [done|]. split; [intros i c Hi; unfold k in Hi; lia|]. split; [done|]. split; [|done].
    intros _. split_and!; [lia|lia|lia|by rewrite drop_0].
  - destruct l as [|c l].
    + destruct Hs as (_ & _ & Hn). simpl in Hn, Hd. rewrite Z.add_0_r in Hn. rewrite Hn. cbn [mbind option_bind].
      destruct (store8_ok m d 0) as (m1 & -> & L & C); [apply Hm; lia|]. cbn [mbind option_bind]. rewrite Z.eqb_refl.
      eexists _, m1, _, _. split; [done|]. split; [intros i c Hi; unfold k in Hi; simpl in Hi; lia|].
      split; [eapply changes_weaken; [done|lia..]|]. split; [done|]. intros _. simpl. rewrite !Z.add_0_r. split_and!; [lia|done|done].
    + destruct (string_cons _ _ _ _ Hs) as (Hc & -> & Hl). cbn [mbind option_bind]. simpl length in Hd.
      destruct (store8_ok m d c) as (m1 & -> & L & C); [apply Hm; lia|]. cbn [mbind option_bind].
      destruct (Z.eqb_spec c 0); [done|].
      destruct (IH m1 (d + 1) (s + 1) l) as (n' & m' & d' & s' & E & Hcp & C' & H0 & H1).
      { apply (string_changes m _ _ _ d 1); [done|done|lia]. }
      { apply (changes_maps _ _ _ _ _ _ C). intros x Hx. apply Hm. lia. }
      { lia. }
      exists n', m', d', s'. split; [done|]. split.
      { apply copied_cons; [|done]. rewrite (ch_frame _ _ _ _ C') by lia. done. }
      split; [apply (changes_trans _ m1); eapply changes_weaken; try done; lia|]. split.
      * intros Hn'. destruct (H0 Hn') as (? & -> & -> & ?). simpl. split_and!; [lia|lia|lia|done].
      * intros Hn'. destruct (H1 Hn') as (? & -> & <-). simpl length. split_and!; [lia|lia|]. f_equal. lia.
Qed.

(** [obsd_strlcpy] is what its comment says: it copies at most [siz - 1] bytes,
    always ends the copy with a NUL, writes nowhere else, and returns the length of
    the source. *)
Theorem obsd_strlcpy_copies fuel m dst src siz l
    (Hs : string_at m src l) (Hm : mapped m dst siz) (Hsiz : 1 <= siz)
    (Hd : dst + siz <= src ∨ src + Z.of_nat (length l) < dst) (Hf : (length l < fuel)%nat) :
  ∃ m', obsd_strlcpy fuel m dst src siz = Some (Z.of_nat (length l), m') ∧ changes m dst siz m' ∧
    string_at m' dst (take (Z.to_nat (siz - 1)) l).
Proof.
  pose proof Hs as (Hz & _ & _). unfold obsd_strlcpy. destruct (Z.eqb_spec siz 0) as [|_]; [lia|].
  destruct (strlcpy_loop_ok (Z.to_nat (siz - 1)) m dst src l Hs) as (n' & m1 & d & s & -> & Hcp & C & H0 & H1);
    [intros x Hx; apply Hm; lia|lia|]. set (n := Z.to_nat (siz - 1)) in *. cbn [mbind option_bind].
  assert (Hn : Z.of_nat n = siz - 1) by lia. clearbody n. rewrite Hn in *.
  assert (Hcopy : ∀ m', (∀ x, dst <= x < dst + Z.of_nat (Nat.min n (length l)) → m' x = m1 x) →
    m' (dst + Z.of_nat (Nat.min n (length l))) = Some 0 → string_at m' dst (take n l)).
  { intros m' Hsame Hnul. split; [by apply Forall_take|]. rewrite length_take. split; [|done].
    intros i c Hi. apply lookup_take_Some in Hi as [Hi Hlt]. pose proof (lookup_lt_Some _ _ _ Hi).
    rewrite Hsame by lia. apply Hcp; [lia|done]. }
  destruct n' as [|n'].
  - destruct (H0 eq_refl) as (Hle & -> & -> & Hrest).
    destruct (store8_ok m1 (dst + (siz - 1)) 0) as (m2 & -> & L & C2); [apply (ch_mapped _ _ _ _ C), Hm; lia|]. cbn [mbind option_bind].
    pose proof (length_drop l n) as Hlen.
    rewrite (skip_string_ok (drop n l)) by (first [lia|apply (string_changes m1 _ _ _ (dst + (siz - 1)) 1); [done|done|lia]]).
    cbn [mbind option_bind]. exists m2. split; [do 2 f_equal; lia|]. split; [apply (changes_trans _ m1); eapply changes_weaken; try done; lia|].
    apply Hcopy; rewrite Nat.min_l by lia; [|rewrite <- L; f_equal; lia]. intros x Hx. apply (ch_frame _ _ _ _ C2). lia.
  - destruct (H1 ltac:(done)) as (Hlt & -> & Hnul). exists m1. split; [do 2 f_equal; lia|].
    split; [eapply changes_weaken; [done|lia..]|]. apply Hcopy; [done|]. by rewrite Nat.min_r by lia.
Qed.

(** ** target4: the second tfree *)


(** ** target2 and target3: how far they write *)
Lemma for_loop_copy out inp : ∀ n i m,
  mapped m (out + Z.of_nat i) (Z.of_nat n) → mapped m (inp + Z.of_nat i) (Z.of_nat n) →
  (out + Z.of_nat i + Z.of_nat n <= inp ∨ inp + Z.of_nat i + Z.of_nat n <= out) →
  ∃ m', for_loop n i (fun i s => s' ← (c ← s (inp + Z.of_nat i); store8 s (out + Z.of_nat i) c); Some (Next s')) m = Some m' ∧
    changes m (out + Z.of_nat i) (Z.of_nat n) m' ∧
    ∀ j, (i <= j < i + n)%nat → m' (out + Z.of_nat j) = m (inp + Z.of_nat j).
Proof.
  induction n as [|n IH]; intros i m Ho Hi Hd; cbn [for_loop]; [exists m; split_and!; [done|done|intros; lia]|].
  destruct (Hi (inp + Z.of_nat i) ltac:(lia)) as [c Hc]. rewrite Hc. cbn [mbind option_bind].
  destruct (store8_ok m (out + Z.of_nat i) c) as (m1 & -> & L & C); [apply Ho; lia|]. cbn [mbind option_bind].
  destruct (IH (S i) m1) as (m' & -> & C' & L');
    [intros x Hx; apply (ch_mapped _ _ _ _ C); first [apply Ho; lia|apply Hi; lia]..|lia|].
  exists m'. split; [done|]. split; [apply (changes_trans _ m1); eapply changes_weaken; try done; lia|].
  intros j Hj. destruct (decide (j = i)) as [->|Hne].
  - rewrite (ch_frame _ _ _ _ C') by lia. by rewrite L.
  - rewrite L' by lia. apply (ch_frame _ _ _ _ C). lia.
Qed.

(** [nstrcpy] copies the NUL's place too: with a string of [outl] bytes or more it
    writes one byte behind the buffer, the string's byte [outl]. *)
Theorem nstrcpy_writes_one_past fuel m out outl inp l
    (Hs : string_at m inp l) (Hlen : Z.of_nat (length l) < 2 ^ 31) (Hf : (length l < fuel)%nat) (Hout : 0 <= outl)
    (Hm : mapped m out (outl + 1)) (Hd : out + outl + 1 <= inp ∨ inp + Z.of_nat (length l) < out) :
  let n := Z.min (Z.of_nat (length l)) outl + 1 in
  ∃ m', nstrcpy fuel m out outl inp = Some m' ∧ changes m out n m' ∧ ∀ j, 0 <= j < n → m' (out + j) = m (inp + j).
Proof.
  intros n. unfold nstrcpy, strlen. rewrite (skip_string_ok l fuel m inp Hs Hf). cbn [mbind option_bind].
  replace (inp + Z.of_nat (length l) + 1 - inp - 1) with (Z.of_nat (length l)) by lia.
  replace (s32 (Z.of_nat (length l))) with (Z.of_nat (length l)) by (unfold s32; rewrite Z.mod_small; lia).
  cbv zeta. replace (if outl <? Z.of_nat (length l) then outl else Z.of_nat (length l)) with (n - 1)
    by (unfold n; destruct (Z.ltb_spec outl (Z.of_nat (length l))); lia).
  rewrite Z.sub_add. unfold for_each.
  destruct (for_loop_copy out inp (Z.to_nat n) 0 m) as (m' & -> & C & L).
  - intros x Hx. apply Hm. unfold n in *. lia.
  - intros x Hx. destruct Hs as (_ & Hs & Hnul). destruct (decide (x = inp + Z.of_nat (length l))) as [->|Hne]; [by eexists|].
    destruct (lookup_lt_is_Some_2 l (Z.to_nat (x - inp))) as [c Hc]; [unfold n in *; lia|].
    exists c. rewrite <- (Hs _ _ Hc). f_equal. unfold n in *. lia.
  - unfold n in *. lia.
  - exists m'. split; [done|]. split; [eapply changes_weaken; [done|unfold n in *; lia..]|].
    intros j Hj. replace j with (Z.of_nat (Z.to_nat j)) by lia. apply L. lia.
Qed.

(** [foo] of target3 looks at [count] from above only: for the count of sploit3 it
    copies 201 widgets to a buffer of 200. *)
Theorem target3_copies_201_widgets m buf inp
    (Hm : mapped m buf 5628) (Hi : mapped m inp 5628) (Hd : buf + 5628 <= inp ∨ inp + 5628 <= buf) :
  ∃ m', target3_foo m buf inp (s32 2147483849) = Some m' ∧ sizeof_widget_t * MAX_WIDGETS = 5600 ∧
    ∀ i, 0 <= i < 5628 → m' (buf + i) = m (inp + i).
Proof.
  unfold target3_foo. change (s32 2147483849 <? MAX_WIDGETS) with true.
  change (u32 (s32 2147483849 * sizeof_widget_t)) with 5628. set (k := Z.to_nat 5628).
  assert (Hk : Z.of_nat k = 5628) by (unfold k; lia). clearbody k.
  destruct (memcpy_ok m buf inp k) as (m' & -> & _ & L); [by rewrite Hk..|rewrite Hk; lia|]. rewrite Hk in L. by exists m'.
Qed.

(** ** An argument for target4 *)
Definition demo_return : Z := 3221224012. (* 0xbffffa4c, where [foo]'s return address lies *)
Definition demo_argument : Z := 3221224448. (* 0xbffffc00 *)
Definition demo_buffer : Z := 134585392. (* 0x08059c30, what the third [tmalloc] returns *)

Definition le_bytes (v : Z) : list Z := [v mod 256; v / 2 ^ 8 mod 256; v / 2 ^ 16 mod 256; v / 2 ^ 24].

(** Up to the header that [q] had, then the two words of a header. *)
Definition demo_bytes : list Z := replicate 176 65 ++ le_bytes demo_buffer ++ le_bytes demo_return ++ [0].

Definition demo_memory : memory := fun a =>
  if (demo_arena <=? a) && (a <? demo_arena + 65536) then Some 0
  else if (demo_return <=? a) && (a <? demo_return + 8) then Some 0
  else if demo_argument <=? a then demo_bytes !! Z.to_nat (a - demo_argument)
  else None.

(** With this argument target4 overwrites its return address with the address of the
    buffer. *)
Theorem target4_returns_into_the_buffer :
  match target4_foo demo_arena (Z.to_nat 1000) (mkHeap NULL NULL demo_memory) demo_argument with
  | Some (Returned h) => load32 (mem h) demo_return
  | _ => None
  end = Some demo_buffer.
Proof. vm_compute. reflexivity. Qed.

(** ** Witnesses *)

(** Two chunk headers that a string has been copied over, and the return address. *)
Definition demo_overwritten : memory := fun a =>
  if (demo_arena <=? a) && (a <? demo_arena + 24) then
    (le_bytes 134520880 ++ le_bytes demo_return ++ replicate 8 0 ++ replicate 4 0 ++ replicate 4 65) !! Z.to_nat (a - demo_arena)
  else if (demo_return <=? a) && (a <? demo_return + 8) then Some 0
  else None.

Lemma obsd_strlcpy_copies_witness :
  ∃ m', obsd_strlcpy 300 demo_memory demo_arena demo_argument 10 = Some (184, m') ∧ changes demo_memory demo_arena 10 m' ∧
    string_at m' demo_arena (replicate 9 65).
Proof.
  refine (obsd_strlcpy_copies 300 demo_memory demo_arena demo_argument 10 (take 184 demo_bytes) _ _ ltac:(lia) _ _).
  - split; [apply (bool_decide_eq_true_1 _); vm_compute; reflexivity|]. split; [|reflexivity]. intros i c Hi.
    apply lookup_take_Some in Hi as [Hi Hlt]. unfold demo_memory, demo_arena, demo_return, demo_argument.
    rewrite !(proj2 (Z.ltb_ge _ _)) by lia. rewrite !andb_false_r, (proj2 (Z.leb_le _ _)) by lia. rewrite <- Hi. f_equal. lia.
  - intros x Hx. unfold demo_memory. rewrite (proj2 (Z.leb_le _ _)), (proj2 (Z.ltb_lt _ _)) by lia. by eexists.
  - left. vm_compute. discriminate.
  - vm_compute. lia.
Defined.

