(* ===== verification/ShellParser.v ===== *)
(** * The shell of the exercises: its parser (src/mit6.828/lecture_exercises/01/sh.c)

    [gettoken], [peek] and the recursive descent parser. The parser keeps pointers into
    the line it parses, as indices here, and builds the command out of structures it
    allocates: [cmds] is the store of these, and a [struct cmd *] an index of it. *)
From Stdlib Require Import Ascii.
From S2P Require Import Prelude.

(** ** Characters *)
Definition chr (c : ascii) : Z := Z.of_nat (nat_of_ascii c).
Definition bytes (s : string) : list Z := chr <$> String.list_ascii_of_string s.

(** [strchr] finds the NUL at the end of [str] as well. *)
Definition strchr (str : list Z) (c : Z) : bool := (c =? 0) || bool_decide (c ∈ str).

(** The length of the string at [s]. *)
Fixpoint strlen_from (n : nat) (buf : list Z) (s : Z) : option Z :=
  match n with
  | O => None
  | S n => c ← buf.[s]; if c =? 0 then Some 0 else l ← strlen_from n buf (s + 1); Some (l + 1)
  end.

Definition strlen (buf : list Z) (s : Z) : option Z := strlen_from (length buf) buf s.

(** The string at [s], without its NUL. *)
Definition string_from (buf : list Z) (s : Z) : option (list Z) :=
  n ← strlen buf s; Some (take (Z.to_nat n) (drop (Z.to_nat s) buf)).

(** What [strncpy] writes: characters up to the NUL, then NULs, [n] in all. *)
Fixpoint strncpy (buf : list Z) (s : Z) (n : nat) : option (list Z) :=
  match n with
  | O => Some []
  | S n' => c ← buf.[s]; if c =? 0 then Some (replicate n 0) else l ← strncpy buf (s + 1) n'; Some (c :: l)
  end.

(** ** The structures *)
Definition MAXARGS : nat := 10.

Definition ptr : Type := option nat.

Record execcmd_t : Type := mkExec { argv : list (option (list Z)) }.
Record redircmd_t : Type := mkRedir { rtype : Z; rcmd : ptr; file : list Z; mode : Z; fd : Z }.
Record pipecmd_t : Type := mkPipe { left : ptr; right : ptr }.

(** The type field of a [struct cmd] tells which of them it is. *)
Inductive cmd : Type :=
| Exec (e : execcmd_t)
| Redir (r : redircmd_t)
| Pipe (p : pipecmd_t).

Definition O_RDONLY : Z := 0.
Definition O_WRONLY : Z := 1.
Definition O_CREAT : Z := 64.
Definition O_TRUNC : Z := 512.

(** ** Programs of the parser *)
Record store : Type := mkStore { mallocs : nat; cmds : list cmd }.

Inductive result (A : Type) : Type :=
| Value (a : A) (st : store)
| Exits (code : Z) (message : string)       (* after [message] on stderr *)
| AssertionFails
| UndefinedBehaviour
| NoFuel.
Arguments Value {A} _ _.
Arguments Exits {A} _ _.
Arguments AssertionFails {A}.
Arguments UndefinedBehaviour {A}.
Arguments NoFuel {A}.

Definition P (A : Type) : Type := store → result A.

#[export] Instance P_ret : MRet P := fun A a st => Value a st.
#[export] Instance P_bind : MBind P := fun A B f m st =>
  match m st with
  | Value a st => f a st
  | Exits c t => Exits c t
  | AssertionFails => AssertionFails
  | UndefinedBehaviour => UndefinedBehaviour
  | NoFuel => NoFuel
  end.

Definition exits {A} (code : Z) (message : string) : P A := fun _ => Exits code message.
Definition undefined {A} : P A := fun _ => UndefinedBehaviour.
Definition lift {A} (o : option A) : P A := fun st =>
  match o with Some a => Value a st | None => UndefinedBehaviour end.

(** A new structure, and a change of one. *)
Definition new (c : cmd) : P ptr := fun st =>
  Value (Some (length (cmds st))) (mkStore (mallocs st) (cmds st ++ [c])).

Definition put (p : ptr) (c : cmd) : P unit := fun st =>
  match p with
  | Some i => if bool_decide (i < length (cmds st))%nat
              then Value tt (mkStore (mallocs st) (<[i := c]> (cmds st))) else UndefinedBehaviour
  | None => UndefinedBehaviour
  end.

Definition lookup_cmd (h : list cmd) (p : ptr) : option cmd :=
  match p with Some i => h !! i | None => None end.

Definition deref (p : ptr) : P cmd := fun st =>
  match lookup_cmd (cmds st) p with Some c => Value c st | None => UndefinedBehaviour end.

(** [((struct execcmd * )p)->argv[i] = v]. *)
Definition set_argv (p : ptr) (i : Z) (v : option (list Z)) : P unit :=
  c ← deref p;
  match c with
  | Exec e => a ← lift ((argv e).[i := v]); put p (Exec (mkExec a))
  | _ => undefined
  end.

(** ** Tokens *)
Definition whitespace : list Z := [32; 9; 13; 10; 11].
Definition symbols : list Z := bytes "<|>".

(** [while(s < es && test( *s)) s++], with [n] = [es - s]. *)
Fixpoint scan_loop (test : Z → bool) (buf : list Z) (n : nat) (s : Z) : option Z :=
  match n with
  | O => Some s
  | S n => c ← buf.[s]; if test c then scan_loop test buf n (s + 1) else Some s
  end.

Definition scan (test : Z → bool) (buf : list Z) (es s : Z) : option Z :=
  scan_loop test buf (Z.to_nat (es - s)) s.

Definition blank (c : Z) : bool := strchr whitespace c.
Definition in_word (c : Z) : bool := negb (strchr whitespace c) && negb (strchr symbols c).

(** The token, [*q], [*eq] and the new [*ps]. *)
Definition gettoken (buf : list Z) (ps es : Z) : option (Z * Z * Z * Z) :=
  s ← scan blank buf es ps;
  let q := s in
  c ← buf.[s];
  '(ret, s) ←
    (if c =? 0 then Some (c, s)
     else if (c =? chr "|") || (c =? chr "<") then Some (c, s + 1)
     else if c =? chr ">" then Some (c, s + 1)
     else s ← scan in_word buf es s; Some (chr "a", s));
  let eq := s in
  s ← scan blank buf es s;
  Some (ret, q, eq, s).

Definition peek (buf : list Z) (ps es : Z) (toks : list Z) : option (bool * Z) :=
  s ← scan blank buf es ps;
  c ← buf.[s];
  Some (negb (c =? 0) && strchr toks c, s).

(** ** Constructors and parser

    [malloc_ok n]: whether the [n]th call of [malloc] succeeds. *)
Section parser.
Context (malloc_ok : nat → bool) (buf : list Z).

Definition malloc : P bool := fun st =>
  Value (malloc_ok (mallocs st)) (mkStore (S (mallocs st)) (cmds st)).

(** [malloc], whose result [memset] then clears whatever it is. *)
Definition alloc (c : cmd) : P ptr := ok ← malloc; if (ok : bool) then new c else undefined.

Definition execcmd : P ptr := alloc (Exec (mkExec (replicate MAXARGS None))).

Definition redircmd (subcmd : ptr) (file : list Z) (type : Z) : P ptr :=
  alloc (Redir (mkRedir type subcmd file
    (if type =? chr "<" then O_RDONLY else Z.lor (Z.lor O_WRONLY O_CREAT) O_TRUNC)
    (if type =? chr "<" then 0 else 1))).

Definition pipecmd (l r : ptr) : P ptr := alloc (Pipe (mkPipe l r)).

Definition mkcopy (s es : Z) : P (list Z) :=
  let n := Z.to_nat (es - s) in
  ok ← malloc;
  if (ok : bool) then c ← lift (strncpy buf s n); mret (c ++ [0]) else fun _ => AssertionFails.

(** The new [*ps] is part of the result. *)
Fixpoint parseredirs (fuel : nat) (c : ptr) (ps es : Z) : P (ptr * Z) :=
  match fuel with
  | O => fun _ => NoFuel
  | S fuel =>
      '(b, ps) ← lift (peek buf ps es (bytes "<>"));
      if negb b then mret (c, ps) else
      '(tok, _, _, ps) ← lift (gettoken buf ps es);
      '(t, q, eq, ps) ← lift (gettoken buf ps es);
      if negb (t =? chr "a") then exits (-1) "missing file for redirection" else
      c ← (if tok =? chr "<" then f ← mkcopy q eq; redircmd c f (chr "<")
           else if tok =? chr ">" then f ← mkcopy q eq; redircmd c f (chr ">")
           else mret c);
      parseredirs fuel c ps es
  end.

(** The loop of [parseexec]; [c] is the command of its words and [ret] what is returned,
    [c] inside of redirections. *)
Fixpoint parseexec_loop (fuel : nat) (c ret : ptr) (argc ps es : Z) : P (ptr * Z) :=
  match fuel with
  | O => fun _ => NoFuel
  | S fuel' =>
      '(b, ps) ← lift (peek buf ps es (bytes "|"));
      if (b : bool) then set_argv c argc None ≫= fun _ => mret (ret, ps) else
      '(tok, q, eq, ps) ← lift (gettoken buf ps es);
      if tok =? 0 then set_argv c argc None ≫= fun _ => mret (ret, ps) else
      if negb (tok =? chr "a") then exits (-1) "syntax error" else
      w ← mkcopy q eq;
      set_argv c argc (Some w) ≫= fun _ =>
      let argc := argc + 1 in
      if Z.of_nat MAXARGS <=? argc then exits (-1) "too many args" else
      '(ret, ps) ← parseredirs fuel ret ps es;
      parseexec_loop fuel' c ret argc ps es
  end.

Definition parseexec (fuel : nat) (ps es : Z) : P (ptr * Z) :=
  ret ← execcmd;
  let c := ret in
  '(ret, ps) ← parseredirs fuel ret ps es;
  parseexec_loop fuel c ret 0 ps es.

Fixpoint parsepipe (fuel : nat) (ps es : Z) : P (ptr * Z) :=
  match fuel with
  | O => fun _ => NoFuel
  | S fuel' =>
      '(c, ps) ← parseexec fuel ps es;
      '(b, ps) ← lift (peek buf ps es (bytes "|"));
      if (b : bool) then
        '(_, _, _, ps) ← lift (gettoken buf ps es);
        '(r, ps) ← parsepipe fuel' ps es;
        c ← pipecmd c r;
        mret (c, ps)
      else mret (c, ps)
  end.

Definition parseline (fuel : nat) (ps es : Z) : P (ptr * Z) := parsepipe fuel ps es.

Definition parsecmd (fuel : nat) (s : Z) : P ptr :=
  n ← lift (strlen buf s);
  let es := s + n in
  '(c, s) ← parseline fuel s es;
  '(_, s) ← lift (peek buf s es []);
  if negb (s =? es) then exits (-1) "leftovers: %s" else mret c.
End parser.
