(* ===== verification/ShellGrammar.v ===== *)
(** * What the shell's parser should do

    A line is cut into words and symbols; the tokens between two bars are a program with
    its arguments and redirections, and a later redirection goes around an earlier one.
    [parse] is this on lists, without pointers and without a store. [print_tree] writes
    a command as a line again. *)
From Stdlib Require Import Ascii.
From S2P Require Import Prelude.
From S2P Require Import ShellParser.

Abbreviation word := (list Z).

(** ** Lexer *)
Inductive token : Type :=
| Word (w : word)
| Sym (c : Z).

Definition flush (w : word) : list token := match w with [] => [] | _ => [Word w] end.

(** [w]: the word we are in. *)
Fixpoint lex_from (w t : word) : list token :=
  match t with
  | [] => flush w
  | c :: t =>
      if bool_decide (c ∈ whitespace) then flush w ++ lex_from [] t
      else if bool_decide (c ∈ symbols) then flush w ++ Sym c :: lex_from [] t
      else lex_from (w ++ [c]) t
  end.

Definition lex (t : word) : list token := lex_from [] t.

(** ** Parser *)
Inductive tree : Type :=
| TExec (args : list word)
| TRedir (c : Z) (f : word) (t : tree)
| TPipe (l r : tree).

(** Redirections, the innermost first, around a program. *)
Definition wrap (rs : list (Z * word)) (t : tree) : tree := foldl (fun t r => TRedir r.1 r.2 t) t rs.
Definition segment (args : list word) (rs : list (Z * word)) : tree := wrap rs (TExec args).

Inductive parse_error : Type := MissingFile | TooManyArgs.

Definition message (e : parse_error) : string :=
  match e with MissingFile => "missing file for redirection" | TooManyArgs => "too many args" end.

(** After the arguments [args] and redirections [rs] of the segment we are in. *)
Fixpoint parse_from (args : list word) (rs : list (Z * word)) (ts : list token) : parse_error + tree :=
  match ts with
  | [] => inr (segment args rs)
  | Word w :: ts =>
      if bool_decide (MAXARGS <= S (length args))%nat then inl TooManyArgs
      else parse_from (args ++ [w]) rs ts
  | Sym c :: ts =>
      if c =? chr "|" then
        match parse_from [] [] ts with
        | inl e => inl e
        | inr r => inr (TPipe (segment args rs) r)
        end
      else
        match ts with
        | Word f :: ts => parse_from args (rs ++ [(c, f)]) ts
        | _ => inl MissingFile
        end
  end.

Definition parse (t : word) : parse_error + tree := parse_from [] [] (lex t).

(** ** Commands as lines *)
Fixpoint tokens (t : tree) : list token :=
  match t with
  | TExec args => Word <$> args
  | TRedir c f t => tokens t ++ [Sym c; Word f]
  | TPipe l r => tokens l ++ Sym (chr "|") :: tokens r
  end.

Definition print_token (k : token) : word :=
  match k with Word w => w ++ [chr " "] | Sym c => [c] end.

Definition print_tokens (ts : list token) : word := ts ≫= print_token.
Definition print_tree (t : tree) : word := print_tokens (tokens t).

(** A word that can be typed, and the commands that can. *)
Definition typed (w : word) : Prop := w ≠ [] ∧ Forall (fun c => c ∉ whitespace ∧ c ∉ symbols ∧ c ≠ 0) w.

Fixpoint simple (t : tree) : Prop :=
  match t with
  | TExec args => (length args < MAXARGS)%nat ∧ Forall typed args
  | TRedir c f t => (c = chr "<" ∨ c = chr ">") ∧ typed f ∧ simple t
  | TPipe _ _ => False
  end.

Fixpoint printable (t : tree) : Prop :=
  match t with TPipe l r => simple l ∧ printable r | _ => simple t end.

(** ** Trees in the parser's store *)
Definition c_string (w : word) : list Z := w ++ [0].

Definition argv_of (args : list word) : list (option (list Z)) :=
  (Some ∘ c_string <$> args) ++ replicate (MAXARGS - length args) None.

Definition mode_of (c : Z) : Z := if c =? chr "<" then O_RDONLY else Z.lor (Z.lor O_WRONLY O_CREAT) O_TRUNC.
Definition fd_of (c : Z) : Z := if c =? chr "<" then 0 else 1.

Fixpoint repr (h : list cmd) (p : ptr) (t : tree) : Prop :=
  match t with
  | TExec args => lookup_cmd h p = Some (Exec (mkExec (argv_of args)))
  | TRedir c f t => ∃ q, lookup_cmd h p = Some (Redir (mkRedir c q (c_string f) (mode_of c) (fd_of c))) ∧ repr h q t
  | TPipe l r => ∃ a b, lookup_cmd h p = Some (Pipe (mkPipe a b)) ∧ repr h a l ∧ repr h b r
  end.

(** [h'] holds what [h] holds, and possibly more. *)
Definition extends (h h' : list cmd) : Prop := ∀ p c, lookup_cmd h p = Some c → lookup_cmd h' p = Some c.

#[export] Instance extends_preorder : PreOrder extends.
Proof. split; [by intros h p c|]. intros h1 h2 h3 H1 H2 p c H. by apply H2, H1. Qed.

Lemma extends_app h k : extends h (h ++ k).
Proof. intros [i|] c; [|done]. simpl. intros. by apply lookup_app_l_Some. Qed.

Lemma repr_extends h h' p t : extends h h' → repr h p t → repr h' p t.
Proof.
  intros Hx. revert p. induction t as [args|c f t IH|l IHl r IHr]; simpl; intros p; [apply Hx| |].
  - intros (q & ?%Hx & ?). eauto.
  - intros (a & b & ?%Hx & ? & ?). eauto 10.
Qed.

(** ** The lexer, word by word *)
Fixpoint prefix (test : Z → bool) (t : word) : word :=
  match t with [] => [] | c :: t => if test c then c :: prefix test t else [] end.

Fixpoint suffix (test : Z → bool) (t : word) : word :=
  match t with [] => [] | c :: t' => if test c then suffix test t' else t end.

Lemma prefix_suffix test t : prefix test t ++ suffix test t = t.
Proof. induction t as [|c t IH]; simpl; [done|]. destruct (test c); simpl; by rewrite ?IH. Qed.

Lemma suffix_head test t c t' : suffix test t = c :: t' → test c = false.
Proof. induction t as [|d t IH]; simpl; [done|]. destruct (test d) eqn:?; [done|]. by intros [= <- _]. Qed.

Lemma suffix_length test t : (length (suffix test t) <= length t)%nat.
Proof. induction t as [|c t IH]; simpl; [lia|]. destruct (test c); simpl; lia. Qed.

Lemma suffix_notin test t x : x ∉ t → x ∉ suffix test t.
Proof. rewrite <- (prefix_suffix test t) at 1. set_solver. Qed.

Lemma blank_spec c : c ≠ 0 → blank c = bool_decide (c ∈ whitespace).
Proof. intros. unfold blank, strchr. by destruct (Z.eqb_spec c 0). Qed.

Lemma in_word_spec c :
  c ≠ 0 → in_word c = negb (bool_decide (c ∈ whitespace)) && negb (bool_decide (c ∈ symbols)).
Proof. intros. unfold in_word, strchr. by destruct (Z.eqb_spec c 0). Qed.

Lemma lex_skip t : 0 ∉ t → lex (suffix blank t) = lex t.
Proof.
  intros. unfold lex. induction t as [|c t IH]; simpl; [done|].
  rewrite blank_spec by set_solver. case_bool_decide as Hc; simpl.
  - apply IH. set_solver.
  - by rewrite bool_decide_eq_false_2.
Qed.

Lemma symbol_not_blank c : c ∈ symbols → c ∉ whitespace.
Proof.
  change symbols with [60; 124; 62]. unfold whitespace. rewrite !elem_of_cons, elem_of_nil.
  lia.
Qed.

Lemma lex_sym c t : c ∈ symbols → lex (c :: t) = Sym c :: lex t.
Proof.
  intros Hc. unfold lex. simpl.
  by rewrite (bool_decide_eq_false_2 _ (symbol_not_blank c Hc)), bool_decide_eq_true_2.
Qed.

Lemma lex_from_word w t :
  0 ∉ t → lex_from w t = flush (w ++ prefix in_word t) ++ lex (suffix in_word t).
Proof.
  revert w. induction t as [|c t IH]; intros w Ht; simpl; [by rewrite !app_nil_r|].
  rewrite in_word_spec by set_solver. do 2 case_bool_decide; simpl; unfold lex; simpl.
  1-3: rewrite ?bool_decide_eq_true_2, ?bool_decide_eq_false_2, ?app_nil_r by done; try done.
  - by rewrite bool_decide_eq_true_2 by done.
  - rewrite IH by set_solver. by rewrite <- app_assoc.
Qed.

Lemma lex_word t :
  0 ∉ t → prefix in_word t ≠ [] → lex t = Word (prefix in_word t) :: lex (suffix in_word t).
Proof. intros ? Hw. unfold lex. rewrite lex_from_word by done. simpl. by destruct (prefix in_word t). Qed.

(** ** Printing and parsing *)
Abbreviation typed_char := (fun c => c ∉ whitespace ∧ c ∉ symbols ∧ c ≠ 0).

Lemma lex_from_typed v w t :
  Forall typed_char w → lex_from v (w ++ chr " " :: t) = flush (v ++ w) ++ lex t.
Proof.
  revert v. induction w as [|d w IH]; intros v; simpl.
  - intros _. by rewrite app_nil_r.
  - intros ((? & ? & ?) & ?)%Forall_cons. rewrite !bool_decide_eq_false_2 by done.
    rewrite IH by done. by rewrite <- app_assoc.
Qed.

Lemma lex_print_word w t : typed w → lex (w ++ chr " " :: t) = Word w :: lex t.
Proof. intros [Hne Hw]. unfold lex at 1. rewrite lex_from_typed by done. by destruct w. Qed.

Definition printable_token (k : token) : Prop :=
  match k with Word w => typed w | Sym c => c ∈ symbols end.

Lemma lex_print ts : Forall printable_token ts → lex (print_tokens ts) = ts.
Proof.
  induction 1 as [|k ts Hk Hts IH]; [done|]. destruct k as [w|c].
  - change (lex ((w ++ [chr " "]) ++ print_tokens ts) = Word w :: ts). rewrite <- app_assoc. simpl. rewrite lex_print_word by done. by rewrite IH.
  - change (lex (c :: print_tokens ts) = Sym c :: ts). rewrite lex_sym by done. by rewrite IH.
Qed.

Lemma simple_tokens t : simple t → Forall printable_token (tokens t).
Proof.
  induction t as [args|c f t IH|]; simpl; [|intros (Hc & ? & ?)|done].
  - intros [_ H]. by apply Forall_fmap.
  - apply Forall_app. split; [by apply IH|]. apply Forall_cons_2; [|by apply Forall_cons_2].
    destruct Hc as [->| ->]; by apply (bool_decide_unpack _).
Qed.

Lemma printable_tokens t : printable t → Forall printable_token (tokens t).
Proof.
  induction t as [| |l _ r IH]; [apply simple_tokens..|]. simpl. intros [? ?]. apply Forall_app. split; [by apply simple_tokens|]. apply Forall_cons_2; [|auto].
  by apply (bool_decide_unpack _).
Qed.

(** The arguments and redirections of a command without bars. *)
Fixpoint simple_args (t : tree) : list word :=
  match t with TExec args => args | TRedir _ _ t => simple_args t | TPipe _ _ => [] end.
Fixpoint simple_redirs (t : tree) : list (Z * word) :=
  match t with TRedir c f t => simple_redirs t ++ [(c, f)] | _ => [] end.

Lemma simple_segment t : simple t → segment (simple_args t) (simple_redirs t) = t.
Proof.
  unfold segment, wrap. induction t as [|c f t IH|]; simpl; [done| |done].
  intros (_ & _ & ?). rewrite foldl_app. simpl. by rewrite IH.
Qed.

Lemma parse_words args args0 rs ts :
  (length args0 + length args < MAXARGS)%nat →
  parse_from args0 rs ((Word <$> args) ++ ts) = parse_from (args0 ++ args) rs ts.
Proof.
  revert args0. induction args as [|w args IH]; intros args0 H; simpl in *; [by rewrite app_nil_r|].
  rewrite bool_decide_eq_false_2 by lia. rewrite IH by (rewrite length_app; simpl; lia).
  by rewrite <- app_assoc.
Qed.

Lemma parse_simple t ts :
  simple t → parse_from [] [] (tokens t ++ ts) = parse_from (simple_args t) (simple_redirs t) ts.
Proof.
  revert ts. induction t as [args|c f t IH|]; simpl; intros ts; [|intros (Hc & ? & ?)|done].
  - intros [? _]. by rewrite parse_words.
  - rewrite <- app_assoc. rewrite IH by done. simpl. by destruct Hc as [->| ->].
Qed.

Lemma parse_tokens t : printable t → parse_from [] [] (tokens t) = inr t.
Proof.
  assert (Hs : ∀ t, simple t → parse_from [] [] (tokens t) = inr t).
  { intros u Hu. rewrite <- (app_nil_r (tokens u)). rewrite parse_simple by done. simpl.
    by rewrite simple_segment. }
  induction t as [| |l _ r IH]; [apply Hs..|]. simpl. intros [Hl Hr].
  rewrite parse_simple by done. simpl. by rewrite IH, simple_segment.
Qed.

Lemma parse_print t : printable t → parse (print_tree t) = inr t.
Proof.
  intros. unfold parse, print_tree. rewrite lex_print by by apply printable_tokens. by apply parse_tokens.
Qed.

(** Nothing printable holds a NUL. *)
Lemma print_token_no_nul k : printable_token k → 0 ∉ print_token k.
Proof.
  destruct k as [w|c]; simpl.
  - intros [_ Hw] [H0|H0]%elem_of_app; [|by apply list_elem_of_singleton in H0].
    rewrite Forall_forall in Hw. by destruct (Hw 0 H0) as (_ & _ & ?).
  - change symbols with [60; 124; 62]. rewrite !elem_of_cons, !elem_of_nil. lia.
Qed.

Lemma print_no_nul t : printable t → 0 ∉ print_tree t.
Proof.
  intros H%printable_tokens [k [Hk Hin]]%list_elem_of_bind. rewrite Forall_forall in H.
  by apply (print_token_no_nul k); [apply H|].
Qed.
