(* ===== verification/ShellRefine.v ===== *)
(** * The shell's parser implements its grammar

    Positions of the line are related to the tokens that are left
    ([at_tokens]), pointers to trees ([repr]); [parse_from] of what is left is the same
    before and after every loop of the parser. *)
From Stdlib Require Import Ascii.
From S2P Require Import Prelude.
From S2P Require Import ShellParser.
From S2P Require Import ShellGrammar.

(** ** Positions *)

(** From [s] to the NUL at [es] the buffer holds [t]. *)
Record at_text (buf : list Z) (s es : Z) (t : word) : Prop := {
  at_nonneg : 0 <= s;
  at_end : es = s + Z.of_nat (length t);
  at_no_nul : 0 ∉ t;
  at_bytes : ∃ rest, drop (Z.to_nat s) buf = t ++ 0 :: rest;
}.

Definition at_tokens (buf : list Z) (s es : Z) (ts : list token) : Prop :=
  ∃ t, at_text buf s es t ∧ lex t = ts.

(** The word at [q], which ends before [eq]. *)
Definition word_at (buf : list Z) (q eq : Z) (w : word) : Prop :=
  0 ∉ w ∧ 0 <= q ∧ eq = q + Z.of_nat (length w) ∧ ∃ rest, drop (Z.to_nat q) buf = w ++ rest.

Lemma zlookup_drop {A} (l : list A) s c rest :
  0 <= s → drop (Z.to_nat s) l = c :: rest → l.[s] = Some c.
Proof.
  intros Hs H. apply zlookup_Some. split; [done|].
  rewrite <- (Nat.add_0_r (Z.to_nat s)), <- lookup_drop, H. done.
Qed.

Lemma drop_next {A} (l : list A) s c rest :
  0 <= s → drop (Z.to_nat s) l = c :: rest → drop (Z.to_nat (s + 1)) l = rest.
Proof.
  intros Hs H. replace (Z.to_nat (s + 1)) with (Z.to_nat s + 1)%nat by lia.
  by rewrite <- drop_drop, H.
Qed.

Section positions.
Context (buf : list Z).

Lemma at_cons s es c t :
  at_text buf s es (c :: t) → buf.[s] = Some c ∧ c ≠ 0 ∧ s < es ∧ at_text buf (s + 1) es t.
Proof.
  intros [Hs -> Hn [rest H]]. simpl in *. split_and!.
  - by eapply zlookup_drop.
  - set_solver.
  - lia.
  - split; [lia|lia|set_solver|]. exists rest. by apply (drop_next _ _ c).
Qed.

Lemma at_nil s es : at_text buf s es [] → buf.[s] = Some 0 ∧ s = es.
Proof. intros [Hs -> _ [rest H]]. simpl in *. split; [by eapply zlookup_drop|lia]. Qed.

Lemma at_le s es t : at_text buf s es t → s <= es.
Proof. intros [? -> _ _]. lia. Qed.

(** A [while] that skips characters. *)
Lemma scan_at test s es t :
  at_text buf s es t →
  ∃ s', scan test buf es s = Some s' ∧ at_text buf s' es (suffix test t) ∧ s <= s' ∧
    word_at buf s s' (prefix test t).
Proof.
  intros H. unfold scan. replace (Z.to_nat (es - s)) with (length t) by (destruct H; lia).
  revert s H. induction t as [|c t IH]; intros s H; simpl.
  - exists s. split_and!; [done|done|lia|]. destruct H as [? _ _ [r ?]].
    split_and!; [set_solver|lia|simpl; lia|eauto].
  - destruct (at_cons _ _ _ _ H) as (-> & Hc & Hlt & H'). simpl. destruct (test c).
    + destruct (IH _ H') as (s' & -> & ? & ? & Hw & ? & ? & r & Hr). exists s'.
      split_and!; [done|done|lia|]. destruct H as [? _ _ [rest Hd]].
      split_and!; [set_solver|lia|simpl; lia|]. exists r. simpl.
      pose proof (drop_next buf s c _ ltac:(lia) Hd) as Hn. rewrite Hn in Hr. rewrite Hd. simpl. by f_equal.
    + exists s. split_and!; [done|done|lia|]. destruct H as [? _ _ [r ?]].
      split_and!; [set_solver|lia|simpl; lia|]. by exists (drop (Z.to_nat s) buf).
Qed.

(** Blanks do not matter. *)
Lemma skip_blanks s es ts :
  at_tokens buf s es ts →
  ∃ s' t, scan blank buf es s = Some s' ∧ s <= s' ∧ at_text buf s' es t ∧ lex t = ts ∧
    ∀ c t', t = c :: t' → c ∉ whitespace.
Proof.
  intros (t & H & <-). destruct (scan_at blank _ _ _ H) as (s' & -> & H' & ? & _).
  exists s', (suffix blank t). pose proof (at_no_nul _ _ _ _ H).
  split_and!; [done|done|done|by apply lex_skip|]. intros c t' Hc. pose proof (suffix_head _ _ _ _ Hc) as Hb.
  rewrite blank_spec in Hb; [by apply bool_decide_eq_false in Hb|].
  pose proof (suffix_notin blank t 0 ltac:(done)) as Hn. rewrite Hc in Hn. set_solver.
Qed.

(** The first characters of a token. *)
Definition starts (toks : list Z) (ts : list token) : bool :=
  match ts with Sym c :: _ => bool_decide (c ∈ toks) | _ => false end.

Lemma lex_cons_word c t :
  0 ∉ c :: t → c ∉ whitespace → c ∉ symbols →
  prefix in_word (c :: t) = c :: prefix in_word t ∧
  lex (c :: t) = Word (c :: prefix in_word t) :: lex (suffix in_word t).
Proof.
  intros Hn ? ?. assert (Hp : prefix in_word (c :: t) = c :: prefix in_word t).
  { simpl. rewrite in_word_spec by set_solver. by rewrite !bool_decide_eq_false_2. }
  split; [done|]. rewrite lex_word, Hp by (done || by rewrite Hp). simpl.
  rewrite in_word_spec by set_solver. by rewrite !bool_decide_eq_false_2.
Qed.

Lemma peek_at ps es ts toks :
  at_tokens buf ps es ts → toks ⊆ symbols →
  ∃ ps', peek buf ps es toks = Some (starts toks ts, ps') ∧ ps <= ps' ∧ at_tokens buf ps' es ts.
Proof.
  intros H Htoks. destruct (skip_blanks _ _ _ H) as (s' & t & Hs & ? & Hat & <- & Hb). unfold peek. rewrite Hs. simpl.
  exists s'. destruct t as [|c t].
  - destruct (at_nil _ _ Hat) as [-> _]. simpl. split_and!; [done|done|by exists []].
  - destruct (at_cons _ _ _ _ Hat) as (-> & Hc & _ & _). simpl. split_and!; [|done|by exists (c :: t)].
    unfold strchr. destruct (Z.eqb_spec c 0); [done|]. simpl. do 2 f_equal.
    destruct (decide (c ∈ symbols)) as [Hsym|Hsym]; [by rewrite lex_sym|].
    destruct (lex_cons_word c t) as [_ ->]; [by destruct Hat|by eapply Hb|done|].
    simpl. apply bool_decide_eq_false_2. set_solver.
Qed.

(** What [gettoken] returns, by the tokens that are left. *)
Definition got (ret q eq : Z) (ts ts' : list token) : Prop :=
  match ts with
  | [] => ret = 0 ∧ ts' = []
  | Sym c :: ts => ret = c ∧ ts' = ts ∧ c ∈ symbols
  | Word w :: ts => ret = chr "a" ∧ ts' = ts ∧ word_at buf q eq w
  end.

Lemma gettoken_at ps es ts :
  at_tokens buf ps es ts →
  ∃ ret q eq ps' ts', gettoken buf ps es = Some (ret, q, eq, ps') ∧ at_tokens buf ps' es ts' ∧
    ps <= ps' ∧ (ts ≠ [] → ps < ps') ∧ got ret q eq ts ts'.
Proof.
  intros H. destruct (skip_blanks _ _ _ H) as (s & t & Hs & ? & Hat & <- & Hb). unfold gettoken. rewrite Hs.
  cbn [mbind option_bind]. destruct t as [|c t].
  - destruct (at_nil _ _ Hat) as [-> ->]. simpl. unfold scan. rewrite Z.sub_diag. simpl.
    exists 0, es, es, es, []. split_and!; [done|by exists []|lia|done..].
  - destruct (at_cons _ _ _ _ Hat) as (-> & Hc & Hlt & Hat').
    cbn [mbind option_bind]. destruct (Z.eqb_spec c 0); [done|].
    assert (Hend : ∀ s' t', at_text buf s' es t' → ∃ s'', scan blank buf es s' = Some s'' ∧ s' <= s'' ∧
              at_tokens buf s'' es (lex t')).
    { intros s' t' Ht'. destruct (skip_blanks s' es (lex t')) as (s'' & u & ? & ? & ? & ? & _); [by exists t'|].
      exists s''. split_and!; [done|done|by exists u]. }
    destruct (decide (c ∈ symbols)) as [Hsym|Hsym].
    + destruct (Hend _ _ Hat') as (s'' & He & ? & ?).
      exists c, s, (s + 1), s'', (lex t). rewrite lex_sym by done. split_and!; [|done|lia|lia|done..].
      revert Hsym. change symbols with [60; 124; 62]. rewrite !elem_of_cons, elem_of_nil.
      intros [->|[->|[->|[]]]]; simpl; by rewrite He.
    + destruct (scan_at in_word _ _ _ Hat) as (s1 & Hs1 & Hat1 & ? & Hw).
      destruct (lex_cons_word c t) as [Hp Hl]; [by destruct Hat|by eapply Hb|done|].
      assert (Hsuf : suffix in_word (c :: t) = suffix in_word t).
      { apply (app_inv_head (prefix in_word (c :: t))). rewrite prefix_suffix, Hp. simpl. by rewrite prefix_suffix. }
      rewrite Hsuf in Hat1. rewrite Hp in Hw. destruct (Hend _ _ Hat1) as (s'' & He & ? & ?).
      exists (chr "a"), s, s1, s'', (lex (suffix in_word t)). rewrite Hl.
      assert (s < s1) by (destruct Hw as (_ & _ & -> & _); simpl; lia).
      split_and!; [|done|lia|lia|done]. revert Hsym. change symbols with [60; 124; 62].
      rewrite !elem_of_cons, elem_of_nil. intros Hsym. change (chr "|") with 124. change (chr "<") with 60.
      change (chr ">") with 62. destruct (Z.eqb_spec c 124), (Z.eqb_spec c 60), (Z.eqb_spec c 62); try lia.
      simpl. rewrite Hs1. simpl. by rewrite He.
Qed.

Lemma strncpy_word w q rest :
  0 ∉ w → 0 <= q → drop (Z.to_nat q) buf = w ++ rest → strncpy buf q (length w) = Some w.
Proof.
  revert q. induction w as [|c w IH]; intros q Hn Hq Hd; simpl in *; [done|].
  rewrite (zlookup_drop _ _ _ _ Hq Hd). simpl. destruct (Z.eqb_spec c 0); [set_solver|].
  rewrite IH; [done|set_solver|lia|]. by apply (drop_next _ _ c).
Qed.
(** The string at a position. *)
Lemma strlen_finds_nul t rest n s :
  0 <= s → drop (Z.to_nat s) buf = t ++ 0 :: rest → 0 ∉ t → (length t < n)%nat →
  strlen_from n buf s = Some (Z.of_nat (length t)).
Proof.
  revert t s. induction n as [|n IH]; intros t s Hs Hd Hn Hl; [lia|]. simpl. destruct t as [|c t]; simpl in *.
  - by rewrite (zlookup_drop _ _ _ _ Hs Hd).
  - rewrite (zlookup_drop _ _ _ _ Hs Hd). simpl. destruct (Z.eqb_spec c 0); [set_solver|].
    rewrite (IH t); [simpl; f_equal; lia|lia| |set_solver|lia]. by apply (drop_next _ _ c).
Qed.
End positions.

(** ** Structures *)

(** [p] points to redirections [rs], the innermost first, around [e]. *)
Inductive chain (h : list cmd) (e : ptr) : ptr → list (Z * word) → Prop :=
| chain_nil : chain h e e []
| chain_snoc p q rs c f :
    chain h e q rs → lookup_cmd h p = Some (Redir (mkRedir c q (c_string f) (mode_of c) (fd_of c))) →
    chain h e p (rs ++ [(c, f)]).

Lemma chain_repr h e p rs t : chain h e p rs → repr h e t → repr h p (wrap rs t).
Proof.
  induction 1 as [|p q rs c f _ IH Hp]; [done|]. intros Ht. unfold wrap. rewrite foldl_app. simpl.
  exists q. split; [done|]. by apply IH.
Qed.

Lemma chain_extends h h' e p rs : extends h h' → chain h e p rs → chain h' e p rs.
Proof. intros Hx. induction 1; [constructor|]. econstructor; [done|]. by apply Hx. Qed.

(** Everything but [e] is still there. *)
Definition extends_but (e : ptr) (h h' : list cmd) : Prop :=
  ∀ p c, p ≠ e → lookup_cmd h p = Some c → lookup_cmd h' p = Some c.

Lemma extends_but_trans e h1 h2 h3 : extends_but e h1 h2 → extends_but e h2 h3 → extends_but e h1 h3.
Proof. unfold extends_but. eauto. Qed.

Lemma extends_extends_but e h h' : extends h h' → extends_but e h h'.
Proof. intros H p c _. apply H. Qed.

Lemma chain_extends_but h h' e p rs x :
  extends_but e h h' → lookup_cmd h e = Some (Exec x) → chain h e p rs → chain h' e p rs.
Proof.
  intros Hx He. induction 1 as [|p q rs c f _ IH Hp]; [constructor|]. econstructor; [done|].
  apply Hx; [|done]. intros ->. congruence.
Qed.

(** ** Operations on the store *)
Section parser.
Context (malloc_ok : nat → bool) (memory : ∀ n, malloc_ok n = true) (buf : list Z).

Lemma bind_value {A B} (m : P A) (f : A → P B) st a st' :
  m st = Value a st' → (m ≫= f) st = f a st'.
Proof. unfold mbind, P_bind. by intros ->. Qed.

Lemma bind_exits {A B} (m : P A) (f : A → P B) st c t : m st = Exits c t → (m ≫= f) st = Exits c t.
Proof. unfold mbind, P_bind. by intros ->. Qed.

Lemma alloc_value c st :
  alloc malloc_ok c st = Value (Some (length (cmds st))) (mkStore (S (mallocs st)) (cmds st ++ [c])).
Proof. unfold alloc. erewrite bind_value by done. simpl. by rewrite memory. Qed.

Lemma lookup_new h c : lookup_cmd (h ++ [c]) (Some (length h)) = Some c.
Proof. simpl. by rewrite lookup_app_r, Nat.sub_diag by lia. Qed.

Lemma mkcopy_word q eq w st :
  word_at buf q eq w →
  mkcopy malloc_ok buf q eq st = Value (c_string w) (mkStore (S (mallocs st)) (cmds st)).
Proof.
  intros (Hn & Hq & -> & rest & Hd). unfold mkcopy. erewrite bind_value by done. simpl. rewrite memory.
  replace (Z.to_nat (q + Z.of_nat (length w) - q)) with (length w) by lia.
  by rewrite (strncpy_word buf w q rest).
Qed.

Lemma redircmd_value c f rs p e st :
  chain (cmds st) e p rs →
  ∃ p' st', redircmd malloc_ok p (c_string f) c st = Value p' st' ∧ extends (cmds st) (cmds st') ∧
    chain (cmds st') e p' (rs ++ [(c, f)]).
Proof.
  intros Hc. unfold redircmd. rewrite alloc_value. eexists _, _. split; [done|]. simpl.
  split; [apply extends_app|]. econstructor; [by eapply chain_extends; [apply extends_app|]|]. apply lookup_new.
Qed.

Lemma redirection_value c f rs p e q eq st :
  chain (cmds st) e p rs → word_at buf q eq f →
  ∃ p' st', (x ← mkcopy malloc_ok buf q eq; redircmd malloc_ok p x c) st = Value p' st' ∧
    extends (cmds st) (cmds st') ∧ chain (cmds st') e p' (rs ++ [(c, f)]).
Proof.
  intros Hc Hw. erewrite bind_value by by apply mkcopy_word.
  exact (redircmd_value c f rs p e (mkStore _ (cmds st)) Hc).
Qed.

Lemma argv_of_insert args v :
  (length args < MAXARGS)%nat →
  (argv_of args).[Z.of_nat (length args) := v] =
    Some ((Some ∘ c_string <$> args) ++ v :: replicate (MAXARGS - S (length args)) None).
Proof.
  intros H. rewrite zupdate_nat.
  - f_equal. unfold argv_of. rewrite insert_app_r_alt by (rewrite length_fmap; lia).
    rewrite length_fmap, Nat.sub_diag. by replace (MAXARGS - length args)%nat with (S (MAXARGS - S (length args))) by lia.
  - unfold argv_of. rewrite length_app, length_fmap, length_replicate. lia.
Qed.

Lemma set_argv_value i args v st :
  (length args < MAXARGS)%nat → lookup_cmd (cmds st) (Some i) = Some (Exec (mkExec (argv_of args))) →
  ∃ st', set_argv (Some i) (Z.of_nat (length args)) v st = Value tt st' ∧
    extends_but (Some i) (cmds st) (cmds st') ∧
    lookup_cmd (cmds st') (Some i) =
      Some (Exec (mkExec ((Some ∘ c_string <$> args) ++ v :: replicate (MAXARGS - S (length args)) None))).
Proof.
  intros Hl Hi. pose proof Hi as Hlt. apply lookup_lt_Some in Hlt. unfold set_argv, deref.
  erewrite bind_value by (rewrite Hi; done). cbn [argv]. rewrite argv_of_insert by done. erewrite bind_value by done.
  unfold put. rewrite bool_decide_eq_true_2 by done. eexists. split; [done|]. simpl. split.
  - intros [p|] c Hp; [|done]. simpl. rewrite list_lookup_insert_ne by congruence. done.
  - by apply list_lookup_insert_eq.
Qed.

(** ** The loops *)
Implicit Types (st : store) (ts : list token).

Definition not_redir ts : Prop := starts (bytes "<>") ts = false.

Lemma redirs_sub : bytes "<>" ⊆ symbols.
Proof. by apply (bool_decide_unpack _). Qed.

Lemma bar_sub : bytes "|" ⊆ symbols.
Proof. by apply (bool_decide_unpack _). Qed.

(** What a part of the parser does on the tokens [ts], that has to go on as [k] does: it
    ends with the error of the grammar, or brings us to [ts'] in a store with [Q]. *)
Definition parses (r : result (ptr * Z)) (ps es : Z) (error : parse_error → Prop)
    (Q : ptr → store → list token → Prop) : Prop :=
  (∃ e, r = Exits (-1) (message e) ∧ error e) ∨
  (∃ p ps' st' ts', r = Value (p, ps') st' ∧ at_tokens buf ps' es ts' ∧ ps <= ps' ∧ Q p st' ts').

Lemma at_tokens_le s es ts : at_tokens buf s es ts → s <= es.
Proof. intros (t & H & _). by eapply at_le. Qed.

Lemma at_tokens_lt s es ts : at_tokens buf s es ts → ts ≠ [] → s < es.
Proof.
  intros (t & [Hs -> _ _] & <-) Hne. destruct t as [|c t]; [by destruct Hne|simpl; lia].
Qed.

Lemma parseredirs_ok fuel c ps es rs ts e st :
  at_tokens buf ps es ts → (Z.to_nat (es - ps) < fuel)%nat → chain (cmds st) e c rs →
  parses (parseredirs malloc_ok buf fuel c ps es st) ps es
    (fun err => ∀ args, parse_from args rs ts = inl err)
    (fun p st' ts' => ∃ rs', (∀ args, parse_from args rs ts = parse_from args rs' ts') ∧
      chain (cmds st') e p rs' ∧ extends (cmds st) (cmds st') ∧ not_redir ts').
Proof.
  revert c ps rs ts st. induction fuel as [|fuel IH]; intros c ps rs ts st Hat Hf Hc; [lia|]. simpl.
  destruct (peek_at buf _ _ _ _ Hat redirs_sub) as (ps1 & -> & ? & Hat1). erewrite bind_value by done.
  destruct (starts (bytes "<>") ts) eqn:Hst; simpl.
  2: { right. eexists _, _, _, _. split_and!; [done|done|done|]. exists rs. by split_and!. }
  destruct ts as [|[w|d] ts]; [done..|]. simpl in Hst. apply bool_decide_eq_true in Hst.
  destruct (gettoken_at buf _ _ _ Hat1) as (ret & q & eq & ps2 & ts2 & -> & Hat2 & _ & Hlt & -> & -> & Hd).
  erewrite bind_value by done. specialize (Hlt ltac:(done)).
  assert (Hbar : (d =? chr "|") = false).
  { apply Z.eqb_neq. intros ->. by apply (bool_decide_eq_false_1 (chr "|" ∈ bytes "<>")). }
  destruct (gettoken_at buf _ _ _ Hat2) as (ret & q2 & eq2 & ps3 & ts3 & -> & Hat3 & ? & _ & Hg).
  erewrite bind_value by done. destruct ts as [|[f|s] ts]; simpl in Hg.
  - destruct Hg as [-> ->]. left. exists MissingFile. split; [done|]. intros args. simpl. by rewrite Hbar.
  - destruct Hg as (-> & -> & Hw). simpl.
    pose proof (at_tokens_le _ _ _ Hat3).
    destruct (redirection_value d f rs c e q2 eq2 st Hc Hw) as (p' & st' & Hrun & Hx & Hc').
    erewrite bind_value; [|by apply elem_of_cons in Hst as [->|[->|[]%elem_of_nil]%elem_of_cons]].
    destruct (IH p' ps3 (rs ++ [(d, f)]) ts st' Hat3 ltac:(lia) Hc') as [(err & -> & He)|(p & ps' & st'' & ts' & -> & ? & ? & rs' & He & ? & ? & ?)].
    + left. exists err. split; [done|]. intros args. simpl. rewrite Hbar. apply He.
    + right. eexists _, _, _, _. split_and!; [done|done|lia|]. exists rs'. split_and!; [|done|by etrans|done].
      intros args. simpl. rewrite Hbar. apply He.
  - destruct Hg as (-> & -> & Hs). left. exists MissingFile. split; [|intros args; simpl; by rewrite Hbar].
    destruct (Z.eqb_spec s (chr "a")) as [->|]; [|done].
    by apply (bool_decide_eq_false_1 (chr "a" ∈ symbols)) in Hs.
Qed.

(** Where the loop of [parseexec] may stop. *)
Definition ends ts : Prop := ts = [] ∨ ∃ ts', ts = Sym (chr "|") :: ts'.

(** The command [i] with its arguments, and its redirections [rs] to [ret]. *)
Definition building (h : list cmd) (i : nat) (ret : ptr) (args : list word) (rs : list (Z * word)) : Prop :=
  (length args < MAXARGS)%nat ∧ lookup_cmd h (Some i) = Some (Exec (mkExec (argv_of args))) ∧
  chain h (Some i) ret rs.

Lemma finish i ret args rs (ps : Z) st :
  building (cmds st) i ret args rs →
  ∃ st', (set_argv (Some i) (Z.of_nat (length args)) None ≫= fun _ => mret (ret, ps)) st = Value (ret, ps) st' ∧
    repr (cmds st') ret (segment args rs) ∧ extends_but (Some i) (cmds st) (cmds st').
Proof.
  intros (Hl & Hi & Hc). destruct (set_argv_value i args None st Hl Hi) as (st' & Hrun & Hx & Hi').
  exists st'. erewrite bind_value by done. split_and!; [done| |done]. eapply chain_repr.
  - by eapply chain_extends_but.
  - cbn [repr]. rewrite Hi'. unfold argv_of. by replace (MAXARGS - length args)%nat with (S (MAXARGS - S (length args))) by lia.
Qed.

Lemma add_argument i ret args rs w st :
  building (cmds st) i ret args rs → (S (length args) < MAXARGS)%nat →
  ∃ st', set_argv (Some i) (Z.of_nat (length args)) (Some (c_string w)) st = Value tt st' ∧
    building (cmds st') i ret (args ++ [w]) rs ∧ extends_but (Some i) (cmds st) (cmds st').
Proof.
  intros (Hl & Hi & Hc) Hlt. destruct (set_argv_value i args (Some (c_string w)) st Hl Hi) as (st' & Hrun & Hx & Hi').
  exists st'. split_and!; [done| |done]. split_and!.
  - rewrite length_app. simpl. lia.
  - rewrite Hi'. unfold argv_of. rewrite fmap_app, length_app, <- app_assoc. simpl.
    by rewrite Nat.add_1_r.
  - by eapply chain_extends_but.
Qed.

Lemma building_extends h h' i ret args rs ret' rs' :
  building h i ret args rs → extends h h' → chain h' (Some i) ret' rs' → building h' i ret' args rs'.
Proof. intros (? & Hi & _) Hx ?. split_and!; [done|by apply Hx|done]. Qed.

Lemma not_redir_sym c ts : c ∈ symbols → not_redir (Sym c :: ts) → c = chr "|".
Proof.
  intros Hs Hn. unfold not_redir in Hn. simpl in Hn. apply bool_decide_eq_false in Hn. revert Hs Hn.
  change symbols with [60; 124; 62]. change (bytes "<>") with [60; 62]. change (chr "|") with 124.
  rewrite !elem_of_cons, !elem_of_nil. lia.
Qed.

(** What is proved of the loop: [parse_from] goes on where it stops. *)
Definition executed (i : nat) (args : list word) (rs : list (Z * word)) ts st (p : ptr) st' ts' : Prop :=
  ∃ args' rs', parse_from args rs ts = parse_from args' rs' ts' ∧
    repr (cmds st') p (segment args' rs') ∧ extends_but (Some i) (cmds st) (cmds st') ∧ ends ts'.

Lemma words_loop_ends i ret args rs ps ps' es ts st :
  building (cmds st) i ret args rs → at_tokens buf ps' es ts → ps <= ps' → ends ts →
  parses ((set_argv (Some i) (Z.of_nat (length args)) None ≫= fun _ => mret (ret, ps')) st) ps es
    (fun err => parse_from args rs ts = inl err) (executed i args rs ts st).
Proof.
  intros Hb Hat Hle He. destruct (finish i ret args rs ps' st Hb) as (st' & -> & ? & ?). right.
  eexists _, _, _, _. split_and!; [done..|]. by exists args, rs.
Qed.

Lemma too_many i ret args rs w ts st :
  building (cmds st) i ret args rs → ¬ (S (length args) < MAXARGS)%nat →
  (∃ st', set_argv (Some i) (Z.of_nat (length args)) (Some (c_string w)) st = Value tt st') ∧
  parse_from args rs (Word w :: ts) = inl TooManyArgs ∧ (Z.of_nat MAXARGS <=? Z.of_nat (length args) + 1) = true.
Proof.
  intros (Hl & Hi & Hc) ?. destruct (set_argv_value i args (Some (c_string w)) st Hl Hi) as (st1 & Hrun & _ & _).
  split_and!; [by exists st1| |].
  - simpl. by rewrite bool_decide_eq_true_2 by lia.
  - apply Z.leb_le. lia.
Qed.

Lemma parseexec_loop_ok fuel i ret ps es args rs ts st :
  at_tokens buf ps es ts → (Z.to_nat (es - ps) < fuel)%nat → not_redir ts → building (cmds st) i ret args rs →
  parses (parseexec_loop malloc_ok buf fuel (Some i) ret (Z.of_nat (length args)) ps es st) ps es
    (fun err => parse_from args rs ts = inl err) (executed i args rs ts st).
Proof.
  revert ret ps args rs ts st. induction fuel as [|fuel IH]; intros ret ps args rs ts st Hat Hf Hnr Hb; [lia|].
  cbn [parseexec_loop]. destruct (peek_at buf _ _ _ _ Hat bar_sub) as (ps1 & -> & ? & Hat1).
  erewrite bind_value by done. destruct (gettoken_at buf _ _ _ Hat1) as (ret1 & q & eq & ps2 & ts2 & Hg & Hat2 & ? & Hlt & Hgot).
  destruct ts as [|[w|c] ts].
  - (* the end of the line *)
    cbn [starts]. rewrite Hg. erewrite bind_value by done. destruct Hgot as [-> ->].
    apply words_loop_ends; [done|done|lia|by left].
  - (* a word *)
    cbn [starts]. rewrite Hg. erewrite bind_value by done. destruct Hgot as (-> & -> & Hw).
    specialize (Hlt ltac:(done)). pose proof (at_tokens_le _ _ _ Hat2).
    change (chr "a" =? 0) with false. change (chr "a" =? chr "a") with true. cbn [negb].
    erewrite bind_value by by apply mkcopy_word. set (st0 := mkStore (S (mallocs st)) (cmds st)).
    destruct (decide (S (length args) < MAXARGS)%nat) as [Hargs|Hargs].
    2: { destruct (too_many i ret args rs w ts st0 Hb Hargs) as ([st1 Hrun] & He & Hle). left. exists TooManyArgs.
         erewrite bind_value by done. by rewrite Hle. }
    destruct (add_argument i ret args rs w st0 Hb Hargs) as (st1 & Hrun & Hb1 & Hx1).
    erewrite bind_value by done. destruct (Z.leb_spec (Z.of_nat MAXARGS) (Z.of_nat (length args) + 1)); [lia|].
    assert (Hstep : ∀ rs, parse_from args rs (Word w :: ts) = parse_from (args ++ [w]) rs ts).
    { intros. simpl. by rewrite bool_decide_eq_false_2 by lia. }
    unfold executed. rewrite Hstep.
    destruct (parseredirs_ok (S fuel) ret ps2 es rs ts (Some i) st1 Hat2 ltac:(lia)) as
      [(err & Hr & He)|(p & ps3 & st2 & ts3 & Hr & Hat3 & ? & rs' & He & Hc & Hx & Hnr')]; [apply Hb1| |].
    + left. exists err. by erewrite bind_exits.
    + erewrite bind_value by done. pose proof (at_tokens_le _ _ _ Hat3).
      replace (Z.of_nat (length args) + 1) with (Z.of_nat (length (args ++ [w]))) by (rewrite length_app; simpl; lia).
      rewrite He. destruct (IH p ps3 (args ++ [w]) rs' ts3 st2) as
        [?|(p' & ps' & st' & ts' & Hl & ? & ? & args' & rs'' & ? & ? & Hx' & ?)];
        [done|lia|done|by eapply building_extends|by left|].
      right. eexists _, _, _, _. split_and!; [exact Hl|done|lia|]. exists args', rs''. split_and!; [done..| |done].
      eapply extends_but_trans; [exact Hx1|]. eapply extends_but_trans; [|done]. by apply extends_extends_but.
  - (* a bar *)
    destruct Hgot as (-> & -> & Hs). pose proof (not_redir_sym _ _ Hs Hnr) as ->.
    apply words_loop_ends; [done|done|lia|right; eauto].
Qed.

Lemma parseexec_ok fuel ps es ts st :
  at_tokens buf ps es ts → (Z.to_nat (es - ps) < fuel)%nat →
  parses (parseexec malloc_ok buf fuel ps es st) ps es
    (fun err => parse_from [] [] ts = inl err)
    (fun p st' ts' => ∃ args' rs', parse_from [] [] ts = parse_from args' rs' ts' ∧
      repr (cmds st') p (segment args' rs') ∧ extends (cmds st) (cmds st') ∧ ends ts').
Proof.
  intros Hat Hf. unfold parseexec. set (i := length (cmds st)).
  erewrite bind_value by apply alloc_value. fold i. cbv zeta.
  set (st1 := mkStore _ _). assert (H1 : lookup_cmd (cmds st1) (Some i) = Some (Exec (mkExec (argv_of [])))) by apply lookup_new.
  destruct (parseredirs_ok fuel (Some i) ps es [] ts (Some i) st1 Hat Hf ltac:(constructor)) as
    [(err & Hr & He)|(p & ps3 & st2 & ts3 & Hr & Hat3 & ? & rs' & He & Hc & Hx & Hnr')].
  - left. exists err. by erewrite bind_exits.
  - erewrite bind_value by done. pose proof (at_tokens_le _ _ _ Hat3).
    destruct (parseexec_loop_ok fuel i p ps3 es [] rs' ts3 st2) as
      [(err & Hr' & He')|(p' & ps' & st' & ts' & Hr' & ? & ? & args' & rs'' & He' & ? & Hx' & ?)];
      [done|lia|done|by split_and!; [apply Nat.ltb_lt|apply Hx|]| |]; change (Z.of_nat (length [])) with 0 in Hr'; rewrite Hr'.
    + left. exists err. by rewrite He.
    + right. eexists _, _, _, _. split_and!; [done|done|lia|]. exists args', rs''. split_and!; [by rewrite He|done| |done].
      intros q c Hq. apply Hx'.
      * intros ->. simpl in Hq. apply lookup_lt_Some in Hq. unfold i in Hq. lia.
      * by apply Hx, extends_app.
Qed.

(** A bar at the end of a program. *)
Lemma after_program ps es ts :
  at_tokens buf ps es ts → ends ts →
  ∃ ps', peek buf ps es (bytes "|") = Some (bool_decide (ts ≠ []), ps') ∧ ps <= ps' ∧ at_tokens buf ps' es ts.
Proof.
  intros Hat He. destruct (peek_at buf _ _ _ _ Hat bar_sub) as (ps' & -> & ? & ?). exists ps'.
  split_and!; [|done..]. by destruct He as [->|[ts' ->]].
Qed.

Lemma parsepipe_ok fuel ps es ts st :
  at_tokens buf ps es ts → (Z.to_nat (es - ps) < fuel)%nat →
  parses (parsepipe malloc_ok buf fuel ps es st) ps es
    (fun err => parse_from [] [] ts = inl err)
    (fun p st' ts' => ∃ t, parse_from [] [] ts = inr t ∧ repr (cmds st') p t ∧
      extends (cmds st) (cmds st') ∧ ts' = []).
Proof.
  revert ps ts st. induction fuel as [|fuel IH]; intros ps ts st Hat Hf; [lia|]. cbn [parsepipe].
  destruct (parseexec_ok (S fuel) ps es ts st Hat Hf) as
    [(err & Hr & He)|(p & ps1 & st1 & ts1 & Hr & Hat1 & ? & args & rs & He & Hp & Hx & Hend)].
  { left. exists err. by erewrite bind_exits. }
  erewrite bind_value by done. rewrite He. pose proof (at_tokens_le _ _ _ Hat1).
  destruct (after_program _ _ _ Hat1 Hend) as (ps2 & -> & ? & Hat2). erewrite bind_value by done.
  destruct Hend as [->|[ts' ->]]; simpl.
  - right. eexists _, _, _, _. split_and!; [done|done|lia|]. eauto.
  - destruct (gettoken_at buf _ _ _ Hat2) as (ret & q & eq & ps3 & ts3 & -> & Hat3 & _ & Hlt & -> & -> & _).
    specialize (Hlt ltac:(done)). pose proof (at_tokens_le _ _ _ Hat3). erewrite bind_value by done.
    destruct (IH ps3 ts' st1 Hat3 ltac:(lia)) as
      [(err & Hr' & He')|(r & ps4 & st2 & ts4 & Hr' & Hat4 & ? & t & He' & Ht & Hx' & ->)].
    + left. exists err. erewrite bind_exits by done. by rewrite He'.
    + right. erewrite bind_value by done. unfold pipecmd. erewrite bind_value by apply alloc_value.
      eexists _, _, _, _. split_and!; [done|done|lia|]. rewrite He'. eexists. split_and!; [done| | |done]; simpl.
      * exists p, r. rewrite lookup_app_r, Nat.sub_diag by lia. split_and!; [done| |].
        -- eapply repr_extends; [|done]. etrans; [done|apply extends_app].
        -- eapply repr_extends; [|done]. apply extends_app.
      * etrans; [done|]. etrans; [done|apply extends_app].
Qed.

Lemma parsecmd_ok fuel t rest st :
  buf = t ++ 0 :: rest → 0 ∉ t → (length t < fuel)%nat →
  match parse t with
  | inl e => parsecmd malloc_ok buf fuel 0 st = Exits (-1) (message e)
  | inr c => ∃ p st', parsecmd malloc_ok buf fuel 0 st = Value p st' ∧ repr (cmds st') p c
  end.
Proof.
  intros Hbuf Hn Hf. assert (Hat : at_text buf 0 (0 + Z.of_nat (length t)) t).
  { split; [lia|lia|done|]. by exists rest. }
  unfold parsecmd, strlen. rewrite (strlen_finds_nul buf t rest); [|lia|by rewrite Hbuf|done|].
  2: { rewrite Hbuf, length_app. simpl. lia. }
  erewrite bind_value by done. unfold parseline, parse.
  set (es := 0 + Z.of_nat (length t)) in *.
  destruct (parsepipe_ok fuel 0 es (lex t) st) as
    [(err & Hr & ->)|(p & ps & st' & ts' & Hr & Hat' & _ & c & -> & Hp & _ & ->)]; [by exists t|lia| |].
  - by erewrite bind_exits.
  - erewrite bind_value by done.
    destruct (peek_at buf ps es [] [] Hat') as (ps' & Hpk & ? & Hat2); [set_solver|].
    rewrite Hpk. erewrite bind_value by done.
    assert (ps' = es) as ->.
    { destruct (skip_blanks _ _ _ _ Hat') as (s' & u & Hs & _ & Hu & Hl & Hb). unfold peek in Hpk. rewrite Hs in Hpk.
      destruct u as [|d u]; [|exfalso].
      - destruct (at_nil _ _ _ Hu) as [Hz ->]. simpl in Hpk. rewrite Hz in Hpk. simpl in Hpk. congruence.
      - pose proof (at_no_nul _ _ _ _ Hu). destruct (decide (d ∈ symbols)); [by rewrite lex_sym in Hl|].
        destruct (lex_cons_word d u) as [_ He]; [done|by eapply Hb|done|]. by rewrite He in Hl. }
    rewrite Z.eqb_refl. simpl. eauto.
Qed.
End parser.
