(* ===== verification/ShellRun.v ===== *)
(** * The shell of the exercises: the system, and running commands (src/mit6.828/lecture_exercises/01/sh.c)

    What a program asks of the system is a tree: each call has what the program does with
    its answer. The system is a table of processes and moves one of them at a time; which
    one is not determined. [runcmd], [getcmd] and [main] are such programs. The shell is the
    only reader of its input, a list of bytes. *)
From Stdlib Require Import Ascii.
From S2P Require Import Prelude.
From S2P Require Import ShellParser.

(** ** Programs *)
Inductive argument : Type := Str (s : list Z) | Num (n : Z).

Definition stdin : Z := 0.
Definition stdout : Z := 1.
Definition stderr : Z := 2.

Inductive prog : Type :=
| Exit (code : Z)
| Aborts                                                      (* a failed assertion *)
| Undefined
| OutOfFuel
| Print (stream : Z) (format : string) (args : list argument) (k : prog)
| Execv (path : list Z) (args : list (list Z)) (failed : prog)   (* returns only when it fails *)
| Freopen (name : list Z) (mode : string) (stream : Z) (k : prog)
| MakePipe (k : option (Z * Z) → prog)
| Fork (k : Z → prog)                                         (* -1, 0 or the child *)
| Wait (k : option Z → prog)                                  (* a child's status; or there is none *)
| Dup2 (oldfd newfd : Z) (k : bool → prog)
| Close (fd : Z) (k : prog)
| Chdir (path : list Z) (k : bool → prog).

(** ** Processes *)
Inductive open_file : Type :=
| Console
| OpenFile (name : list Z) (mode : string)
| PipeRead (n : nat)
| PipeWrite (n : nat).

Abbreviation fd_table := (gmap Z open_file).

(** What a process is doing: the shell's code, another program ([execv] has been called),
    or nothing any more. *)
Inductive activity : Type :=
| Running (p : prog)
| Image
| Zombie (status : Z).

Record process : Type := mkProcess {
  code : activity;
  fds : fd_table;
  cwd : list (list Z);            (* the successful calls of [chdir] *)
  parent : option nat;
}.

(** A program that has been started. *)
Record launch : Type := mkLaunch {
  l_path : list Z;
  l_args : list (list Z);
  l_fds : fd_table;
  l_cwd : list (list Z);
}.

Record system : Type := mkSystem { procs : gmap nat process; next_pid : nat; next_pipe : nat }.

(** The lowest descriptor that is free, from [i] on. *)
Fixpoint free_fd (fuel : nat) (i : Z) (f : fd_table) : Z :=
  match fuel with
  | O => i
  | S fuel => match f !! i with None => i | Some _ => free_fd fuel (i + 1) f end
  end.

Definition lowest_fd (f : fd_table) : Z := free_fd (size f) 0 f.

Definition with_code (pr : process) (c : activity) : process := mkProcess c (fds pr) (cwd pr) (parent pr).
Definition with_fds (pr : process) (c : activity) (f : fd_table) : process := mkProcess c f (cwd pr) (parent pr).

(** [wait]'s status of a process that has exited. *)
Definition exit_status (code : Z) : Z := Z.shiftl (code mod 256) 8.

Section steps.
(** The programs there are and the directories one can change to; whether calls may fail
    for want of resources. *)
Context (executable : list Z → bool) (can_cd : list (list Z) → list Z → bool) (may_fail : Prop).

(** A process by itself; [n] pipes have been made. *)
Inductive local_step (n : nat) : process → list launch → process → nat → Prop :=
| ls_print f d par st t a k :
    local_step n (mkProcess (Running (Print st t a k)) f d par) [] (mkProcess (Running k) f d par) n
| ls_exit f d par c :
    local_step n (mkProcess (Running (Exit c)) f d par) [] (mkProcess (Zombie (exit_status c)) f d par) n
| ls_exec f d par path args k :
    executable path = true →
    local_step n (mkProcess (Running (Execv path args k)) f d par) [mkLaunch path args f d] (mkProcess Image f d par) n
| ls_exec_failed f d par path args k :
    executable path = false →
    local_step n (mkProcess (Running (Execv path args k)) f d par) [] (mkProcess (Running k) f d par) n
| ls_image_ends f d par st :
    local_step n (mkProcess Image f d par) [] (mkProcess (Zombie st) f d par) n
| ls_freopen f d par name m s k :
    local_step n (mkProcess (Running (Freopen name m s k)) f d par) []
      (mkProcess (Running k) (<[s := OpenFile name m]> f) d par) n
| ls_freopen_failed f d par name m s k :
    may_fail →
    local_step n (mkProcess (Running (Freopen name m s k)) f d par) [] (mkProcess (Running k) (delete s f) d par) n
| ls_pipe f d par k a b f1 :
    a = lowest_fd f → f1 = <[a := PipeRead n]> f → b = lowest_fd f1 →
    local_step n (mkProcess (Running (MakePipe k)) f d par) []
      (mkProcess (Running (k (Some (a, b)))) (<[b := PipeWrite n]> f1) d par) (S n)
| ls_pipe_failed f d par k :
    may_fail →
    local_step n (mkProcess (Running (MakePipe k)) f d par) [] (mkProcess (Running (k None)) f d par) n
| ls_dup2 f d par a b k x :
    f !! a = Some x →
    local_step n (mkProcess (Running (Dup2 a b k)) f d par) [] (mkProcess (Running (k true)) (<[b := x]> f) d par) n
| ls_dup2_failed f d par a b k :
    f !! a = None →
    local_step n (mkProcess (Running (Dup2 a b k)) f d par) [] (mkProcess (Running (k false)) f d par) n
| ls_close f d par a k :
    local_step n (mkProcess (Running (Close a k)) f d par) [] (mkProcess (Running k) (delete a f) d par) n
| ls_chdir f d par p k :
    can_cd d p = true →
    local_step n (mkProcess (Running (Chdir p k)) f d par) [] (mkProcess (Running (k true)) f (d ++ [p]) par) n
| ls_chdir_failed f d par p k :
    can_cd d p = false →
    local_step n (mkProcess (Running (Chdir p k)) f d par) [] (mkProcess (Running (k false)) f d par) n.

Inductive step : system → list launch → system → Prop :=
| step_local s i pr L pr' n' :
    procs s !! i = Some pr → local_step (next_pipe s) pr L pr' n' →
    step s L (mkSystem (<[i := pr']> (procs s)) (next_pid s) n')
| step_fork s i pr k :
    procs s !! i = Some pr → code pr = Running (Fork k) →
    step s [] (mkSystem
      (<[next_pid s := mkProcess (Running (k 0)) (fds pr) (cwd pr) (Some i)]>
         (<[i := with_code pr (Running (k (Z.of_nat (next_pid s))))]> (procs s)))
      (S (next_pid s)) (next_pipe s))
| step_fork_failed s i pr k :
    may_fail → procs s !! i = Some pr → code pr = Running (Fork k) →
    step s [] (mkSystem (<[i := with_code pr (Running (k (-1)))]> (procs s)) (next_pid s) (next_pipe s))
| step_wait s i pr k j c st :
    procs s !! i = Some pr → code pr = Running (Wait k) →
    procs s !! j = Some c → parent c = Some i → code c = Zombie st →
    step s [] (mkSystem (delete j (<[i := with_code pr (Running (k (Some st)))]> (procs s))) (next_pid s) (next_pipe s))
| step_wait_none s i pr k :
    procs s !! i = Some pr → code pr = Running (Wait k) →
    (∀ j c, procs s !! j = Some c → parent c ≠ Some i) →
    step s [] (mkSystem (<[i := with_code pr (Running (k None))]> (procs s)) (next_pid s) (next_pipe s)).

(** Runs, with their number of steps and the programs they start. *)
Inductive steps : nat → system → list launch → system → Prop :=
| steps_nil s : steps 0 s [] s
| steps_snoc n s L s1 L' s2 : steps n s L s1 → step s1 L' s2 → steps (S n) s (L ++ L') s2.
End steps.

(** The shell as the first process. *)
Definition shell_pid : nat := 1.
Definition std_fds (i o : open_file) : fd_table := {[ stdin := i; stdout := o; stderr := Console ]}.

Definition initial (p : prog) : system :=
  mkSystem {[ shell_pid := mkProcess (Running p) (std_fds Console Console) [] None ]} (S shell_pid) 0.

Fixpoint write_at (buf : list Z) (i : Z) (l : list Z) : option (list Z) :=
  match l with
  | [] => Some buf
  | c :: l => buf ← buf.[i := c]; write_at buf (i + 1) l
  end.

(** [strncat(buf, src, n)]. *)
Definition strncat (buf src : list Z) (n : nat) : option (list Z) :=
  l ← strlen buf 0;
  s ← string_from src 0;
  write_at buf l (take n s ++ [0]).

(** The arguments that [execv] takes from [argv]: up to the null pointer. *)
Fixpoint args_of (a : list (option (list Z))) : option (list (list Z)) :=
  match a with
  | [] => None
  | None :: _ => Some []
  | Some s :: a => x ← string_from s 0; l ← args_of a; Some (x :: l)
  end.

Section shell.
(** [junk]: what is in [command_path] before it is written. [prints_null]: whether the C
    library prints a null pointer given for [%s], as glibc does; the language leaves it
    undefined. [tty]: whether the input is a terminal. *)
Context (malloc_ok : nat → bool) (junk : list Z) (prints_null tty : bool).

Definition command_path (name : list Z) : option (list Z) :=
  buf ← write_at junk 0 (bytes "/bin/" ++ [0]);
  buf ← strncat buf name 250;
  string_from buf 0.

Definition run_exec (e : execcmd_t) : prog :=
  let rest a0 :=
    match a0 with
    | None => Exit 0
    | Some name =>
        match (path ← command_path name; args ← args_of (argv e); Some (path, args)) with
        | Some (path, args) => Execv path args (Exit 0)
        | None => Undefined
        end
    end in
  match argv e with
  | [] => Undefined
  | None :: _ =>
      if prints_null then Print stdout "Running command! %s" [Str (bytes "(null)")] (rest None) else Undefined
  | Some name :: _ =>
      match string_from name 0 with
      | Some s => Print stdout "Running command! %s" [Str s] (rest (Some name))
      | None => Undefined
      end
  end.

Definition run_pipe (pipefd : Z * Z) (runleft runright : prog) : prog :=
  Fork (fun cid =>
    if cid =? 0 then
      Print stdout " Child process running!" [] (
      Dup2 (snd pipefd) stdout (fun ok =>
        if negb ok then Print stderr "Dupe" [] (Exit (-1)) else
        Close (fst pipefd) (Close (snd pipefd) runleft)))
    else
      Print stdout " Parent process running!" [] (
      Wait (fun status =>
        match status with
        | None => Undefined                                    (* [status] has no value *)
        | Some st =>
            Print stdout " Parent process running again! with status %d" [Num st] (
            Dup2 (fst pipefd) stdin (fun ok =>
              if negb ok then Print stderr "Dupe" [] (Exit (-1)) else
              Close (fst pipefd) (Close (snd pipefd) runright)))
        end))).

Fixpoint runcmd (fuel : nat) (h : list cmd) (c : ptr) : prog :=
  match fuel with
  | O => OutOfFuel
  | S fuel =>
      match c with
      | None => Exit 0
      | Some _ =>
          match lookup_cmd h c with
          | None => Undefined
          | Some (Exec e) => run_exec e
          | Some (Redir r) =>
              if (rtype r =? chr ">") || (rtype r =? chr "<") then
                match string_from (file r) 0 with
                | None => Undefined
                | Some name =>
                    if rtype r =? chr ">" then Freopen name "w" stdout (runcmd fuel h (rcmd r))
                    else Freopen name "r" stdin (runcmd fuel h (rcmd r))
                end
              else Print stderr "unknown runcmd" [] (Exit (-1))
          | Some (Pipe p) =>
              MakePipe (fun pipefd =>
                match pipefd with
                | None => Print stderr "Pipe" [] (Exit (-1))
                | Some pipefd => run_pipe pipefd (runcmd fuel h (left p)) (runcmd fuel h (right p))
                end)
          end
      end
  end.

(** [fgets]: at most [n] bytes, to the end of the line. *)
Fixpoint fgets (n : nat) (input : list Z) : list Z * list Z :=
  match n, input with
  | O, _ => ([], input)
  | S _, [] => ([], [])
  | S n, c :: input => if c =? 10 then ([c], input) else let '(l, rest) := fgets n input in (c :: l, rest)
  end.

(** The result, the buffer and the input that is left. *)
Definition getcmd (nbuf : nat) (input : list Z) : Z * list Z * list Z :=
  let buf := replicate nbuf 0 in
  let '(line, rest) := fgets (nbuf - 1) input in
  let buf := match line with [] => buf | _ => line ++ 0 :: drop (S (length line)) buf end in
  if bool_decide (buf !! O = Some 0) then (-1, buf, rest) else (0, buf, rest).

(** In the child: [runcmd(parsecmd(buf))]. *)
Definition child (buf : list Z) : prog :=
  match parsecmd malloc_ok buf (length buf) 0 (mkStore 0 []) with
  | Value c st => runcmd (S (length buf)) (cmds st) c
  | Exits code t => Print stderr t [] (Exit code)
  | AssertionFails => Aborts
  | UndefinedBehaviour => Undefined
  | NoFuel => OutOfFuel
  end.

(** [fork1] prints why there is no child. *)
Definition fork1 (k : Z → prog) : prog :=
  Fork (fun pid => if pid =? -1 then Print stderr "fork" [] (k pid) else k pid).

Definition is_cd (buf : list Z) : bool :=
  bool_decide (buf !! 0%nat = Some (chr "c")) && bool_decide (buf !! 1%nat = Some (chr "d")) &&
  bool_decide (buf !! 2%nat = Some (chr " ")).

(** [strncmp(buf, "exit", 4) == 0]. *)
Definition is_exit (buf : list Z) : bool := bool_decide (take 4 buf = bytes "exit").

(** The directory of a [cd], after the last character has been cut off. *)
Definition cd_path (buf : list Z) : option (list Z) :=
  n ← strlen buf 0;
  buf ← buf.[n - 1 := 0];
  string_from buf 3.

Definition prompt (k : prog) : prog := if tty then Print stdout "$ " [] k else k.

Fixpoint main (fuel : nat) (input : list Z) : prog :=
  match fuel with
  | O => OutOfFuel
  | S fuel =>
      prompt (
      let '(r, buf, input) := getcmd 100 input in
      if r <? 0 then Exit 0
      else if is_cd buf then
        match cd_path buf with
        | None => Undefined
        | Some path =>
            Chdir path (fun ok => if ok then main fuel input else Print stderr "cannot cd %s" [Str path] (main fuel input))
        end
      else if is_exit buf then Exit 0
      else fork1 (fun pid => if pid =? 0 then child buf else Wait (fun _ => main fuel input)))
  end.
End shell.
