(* ===== verification/ShellEffects.v ===== *)
(** * What the shell makes of its lines

    [runs] says what a program does if a child runs to its end before the parent goes
    on: the programs that are started, with their descriptors, and the number of steps.
    A program with a run in this sense behaves like that under every schedule: its
    processes form a chain in which each waits for the next. Then the programs a command
    starts ([launches]) and those a session starts ([serve]), and that the code has a run
    with just these. *)
From Stdlib Require Import Ascii.
From S2P Require Import Prelude.
From S2P Require Import ShellParser.
From S2P Require Import ShellGrammar.
From S2P Require Import ShellRefine.
From S2P Require Import ShellRun.

Section schedule.
Context (executable : list Z → bool) (can_cd : list (list Z) → list Z → bool).

Abbreviation local_step := (local_step executable can_cd False).
Abbreviation step := (step executable can_cd False).
Abbreviation steps := (steps executable can_cd False).

(** [m] things are printed before the call of [wait]. *)
Inductive awaits : prog → (option Z → prog) → nat → Prop :=
| aw_wait k : awaits (Wait k) k 0
| aw_print st t a p k m : awaits p k m → awaits (Print st t a p) k (S m).

(** With [n] pipes made before and [n'] after it. *)
Inductive runs : prog → fd_table → list (list Z) → nat → list launch → nat → nat → Prop :=
| r_exit c f d n : runs (Exit c) f d n [] 1 n
| r_print st t a p f d n L m n' : runs p f d n L m n' → runs (Print st t a p) f d n L (S m) n'
| r_exec path args p f d n :
    executable path = true → runs (Execv path args p) f d n [mkLaunch path args f d] 2 n
| r_exec_failed path args p f d n L m n' :
    executable path = false → runs p f d n L m n' → runs (Execv path args p) f d n L (S m) n'
| r_freopen name mode s p f d n L m n' :
    runs p (<[s := OpenFile name mode]> f) d n L m n' → runs (Freopen name mode s p) f d n L (S m) n'
| r_pipe k f d n L m n' a b f1 :
    a = lowest_fd f → f1 = <[a := PipeRead n]> f → b = lowest_fd f1 →
    runs (k (Some (a, b))) (<[b := PipeWrite n]> f1) d (S n) L m n' → runs (MakePipe k) f d n L (S m) n'
| r_dup2 a b k x f d n L m n' :
    f !! a = Some x → runs (k true) (<[b := x]> f) d n L m n' → runs (Dup2 a b k) f d n L (S m) n'
| r_close a p f d n L m n' : runs p (delete a f) d n L m n' → runs (Close a p) f d n L (S m) n'
| r_chdir path k f d n L m n' :
    can_cd d path = true → runs (k true) f (d ++ [path]) n L m n' → runs (Chdir path k) f d n L (S m) n'
| r_chdir_failed path k f d n L m n' :
    can_cd d path = false → runs (k false) f d n L m n' → runs (Chdir path k) f d n L (S m) n'
| r_fork k f d n L1 m1 n1 w m L2 m2 n2 :
    runs (k 0) f d n L1 m1 n1 →
    (∀ pid, 0 < pid → awaits (k pid) w m) →
    (∀ st, runs (w (Some st)) f d n1 L2 m2 n2) →
    runs (Fork k) f d n (L1 ++ L2) (S (m1 + (m + S m2))) n2.

(** What is left to do for the last process of the chain. *)
Inductive live (n : nat) : process → list launch → nat → nat → Prop :=
| live_running p f d par L m n' : runs p f d n L m n' → live n (mkProcess (Running p) f d par) L m n'
| live_image f d par : live n (mkProcess Image f d par) [] 1 n
| live_zombie st f d par : live n (mkProcess (Zombie st) f d par) [] 0 n.

(** The processes [pids], each waiting for the next, its only child. *)
Inductive linked (σ : gmap nat process) (n : nat) : option nat → list nat → list launch → nat → nat → Prop :=
| linked_last par i pr L m n' :
    σ !! i = Some pr → parent pr = par → (∀ c q, σ !! c = Some q → parent q ≠ Some i) →
    live n pr L m n' →
    linked σ n par [i] L m n'
| linked_waiting par i pr p w m j rest L1 m1 n1 L2 m2 n2 :
    σ !! i = Some pr → parent pr = par → (∀ c q, σ !! c = Some q → parent q = Some i → c = j) →
    code pr = Running p → awaits p w m →
    (∀ st, runs (w (Some st)) (fds pr) (cwd pr) n1 L2 m2 n2) →
    linked σ n (Some i) (j :: rest) L1 m1 n1 →
    linked σ n par (i :: j :: rest) (L1 ++ L2) (m1 + (m + S m2)) n2.

(** ** Steps of the last process *)
Lemma live_step n pr ev pr' n1 L m n' :
  live n pr L m n' → local_step n pr ev pr' n1 →
  parent pr' = parent pr ∧ ∃ L' m', L = ev ++ L' ∧ m = S m' ∧ live n1 pr' L' m' n'.
Proof.
  intros [p f d par L1 m1 n2 Hr|f d par|st f d par] Hs; inversion Hs; subst; try done;
    (split; [done|]);
    try (inversion Hr; subst; try congruence; try (eexists _, _; split_and!; [|done|by constructor]; done)).
  - eexists _, _. split_and!; [done|done|]. constructor. congruence.
  - eexists _, _. split_and!; [done|done|constructor].
Qed.

(** ** Changes of the table *)

(** Which processes are children of which does not change with what they do. *)
Lemma lookup_same_parent (σ : gmap nat process) i pr pr' c q :
  σ !! i = Some pr → parent pr' = parent pr → <[i := pr']> σ !! c = Some q →
  ∃ q', σ !! c = Some q' ∧ parent q' = parent q.
Proof.
  intros Hi Hp [[-> <-]|[_ Hc]]%lookup_insert_Some; [by exists pr|by exists q].
Qed.

Lemma linked_pids σ n par pids L m n' i : linked σ n par pids L m n' → i ∈ pids → is_Some (σ !! i).
Proof.
  induction 1 as [par i' pr|par i' pr p w k j rest L1 m1 n1 L2 m2 n2 ? ? ? ? ? ? ? IH].
  - intros ->%list_elem_of_singleton. eauto.
  - intros [->|?]%elem_of_cons; eauto.
Qed.

Lemma linked_insert σ n par pids L m n' i pr pr' :
  linked σ n par pids L m n' → i ∉ pids → σ !! i = Some pr → parent pr' = parent pr →
  linked (<[i := pr']> σ) n par pids L m n'.
Proof.
  intros Hl Hni Hi Hp. induction Hl as [par i' q L m n' Hq ? Hch|par i' q p w k j rest L1 m1 n1 L2 m2 n2 Hq ? Hch ? ? ? ? IH].
  - eapply linked_last; [|done| |done].
    + rewrite lookup_insert_ne by set_solver. done.
    + intros c x Hc. destruct (lookup_same_parent _ _ _ _ _ _ Hi Hp Hc) as (x' & Hx & <-). by eapply Hch.
  - eapply linked_waiting; [|done| |done|done|done|].
    + rewrite lookup_insert_ne by set_solver. done.
    + intros c x Hc. destruct (lookup_same_parent _ _ _ _ _ _ Hi Hp Hc) as (x' & Hx & <-). by eapply Hch.
    + apply IH. set_solver.
Qed.

(** ** Steps of any process of the chain *)
Lemma linked_local σ n par pids L m n' i pr ev pr' n1 :
  linked σ n par pids L m n' → NoDup pids → i ∈ pids → σ !! i = Some pr → local_step n pr ev pr' n1 →
  ∃ L' m', L = ev ++ L' ∧ m = S m' ∧ linked (<[i := pr']> σ) n1 par pids L' m' n'.
Proof.
  intros Hl Hnd Hi Hpr Hs. induction Hl as [par i' q L m n' Hq Hpar Hch Hlive
    |par i' q p w k j rest L1 m1 n2 L2 m2 n3 Hq Hpar Hch Hcode Haw Hruns Hl IH].
  - apply list_elem_of_singleton in Hi as ->. assert (q = pr) as -> by congruence.
    destruct (live_step _ _ _ _ _ _ _ _ Hlive Hs) as (Hp & L' & m' & -> & -> & Hlive').
    exists L', m'. split_and!; [done|done|]. eapply linked_last; [apply lookup_insert_eq|congruence| |done].
    intros c x Hc. destruct (lookup_same_parent _ _ _ _ _ _ Hpr Hp Hc) as (x' & Hx & <-). by eapply Hch.
  - apply NoDup_cons in Hnd as [Hni Hnd]. apply elem_of_cons in Hi as [->|Hi].
    + (* only printing goes before [wait] *)
      assert (q = pr) as -> by congruence. destruct pr as [cd f d par']. simpl in *. subst cd.
      destruct Haw as [w|st t a p w k Haw]; inversion Hs; subst. exists (L1 ++ L2), (m1 + (k + S m2))%nat.
      split_and!; [done|lia|]. eapply linked_waiting; [apply lookup_insert_eq|done| |done|done|done|].
      * intros c x Hc. destruct (lookup_same_parent σ i' _ (mkProcess (Running p) f d par) c x Hpr eq_refl Hc) as (x' & Hx & <-).
        by eapply Hch.
      * by eapply linked_insert.
    + destruct (IH Hnd Hi) as (L' & m' & -> & -> & Hl').
      exists (L' ++ L2), (m' + (k + S m2))%nat. split_and!; [by rewrite <- app_assoc|lia|].
      assert (Hpp : parent pr' = parent pr) by (by inversion Hs).
      eapply linked_waiting; [|done| |done|done|done|done].
      * rewrite lookup_insert_ne by (intros ->; done). done.
      * intros c x Hc. destruct (lookup_same_parent _ _ _ _ _ _ Hpr Hpp Hc) as (x' & Hx & <-). by eapply Hch.
Qed.

Lemma linked_fork σ n par pids L m n' i pr k c :
  linked σ n par pids L m n' → NoDup pids → i ∈ pids → σ !! i = Some pr → code pr = Running (Fork k) →
  σ !! c = None → (0 < c)%nat → (∀ x q, σ !! x = Some q → parent q ≠ Some c) →
  ∃ m', m = S m' ∧
    linked (<[c := mkProcess (Running (k 0)) (fds pr) (cwd pr) (Some i)]>
              (<[i := with_code pr (Running (k (Z.of_nat c)))]> σ)) n par (pids ++ [c]) L m' n'.
Proof.
  intros Hl Hnd Hi Hpr Hcode Hc Hpos Horph. induction Hl as [par i' q L m n' Hq Hpar Hch Hlive
    |par i' q p w kw j rest L1 m1 n2 L2 m2 n3 Hq Hpar Hch Hcode' Haw Hruns Hl IH].
  - apply list_elem_of_singleton in Hi as ->. assert (q = pr) as -> by congruence.
    assert (Hne : i' ≠ c) by congruence.
    destruct Hlive as [p f d par' L m n' Hr| |]; [|done..]. simpl in Hcode. injection Hcode as ->.
    inversion Hr as [| | | | | | | | | |? ? ? ? L1 m1 n1 w kw L2 m2 n2 Hchild Haw Hw]; subst.
    eexists. split; [done|]. simpl. eapply linked_waiting.
    + rewrite lookup_insert_ne by done. apply lookup_insert_eq.
    + done.
    + intros x y [[<- <-]|[Hne' [[<- <-]|[_ Hx]]%lookup_insert_Some]]%lookup_insert_Some; [done|..].
      * simpl. intros Hp. simpl in Hch. by destruct (Hch i' _ Hq).
      * intros Hp. by destruct (Hch x y Hx).
    + done.
    + apply Haw. lia.
    + done.
    + eapply linked_last; [apply lookup_insert_eq|done| |by constructor].
      intros x y [[<- <-]|[Hne' [[<- <-]|[_ Hx]]%lookup_insert_Some]]%lookup_insert_Some; simpl.
      * congruence.
      * exact (Horph i' _ Hq).
      * by eapply Horph.
  - apply NoDup_cons in Hnd as [Hni Hnd]. apply elem_of_cons in Hi as [->|Hi].
    { assert (q = pr) as -> by congruence. rewrite Hcode in Hcode'. injection Hcode' as <-. inversion Haw. }
    destruct (IH Hnd Hi) as (m' & -> & Hl'). eexists. split; [done|].
    assert (i' ≠ c) by congruence. assert (i' ≠ i) by (intros ->; done).
    eapply linked_waiting; [by rewrite !lookup_insert_ne by done|done| |done|done|done|done].
    intros x y [[<- <-]|[Hne' [[<- <-]|[_ Hx]]%lookup_insert_Some]]%lookup_insert_Some; [|by apply (Hch _ _ Hpr)|by eapply Hch].
    simpl. congruence.
Qed.

(** Only the last process can have ended. *)
Lemma linked_zombie σ n par pids L m n' i pr st :
  linked σ n par pids L m n' → NoDup pids → i ∈ pids → σ !! i = Some pr → code pr = Zombie st →
  hd_error pids = Some i → pids = [i] ∧ L = [] ∧ m = O ∧ n = n'.
Proof.
  intros Hl Hnd Hi Hpr Hcode Hhd. destruct Hl as [par i' q L m n' Hq Hpar Hch Hlive
    |par i' q p w kw j rest L1 m1 n2 L2 m2 n3 Hq Hpar Hch Hcode' Haw Hruns Hl];
    simpl in Hhd; injection Hhd as ->; assert (q = pr) as -> by congruence; [|congruence].
  by destruct Hlive.
Qed.

Lemma linked_wait σ n par pids L m n' i pr k c child st :
  linked σ n par pids L m n' → NoDup pids → i ∈ pids → σ !! i = Some pr → code pr = Running (Wait k) →
  σ !! c = Some child → parent child = Some i → code child = Zombie st →
  ∃ m' pids', m = S m' ∧ hd_error pids' = hd_error pids ∧ NoDup pids' ∧ pids' ⊆ pids ∧ pids ⊆ c :: pids' ∧
    linked (delete c (<[i := with_code pr (Running (k (Some st)))]> σ)) n par pids' L m' n'.
Proof.
  intros Hl Hnd Hi Hpr Hcode Hc Hpc Hz. induction Hl as [par i' q L m n' Hq Hpar Hch Hlive
    |par i' q p w kw j rest L1 m1 n2 L2 m2 n3 Hq Hpar Hch Hcode' Haw Hruns Hl IH].
  - apply list_elem_of_singleton in Hi as ->. by destruct (Hch c child Hc).
  - pose proof Hnd as [Hni Hnd']%NoDup_cons. apply elem_of_cons in Hi as [->|Hi].
    + assert (q = pr) as -> by congruence. rewrite Hcode in Hcode'. injection Hcode' as <-.
      inversion Haw; subst. pose proof (Hch c child Hc Hpc) as ->.
      destruct (linked_zombie _ _ _ _ _ _ _ j child st Hl Hnd') as (Hrest & -> & -> & ->); [by left|done..|].
      injection Hrest as ->. exists m2, [i']. split_and!; [lia|done|apply NoDup_singleton| | |].
      { intros x ->%list_elem_of_singleton. by left. }
      { intros x. rewrite !elem_of_cons. tauto. }
      assert (j ≠ i') by congruence. eapply linked_last; [by rewrite lookup_delete_ne, lookup_insert_eq|done| |by constructor].
      intros x y [Hne Hx]%lookup_delete_Some. destruct (lookup_same_parent σ i' pr (with_code pr _) x y Hpr eq_refl Hx) as (y' & Hy & <-).
      intros Hp. by pose proof (Hch x y' Hy Hp).
    + destruct (IH Hnd' Hi) as (m' & pids' & -> & Hhd & Hnd2 & Hsub & Hsub' & Hl').
      assert (i' ≠ i) by (intros ->; done). assert (c ≠ i') by congruence.
      destruct pids' as [|j' rest']; [done|]. simpl in Hhd. injection Hhd as ->.
      exists (m' + (kw + S m2))%nat, (i' :: j :: rest'). split_and!; [lia|done| | | |].
      * apply NoDup_cons. split; [|done]. intros Hin. by apply Hni, Hsub.
      * by apply list_subseteq_skip.
      * intros x [->|[->|Hx]%Hsub'%elem_of_cons]%elem_of_cons; rewrite !elem_of_cons in *; tauto.
      * eapply linked_waiting; [by rewrite lookup_delete_ne, lookup_insert_ne|done| |done|done|done|done].
        intros x y [_ Hx]%lookup_delete_Some. destruct (lookup_same_parent σ i pr (with_code pr _) x y Hpr eq_refl Hx) as (y' & Hy & <-).
        by eapply Hch.
Qed.

Lemma linked_wait_none σ n par pids L m n' i pr k :
  linked σ n par pids L m n' → i ∈ pids → σ !! i = Some pr → code pr = Running (Wait k) →
  (∀ c q, σ !! c = Some q → parent q ≠ Some i) → False.
Proof.
  intros Hl Hi Hpr Hcode Hno. induction Hl as [par i' q L m n' Hq Hpar Hch Hlive
    |par i' q p w kw j rest L1 m1 n2 L2 m2 n3 Hq Hpar Hch Hcode' Haw Hruns Hl IH].
  - apply list_elem_of_singleton in Hi as ->. assert (q = pr) as -> by congruence.
    destruct Hlive as [p f d par' L m n' Hr| |]; [|done..]. simpl in Hcode. injection Hcode as ->. inversion Hr.
  - apply elem_of_cons in Hi as [->|Hi]; [|by apply IH].
    inversion Hl as [? ? cpr ? ? ? Hj Hp|? ? cpr ? ? ? ? ? ? ? ? ? ? ? Hj Hp]; subst; by destruct (Hno j cpr Hj).
Qed.

(** ** Progress *)
Lemma live_progress n pr L m n' :
  live n pr L (S m) n' →
  (∃ ev pr' n1, local_step n pr ev pr' n1) ∨ (∃ k, code pr = Running (Fork k)).
Proof.
  intros Hl. inversion Hl as [p f d par ? ? ? Hr| |]; subst.
  - inversion Hr; subst; try (left; eexists _, _, _; by econstructor).
    right. by eexists.
  - left. eexists _, _, _. apply (ls_image_ends _ _ _ _ _ _ _ 0).
Qed.

Lemma linked_progress s par pids L m n' :
  linked (procs s) (next_pipe s) par pids L (S m) n' → ∃ ev s', step s ev s'.
Proof.
  remember (procs s) as σ eqn:Hσ. remember (next_pipe s) as n eqn:Hn. remember (S m) as m0 eqn:Hm. intros Hl. revert m Hm.
  induction Hl as [par i' q L m1 n' Hq Hpar Hch Hlive
    |par i' q p w kw j rest L1 m1 n2 L2 m2 n3 Hq Hpar Hch Hcode' Haw Hruns Hl IH]; intros m Hm; subst.
  - destruct (live_progress _ _ _ _ _ Hlive) as [(ev & pr' & n1 & Hs)|(k & Hk)].
    + eexists _, _. by eapply step_local.
    + eexists _, _. by eapply step_fork.
  - destruct m1 as [|m1]; [|by eapply IH]. destruct Haw as [w|st t a p w kw Haw].
    + (* the child has ended *)
      inversion Hl as [? ? cpr ? ? ? Hj Hp _ Hz|]; [|subst; lia]. subst.
      inversion Hz as [? ? ? ? ? ? ? Hr| |]; subst; [by inversion Hr|]. eexists _, _. by eapply (step_wait _ _ _ s i' q w j (mkProcess (Zombie _) _ _ _)).
    + destruct q as [cd f d par']. simpl in Hcode'. subst cd.
      eexists _, _. eapply step_local; [done|]. apply ls_print.
Qed.

(** ** All schedules *)

(** The table holds the processes of the chain and no others; numbers are used once. *)
Definition chained (s : system) (L : list launch) (m n' : nat) : Prop :=
  ∃ pids, linked (procs s) (next_pipe s) None pids L m n' ∧ hd_error pids = Some shell_pid ∧ NoDup pids ∧
    (∀ i, is_Some (procs s !! i) → i ∈ pids) ∧
    (∀ i pr, procs s !! i = Some pr → (i < next_pid s)%nat ∧ ∀ p, parent pr = Some p → (p < next_pid s)%nat) ∧
    (0 < next_pid s)%nat.

Lemma chained_step s L m n' ev s' :
  chained s L m n' → step s ev s' → ∃ L' m', L = ev ++ L' ∧ m = S m' ∧ chained s' L' m' n'.
Proof.
  intros (pids & Hl & Hhd & Hnd & Hdom & Hlt & H0) Hs.
  inversion Hs as [? i pr ? pr' n1 Hpr Hls|? i pr k Hpr Hk|? ? ? ? [] |? i pr k j c st Hpr Hk Hc Hpc Hz|? i pr k Hpr Hk Hno]; subst.
  - destruct (linked_local _ _ _ _ _ _ _ i pr ev pr' n1 Hl Hnd) as (L' & m' & -> & -> & Hl'); [eauto|done|done|].
    assert (Hpp : parent pr' = parent pr) by (by inversion Hls).
    exists L', m'. split_and!; [done..|]. exists pids. split_and!; [done..| | |done]; simpl.
    + intros x [y [[<- <-]|[_ Hx]]%lookup_insert_Some]; apply Hdom; eauto.
    + intros x y Hx. destruct (lookup_same_parent _ _ _ _ _ _ Hpr Hpp Hx) as (y' & Hy & <-). by apply Hlt in Hy.
  - assert (Hfree : procs s !! next_pid s = None).
    { destruct (procs s !! next_pid s) as [y|] eqn:Hy; [|done]. apply Hlt in Hy. lia. }
    destruct (linked_fork _ _ _ _ _ _ _ i pr k (next_pid s) Hl Hnd) as (m' & -> & Hl'); [eauto|done..| |].
    { intros x y Hx Hp. destruct (Hlt x y Hx) as [_ Hp']. apply Hp' in Hp. lia. }
    exists L, m'. split_and!; [done..|]. exists (pids ++ [next_pid s]). split_and!; [done| | | | |simpl; lia]; simpl.
    + by destruct pids.
    + apply NoDup_app. split_and!; [done| |apply NoDup_singleton]. intros x Hx ->%list_elem_of_singleton.
      destruct (linked_pids _ _ _ _ _ _ _ _ Hl Hx) as [y Hy]. congruence.
    + intros x [y [[<- <-]|[_ [[<- <-]|[_ Hx]]%lookup_insert_Some]]%lookup_insert_Some]; apply elem_of_app;
        [right; by left|left; apply Hdom; eauto..].
    + assert (Hi : (i < next_pid s)%nat) by (by destruct (Hlt i pr Hpr)).
      intros x y [[<- <-]|[_ Hx]]%lookup_insert_Some; [simpl; split; [lia|intros p [= <-]; lia]|].
      destruct (lookup_same_parent _ _ _ (with_code pr _) _ _ Hpr eq_refl Hx) as (y' & Hy & <-).
      apply Hlt in Hy as [? Hp]. split; [lia|]. intros p Hpp. apply Hp in Hpp. lia.
  - destruct (linked_wait _ _ _ _ _ _ _ i pr k j c st Hl Hnd) as (m' & pids' & -> & Hhd' & Hnd' & Hsub & Hsub' & Hl'); [eauto|done..|].
    exists L, m'. split_and!; [done..|]. exists pids'. split_and!; [done|congruence|done| | |done]; simpl.
    + intros x [y [Hne Hx]%lookup_delete_Some]. destruct (lookup_same_parent _ _ _ (with_code pr _) _ _ Hpr eq_refl Hx) as (y' & Hy & _).
      assert (Hin : x ∈ pids) by (apply Hdom; eauto). apply Hsub' in Hin. apply elem_of_cons in Hin as [->|?]; done.
    + intros x y [_ Hx]%lookup_delete_Some. destruct (lookup_same_parent _ _ _ (with_code pr _) _ _ Hpr eq_refl Hx) as (y' & Hy & <-).
      by apply Hlt in Hy.
  - exfalso. eapply linked_wait_none; [done| |done..]. apply Hdom. eauto.
Qed.

Lemma chained_steps s L m n' k ev s' :
  chained s L m n' → steps k s ev s' → ∃ L' m', L = ev ++ L' ∧ m = (k + m')%nat ∧ chained s' L' m' n'.
Proof.
  intros Hc. induction 1 as [s|k s ev s1 ev' s2 _ IH Hs]; [by exists L, m|].
  destruct (IH Hc) as (L1 & m1 & -> & -> & H1). destruct (chained_step _ _ _ _ _ _ H1 Hs) as (L2 & m2 & -> & -> & H2).
  exists L2, m2. split_and!; [by rewrite <- app_assoc|lia|done].
Qed.

Lemma chained_progress s L m n' : chained s L (S m) n' → ∃ ev s', step s ev s'.
Proof. intros (pids & Hl & _). by eapply linked_progress. Qed.

(** At the end the first process is left, and has ended. *)
Lemma chained_end s L n' :
  chained s L 0 n' → L = [] ∧ ∃ pr st, procs s = {[ shell_pid := pr ]} ∧ code pr = Zombie st.
Proof.
  intros (pids & Hl & Hhd & _ & Hdom & _). inversion Hl as [? i pr ? ? ? Hpr _ _ Hlive|]; subst; [|lia].
  simpl in Hhd. injection Hhd as ->. inversion Hlive as [? ? ? ? ? ? ? Hr| |st f d par]; subst; [by inversion Hr|].
  split; [done|]. exists (mkProcess (Zombie st) f d par), st. split; [|done]. apply map_eq. intros j. destruct (decide (j = shell_pid)) as [->|Hne].
  - by rewrite lookup_singleton_eq.
  - rewrite lookup_singleton_ne by done. destruct (procs s !! j) eqn:Hj; [|done].
    exfalso. apply Hne. apply list_elem_of_singleton, Hdom. eauto.
Qed.

(** All processes but the last wait for another. *)
Definition waiting (pr : process) : Prop := ∃ p w m, code pr = Running p ∧ awaits p w m.

Lemma linked_one_active σ n par pids L m n' i j pi pj :
  linked σ n par pids L m n' → i ∈ pids → j ∈ pids → σ !! i = Some pi → σ !! j = Some pj →
  ¬ waiting pi → i ≠ j → waiting pj.
Proof.
  intros Hl. induction Hl as [par i' q L m n' Hq Hpar Hch Hlive
    |par i' q p w kw x rest L1 m1 n2 L2 m2 n3 Hq Hpar Hch Hcode' Haw Hruns Hl IH]; intros Hi Hj Hpi Hpj Hwi Hne.
  - apply list_elem_of_singleton in Hi, Hj. congruence.
  - assert (Hw : waiting q) by (by exists p, w, kw).
    apply elem_of_cons in Hi as [->|Hi]; [congruence|]. apply elem_of_cons in Hj as [->|Hj]; [congruence|]. eauto.
Qed.

Lemma chained_one_active s L m n' i j pi pj :
  chained s L m n' → procs s !! i = Some pi → procs s !! j = Some pj → ¬ waiting pi → i ≠ j → waiting pj.
Proof. intros (pids & Hl & _ & _ & Hdom & _) Hi Hj. eapply linked_one_active; eauto. Qed.

Lemma initial_chained p L m n' :
  runs p (std_fds Console Console) [] 0 L m n' → chained (initial p) L m n'.
Proof.
  intros Hr. exists [shell_pid]. split_and!; simpl.
  - eapply linked_last; [apply lookup_singleton_eq|done| |by constructor].
    by intros c q [<- <-]%lookup_singleton_Some.
  - done.
  - apply NoDup_singleton.
  - intros i [pr [<- _]%lookup_singleton_Some]. by left.
  - intros i pr [<- <-]%lookup_singleton_Some. simpl. unfold shell_pid. split; [lia|done].
  - unfold shell_pid. lia.
Qed.
End schedule.

(** ** Specification *)
Definition bin_path (name : word) : word := bytes "/bin/" ++ take 250 name.

Definition input_of (lines : list word) : list Z := lines ≫= fun l => l ++ [10].

(** A line that fits into the shell's buffer. *)
Definition good_line (l : word) : Prop := (length l <= 98)%nat ∧ 0 ∉ l ∧ 10 ∉ l.

Section specification.
Context (executable : list Z → bool) (can_cd : list (list Z) → list Z → bool).

(** The programs, in order, and the number of pipes there are then; [i] and [o] are what
    the command has as its input and output. *)
Fixpoint launches (d : list (list Z)) (i o : open_file) (n : nat) (t : tree) : list launch * nat :=
  match t with
  | TExec [] => ([], n)
  | TExec (a0 :: args) =>
      (if executable (bin_path a0) then [mkLaunch (bin_path a0) (a0 :: args) (std_fds i o) d] else [], n)
  | TRedir c f t =>
      if c =? chr ">" then launches d i (OpenFile f "w") n t else launches d (OpenFile f "r") o n t
  | TPipe l r =>
      let '(L1, n1) := launches d i (PipeWrite n) (S n) l in
      let '(L2, n2) := launches d (PipeRead n) o n1 r in
      (L1 ++ L2, n2)
  end.

Fixpoint serve (d : list (list Z)) (n : nat) (lines : list word) : list launch :=
  match lines with
  | [] => []
  | l :: lines =>
      if bool_decide (take 3 l = bytes "cd ") then
        serve (if can_cd d (drop 3 l) then d ++ [drop 3 l] else d) n lines
      else if bool_decide (take 4 l = bytes "exit") then []
      else
        match parse l with
        | inl _ => serve d n lines
        | inr t => let '(L, n) := launches d Console Console n t in L ++ serve d n lines
        end
  end.
End specification.

(** ** Trees the parser makes *)
Fixpoint tree_ok (t : tree) : Prop :=
  match t with
  | TExec args => (length args < MAXARGS)%nat ∧ Forall (fun w => 0 ∉ w) args
  | TRedir c f t => (c = chr "<" ∨ c = chr ">") ∧ 0 ∉ f ∧ tree_ok t
  | TPipe l r => tree_ok l ∧ tree_ok r
  end.

Fixpoint depth (t : tree) : nat :=
  match t with TExec _ => 1 | TRedir _ _ t => S (depth t) | TPipe l r => S (max (depth l) (depth r)) end.

Definition token_ok (k : token) : Prop := match k with Word w => 0 ∉ w | Sym c => c ∈ symbols end.

Lemma lex_ok t w : 0 ∉ t → 0 ∉ w → Forall token_ok (lex_from w t).
Proof.
  assert (Hflush : ∀ w, 0 ∉ w → Forall token_ok (flush w)).
  { intros [|c v] Hv; simpl; [done|]. by apply Forall_cons_2. }
  revert w. induction t as [|c t IH]; intros w Ht Hw; simpl; [by apply Hflush|].
  apply not_elem_of_cons in Ht as [Hc Ht]. case_bool_decide; [|case_bool_decide].
  - apply Forall_app. split; [by apply Hflush|]. apply IH; [done|apply not_elem_of_nil].
  - apply Forall_app. split; [by apply Hflush|]. apply Forall_cons_2; [done|]. apply IH; [done|apply not_elem_of_nil].
  - apply IH; [done|]. intros [?|?%list_elem_of_singleton]%elem_of_app; done.
Qed.

Lemma lex_length t w : (length (lex_from w t) <= length t + match w with [] => 0 | _ => 1 end)%nat.
Proof.
  assert (Hflush : ∀ w, length (flush w) = match w with [] => 0%nat | _ => 1%nat end) by (by intros []).
  revert w. induction t as [|c t IH]; intros w; simpl; [by rewrite Hflush|].
  case_bool_decide; [|case_bool_decide].
  - rewrite length_app, Hflush. specialize (IH []). simpl in *. destruct w; lia.
  - rewrite length_app, Hflush. simpl. specialize (IH []). simpl in *. destruct w; lia.
  - specialize (IH (w ++ [c])). destruct (w ++ [c]), w; simpl in *; lia.
Qed.

Lemma lex_newline t w : lex_from w (t ++ [10]) = lex_from w t.
Proof.
  revert w. induction t as [|c t IH]; intros w; simpl.
  - by rewrite app_nil_r.
  - by rewrite !IH.
Qed.

Definition redir_ok (r : Z * word) : Prop := (r.1 = chr "<" ∨ r.1 = chr ">") ∧ 0 ∉ r.2.

Lemma segment_ok args rs :
  (length args < MAXARGS)%nat → Forall (fun w => 0 ∉ w) args → Forall redir_ok rs → tree_ok (segment args rs).
Proof.
  intros Hl Ha. unfold segment, wrap. induction rs as [|[c f] rs IH] using rev_ind; [done|].
  rewrite foldl_app. intros [Hrs Hr]%Forall_app. apply Forall_singleton in Hr as [Hc Hf]. simpl in *. auto.
Qed.

Lemma segment_depth args rs : depth (segment args rs) = S (length rs).
Proof.
  unfold segment, wrap. induction rs as [|[c f] rs IH] using rev_ind; [done|].
  rewrite foldl_app, length_app. simpl. rewrite IH. lia.
Qed.

Lemma parse_from_ok ts args rs t :
  Forall token_ok ts → (length args < MAXARGS)%nat → Forall (fun w => 0 ∉ w) args → Forall redir_ok rs →
  parse_from args rs ts = inr t → tree_ok t ∧ (depth t <= S (length rs + length ts))%nat.
Proof.
  revert args rs t. remember (length ts) as n eqn:Hn. revert ts Hn.
  induction (lt_wf n) as [n _ IH]. intros ts -> args rs t Hts Hl Ha Hr Hp.
  destruct ts as [|[w|c] ts]; simpl in Hp.
  - injection Hp as <-. rewrite segment_depth. simpl. split; [by apply segment_ok|lia].
  - apply Forall_cons in Hts as [Hw Hts]. case_bool_decide as Hm; [done|].
    destruct (IH (length ts) ltac:(simpl; lia) ts eq_refl (args ++ [w]) rs t) as [? ?]; simpl in *; try done.
    + rewrite length_app. simpl. lia.
    + apply Forall_app. split; [done|]. by apply Forall_singleton.
    + split; [done|lia].
  - apply Forall_cons in Hts as [Hc Hts]. destruct (Z.eqb_spec c (chr "|")) as [->|Hne].
    + destruct (parse_from [] [] ts) as [e|r] eqn:Hrest; [done|]. injection Hp as <-.
      destruct (IH (length ts) ltac:(simpl; lia) ts eq_refl [] [] r) as [? ?]; try done; simpl in *; [by apply Nat.ltb_lt|].
      rewrite segment_depth. split; [split; [by apply segment_ok|done]|lia].
    + destruct ts as [|[f|s] ts]; [done| |done]. apply Forall_cons in Hts as [Hf Hts].
      destruct (IH (length ts) ltac:(simpl; lia) ts eq_refl args (rs ++ [(c, f)]) t) as [? Hd]; try done.
      * apply Forall_app. split; [done|]. apply Forall_singleton. split; [|done]. simpl. revert Hc Hne.
        simpl. change symbols with [60; 124; 62]. rewrite !elem_of_cons, elem_of_nil.
        change (chr "|") with 124. change (chr "<") with 60. change (chr ">") with 62. lia.
      * split; [done|]. rewrite length_app in Hd. simpl in *. lia.
Qed.

Lemma parse_ok t c : 0 ∉ t → parse t = inr c → tree_ok c ∧ (depth c <= S (length t))%nat.
Proof.
  intros Hn Hp. destruct (parse_from_ok (lex t) [] [] c) as [? Hd]; try done.
  - apply lex_ok; [done|apply not_elem_of_nil].
  - by apply Nat.ltb_lt.
  - split; [done|]. pose proof (lex_length t []) as Hl. unfold lex in Hd. simpl in *. lia.
Qed.

(** ** Strings *)
Lemma string_from_spec l s t rest :
  0 <= s → drop (Z.to_nat s) l = t ++ 0 :: rest → 0 ∉ t → string_from l s = Some t.
Proof.
  intros Hs Hd Hn. unfold string_from, strlen. rewrite (strlen_finds_nul l t rest); [|done..|].
  - simpl. rewrite Hd, Nat2Z.id. by rewrite take_app_length.
  - pose proof (length_drop l (Z.to_nat s)) as Hl. rewrite Hd, length_app in Hl. simpl in Hl. lia.
Qed.

Lemma string_from_c_string w : 0 ∉ w → string_from (c_string w) 0 = Some w.
Proof. intros. by apply (string_from_spec _ 0 w []). Qed.

Lemma write_at_spec l buf i :
  (i + length l <= length buf)%nat →
  write_at buf (Z.of_nat i) l = Some (take i buf ++ l ++ drop (i + length l) buf).
Proof.
  revert buf i. induction l as [|c l IH]; intros buf i Hl; simpl in *.
  - by rewrite Nat.add_0_r, take_drop.
  - rewrite zupdate_nat by lia. simpl. replace (Z.of_nat i + 1) with (Z.of_nat (S i)) by lia.
    rewrite IH by (rewrite length_insert; lia). f_equal.
    rewrite (take_S_r _ _ c) by (apply list_lookup_insert_eq; lia).
    rewrite take_insert_ge by lia. rewrite <- app_assoc. simpl. do 3 f_equal.
    rewrite drop_insert_lt by lia. f_equal. lia.
Qed.

Lemma args_of_spec args k :
  Forall (fun w => 0 ∉ w) args → args_of ((Some ∘ c_string <$> args) ++ replicate (S k) None) = Some args.
Proof.
  induction 1 as [|w args Hw _ IH]; [done|]. cbn [fmap list_fmap app args_of compose].
  rewrite string_from_c_string by done. simpl in *. by rewrite IH.
Qed.

Section effects.
Context (executable : list Z → bool) (can_cd : list (list Z) → list Z → bool).
Context (malloc_ok : nat → bool) (memory : ∀ n, malloc_ok n = true).
Context (junk : list Z) (junk_length : Z.of_nat (length junk) = 256) (tty : bool).

Abbreviation runs := (runs executable can_cd).
Abbreviation launches := (launches executable).
Abbreviation runcmd := (runcmd junk true).
Abbreviation main := (main malloc_ok junk true tty).

(** [command_path] fits into its 256 bytes whatever the name. *)
Lemma command_path_spec name : 0 ∉ name → command_path junk (c_string name) = Some (bin_path name).
Proof.
  intros Hn. unfold command_path, strncat. assert (Hl : length (bytes "/bin/" ++ [0]) = 6%nat) by done.
  pose proof (write_at_spec (bytes "/bin/" ++ [0]) junk 0 ltac:(rewrite Hl; lia)) as Hw. rewrite Hl in Hw.
  change (Z.of_nat 0) with 0 in Hw. rewrite Hw. cbn [mbind option_bind]. set (tail := drop 6 junk).
  assert (Ht : length tail = 250%nat) by (unfold tail; rewrite length_drop; lia).
  change (take 0 junk ++ (bytes "/bin/" ++ [0]) ++ drop (0 + 6) junk) with ((bytes "/bin/" ++ [0]) ++ tail).
  unfold strlen. rewrite (strlen_finds_nul _ (bytes "/bin/") tail); [|done|by rewrite <- app_assoc| |].
  2: by apply (bool_decide_unpack _).
  2: { rewrite length_app, Hl. simpl. lia. }
  cbn [mbind option_bind]. rewrite string_from_c_string by done. cbn [mbind option_bind].
  assert (Hlen : (length (take 250 name) <= 250)%nat) by (rewrite length_take; lia).
  rewrite (write_at_spec (take 250 name ++ [0]) _ 5).
  2: { rewrite (length_app (take 250 name)), (length_app _ tail), Hl. simpl. lia. }
  cbn [mbind option_bind]. eapply (string_from_spec _ 0); [done| |].
  - simpl. rewrite <- app_assoc. done.
  - unfold bin_path. intros [H|H]%elem_of_app; [by apply (bool_decide_eq_false_1 (0 ∈ bytes "/bin/")) in H|].
    apply Hn. apply elem_of_take in H as (k & Hk & _). by apply list_elem_of_lookup_2 in Hk.
Qed.

Lemma run_exec_runs args d i o n :
  (length args < MAXARGS)%nat → Forall (fun w => 0 ∉ w) args →
  ∃ m, runs (run_exec junk true (mkExec (argv_of args))) (std_fds i o) d n (launches d i o n (TExec args)).1 m n.
Proof.
  intros Hl Hargs. unfold run_exec. destruct args as [|a0 args].
  - exists 2%nat. simpl. do 2 constructor.
  - assert (Ha : argv_of (a0 :: args) = (Some ∘ c_string <$> (a0 :: args)) ++ replicate (S (MAXARGS - S (length (a0 :: args)))) None).
    { unfold argv_of. by replace (MAXARGS - length (a0 :: args))%nat with (S (MAXARGS - S (length (a0 :: args)))) by lia. }
    cbn [argv]. rewrite Ha, args_of_spec by done. cbn [fmap list_fmap app compose].
    apply Forall_cons in Hargs as [Ha0 _]. rewrite string_from_c_string, command_path_spec by done. simpl.
    destruct (executable (bin_path a0)) eqn:He.
    + eexists. constructor. by constructor.
    + eexists. constructor. apply r_exec_failed; [done|]. constructor.
Qed.

(** ** Descriptors *)
Lemma std_fds_in i o f : <[stdin := f]> (std_fds i o) = std_fds f o.
Proof. done. Qed.

Lemma std_fds_out i o f : <[stdout := f]> (std_fds i o) = std_fds i f.
Proof. done. Qed.

Definition with_pipe (i o : open_file) (n : nat) : fd_table := <[4 := PipeWrite n]> (<[3 := PipeRead n]> (std_fds i o)).

Lemma run_pipe_runs left right i o d n L1 m1 n1 L2 m2 n2 :
  runs left (std_fds i (PipeWrite n)) d (S n) L1 m1 n1 →
  runs right (std_fds (PipeRead n) o) d n1 L2 m2 n2 →
  ∃ m, runs (run_pipe (3, 4) left right) (with_pipe i o n) d (S n) (L1 ++ L2) m n2.
Proof.
  intros Hl Hr. eexists. unfold run_pipe. eapply r_fork with (w := fun _ => _).
  - simpl. constructor. eapply r_dup2; [done|]. simpl. do 2 constructor. exact Hl.
  - intros pid Hpid. destruct (Z.eqb_spec pid 0); [lia|]. constructor. constructor.
  - intros st. simpl. constructor. eapply r_dup2; [done|]. simpl. do 2 constructor. exact Hr.
Qed.

Lemma runcmd_runs fuel h p t d i o n :
  repr h p t → tree_ok t → (depth t <= fuel)%nat →
  ∃ m, runs (runcmd fuel h p) (std_fds i o) d n (launches d i o n t).1 m (launches d i o n t).2.
Proof.
  revert fuel p i o n. induction t as [args|c f t IH|l IHl r IHr]; intros [|fuel] p i o n Hrep Hok Hd; simpl in Hd; try lia.
  - destruct Hok as [Hl Hargs]. destruct p as [p|]; [|done]. cbn [ShellRun.runcmd repr] in *. rewrite Hrep.
    destruct (run_exec_runs args d i o n Hl Hargs) as [m Hm]. exists m. by destruct args.
  - destruct Hok as (Hc & Hf & Hok). destruct Hrep as (q & Hp & Hq). destruct p as [p|]; [|done].
    cbn [ShellRun.runcmd]. rewrite Hp. cbn [rtype file rcmd]. rewrite string_from_c_string by done.
    destruct Hc as [->| ->]; simpl.
    + destruct (IH fuel q (OpenFile f "r") o n Hq Hok ltac:(lia)) as [m Hm]. exists (S m). by apply r_freopen.
    + destruct (IH fuel q i (OpenFile f "w") n Hq Hok ltac:(lia)) as [m Hm]. exists (S m). by apply r_freopen.
  - destruct Hok as [Hokl Hokr]. destruct Hrep as (a & b & Hp & Ha & Hb). destruct p as [p|]; [|done].
    cbn [ShellRun.runcmd]. rewrite Hp. cbn [left right ShellEffects.launches].
    destruct (IHl fuel a i (PipeWrite n) (S n) Ha Hokl ltac:(lia)) as [m1 H1].
    destruct (launches d i (PipeWrite n) (S n) l) as [L1 n1].
    destruct (IHr fuel b (PipeRead n) o n1 Hb Hokr ltac:(lia)) as [m2 H2].
    destruct (launches d (PipeRead n) o n1 r) as [L2 n2]. simpl in *.
    destruct (run_pipe_runs _ _ i o d n L1 m1 n1 L2 m2 n2 H1 H2) as [m Hm].
    exists (S m). eapply (r_pipe _ _ _ (std_fds i o) d n _ _ _ 3 4 (<[3 := PipeRead n]> (std_fds i o))); done.
Qed.

(** ** Lines *)
Lemma fgets_line n l rest : (length l < n)%nat → 10 ∉ l → fgets n (l ++ 10 :: rest) = (l ++ [10], rest).
Proof.
  revert n. induction l as [|c l IH]; intros [|n] Hl Hn; simpl in *; try lia; [done|].
  apply not_elem_of_cons in Hn as [Hc Hn]. destruct (Z.eqb_spec c 10); [congruence|]. by rewrite IH by (done || lia).
Qed.

(** The buffer with the line [l]. *)
Definition line_buffer (l : word) : list Z := (l ++ [10]) ++ 0 :: drop (S (length (l ++ [10]))) (replicate 100 0).

Lemma line_buffer_length l : good_line l → length (line_buffer l) = 100%nat.
Proof.
  intros (Hl & _ & _). unfold line_buffer. rewrite length_app. cbn [length]. rewrite length_drop, length_replicate, length_app.
  simpl. lia.
Qed.

Lemma getcmd_line l rest : good_line l → getcmd 100 ((l ++ [10]) ++ rest) = (0, line_buffer l, rest).
Proof.
  intros (Hl & H0 & Hn). unfold getcmd. rewrite <- app_assoc. cbn [app].
  rewrite fgets_line by (done || lia). destruct (l ++ [10]) as [|c t] eqn:Hc; [by destruct l|].
  unfold line_buffer. rewrite Hc. rewrite bool_decide_eq_false_2; [done|]. simpl. intros [= ->].
  assert (Hin : 0 ∈ l ++ [10]) by (rewrite Hc; by left).
  apply elem_of_app in Hin as [?|?%list_elem_of_singleton]; done.
Qed.

Lemma getcmd_end : ∃ buf, getcmd 100 [] = (-1, buf, []).
Proof. by eexists. Qed.

(** The tests on the first characters see no difference. *)
Lemma is_cd_line l : is_cd (line_buffer l) = bool_decide (take 3 l = bytes "cd ").
Proof.
  unfold is_cd, line_buffer. change (bytes "cd ") with [chr "c"; chr "d"; chr " "].
  destruct l as [|a [|b [|c l]]]; simpl; repeat case_bool_decide; try done; simplify_eq; done || naive_solver.
Qed.

Lemma is_exit_line l : is_exit (line_buffer l) = bool_decide (take 4 l = bytes "exit").
Proof.
  unfold is_exit, line_buffer. change (bytes "exit") with [chr "e"; chr "x"; chr "i"; chr "t"].
  apply bool_decide_ext. destruct l as [|a [|b [|c [|d l]]]]; simpl; split; done || naive_solver.
Qed.

Lemma cd_path_line l :
  good_line l → take 3 l = bytes "cd " → cd_path (line_buffer l) = Some (drop 3 l).
Proof.
  intros Hg Hcd. pose proof (line_buffer_length l Hg) as Hlen. destruct Hg as (Hl & H0 & Hn). unfold cd_path, strlen.
  rewrite (strlen_finds_nul _ (l ++ [10]) (drop (S (length (l ++ [10]))) (replicate 100 0))); [|done|done| |].
  2: { by intros [?|?%list_elem_of_singleton]%elem_of_app. }
  2: { rewrite Hlen, length_app. simpl. lia. }
  cbn [mbind option_bind]. replace (Z.of_nat (length (l ++ [10])) - 1) with (Z.of_nat (length l)) by (rewrite length_app; simpl; lia).
  rewrite zupdate_nat by (rewrite Hlen; lia). cbn [mbind option_bind].
  unfold line_buffer. rewrite <- app_assoc. rewrite insert_app_r_alt, Nat.sub_diag by done. cbn [app].
  assert (H3 : (3 <= length l)%nat).
  { apply (f_equal length) in Hcd. rewrite length_take in Hcd. change (length (bytes "cd ")) with 3%nat in Hcd. lia. }
  eapply (string_from_spec _ 3); [done| |].
  - simpl Z.to_nat. rewrite drop_app_le by done. done.
  - intros Hin. apply H0. rewrite <- (take_drop 3 l). apply elem_of_app. by right.
Qed.

Lemma parse_line l :
  good_line l →
  match parse l with
  | inl e => parsecmd malloc_ok (line_buffer l) 100 0 (mkStore 0 []) = Exits (-1) (message e)
  | inr t => ∃ p st, parsecmd malloc_ok (line_buffer l) 100 0 (mkStore 0 []) = Value p st ∧ repr (cmds st) p t
  end.
Proof.
  intros (Hl & H0 & Hn). unfold parse, lex. rewrite <- lex_newline.
  apply (parsecmd_ok malloc_ok memory _ _ (l ++ [10]) (drop (S (length (l ++ [10]))) (replicate 100 0))); [done| |].
  - by intros [?|?%list_elem_of_singleton]%elem_of_app.
  - rewrite length_app. simpl. lia.
Qed.

Lemma child_runs l t d n :
  good_line l → parse l = inr t →
  ∃ m, runs (child malloc_ok junk true (line_buffer l)) (std_fds Console Console) d n
    (launches d Console Console n t).1 m (launches d Console Console n t).2.
Proof.
  intros Hg Ht. pose proof (parse_line l Hg) as Hp. rewrite Ht in Hp. destruct Hp as (p & st & Hrun & Hrep).
  unfold child. rewrite line_buffer_length, Hrun by done. destruct Hg as (Hl & H0 & _).
  destruct (parse_ok l t H0 Ht) as [Hok Hd]. apply runcmd_runs; [done..|lia].
Qed.

Lemma child_fails l e d n :
  good_line l → parse l = inl e →
  runs (child malloc_ok junk true (line_buffer l)) (std_fds Console Console) d n [] 2 n.
Proof.
  intros Hg Ht. pose proof (parse_line l Hg) as Hp. rewrite Ht in Hp.
  unfold child. rewrite line_buffer_length, Hp by done. do 2 constructor.
Qed.

(** ** The loop *)
Lemma prompt_runs p d n L :
  (∃ m n', runs p (std_fds Console Console) d n L m n') →
  ∃ m n', runs (prompt tty p) (std_fds Console Console) d n L m n'.
Proof. intros (m & n' & Hm). unfold prompt. destruct tty; [exists (S m), n'; by constructor|by exists m, n']. Qed.

Lemma fork_runs buf next d n L1 m1 n1 L2 m2 n2 :
  runs (child malloc_ok junk true buf) (std_fds Console Console) d n L1 m1 n1 →
  runs next (std_fds Console Console) d n1 L2 m2 n2 →
  ∃ m, runs (fork1 (fun pid => if pid =? 0 then child malloc_ok junk true buf else Wait (fun _ => next)))
    (std_fds Console Console) d n (L1 ++ L2) m n2.
Proof.
  intros H1 H2. eexists. unfold fork1. eapply r_fork with (w := fun _ => next); [exact H1| |intros; exact H2].
  intros pid Hpid. destruct (Z.eqb_spec pid (-1)); [lia|]. destruct (Z.eqb_spec pid 0); [lia|]. constructor.
Qed.

Lemma main_runs lines fuel d n :
  (length lines < fuel)%nat → Forall good_line lines →
  ∃ m n', runs (main fuel (input_of lines)) (std_fds Console Console) d n (serve executable can_cd d n lines) m n'.
Proof.
  revert fuel d n. induction lines as [|l lines IH]; intros [|fuel] d n Hf Hg; cbn [length] in Hf; try lia.
  - cbn [ShellRun.main]. change (input_of []) with (@nil Z). apply prompt_runs. eexists _, _. apply r_exit.
  - apply Forall_cons in Hg as [Hl Hg]. cbn [ShellRun.main]. change (input_of (l :: lines)) with ((l ++ [10]) ++ input_of lines).
    rewrite getcmd_line by done. change (0 <? 0) with false. rewrite is_cd_line, is_exit_line. cbn [serve].
    assert (IH' := fun d n => IH fuel d n ltac:(lia) Hg). clear IH. apply prompt_runs.
    case_bool_decide as Hcd; [|case_bool_decide as Hex].
    + rewrite cd_path_line by done. destruct (can_cd d (drop 3 l)) eqn:Hok.
      * destruct (IH' (d ++ [drop 3 l]) n) as (m & n' & Hm). eexists _, _. by apply r_chdir.
      * destruct (IH' d n) as (m & n' & Hm). eexists _, _. apply r_chdir_failed; [done|]. by constructor.
    + eexists _, _. apply r_exit.
    + destruct (parse l) as [e|t] eqn:Ht.
      * destruct (IH' d n) as (m & n' & Hm). pose proof (child_fails l e d n Hl Ht) as Hc.
        destruct (fork_runs _ _ _ _ _ _ _ _ _ _ Hc Hm) as [m' ?]. eauto.
      * destruct (child_runs l t d n Hl Ht) as [m1 Hc]. destruct (launches d Console Console n t) as [L1 n1].
        destruct (IH' d n1) as (m & n' & Hm). destruct (fork_runs _ _ _ _ _ _ _ _ _ _ Hc Hm) as [m' ?]. eauto.
Qed.
End effects.
