(* ===== verification/ShellProps.v ===== *)
(** * Theorems about the shell *)
From Stdlib Require Import Ascii.
From S2P Require Import Prelude.
From S2P Require Import ShellParser.
From S2P Require Import ShellGrammar.
From S2P Require Import ShellRefine.
From S2P Require Import ShellRun.
From S2P Require Import ShellEffects.

(** ** The parser *)

(** C13: [parsecmd] ends on every line, without undefined behaviour, with the command or
    the error that the grammar gives the line: of its ways to fail only "missing file for
    redirection" and "too many args" are ever taken, arguments never leave [argv], and the
    structures it has built are the tree of the line. *)
Theorem shell_parser_implements_grammar (malloc_ok : nat → bool) text rest fuel st :
  (∀ n, malloc_ok n = true) → 0 ∉ text → (length text < fuel)%nat →
  match parse text with
  | inl e => parsecmd malloc_ok (text ++ 0 :: rest) fuel 0 st = Exits (-1) (message e)
  | inr t => ∃ p st', parsecmd malloc_ok (text ++ 0 :: rest) fuel 0 st = Value p st' ∧ repr (cmds st') p t ∧ tree_ok t
  end.
Proof.
  intros Hm Hn Hf. pose proof (parsecmd_ok malloc_ok Hm _ fuel text rest st eq_refl Hn Hf) as H.
  destruct (parse text) as [e|t] eqn:Ht; [done|]. destruct H as (p & st' & Hrun & Hrep). exists p, st'.
  split_and!; [done..|]. by apply (parse_ok text).
Qed.

Theorem shell_parser_implements_grammar_witness :
  ∃ p st', parsecmd (fun _ => true) (bytes "ls -l <in | wc >out" ++ [0]) 20 0 (mkStore 0 []) = Value p st' ∧
    repr (cmds st') p (TPipe (TRedir (chr "<") (bytes "in") (TExec [bytes "ls"; bytes "-l"]))
                             (TRedir (chr ">") (bytes "out") (TExec [bytes "wc"]))).
Proof.
  destruct (shell_parser_implements_grammar (fun _ => true) (bytes "ls -l <in | wc >out") [] 20 (mkStore 0 []))
    as (p & st' & ? & ? & _).
  - done.
  - by apply (bool_decide_eq_false_1 (0 ∈ bytes "ls -l <in | wc >out")).
  - by apply Nat.ltb_lt.
  - exists p, st'. split; done.
Defined.

(** C21: a command that is printed and parsed again is the same command, redirections in
    their order included. *)
Theorem shell_parser_reads_printed_commands (malloc_ok : nat → bool) t rest st :
  (∀ n, malloc_ok n = true) → printable t →
  ∃ p st', parsecmd malloc_ok (print_tree t ++ 0 :: rest) (S (length (print_tree t))) 0 st = Value p st' ∧
    repr (cmds st') p t.
Proof.
  intros Hm Ht. pose proof (parsecmd_ok malloc_ok Hm _ (S (length (print_tree t))) (print_tree t) rest st eq_refl
    (print_no_nul t Ht) ltac:(lia)) as H. by rewrite parse_print in H.
Qed.

Definition sample_tree : tree :=
  TPipe (TRedir (chr ">") (bytes "g") (TRedir (chr ">") (bytes "f") (TExec [bytes "ls"; bytes "-l"]))) (TExec []).

Lemma sample_tree_printable : printable sample_tree.
Proof. unfold sample_tree. cbn [printable simple]. unfold typed. by apply (bool_decide_unpack _). Qed.

Theorem shell_parser_reads_printed_commands_witness :
  ∃ p st', parsecmd (fun _ => true) (print_tree sample_tree ++ [0]) (S (length (print_tree sample_tree))) 0 (mkStore 0 []) = Value p st' ∧
    repr (cmds st') p sample_tree.
Proof.
  exact (shell_parser_reads_printed_commands (fun _ => true) sample_tree [] (mkStore 0 []) (fun _ => eq_refl) sample_tree_printable).
Defined.

(** ** Sessions *)
Section sessions.
Context (executable : list Z → bool) (can_cd : list (list Z) → list Z → bool).
Context (malloc_ok : nat → bool) (junk : list Z) (tty : bool).

(** The shell, with enough memory and a C library that prints null pointers, on lines
    that fit into its buffer. *)
Definition session (fuel : nat) (lines : list word) : system :=
  initial (main malloc_ok junk true tty fuel (input_of lines)).

Abbreviation steps := (steps executable can_cd False).
Abbreviation step := (step executable can_cd False).

Lemma session_chained fuel lines :
  (∀ n, malloc_ok n = true) → Z.of_nat (length junk) = 256 → (length lines < fuel)%nat → Forall good_line lines →
  ∃ m n, chained executable can_cd (session fuel lines) (serve executable can_cd [] 0 lines) m n.
Proof.
  intros Hm Hj Hf Hg. destruct (main_runs executable can_cd malloc_ok Hm junk Hj tty lines fuel [] 0 Hf Hg) as (m & n & H).
  exists m, n. by apply initial_chained.
Qed.


(** C22: the programs of a pipeline do not run at the same time: at any time at most one
    process is not waiting for another, so a program is started when those to its left
    have ended. *)
Theorem shell_runs_one_program_at_a_time fuel lines k L s i j pi pj :
  (∀ n, malloc_ok n = true) → Z.of_nat (length junk) = 256 → (length lines < fuel)%nat → Forall good_line lines →
  steps k (session fuel lines) L s →
  procs s !! i = Some pi → procs s !! j = Some pj → code pi = Image → i ≠ j → waiting pj.
Proof.
  intros Hm Hj Hf Hg Hs Hi Hjj Himg Hne. destruct (session_chained fuel lines Hm Hj Hf Hg) as (N & n & Hc).
  destruct (chained_steps _ _ _ _ _ _ _ _ _ Hc Hs) as (L' & m' & _ & _ & Hc').
  eapply (chained_one_active _ _ s L' m' n i j pi pj); [exact Hc'|exact Hi|exact Hjj| |done]. intros (p & w & m & Hp & _). congruence.
Qed.
End sessions.

(** A session: a pipeline with redirections, a change of directory, a command in the new
    directory, a mistake, and the end. *)
Definition sample_lines : list word :=
  [bytes "cat <in | sort >out"; bytes "cd /tmp"; bytes "ls -l"; bytes "ls >"; bytes "exit"; bytes "ls"].

Lemma sample_lines_good : Forall good_line sample_lines.
Proof.
  unfold sample_lines. repeat (apply Forall_cons_2); [..|done]; unfold good_line;
    (split_and!; [by apply Nat.leb_le|by apply (bool_decide_eq_false_1 (0 ∈ _))|by apply (bool_decide_eq_false_1 (10 ∈ _))]).
Qed.

Definition sample_launches : list launch :=
  [mkLaunch (bytes "/bin/cat") [bytes "cat"] (std_fds (OpenFile (bytes "in") "r") (PipeWrite 0)) [];
   mkLaunch (bytes "/bin/sort") [bytes "sort"] (std_fds (PipeRead 0) (OpenFile (bytes "out") "w")) [];
   mkLaunch (bytes "/bin/ls") [bytes "ls"; bytes "-l"] (std_fds Console Console) [bytes "/tmp"]].


(** One command: the shell waits while it runs. *)
Theorem shell_runs_one_program_at_a_time_witness :
  ∃ L s pi pj, steps (fun _ => true) (fun _ _ => true) False 3
      (session (fun _ => true) (replicate 256 0) false 5 [bytes "ls"]) L s ∧
    procs s !! 2%nat = Some pi ∧ procs s !! 1%nat = Some pj ∧ code pi = Image ∧ waiting pj.
Proof.
  assert (Hrun : ∃ L s pi pj, steps (fun _ => true) (fun _ _ => true) False 3
      (session (fun _ => true) (replicate 256 0) false 5 [bytes "ls"]) L s ∧
    procs s !! 2%nat = Some pi ∧ procs s !! 1%nat = Some pj ∧ code pi = Image).
  { eexists _, _, _, _. split.
    - eapply steps_snoc; [eapply steps_snoc; [eapply steps_snoc; [apply steps_nil|]|]|].
      + eapply (step_fork _ _ _ _ 1); vm_compute; reflexivity.
      + eapply (step_local _ _ _ _ 2); [vm_compute; reflexivity|apply ls_print].
      + eapply (step_local _ _ _ _ 2); [vm_compute; reflexivity|by apply ls_exec].
    - split_and!; vm_compute; reflexivity. }
  destruct Hrun as (L & s & pi & pj & Hs & Hi & Hj & Himg). exists L, s, pi, pj. split_and!; [done..|].
  apply (shell_runs_one_program_at_a_time (fun _ => true) (fun _ _ => true) (fun _ => true) (replicate 256 0) false 5
    [bytes "ls"] 3 L s 2 1 pi pj); try done.
  - by apply Nat.ltb_lt.
  - apply Forall_cons_2; [|done]. unfold good_line.
    split_and!; [by apply Nat.leb_le|by apply (bool_decide_eq_false_1 (0 ∈ _))|by apply (bool_decide_eq_false_1 (10 ∈ _))].
Defined.

(** ** Redirections *)

(** What the first of the redirections of a kind says. *)
Fixpoint first_redir (c : Z) (mode : string) (rs : list (Z * word)) (default : open_file) : open_file :=
  match rs with
  | [] => default
  | (c', f) :: rs => if c' =? c then OpenFile f mode else first_redir c mode rs default
  end.

Lemma first_redir_app c mode rs1 rs2 default :
  first_redir c mode (rs1 ++ rs2) default = first_redir c mode rs1 (first_redir c mode rs2 default).
Proof. induction rs1 as [|[c' f] rs1 IH]; simpl; [done|]. by destruct (c' =? c). Qed.

Lemma launches_wrap executable d i o n rs t :
  Forall redir_ok rs →
  launches executable d i o n (wrap rs t) =
  launches executable d (first_redir (chr "<") "r" rs i) (first_redir (chr ">") "w" rs o) n t.
Proof.
  revert i o. induction rs as [|[c f] rs IH] using rev_ind; intros i o; [done|].
  intros [Hrs [Hc _]%Forall_singleton]%Forall_app. simpl in Hc. unfold wrap. rewrite foldl_app. simpl.
  rewrite !first_redir_app. destruct Hc as [->| ->]; simpl; by apply IH.
Qed.

(** Of several redirections of the output, or of the input, the first one counts:
    the later ones go around it and are performed before it. *)
Theorem first_redirection_wins executable can_cd junk fuel h p a0 args rs :
  Z.of_nat (length junk) = 256 → (length (a0 :: args) < MAXARGS)%nat → Forall (fun w => 0 ∉ w) (a0 :: args) →
  Forall redir_ok rs → (length rs < fuel)%nat → repr h p (segment (a0 :: args) rs) → executable (bin_path a0) = true →
  ∃ N, ∀ k L s, steps executable can_cd False k (initial (runcmd junk true fuel h p)) L s →
    (k <= N)%nat ∧ ((k < N)%nat → ∃ ev s', step executable can_cd False s ev s') ∧
    (k = N → L = [mkLaunch (bin_path a0) (a0 :: args)
                    (std_fds (first_redir (chr "<") "r" rs Console) (first_redir (chr ">") "w" rs Console)) []]).
Proof.
  intros Hj Hl Ha Hrs Hf Hrep He.
  destruct (runcmd_runs executable can_cd junk Hj fuel h p (segment (a0 :: args) rs) [] Console Console 0) as [N Hr]; [done|..].
  - by apply segment_ok.
  - rewrite segment_depth. lia.
  - apply initial_chained in Hr. exists N. intros k L s Hs.
    destruct (chained_steps _ _ _ _ _ _ _ _ _ Hr Hs) as (L' & m' & HL & -> & Hc). split_and!.
    + lia.
    + intros. destruct m' as [|m']; [lia|]. by eapply chained_progress.
    + intros. assert (m' = O) as -> by lia. destruct (chained_end _ _ _ _ _ Hc) as [-> _].
      unfold segment in HL. rewrite launches_wrap in HL by done. simpl in HL. rewrite He, app_nil_r in HL. done.
Qed.

(** [ls >f >g <x]: what is written goes to [f], and [g] is made empty. *)
Definition sample_redirs : list (Z * word) := [(chr ">", bytes "f"); (chr ">", bytes "g"); (chr "<", bytes "x")].

Definition sample_store : list cmd :=
  match parsecmd (fun _ => true) (bytes "ls >f >g <x" ++ [0]) 20 0 (mkStore 0 []) with
  | Value _ st => cmds st
  | _ => []
  end.

Lemma sample_store_repr : repr sample_store (Some 3%nat) (segment [bytes "ls"] sample_redirs).
Proof. simpl. eexists. split; [vm_compute; reflexivity|]. eexists. split; [vm_compute; reflexivity|]. eexists. by split. Qed.

Theorem first_redirection_wins_witness :
  ∃ N, ∀ k L s, steps (fun _ => true) (fun _ _ => true) False k
      (initial (runcmd (replicate 256 0) true 10 sample_store (Some 3%nat))) L s →
    (k <= N)%nat ∧ ((k < N)%nat → ∃ ev s', step (fun _ => true) (fun _ _ => true) False s ev s') ∧
    (k = N → L = [mkLaunch (bytes "/bin/ls") [bytes "ls"] (std_fds (OpenFile (bytes "x") "r") (OpenFile (bytes "f") "w")) []]).
Proof.
  apply (first_redirection_wins (fun _ => true) (fun _ _ => true) (replicate 256 0) 10 sample_store (Some 3%nat) (bytes "ls") [] sample_redirs).
  - done.
  - by apply Nat.ltb_lt.
  - apply Forall_cons_2; [|done]. by apply (bool_decide_eq_false_1 (0 ∈ _)).
  - unfold redir_ok, sample_redirs. by apply (bool_decide_unpack _).
  - by apply Nat.ltb_lt.
  - apply sample_store_repr.
  - done.
Defined.

(** ** Where the code does not do what it means to *)

(** An empty line: [printf] is given a null pointer for [%s], before the test for it. *)
Lemma empty_command_prints_a_null_pointer junk :
  child (fun _ => true) junk false (line_buffer []) = Undefined.
Proof. reflexivity. Qed.

(** A line that is too long is cut into several commands. *)
Lemma fgets_long n l rest : 10 ∉ l → length l = n → fgets n (l ++ rest) = (l, rest).
Proof.
  revert n. induction l as [|c l IH]; intros n Hn <-; simpl; [by destruct rest|].
  apply not_elem_of_cons in Hn as [Hc Hn]. destruct (Z.eqb_spec c 10); [congruence|]. by rewrite IH.
Qed.

Lemma long_lines_are_split l rest :
  length l = 99%nat → 10 ∉ l → 0 ∉ l → getcmd 100 (l ++ rest) = (0, l ++ [0], rest).
Proof.
  intros Hl Hn H0. unfold getcmd. rewrite (fgets_long (100 - 1)) by done.
  destruct l as [|c t]; [done|]. rewrite bool_decide_eq_false_2; [by rewrite Hl|].
  simpl. intros [= ->]. apply H0. by left.
Qed.

(** Every word that begins with [exit] ends the shell. *)
Lemma exit_is_a_prefix l : take 4 l = bytes "exit" → is_exit (line_buffer l) = true.
Proof. intros. rewrite is_exit_line. by apply bool_decide_eq_true. Qed.

(** When [fork] fails in a pipeline the shell's child waits for nothing, and prints a
    status that has no value. *)
Lemma failed_fork_prints_no_status executable can_cd pipefd l r :
  ∃ s pr, steps executable can_cd True 3 (initial (run_pipe pipefd l r)) [] s ∧
    procs s !! shell_pid = Some pr ∧ code pr = Running Undefined.
Proof.
  eexists _, _. split.
  - eapply (steps_snoc _ _ _ 2 _ [] _ []); [eapply (steps_snoc _ _ _ 1 _ [] _ []); [eapply (steps_snoc _ _ _ 0 _ [] _ []); [apply steps_nil|]|]|].
    + by eapply (step_fork_failed _ _ _ _ shell_pid).
    + by eapply (step_local _ _ _ _ shell_pid); [reflexivity|apply ls_print].
    + eapply (step_wait_none _ _ _ _ shell_pid); [reflexivity|reflexivity|].
      intros j c Hj. unfold initial in Hj. simpl in Hj. rewrite !insert_singleton_eq in Hj.
      apply lookup_singleton_Some in Hj as [_ <-]. done.
  - done.
Qed.

(** A program that does not exist: its process ends with status 0, and prints nothing. *)
Lemma missing_program_succeeds executable can_cd path args f d par n :
  executable path = false →
  local_step executable can_cd False n (mkProcess (Running (Execv path args (Exit 0))) f d par) []
    (mkProcess (Running (Exit 0)) f d par) n.
Proof. apply ls_exec_failed. Qed.
