(* ===== verification/NachosLib.v ===== *)
(** * The C library of the Nachos test programs (src/cse120/nachos/test)

    A pointer into a character array that is read is the rest of the array; one that is
    written through is the array with an index. Reading or writing outside of an array is
    undefined behaviour, as is signed overflow. *)
From Stdlib Require Import Ascii.
From S2P Require Import Prelude.
From S2P Require Import Words.
From S2P Require Import ShellParser.

(** ** Results *)
Inductive res (A : Type) : Type :=
| Ok (a : A)
| AssertFails
| UB
| OutOfFuel.
Arguments Ok {A} _.
Arguments AssertFails {A}.
Arguments UB {A}.
Arguments OutOfFuel {A}.

#[export] Instance res_ret : MRet res := fun A a => Ok a.
#[export] Instance res_bind : MBind res := fun A B f m =>
  match m with Ok a => f a | AssertFails => AssertFails | UB => UB | OutOfFuel => OutOfFuel end.

Definition ub {A} (o : option A) : res A := match o with Some a => Ok a | None => UB end.
Definition assert (b : bool) : res unit := if b then Ok tt else AssertFails.

(** A [char], and an [int] that must not overflow. *)
Definition s8 (c : Z) : Z := if c <? 128 then c else c - 256.
Definition int (z : Z) : res Z := if (- 2 ^ 31 <=? z) && (z <? 2 ^ 31) then Ok z else UB.

(** ** Strings *)
Fixpoint strlen (str : list Z) : res Z :=
  match str with
  | [] => UB
  | c :: str => if c =? 0 then Ok 0 else n ← strlen str; int (n + 1)
  end.

Fixpoint strcmp (a b : list Z) : res Z :=
  match a, b with
  | ca :: a, cb :: b =>
      if s8 ca <? s8 cb then Ok (-1)
      else if s8 cb <? s8 ca then Ok 1
      else if negb (ca =? 0) && negb (cb =? 0) then strcmp a b
      else Ok 0
  | _, _ => UB
  end.

Fixpoint strncmp_loop (n : nat) (a b : list Z) : res Z :=
  match n with
  | O => Ok 0
  | S n =>
      match a, b with
      | ca :: a, cb :: b =>
          if s8 ca <? s8 cb then Ok (-1)
          else if s8 cb <? s8 ca then Ok 1
          else strncmp_loop n a b
      | _, _ => UB
      end
  end.

Definition strncmp (a b : list Z) (n : Z) : res Z := assert (0 <? n) ≫= fun _ => strncmp_loop (Z.to_nat n) a b.

(** [strcpy] to the array [dst] from index [i] on. *)
Fixpoint strcpy (dst : list Z) (i : Z) (src : list Z) : res (list Z) :=
  match src with
  | [] => UB
  | c :: src => dst ← ub (dst.[i := c]); if c =? 0 then Ok dst else strcpy dst (i + 1) src
  end.

Definition strcat (s1 s2 : list Z) : res (list Z) := n ← strlen s1; strcpy s1 n s2.

Fixpoint memcpy (s1 : list Z) (i : Z) (s2 : list Z) (n : nat) {struct n} : res (list Z) :=
  match n with
  | O => Ok s1
  | S n =>
      match s2 with
      | [] => UB
      | c :: s2 => s1 ← ub (s1.[i := c]); memcpy s1 (i + 1) s2 n
      end
  end.

Fixpoint memset (s : list Z) (i c : Z) (n : nat) : res (list Z) :=
  match n with O => Ok s | S n => s ← ub (s.[i := c mod 256]); memset s (i + 1) c n end.

Definition is_digit (c : Z) : bool := (chr "0" <=? s8 c) && (s8 c <=? chr "9").

Fixpoint atoi_loop (result : Z) (s : list Z) : res Z :=
  match s with
  | [] => UB
  | c :: s => if is_digit c then r ← int (result * 10); r ← int (r + (s8 c - chr "0")); atoi_loop r s else Ok result
  end.

Definition atoi (s : list Z) : res Z :=
  match s with
  | [] => UB
  | c :: s' => if s8 c =? -1 then r ← atoi_loop 0 s'; int (r * -1) else r ← atoi_loop 0 s; int (r * 1)
  end.

(** ** printf *)

(** The array that is written, the index of [s] in it. *)
Definition cursor : Type := list Z * Z.

Definition digittoascii (n : Z) (uppercase : bool) : res Z :=
  assert (n <? 36) ≫= fun _ =>
  Ok (if n <=? 9 then chr "0" + n else if uppercase then chr "A" + n - 10 else chr "a" + n - 10).

Definition charprint (s : cursor) (c : Z) : res (Z * cursor) :=
  a ← ub (s.1.[s.2 := c mod 256]); Ok (1, (a, s.2 + 1)).

Definition mcharprint (s : cursor) (chars : list Z) (length : Z) : res (Z * cursor) :=
  a ← memcpy s.1 s.2 chars (Z.to_nat length); Ok (length, (a, s.2 + length)).

(** [for (i = 1; i < min; i++)], [n] turns of it. *)
Fixpoint pad_zero (n : nat) (s : cursor) (len : Z) (zpad : bool) : res (Z * cursor) :=
  match n with
  | O => Ok (len, s)
  | S n => '(k, s) ← charprint s (if zpad then chr "0" else chr " "); pad_zero n s (len + k) zpad
  end.

(** The digits of [n], from the end of [buf]. *)
Fixpoint digits_loop (fuel : nat) (buf : list Z) (i n base : Z) (upper : bool) : res (list Z * Z) :=
  match fuel with
  | O => OutOfFuel
  | S fuel =>
      if n =? 0 then Ok (buf, i)
      else
        let digit := n mod base in
        let n := n / base in
        d ← digittoascii digit upper;
        buf ← ub (buf.[i - 1 := d]);
        digits_loop fuel buf (i - 1) n base upper
  end.

(** [while (i > 32-min) buf[--i] = ...], [n] turns of it. *)
Fixpoint pad_loop (n : nat) (buf : list Z) (i : Z) (zpad : bool) : res (list Z * Z) :=
  match n with
  | O => Ok (buf, i)
  | S n => buf ← ub (buf.[i - 1 := if zpad then chr "0" else chr " "]); pad_loop n buf (i - 1) zpad
  end.

Definition integerprint (junk : list Z) (s : cursor) (n base min : Z) (zpad upper : bool) : res (Z * cursor) :=
  assert ((2 <=? base) && (base <? 36)) ≫= fun _ =>
  let min := if 32 <? min then 32 else min in
  if n =? 0 then
    '(len, s) ← pad_zero (Z.to_nat (min - 1)) s 0 zpad;
    '(k, s) ← charprint s (chr "0");
    Ok (len + k, s)
  else
    '(len, s, n) ← (if n <? 0 then '(k, s) ← charprint s (chr "-"); n ← int (n * -1); Ok (k, s, n) else Ok (0, s, n));
    '(buf, i) ← digits_loop 33 junk 32 n base upper;
    '(buf, i) ← pad_loop (Z.to_nat (i - (32 - min))) buf i zpad;
    '(k, s) ← mcharprint s (drop (Z.to_nat i) buf) (32 - i);
    Ok (len + k, s).

Definition stringprint (s : cursor) (string : list Z) : res (Z * cursor) := n ← strlen string; mcharprint s string n.

(** What [va_arg] can find. *)
Inductive argument : Type := Int (z : Z) | Str (s : list Z).

Definition va_int (ap : list argument) : res (Z * list argument) :=
  match ap with Int z :: ap => Ok (z, ap) | _ => UB end.
Definition va_str (ap : list argument) : res (list Z * list argument) :=
  match ap with Str s :: ap => Ok (s, ap) | _ => UB end.

Fixpoint skip_digits (s : list Z) : list Z :=
  match s with c :: s' => if is_digit c then skip_digits s' else s | [] => [] end.

Section printf.
(** What is in [buf] of [integerprint] before it is written. *)
Context (junk : list Z).

(** The conversion that starts after a [%], at [format]; [None] when there is none. *)
Definition conversion (s : cursor) (format : list Z) (ap : list argument) : res (Z * cursor * list Z * list argument) :=
  match format with
  | [] => UB
  | c :: _ =>
      assert (negb (c =? chr "-")) ≫= fun _ =>
      let zpad := c =? chr "0" in
      min ← atoi format;
      match skip_digits format with
      | [] => UB
      | k :: temp =>
          let number base upper :=
            '(n, ap) ← va_int ap; '(l, s) ← integerprint junk s n base min zpad upper; Ok (l, s, temp, ap) in
          if k =? chr "c" then '(n, ap) ← va_int ap; '(l, s) ← charprint s n; Ok (l, s, temp, ap)
          else if k =? chr "d" then number 10 false
          else if k =? chr "x" then number 16 false
          else if k =? chr "X" then number 16 true
          else if k =? chr "s" then '(t, ap) ← va_str ap; '(l, s) ← stringprint s t; Ok (l, s, temp, ap)
          else '(l, s) ← charprint s (chr "%"); Ok (l, s, format, ap)
      end
  end.

(** [start] is [format - regular]. *)
Fixpoint vsprintf_loop (fuel : nat) (s : cursor) (len : Z) (start : list Z) (regular : Z) (format : list Z)
    (ap : list argument) : res (Z * list Z) :=
  match fuel with
  | O => OutOfFuel
  | S fuel =>
      match format with
      | [] => UB
      | c :: format' =>
          if c =? 0 then
            '(k, s) ← (if 0 <? regular then mcharprint s start regular else Ok (0, s));
            a ← ub (s.1.[s.2 := 0]);
            Ok (len + k, a)
          else if c =? chr "%" then
            '(k, s) ← (if 0 <? regular then mcharprint s start regular else Ok (0, s));
            '(k', s, format, ap) ← conversion s format' ap;
            vsprintf_loop fuel s (len + k + k') format 0 format ap
          else vsprintf_loop fuel s len start (regular + 1) format' ap
      end
  end.

Definition vsprintf (s format : list Z) (ap : list argument) : res (Z * list Z) :=
  vsprintf_loop (S (length format)) (s, 0) 0 format 0 format ap.

(** [vfprintfbuf] before and after, and what is written. *)
Definition vfprintf (vfprintfbuf format : list Z) (ap : list argument) : res (list Z * list Z) :=
  '(len, b) ← vsprintf vfprintfbuf format ap;
  assert (len <? Z.of_nat (length b)) ≫= fun _ =>
  Ok (b, take (Z.to_nat len) b).
End printf.

(** ** Characters and strings on a descriptor

    [answers]: what each [read] returns and stores; [None] when none of them brings a
    character. What is written is the result of [fputs]. *)
Fixpoint fgetc (answers : list (Z * Z)) : option (Z * list (Z * Z)) :=
  match answers with
  | [] => None
  | (r, c) :: answers => if r =? 1 then Some (c, answers) else fgetc answers
  end.

Definition fputs (s : list Z) : res (list Z) := n ← strlen s; Ok (take (Z.to_nat n) s).

(** ** readline

    [readline] reads the characters [input] one by one; the new array, what it echoes and
    the input that is left. [None] when the input ends before the line does: [getch] then
    tries again for ever. *)
Definition BEEP : Z := 7.

Fixpoint readline (s : list Z) (maxlength i : Z) (echo : list Z) (input : list Z) : res (option (list Z * list Z * list Z)) :=
  match input with
  | [] => Ok None
  | c :: input =>
      if s8 c =? 10 then s ← ub (s.[i := 0]); Ok (Some (s, echo ++ [10], input))
      else if s8 c =? 8 then
        if i =? 0 then readline s maxlength i (echo ++ [BEEP]) input
        else readline s maxlength (i - 1) (echo ++ [8; 32; 8]) input
      else if (s8 c <? 32) || (i + 1 =? maxlength) then readline s maxlength i (echo ++ [BEEP]) input
      else s ← ub (s.[i := c]); readline s maxlength (i + 1) (echo ++ [c]) input
  end.
