(* ===== verification/NachosShell.v ===== *)
(** * The Nachos shell (src/cse120/nachos/test/sh.c)

    [tokenizeCommand] with its flags and its two arrays, [runline] and [main]. *)
From Stdlib Require Import Ascii.
From S2P Require Import Prelude.
From S2P Require Import Words.
From S2P Require Import ShellParser.
From S2P Require Import NachosLib.

Definition BUFFERSIZE : Z := 64.
Definition MAXARGS : Z := 16.

(** ** Tokens *)
Definition quotingCharacter : Z := 1.
Definition quotingString : Z := 2.
Definition startedArg : Z := 4.

Definition is_set (state flag : Z) : bool := negb (Z.land state flag =? 0).
Definition set_flag (state flag : Z) : Z := Z.lor state flag.
Definition clear_flag (state flag : Z) : Z := Z.land state (Z.lnot flag).

(** The variables of the loop: [storage] is an index into [args], as the elements of
    [tokens] are. *)
Record tok : Type := mkTok {
  state : Z;
  numTokens : Z;
  args : list Z;
  storage : Z;
  tokens : list Z;
}.

Definition put (t : tok) (c : Z) : res tok :=
  a ← ub ((args t).[storage t := c]);
  Ok (mkTok (state t) (numTokens t) a (storage t + 1) (tokens t)).

Definition with_state (t : tok) (s : Z) : tok := mkTok s (numTokens t) (args t) (storage t) (tokens t).

Definition new_token (t : tok) : res tok :=
  ts ← ub ((tokens t).[numTokens t := storage t]);
  Ok (mkTok (set_flag (state t) startedArg) (numTokens t + 1) (args t) (storage t) ts).

(** [switch (c)] after a backslash. *)
Definition escaped (c : Z) : Z := if c =? chr "t" then 9 else if c =? chr "n" then 10 else c.

Definition quote : Z := 34.
Definition backslash : Z := 92.

(** One character; [None] when there are too many tokens. *)
Definition token_step (maxTokens : Z) (t : tok) (c : Z) : res (option tok) :=
  if is_set (state t) quotingCharacter then
    t ← put t (escaped c); Ok (Some (with_state t (clear_flag (state t) quotingCharacter)))
  else if is_set (state t) quotingString then
    if c =? backslash then Ok (Some (with_state t (set_flag (state t) quotingCharacter)))
    else if c =? quote then Ok (Some (with_state t (clear_flag (state t) quotingString)))
    else t ← put t c; Ok (Some t)
  else if (c =? 32) || (c =? 9) || (c =? 10) then
    if is_set (state t) startedArg then
      t ← put t 0; Ok (Some (with_state t (clear_flag (state t) startedArg)))
    else Ok (Some t)
  else
    let word t :=
      if c =? backslash then Ok (Some (with_state t (set_flag (state t) quotingCharacter)))
      else if c =? quote then Ok (Some (with_state t (set_flag (state t) quotingString)))
      else t ← put t c; Ok (Some t) in
    if negb (is_set (state t) startedArg) then
      if numTokens t =? maxTokens then Ok None else t ← new_token t; word t
    else word t.

(** What follows the loop. *)
Inductive token_error : Type := TooManyTokens | UnmatchedBackslash | UnmatchedQuote.

Definition token_end (t : tok) : res (token_error + tok) :=
  if is_set (state t) quotingCharacter then Ok (inl UnmatchedBackslash)
  else if is_set (state t) quotingString then Ok (inl UnmatchedQuote)
  else if is_set (state t) startedArg then t ← put t 0; Ok (inr t)
  else Ok (inr t).

Fixpoint token_loop (maxTokens : Z) (t : tok) (command : list Z) : res (token_error + tok) :=
  match command with
  | [] => UB
  | c :: command =>
      if c =? 0 then token_end t
      else
        o ← token_step maxTokens t c;
        match o with Some t => token_loop maxTokens t command | None => Ok (inl TooManyTokens) end
  end.

(** The arrays are those of the caller; -1 is returned for an error, [numTokens] otherwise. *)
Definition tokenizeCommand (command : list Z) (maxTokens : Z) (toks storage : list Z) : res (token_error + tok) :=
  assert (0 <? maxTokens) ≫= fun _ => token_loop maxTokens (mkTok 0 0 storage 0 toks) command.

(** ** Running a line *)

(** What a line makes the shell do; the text it prints is kept as format and arguments. *)
Inductive action : Type :=
| Prints (format : list Z) (ap : list argument)
| Exit (status : Z)
| Halt
| Exec (file : list Z) (argc : Z) (argv : list (list Z))
| Join (pid : Z).

Section runline.
(** The kernel, which the calls change: [exec] answers with the process started, or -1,
    [join] with its result and the status it stores. [root]: whether the shell is the root
    process, which alone can halt the machine. [junk]: what is in the arrays on the stack. *)
Context {K : Type} (exec : list Z → list (list Z) → K → Z * K) (join : Z → K → Z * Z * K) (root : bool) (junk : Z → list Z).

(** The string at [argv[i]]. *)
Definition argv_at (t : tok) (i : Z) : res (list Z) :=
  p ← ub ((tokens t).[i]); Ok (drop (Z.to_nat p) (args t)).

Definition bytes0 (s : string) : list Z := bytes s ++ [0].

Definition wait_for (pid : Z) (k : K) : list action * K :=
  let '(r, status, k) := join pid k in
  (Join pid ::
   (if r =? -1 then [Prints (bytes "join: Invalid process ID." ++ [10]) []]
    else if r =? 0 then [Prints (10 :: bytes "[%d] Unhandled exception" ++ [10]) [Int pid]]
    else if r =? 1 then [Prints (10 :: bytes "[%d] Done (%d)" ++ [10]) [Int pid; Int status]]
    else []), k).

Definition in_ground (background : bool) (pid : Z) (k : K) : list action * K :=
  if background then ([Prints (10 :: bytes "[%d]" ++ [10]) [Int pid]], k) else wait_for pid k.

(** A string as a system call reads it. *)
Definition string_of (s : list Z) : res (list Z) := n ← strlen s; Ok (take (Z.to_nat n) s).

(** A command that is none of the shell's own. *)
Definition run_program (t : tok) (argc : Z) (background : bool) (arg0 : list Z) (k : K) : res (list action * K) :=
  prog ← strcpy (junk 1) 0 arg0;
  prog ← strcat prog (bytes0 ".coff");
  prog ← string_of prog;
  argv ← mapM (fun i => argv_at t (Z.of_nat i) ≫= string_of) (seq 0 (Z.to_nat argc));
  let '(pid, k) := exec prog argv k in
  if pid =? -1 then
    s ← string_of arg0; Ok ([Exec prog argc argv; Prints (bytes "%s: exec failed." ++ [10]) [Str s]], k)
  else let '(l, k) := in_ground background pid k in Ok (Exec prog argc argv :: l, k).

Definition run_tokens (t : tok) (argc : Z) (background : bool) (k : K) : res (list action * K) :=
  arg0 ← argv_at t 0;
  e ← strcmp arg0 (bytes0 "exit");
  if e =? 0 then
    if argc =? 1 then Ok ([Exit 0], k)
    else if argc =? 2 then a ← argv_at t 1; n ← atoi a; Ok ([Exit n], k)
    else Ok ([Prints (bytes "exit: Expression Syntax." ++ [10]) []], k)
  else
  h ← strcmp arg0 (bytes0 "halt");
  if h =? 0 then
    if argc =? 1 then Ok (if root then [Halt] else [Halt; Prints (bytes "Not the root process!" ++ [10]) []], k)
    else Ok ([Prints (bytes "halt: Expression Syntax." ++ [10]) []], k)
  else
  j ← strcmp arg0 (bytes0 "join");
  if j =? 0 then
    if argc =? 2 then a ← argv_at t 1; pid ← atoi a; Ok (in_ground background pid k)
    else Ok ([Prints (bytes "join: Expression Syntax." ++ [10]) []], k)
  else run_program t argc background arg0 k.

Definition runline (line : list Z) (k : K) : res (list action * K) :=
  r ← tokenizeCommand line MAXARGS (junk 2) (junk 0);
  match r with
  | inl TooManyTokens => Ok ([], k)
  | inl UnmatchedBackslash => Ok ([Prints (bytes "Unmatched \." ++ [10]) []], k)
  | inl UnmatchedQuote => Ok ([Prints (bytes "Unmatched " ++ [quote; 46; 10]) []], k)
  | inr t =>
      let argc := numTokens t in
      if argc <=? 0 then Ok ([], k) else
      last ← argv_at t (argc - 1);
      b ← strcmp last (bytes0 "&");
      let background := b =? 0 in
      let argc := if background then argc - 1 else argc in
      if 0 <? argc then run_tokens t argc background k else Ok ([], k)
  end.

(** The loop of [main], on what is typed, until a line makes the shell exit or halts the
    machine, or nothing more is typed. [buffer]: its array. *)
Definition stops (l : list action) : bool :=
  existsb (fun a => match a with Exit _ => true | Halt => root | _ => false end) l.

Definition prompt : action := Prints (bytes "%s") [Str (bytes0 "nachos% ")].

Fixpoint main (fuel : nat) (buffer input : list Z) (k : K) : res (list action * K) :=
  match fuel with
  | O => OutOfFuel
  | S fuel =>
      r ← readline buffer BUFFERSIZE 0 [] input;
      match r with
      | None => Ok ([prompt], k)
      | Some (buffer, _, input) =>
          '(l, k) ← runline buffer k;
          if stops l then Ok (prompt :: l, k) else '(rest, k) ← main fuel buffer input k; Ok (prompt :: l ++ rest, k)
      end
  end.
End runline.
