(* ===== verification/NachosLibProps.v ===== *)
(** * Theorems about the C library of the Nachos test programs *)
From Stdlib Require Import Ascii.
From S2P Require Import Prelude.
From S2P Require Import Words.
From S2P Require Import ShellParser.
From S2P Require Import NachosLib.

(** A string of characters; its length is an [int]. *)
Definition chars (w : list Z) : Prop := Forall (fun c => 0 < c < 256) w ∧ Z.of_nat (length w) < 2 ^ 31.

Lemma chars_cons c w : chars (c :: w) ↔ 0 < c < 256 ∧ chars w ∧ Z.of_nat (length w) + 1 < 2 ^ 31.
Proof. unfold chars. rewrite Forall_cons. simpl length. split; intros; repeat split; try tauto; lia. Qed.

Lemma chars_nil : chars [].
Proof. split; [done|simpl; lia]. Qed.

Lemma chars_app v w : chars (v ++ w) → chars v ∧ chars w.
Proof.
  unfold chars. rewrite Forall_app, length_app. intros [[? ?] ?]. repeat split; try done; lia.
Qed.

Lemma int_ok z : - 2 ^ 31 <= z < 2 ^ 31 → int z = Ok z.
Proof. intros. unfold int. by destruct (Z.leb_spec (- 2 ^ 31) z), (Z.ltb_spec z (2 ^ 31)); try lia. Qed.

(** ** Strings *)
Lemma strlen_spec w rest : chars w → strlen (w ++ 0 :: rest) = Ok (Z.of_nat (length w)).
Proof.
  induction w as [|c w IH]; intros Hw; [done|]. apply chars_cons in Hw as (Hc & Hw & Hl). simpl.
  destruct (Z.eqb_spec c 0); [lia|]. rewrite IH by done. simpl mbind. rewrite int_ok by lia. f_equal. lia.
Qed.

Lemma s8_inj a b : 0 <= a < 256 → 0 <= b < 256 → s8 a = s8 b → a = b.
Proof. unfold s8. intros. destruct (Z.ltb_spec a 128), (Z.ltb_spec b 128); lia. Qed.

Definition signed_bytes (w : list Z) : list Z := s8 <$> w.

(** Lexicographic order. *)
Fixpoint lex_compare (a b : list Z) : Z :=
  match a, b with
  | [], [] => 0
  | [], _ => -1
  | _, [] => 1
  | x :: a, y :: b => if x <? y then -1 else if y <? x then 1 else lex_compare a b
  end.

Lemma strcmp_spec a b ra rb :
  chars a → chars b → strcmp (a ++ 0 :: ra) (b ++ 0 :: rb) = Ok (lex_compare (signed_bytes a ++ [0]) (signed_bytes b ++ [0])).
Proof.
  revert b. induction a as [|x a IH]; intros [|y b] Ha Hb; [done|..]; simpl.
  - apply chars_cons in Hb as (Hy & _). change (s8 0) with 0. destruct (Z.ltb_spec 0 (s8 y)); [done|].
    destruct (Z.ltb_spec (s8 y) 0); [done|]. assert (y = 0) by (apply s8_inj; [lia..|change (s8 0) with 0; lia]). lia.
  - apply chars_cons in Ha as (Hx & _). change (s8 0) with 0. destruct (Z.ltb_spec (s8 x) 0); [done|].
    destruct (Z.ltb_spec 0 (s8 x)); [done|]. assert (x = 0) by (apply s8_inj; [lia..|change (s8 0) with 0; lia]). lia.
  - apply chars_cons in Ha as (Hx & Ha & _), Hb as (Hy & Hb & _).
    destruct (Z.ltb_spec (s8 x) (s8 y)); [done|]. destruct (Z.ltb_spec (s8 y) (s8 x)); [done|].
    destruct (Z.eqb_spec x 0); [lia|]. destruct (Z.eqb_spec y 0); [lia|]. by apply IH.
Qed.

Lemma lex_compare_eq a b : lex_compare a b = 0 ↔ a = b.
Proof.
  revert b. induction a as [|x a IH]; intros [|y b]; simpl; [done..|].
  destruct (Z.ltb_spec x y); [split; [done|intros [= -> ->]; lia]|].
  destruct (Z.ltb_spec y x); [split; [done|intros [= -> ->]; lia]|].
  rewrite IH. assert (x = y) by lia. split; [by intros ->; subst|by intros [= _ ->]].
Qed.

Lemma signed_bytes_inj a b : chars a → chars b → signed_bytes a = signed_bytes b → a = b.
Proof.
  revert b. induction a as [|x a IH]; intros [|y b]; simpl; [done..|].
  intros (Hx & Ha & _)%chars_cons (Hy & Hb & _)%chars_cons [= H1 H2].
  f_equal; [apply s8_inj; lia || done|by apply IH].
Qed.

(** Two strings are the same exactly when [strcmp] returns 0. *)
Lemma strcmp_eq a b ra rb :
  chars a → chars b → ∃ r, strcmp (a ++ 0 :: ra) (b ++ 0 :: rb) = Ok r ∧ (r = 0 ↔ a = b).
Proof.
  intros Ha Hb. eexists. split; [by apply strcmp_spec|]. rewrite lex_compare_eq. split; [|by intros ->].
  intros H%app_inj_tail. apply signed_bytes_inj; [done..|tauto].
Qed.

Lemma zupdate_at {A} (l : list A) i x :
  (i < length l)%nat → l.[Z.of_nat i := x] = Some (take i l ++ x :: drop (S i) l).
Proof. intros. rewrite zupdate_nat by done. f_equal. by apply insert_take_drop. Qed.

Lemma take_snoc_app {A} (l : list A) i x r :
  (i <= length l)%nat → take (S i) (take i l ++ x :: r) = take i l ++ [x].
Proof.
  intros. rewrite take_app_ge by (rewrite length_take; lia). rewrite length_take.
  replace (S i - i `min` length l)%nat with 1%nat by lia. done.
Qed.

Lemma drop_snoc_app {A} (l : list A) i x r k :
  (i <= length l)%nat → drop (S i + k) (take i l ++ x :: r) = drop k r.
Proof.
  intros. rewrite drop_app_ge by (rewrite length_take; lia). rewrite length_take.
  replace (S i + k - i `min` length l)%nat with (S k) by lia. done.
Qed.

(** Copying a string; it must fit. *)
Lemma strcpy_fits dst i w rest :
  chars w → (i + S (length w) <= length dst)%nat →
  strcpy dst (Z.of_nat i) (w ++ 0 :: rest) = Ok (take i dst ++ w ++ 0 :: drop (i + S (length w)) dst).
Proof.
  revert dst i. induction w as [|c w IH]; intros dst i Hw Hl; simpl in *.
  - rewrite zupdate_at by lia. simpl. by rewrite Nat.add_1_r.
  - apply chars_cons in Hw as (Hc & Hw & _). rewrite zupdate_at by lia. simpl.
    destruct (Z.eqb_spec c 0); [lia|]. replace (Z.of_nat i + 1) with (Z.of_nat (S i)) by lia.
    rewrite IH; [|done|rewrite length_app, length_take; simpl; rewrite length_drop; lia].
    rewrite take_snoc_app by lia. rewrite drop_snoc_app by lia. rewrite drop_drop, <- app_assoc. simpl.
    by replace (i + S (S (length w)))%nat with (S (i + S (length w))) by lia.
Qed.

Lemma strcpy_overflows dst i w rest :
  chars w → (i <= length dst)%nat → (length dst < i + S (length w))%nat → strcpy dst (Z.of_nat i) (w ++ 0 :: rest) = UB.
Proof.
  revert dst i. induction w as [|c w IH]; intros dst i Hw Hi Hl; simpl in *.
  - unfold zupdate. destruct (Z.leb_spec 0 (Z.of_nat i)), (Z.ltb_spec (Z.of_nat i) (Z.of_nat (length dst))); simpl; done || lia.
  - apply chars_cons in Hw as (Hc & Hw & _). destruct (decide (i = length dst)) as [->|Hne].
    + unfold zupdate. destruct (Z.leb_spec 0 (Z.of_nat (length dst))), (Z.ltb_spec (Z.of_nat (length dst)) (Z.of_nat (length dst))); simpl; done || lia.
    + rewrite zupdate_at by lia. simpl. destruct (Z.eqb_spec c 0); [lia|].
      replace (Z.of_nat i + 1) with (Z.of_nat (S i)) by lia.
      apply IH; [done|..]; rewrite length_app, length_take; simpl; rewrite length_drop; lia.
Qed.

Lemma memcpy_spec s1 i s2 n :
  (n <= length s2)%nat → (i + n <= length s1)%nat →
  memcpy s1 (Z.of_nat i) s2 n = Ok (take i s1 ++ take n s2 ++ drop (i + n) s1).
Proof.
  revert s1 i s2. induction n as [|n IH]; intros s1 i s2 H2 H1; simpl.
  - by rewrite Nat.add_0_r, take_drop.
  - destruct s2 as [|c s2]; simpl in *; [lia|]. rewrite zupdate_at by lia. simpl.
    replace (Z.of_nat i + 1) with (Z.of_nat (S i)) by lia.
    rewrite IH; [|lia|rewrite length_app, length_take; simpl; rewrite length_drop; lia].
    rewrite take_snoc_app by lia. rewrite drop_snoc_app by lia. rewrite drop_drop, <- app_assoc. simpl.
    by replace (i + S n)%nat with (S (i + n)) by lia.
Qed.

(** ** Writing at a cursor *)
Definition wrote (a : list Z) (i : nat) (r : list Z) : list Z := take i a ++ r ++ drop (i + length r) a.

Lemma length_wrote a i r : (i + length r <= length a)%nat → length (wrote a i r) = length a.
Proof. intros. unfold wrote. rewrite !length_app, length_take, length_drop. lia. Qed.

Lemma wrote_nil a i : wrote a i [] = a.
Proof. unfold wrote. simpl. by rewrite Nat.add_0_r, take_drop. Qed.

Lemma wrote_one a i x : take i a ++ x :: drop (S i) a = wrote a i [x].
Proof. unfold wrote. simpl. by rewrite Nat.add_1_r. Qed.

Lemma wrote_wrote a i r r' :
  (i + length r + length r' <= length a)%nat → wrote (wrote a i r) (i + length r) r' = wrote a i (r ++ r').
Proof.
  intros Hl. unfold wrote. rewrite length_app.
  assert (Hi : length (take i a) = i) by (rewrite length_take; lia).
  rewrite take_app_ge by lia. rewrite Hi. replace (i + length r - i)%nat with (length r) by lia.
  rewrite take_app_length. rewrite drop_app_ge by lia. rewrite Hi.
  replace (i + length r + length r' - i)%nat with (length r + length r')%nat by lia.
  rewrite drop_app_add, drop_drop, <- !app_assoc. do 3 f_equal. f_equal. lia.
Qed.

Lemma mcharprint_spec a i s n :
  0 <= n → (Z.to_nat n <= length s)%nat → (i + Z.to_nat n <= length a)%nat →
  mcharprint (a, Z.of_nat i) s n = Ok (n, (wrote a i (take (Z.to_nat n) s), Z.of_nat (i + Z.to_nat n))).
Proof.
  intros Hn Hs Ha. unfold mcharprint. simpl fst. simpl snd. rewrite memcpy_spec by done. simpl. unfold wrote.
  rewrite length_take. replace (Z.to_nat n `min` length s)%nat with (Z.to_nat n) by lia.
  by replace (Z.of_nat i + n) with (Z.of_nat (i + Z.to_nat n)) by lia.
Qed.

Lemma charprint_spec a i c :
  (i < length a)%nat → charprint (a, Z.of_nat i) c = Ok (1, (wrote a i [c mod 256], Z.of_nat (i + 1))).
Proof.
  intros. unfold charprint. simpl fst. simpl snd. rewrite zupdate_at by done. simpl. unfold wrote. simpl.
  replace (i + 1)%nat with (S i) by lia. by replace (Z.of_nat i + 1) with (Z.of_nat (S i)) by lia.
Qed.

Lemma memset_spec s i c n :
  (i + n <= length s)%nat → memset s (Z.of_nat i) c n = Ok (wrote s i (replicate n (c mod 256))).
Proof.
  revert s i. induction n as [|n IH]; intros s i Hl; cbn [memset replicate]; [by rewrite wrote_nil|].
  rewrite zupdate_at by lia. cbn [ub mbind res_bind]. replace (Z.of_nat i + 1) with (Z.of_nat (S i)) by lia.
  rewrite wrote_one, IH by (rewrite length_wrote; simpl; lia). f_equal.
  change (c mod 256 :: replicate n (c mod 256)) with ([c mod 256] ++ replicate n (c mod 256)). rewrite <- wrote_wrote by (simpl; rewrite length_replicate; lia).
  by rewrite Nat.add_1_r.
Qed.

(** [fgetc] asks again until there is a character. *)
Lemma fgetc_waits n c answers : fgetc (replicate n (0, 0) ++ (1, c) :: answers) = Some (c, answers).
Proof. by induction n. Qed.

Lemma fputs_spec w rest : chars w → fputs (w ++ 0 :: rest) = Ok w.
Proof. intros Hw. unfold fputs. rewrite strlen_spec by done. cbn [mbind res_bind]. by rewrite Nat2Z.id, take_app_length. Qed.

(** ** Numbers *)
Definition digit_char (upper : bool) (d : Z) : Z := if d <=? 9 then 48 + d else if upper then 65 + d - 10 else 97 + d - 10.

(** The numeral of [n > 0], its digits with the most significant one first. *)
Fixpoint numeral (fuel : nat) (base : Z) (n : Z) : list Z :=
  match fuel with
  | O => []
  | S fuel => if n =? 0 then [] else numeral fuel base (n / base) ++ [n mod base]
  end.

Definition value (base : Z) (ds : list Z) : Z := foldl (fun v d => v * base + d) 0 ds.

Lemma numeral_spec fuel base n k :
  2 <= base → 0 <= n < 2 ^ Z.of_nat k → (k < fuel)%nat →
  value base (numeral fuel base n) = n ∧ Forall (fun d => 0 <= d < base) (numeral fuel base n) ∧
  (length (numeral fuel base n) <= k)%nat ∧ (0 < n → ∃ d ds, numeral fuel base n = d :: ds ∧ d ≠ 0).
Proof.
  intros Hb. revert n k. induction fuel as [|fuel IH]; intros n k Hn Hf; [lia|]. simpl.
  destruct (Z.eqb_spec n 0) as [->|Hne]; [split_and!; [done|by constructor|simpl; lia|intros; lia]|].
  destruct k as [|k]; [simpl in Hn; lia|].
  assert (Hlt : 0 <= n / base < 2 ^ Z.of_nat k).
  { split; [apply Z.div_pos; lia|]. apply Z.div_lt_upper_bound; [lia|]. rewrite Nat2Z.inj_succ, Z.pow_succ_r in Hn by lia. nia. }
  destruct (IH (n / base) k Hlt ltac:(lia)) as (Hv & Hd & Hl & Hhd). split_and!.
  - unfold value. rewrite foldl_app. simpl. fold (value base (numeral fuel base (n / base))). rewrite Hv.
    pose proof (Z.div_mod n base ltac:(lia)). lia.
  - apply Forall_app. split; [done|]. apply Forall_singleton. apply Z.mod_pos_bound. lia.
  - rewrite length_app. simpl. lia.
  - intros _. destruct (Z.eq_dec (n / base) 0) as [H0|H0].
    + rewrite H0. replace (numeral fuel base 0) with (@nil Z) by (by destruct fuel). eexists _, []. split; [done|].
      rewrite Z.mod_small; [done|]. apply Z.div_small_iff in H0; lia.
    + destruct Hhd as (d & ds & -> & ?); [lia|]. by eexists d, _.
Qed.

Lemma digittoascii_spec d upper : 0 <= d < 36 → digittoascii d upper = Ok (digit_char upper d).
Proof. intros. unfold digittoascii, digit_char. by destruct (Z.ltb_spec d 36); [|lia]. Qed.

(** The digits are written in front of [i]. *)
Lemma digits_loop_spec fuel buf i n base upper k :
  2 <= base < 36 → 0 <= n < 2 ^ Z.of_nat k → (k < fuel)%nat → (k <= i)%nat → (i <= length buf)%nat →
  let ds := digit_char upper <$> numeral fuel base n in
  ∃ buf', digits_loop fuel buf (Z.of_nat i) n base upper = Ok (buf', Z.of_nat (i - length ds)) ∧
    length buf' = length buf ∧ drop (i - length ds) buf' = ds ++ drop i buf.
Proof.
  intros Hb. revert buf i n k. induction fuel as [|fuel IH]; intros buf i n k Hn Hf Hk Hi; [lia|]. cbn [numeral digits_loop].
  destruct (Z.eqb_spec n 0) as [->|Hne].
  - exists buf. simpl. rewrite Nat.sub_0_r. done.
  - destruct k as [|k]; [simpl in Hn; lia|].
    assert (Hlt : 0 <= n / base < 2 ^ Z.of_nat k).
    { split; [apply Z.div_pos; lia|]. apply Z.div_lt_upper_bound; [lia|]. rewrite Nat2Z.inj_succ, Z.pow_succ_r in Hn by lia. nia. }
    rewrite digittoascii_spec by (pose proof (Z.mod_pos_bound n base); lia). cbn [mbind res_bind].
    replace (Z.of_nat i - 1) with (Z.of_nat (i - 1)) by lia. rewrite zupdate_at by lia. cbn [ub mbind res_bind].
    set (buf1 := take (i - 1) buf ++ digit_char upper (n mod base) :: drop (S (i - 1)) buf).
    assert (H1 : length buf1 = length buf) by (unfold buf1; rewrite length_app, length_take; simpl; rewrite length_drop; lia).
    destruct (IH buf1 (i - 1)%nat (n / base) k Hlt ltac:(lia) ltac:(lia) ltac:(lia)) as (buf' & Hrun & Hl & Hd).
    exists buf'. rewrite fmap_app, length_app. simpl length.
    replace (i - (length (digit_char upper <$> numeral fuel base (n / base)) + 1))%nat
      with (i - 1 - length (digit_char upper <$> numeral fuel base (n / base)))%nat by lia.
    split_and!; [done|lia|]. rewrite Hd, <- app_assoc. f_equal. unfold buf1. simpl.
    rewrite drop_app_ge by (rewrite length_take; lia). rewrite length_take.
    replace (i - 1 - (i - 1) `min` length buf)%nat with 0%nat by lia. simpl. by replace (S (i - 1)) with i by lia.
Qed.

Lemma pad_loop_spec n buf i zpad :
  (n <= i)%nat → (i <= length buf)%nat →
  ∃ buf', pad_loop n buf (Z.of_nat i) zpad = Ok (buf', Z.of_nat (i - n)) ∧ length buf' = length buf ∧
    drop (i - n) buf' = replicate n (if zpad then 48 else 32) ++ drop i buf.
Proof.
  revert buf i. induction n as [|n IH]; intros buf i Hn Hi; simpl.
  - exists buf. by rewrite Nat.sub_0_r.
  - replace (Z.of_nat i - 1) with (Z.of_nat (i - 1)) by lia. rewrite zupdate_at by lia. cbn [ub mbind res_bind].
    set (c := if zpad then chr "0" else chr " "). set (buf1 := take (i - 1) buf ++ c :: drop (S (i - 1)) buf).
    assert (H1 : length buf1 = length buf) by (unfold buf1; rewrite length_app, length_take; simpl; rewrite length_drop; lia).
    destruct (IH buf1 (i - 1)%nat ltac:(lia) ltac:(lia)) as (buf' & Hrun & Hl & Hd). exists buf'.
    replace (i - S n)%nat with (i - 1 - n)%nat by lia. split_and!; [done|lia|]. rewrite Hd. unfold buf1.
    rewrite drop_app_ge by (rewrite length_take; lia). rewrite length_take.
    replace (i - 1 - (i - 1) `min` length buf)%nat with 0%nat by lia. simpl. replace (S (i - 1)) with i by lia.
    change (if zpad then 48 else 32) with c.
    rewrite app_comm_cons, replicate_cons_app, <- app_assoc. done.
Qed.

#[global] Arguments numeral : simpl never.

(** What [%d] and the like print; the sign is not counted by the width. *)
Definition render_int (n base min : Z) (zpad upper : bool) : list Z :=
  let min := if 32 <? min then 32 else min in
  let pad := if zpad then 48 else 32 in
  if n =? 0 then replicate (Z.to_nat (min - 1)) pad ++ [48]
  else
    let ds := digit_char upper <$> numeral 33 base (Z.abs n) in
    (if n <? 0 then [45] else []) ++ replicate (Z.to_nat (min - Z.of_nat (length ds))) pad ++ ds.

Lemma pad_zero_spec n a i len zpad :
  (i + n <= length a)%nat →
  pad_zero n (a, Z.of_nat i) len zpad =
    Ok (len + Z.of_nat n, (wrote a i (replicate n (if zpad then 48 else 32)), Z.of_nat (i + n))).
Proof.
  revert a i len. induction n as [|n IH]; intros a i len Hl; cbn [pad_zero].
  - rewrite wrote_nil, Nat.add_0_r. by rewrite Z.add_0_r.
  - rewrite charprint_spec by lia. cbn [mbind res_bind].
    assert (Hm : (if zpad then chr "0" else chr " ") mod 256 = if zpad then 48 else 32) by (by destruct zpad).
    rewrite Hm, IH by (rewrite length_wrote; simpl; lia). rewrite (wrote_wrote a i [_]) by (rewrite length_replicate; simpl; lia).
    rewrite replicate_S. cbn [app]. by replace (len + 1 + Z.of_nat n) with (len + Z.of_nat (S n)) by lia;
      replace (i + 1 + n)%nat with (i + S n)%nat by lia.
Qed.

Section print.
Context (junk : list Z) (junk_length : length junk = 32%nat).

(** The digits and their padding, in the local buffer. *)
Lemma padded_digits n base min (zpad upper : bool) :
  2 <= base < 36 → 0 < n < 2 ^ 31 → min <= 32 →
  let ds := digit_char upper <$> numeral 33 base n in
  let r := replicate (Z.to_nat (min - Z.of_nat (length ds))) (if zpad then 48 else 32) ++ ds in
  ∃ buf i j buf', digits_loop 33 junk 32 n base upper = Ok (buf, i) ∧
    pad_loop (Z.to_nat (i - (32 - min))) buf i zpad = Ok (buf', j) ∧
    0 <= j ∧ 32 - j = Z.of_nat (length r) ∧ drop (Z.to_nat j) buf' = r.
Proof.
  intros Hb Hn Hm ds r. destruct (numeral_spec 33 base n 31 ltac:(lia)) as (_ & _ & Hl & _); [|lia|].
  { change (2 ^ Z.of_nat 31) with (2 ^ 31). lia. }
  assert (Hds : (length ds <= 31)%nat) by (unfold ds; by rewrite length_fmap).
  destruct (digits_loop_spec 33 junk 32 n base upper 31 Hb) as (buf & Hrun & Hlen & Hd); [|lia..|].
  { change (2 ^ Z.of_nat 31) with (2 ^ 31). lia. }
  fold ds in Hrun, Hd. set (i := (32 - length ds)%nat) in *.
  set (k := Z.to_nat (min - Z.of_nat (length ds))).
  destruct (pad_loop_spec k buf i zpad) as (buf' & Hp & Hl' & Hd'); [lia..|].
  exists buf, (Z.of_nat i), (Z.of_nat (i - k)), buf'. split_and!.
  - exact Hrun.
  - replace (Z.to_nat (Z.of_nat i - (32 - min))) with k by lia. done.
  - lia.
  - unfold r. rewrite length_app, length_replicate. fold k. lia.
  - rewrite Nat2Z.id, Hd', Hd. unfold r. fold k. rewrite drop_ge by lia. by rewrite app_nil_r.
Qed.

Lemma integerprint_spec a i n base min zpad upper :
  2 <= base < 36 → - 2 ^ 31 < n < 2 ^ 31 → (i + length (render_int n base min zpad upper) <= length a)%nat →
  integerprint junk (a, Z.of_nat i) n base min zpad upper =
    Ok (Z.of_nat (length (render_int n base min zpad upper)),
        (wrote a i (render_int n base min zpad upper), Z.of_nat (i + length (render_int n base min zpad upper)))).
Proof.
  intros Hb Hn. unfold integerprint, render_int. set (m := if 32 <? min then 32 else min).
  assert (Hm : m <= 32) by (unfold m; destruct (Z.ltb_spec 32 min); lia).
  assert (Hbase : (2 <=? base) && (base <? 36) = true) by (apply andb_true_iff; lia).
  rewrite Hbase. cbn [assert mbind res_bind]. destruct (Z.eqb_spec n 0) as [->|Hne].
  - rewrite length_app, length_replicate. simpl length. intros Hl. rewrite pad_zero_spec by lia. cbn [mbind res_bind].
    rewrite charprint_spec by (rewrite length_wrote by (rewrite length_replicate; lia); lia). cbn [mbind res_bind].
    set (k := Z.to_nat (m - 1)) in *.
    pose proof (wrote_wrote a i (replicate k (if zpad then 48 else 32)) [48]) as Hw.
    rewrite length_replicate in Hw. change (chr "0" mod 256) with 48. rewrite Hw by (simpl; lia).
    by replace (0 + Z.of_nat k + 1) with (Z.of_nat (k + 1)) by lia; rewrite Nat.add_assoc.
  - destruct (padded_digits (Z.abs n) base m zpad upper Hb ltac:(lia) Hm) as (buf & x & j & buf' & Hdig & Hpad & Hj & Hlen & Hr).
    set (r := replicate _ _ ++ _) in *. intros Hl.
    destruct (Z.ltb_spec n 0); cbn [mbind res_bind].
    + rewrite charprint_spec by (simpl in Hl; lia). cbn [mbind res_bind]. rewrite int_ok by lia. cbn [mbind res_bind].
      replace (n * -1) with (Z.abs n) by lia. rewrite Hdig. cbn [mbind res_bind]. rewrite Hpad. cbn [mbind res_bind].
      simpl in Hl. rewrite mcharprint_spec; [|lia|rewrite Hr; lia|rewrite length_wrote by (simpl; lia); lia].
      cbn [mbind res_bind]. rewrite Hlen, Hr, Nat2Z.id, take_ge by done. change (chr "-" mod 256) with 45.
      rewrite (wrote_wrote a i [45]) by (simpl; lia). simpl.
      by replace (1 + Z.of_nat (length r)) with (Z.of_nat (S (length r))) by lia; replace (i + 1 + length r)%nat with (i + S (length r))%nat by lia.
    + replace n with (Z.abs n) at 1 by lia. rewrite Hdig. cbn [mbind res_bind]. rewrite Hpad. cbn [mbind res_bind].
      simpl in Hl. rewrite mcharprint_spec; [|lia|rewrite Hr; lia|lia].
      cbn [mbind res_bind]. rewrite Hlen, Hr, Nat2Z.id, take_ge by done. simpl. done.
Qed.
End print.

(** ** atoi *)
Definition digit (c : Z) : Prop := 48 <= c <= 57.
Definition width (w : list Z) : Z := foldl (fun r c => r * 10 + (c - 48)) 0 w.

Lemma is_digit_true c : digit c → is_digit c = true.
Proof.
  unfold digit, is_digit, s8. change (chr "0") with 48. change (chr "9") with 57. intros.
  destruct (Z.ltb_spec c 128); [|lia]. apply andb_true_iff. lia.
Qed.

Lemma width_grows w r : 0 <= r → Forall digit w → r <= foldl (fun r c => r * 10 + (c - 48)) r w.
Proof.
  revert r. induction w as [|c w IH]; intros r Hr Hw; simpl; [lia|].
  apply Forall_cons in Hw as [Hc Hw]. unfold digit in Hc. etransitivity; [|apply IH; [|done]]; lia.
Qed.

Lemma atoi_loop_spec w r k rest :
  0 <= r → Forall digit w → foldl (fun r c => r * 10 + (c - 48)) r w < 2 ^ 31 → is_digit k = false →
  atoi_loop r (w ++ k :: rest) = Ok (foldl (fun r c => r * 10 + (c - 48)) r w).
Proof.
  revert r. induction w as [|c w IH]; intros r Hr Hw Hlt Hk; simpl; [by rewrite Hk|].
  apply Forall_cons in Hw as [Hc Hw]. rewrite is_digit_true by done. unfold digit in Hc. simpl in Hlt.
  pose proof (width_grows w (r * 10 + (c - 48)) ltac:(lia) Hw).
  assert (Hs : s8 c = c) by (unfold s8; destruct (Z.ltb_spec c 128); lia).
  rewrite int_ok by lia. cbn [mbind res_bind]. rewrite Hs. change (chr "0") with 48. rewrite int_ok by lia.
  apply IH; [lia|done..].
Qed.

Lemma atoi_spec w k rest :
  Forall digit w → width w < 2 ^ 31 → is_digit k = false → s8 k ≠ -1 → atoi (w ++ k :: rest) = Ok (width w).
Proof.
  intros Hw Hlt Hk Hk1. pose proof (width_grows w 0 ltac:(lia) Hw) as Hge. fold (width w) in Hge.
  pose proof (atoi_loop_spec w 0 k rest ltac:(lia) Hw Hlt Hk) as Hl. unfold atoi.
  assert (Hs : ∃ c s, w ++ k :: rest = c :: s ∧ s8 c ≠ -1).
  { destruct w as [|c w]; [by eexists _, _|]. exists c, (w ++ k :: rest). split; [done|].
    apply Forall_cons in Hw as [Hc _]. unfold digit, s8 in *. destruct (Z.ltb_spec c 128); lia. }
  destruct Hs as (c & s & He & Hc). rewrite He in *. destruct (Z.eqb_spec (s8 c) (-1)); [done|].
  rewrite Hl. cbn [mbind res_bind]. fold (width w). rewrite Z.mul_1_r. apply int_ok. lia.
Qed.

Lemma skip_digits_spec w k rest : Forall digit w → is_digit k = false → skip_digits (w ++ k :: rest) = k :: rest.
Proof.
  induction w as [|c w IH]; simpl; intros Hw Hk; [by rewrite Hk|]. apply Forall_cons in Hw as [Hc Hw].
  rewrite is_digit_true by done. by apply IH.
Qed.

(** A number printed in base ten is read back; the sign is not. *)
Lemma digit_char_digits ds : Forall (fun d => 0 <= d < 10) ds → Forall digit (digit_char false <$> ds).
Proof.
  intros H. apply Forall_fmap. eapply Forall_impl; [done|]. intros d Hd. cbn beta in Hd. unfold digit, digit_char. simpl.
  destruct (Z.leb_spec d 9); lia.
Qed.

Lemma width_value ds : Forall (fun d => 0 <= d < 10) ds → width (digit_char false <$> ds) = value 10 ds.
Proof.
  intros H. unfold width, value. generalize 0 as v. induction H as [|d ds Hd _ IH]; intros v; [done|]. simpl.
  rewrite IH. f_equal. unfold digit_char. destruct (Z.leb_spec d 9); lia.
Qed.

(** ** Formats *)

(** Pieces of a format with their arguments: text, and conversions with a width. *)
Inductive item : Type :=
| Lit (t : list Z)
| Number (w : list Z) (k : Z) (z : Z)
| Char (w : list Z) (z : Z)
| Text (w : list Z) (t rest : list Z).

Definition format_of (x : item) : list Z :=
  match x with
  | Lit t => t
  | Number w k _ => chr "%" :: w ++ [k]
  | Char w _ => chr "%" :: w ++ [chr "c"]
  | Text w _ _ => chr "%" :: w ++ [chr "s"]
  end.

Definition args_of (x : item) : list argument :=
  match x with
  | Lit _ => []
  | Number _ _ z | Char _ z => [Int z]
  | Text _ t rest => [Str (t ++ 0 :: rest)]
  end.

Definition render (x : item) : list Z :=
  match x with
  | Lit t => t
  | Number w k z =>
      render_int z (if k =? chr "d" then 10 else 16) (width w) (match w with c :: _ => c =? 48 | [] => false end) (k =? chr "X")
  | Char _ z => [z mod 256]
  | Text _ t _ => t
  end.

Definition width_ok (w : list Z) : Prop := Forall digit w ∧ width w < 2 ^ 31.

Definition item_ok (x : item) : Prop :=
  match x with
  | Lit t => Forall (fun c => c ≠ 0 ∧ c ≠ chr "%") t
  | Number w k z => width_ok w ∧ k ∈ [chr "d"; chr "x"; chr "X"] ∧ - 2 ^ 31 < z < 2 ^ 31
  | Char w _ => width_ok w
  | Text w t _ => width_ok w ∧ chars t
  end.

Section formats.
Context (junk : list Z) (junk_length : length junk = 32%nat).

(** A conversion, at its width. *)
Lemma conversion_prefix s w k fmt ap :
  width_ok w → k ∈ [chr "d"; chr "x"; chr "X"; chr "c"; chr "s"] →
  conversion junk s (w ++ k :: fmt) ap =
    let zpad := match w with c :: _ => c =? 48 | [] => false end in
    let number base upper :=
      '(n, ap) ← va_int ap; '(l, s) ← integerprint junk s n base (width w) zpad upper; Ok (l, s, fmt, ap) in
    if k =? chr "c" then '(n, ap) ← va_int ap; '(l, s) ← charprint s n; Ok (l, s, fmt, ap)
    else if k =? chr "d" then number 10 false
    else if k =? chr "x" then number 16 false
    else if k =? chr "X" then number 16 true
    else '(t, ap) ← va_str ap; '(l, s) ← stringprint s t; Ok (l, s, fmt, ap).
Proof.
  intros [Hw Hlt] Hk.
  assert (Hkd : is_digit k = false ∧ s8 k ≠ -1 ∧ k ≠ 48 ∧ k ≠ 45 ∧ (k =? chr "c") || (k =? chr "d") || (k =? chr "x") || (k =? chr "X") || (k =? chr "s") = true).
  { revert Hk. rewrite !elem_of_cons, elem_of_nil. intros [->|[->|[->|[->|[->|[]]]]]]; by vm_compute. }
  destruct Hkd as (Hkd & Hk1 & Hk2 & Hk3 & Hor).
  assert (Hs : ∃ c s, w ++ k :: fmt = c :: s ∧ c ≠ 45 ∧ (c =? 48) = match w with c :: _ => c =? 48 | [] => false end).
  { destruct w as [|c w].
    - eexists _, _. split_and!; [done|done|by apply Z.eqb_neq].
    - exists c, (w ++ k :: fmt). apply Forall_cons in Hw as [Hc _]. unfold digit in Hc. split_and!; [done|lia|done]. }
  destruct Hs as (c & s' & He & Hc & Hz). unfold conversion. rewrite He at 1.
  change (chr "-") with 45. destruct (Z.eqb_spec c 45); [done|]. cbn [negb assert mbind res_bind].
  rewrite He. rewrite <- He at 1. rewrite atoi_spec by done. cbn [mbind res_bind].
  rewrite <- He at 1. rewrite skip_digits_spec by done. change (chr "0") with 48. rewrite Hz.
  destruct (k =? chr "c"); [done|]. destruct (k =? chr "d"); [done|]. destruct (k =? chr "x"); [done|].
  destruct (k =? chr "X"); [done|]. simpl in Hor. by rewrite Hor.
Qed.

Definition is_conversion (x : item) : Prop := match x with Lit _ => False | _ => True end.

#[local] Instance is_conversion_dec x : Decision (is_conversion x).
Proof. destruct x; apply _. Defined.

Lemma conversion_spec x a i fmt ap :
  item_ok x → is_conversion x → (i + length (render x) <= length a)%nat → Z.of_nat (length a) < 2 ^ 31 →
  ∃ f, format_of x = chr "%" :: f ∧
    conversion junk (a, Z.of_nat i) (f ++ fmt) (args_of x ++ ap) =
      Ok (Z.of_nat (length (render x)), (wrote a i (render x), Z.of_nat (i + length (render x))), fmt, ap).
Proof.
  destruct x as [t|w k z|w z|w t rest]; intros Hok Hc Hl Ha; [done|..]; eexists; (split; [reflexivity|]); rewrite <- app_assoc; simpl app.
  - destruct Hok as (Hw & Hk & Hz). rewrite conversion_prefix by (done || set_solver). cbv zeta. simpl va_int.
    cbn [mbind res_bind]. simpl in Hl |- *. revert Hk Hl. rewrite !elem_of_cons, elem_of_nil.
    intros [->|[->|[->|[]]]] Hl; simpl in Hl |- *; rewrite integerprint_spec by (done || lia); done.
  - rewrite conversion_prefix by (done || set_solver). simpl. simpl in Hl. rewrite charprint_spec by lia. simpl. by rewrite Nat.add_1_r.
  - destruct Hok as (Hw & Ht). rewrite conversion_prefix by (done || set_solver). simpl. simpl in Hl. unfold stringprint.
    rewrite strlen_spec by done. cbn [mbind res_bind]. rewrite mcharprint_spec; [|lia|rewrite length_app; lia|lia].
    cbn [mbind res_bind]. rewrite Nat2Z.id. by rewrite take_app_length.
Qed.

(** The text before a conversion or the end. *)
Lemma flush_text a i p rest :
  (i + length p <= length a)%nat →
  (if 0 <? Z.of_nat (length p) then mcharprint (a, Z.of_nat i) (p ++ rest) (Z.of_nat (length p)) else Ok (0, (a, Z.of_nat i))) =
  Ok (Z.of_nat (length p), (wrote a i p, Z.of_nat (i + length p))).
Proof.
  intros Hl. destruct p as [|c p].
  - simpl. by rewrite wrote_nil, Nat.add_0_r.
  - destruct (Z.ltb_spec 0 (Z.of_nat (length (c :: p)))); [|simpl in *; lia].
    rewrite mcharprint_spec; [|lia|rewrite length_app; lia|lia]. rewrite Nat2Z.id. by rewrite take_app_length.
Qed.

Lemma text_loop t fuel s len p rest ap :
  Forall (fun c => c ≠ 0 ∧ c ≠ chr "%") t →
  vsprintf_loop junk (length t + fuel) s len (p ++ t ++ rest) (Z.of_nat (length p)) (t ++ rest) ap =
  vsprintf_loop junk fuel s len ((p ++ t) ++ rest) (Z.of_nat (length (p ++ t))) rest ap.
Proof.
  revert p. induction t as [|c t IH]; intros p Ht; simpl; [by rewrite app_nil_r|].
  apply Forall_cons in Ht as [[Hc Hp] Ht]. destruct (Z.eqb_spec c 0); [done|]. destruct (Z.eqb_spec c (chr "%")); [done|].
  replace (p ++ c :: t ++ rest) with ((p ++ [c]) ++ t ++ rest) by (by rewrite <- app_assoc).
  replace (Z.of_nat (length p) + 1) with (Z.of_nat (length (p ++ [c]))) by (rewrite length_app; simpl; lia).
  rewrite IH by done. by rewrite <- (app_assoc p [c] t).
Qed.

Abbreviation format items := (items ≫= format_of).
Abbreviation rendering items := (items ≫= render).

Lemma vsprintf_loop_spec items tail p a i len fuel :
  Forall item_ok items → (length (format items) < fuel)%nat → Z.of_nat (length a) < 2 ^ 31 →
  (i + length p + length (rendering items) < length a)%nat →
  vsprintf_loop junk fuel (a, Z.of_nat i) len (p ++ format items ++ 0 :: tail) (Z.of_nat (length p))
    (format items ++ 0 :: tail) (items ≫= args_of) =
  Ok (len + Z.of_nat (length p + length (rendering items)), wrote a i (p ++ rendering items ++ [0])).
Proof.
  intros Hok. revert p a i len fuel. induction Hok as [|x items Hx Hok IH]; intros p a i len fuel Hf Ha Hl.
  - destruct fuel as [|fuel]; [simpl in Hf; lia|]. cbn [mbind list_bind app vsprintf_loop] in *.
    rewrite flush_text by lia. cbn [mbind res_bind Z.eqb fst snd]. rewrite zupdate_at by (rewrite length_wrote; simpl in Hl; lia).
    cbn [ub mbind res_bind]. simpl length. rewrite Nat.add_0_r. f_equal. f_equal.
    rewrite <- (wrote_wrote a i p [0]) by (simpl in *; lia). apply wrote_one.
  - change (format (x :: items)) with (format_of x ++ format items) in *.
    change (rendering (x :: items)) with (render x ++ rendering items) in *.
    change ((x :: items) ≫= args_of) with (args_of x ++ (items ≫= args_of)).
    rewrite length_app in Hf. rewrite length_app in Hl. rewrite <- !app_assoc. destruct (decide (is_conversion x)) as [Hc|Hc].
    + destruct (conversion_spec x (wrote a i p) (i + length p) (format items ++ 0 :: tail) (items ≫= args_of) Hx Hc)
        as (f & Hfmt & Hrun); [rewrite length_wrote; lia..|].
      rewrite Hfmt in *. destruct fuel as [|fuel]; [simpl in Hf; lia|]. cbn [app vsprintf_loop].
      change (chr "%" =? 0) with false. change (chr "%" =? chr "%") with true. cbv iota.
      rewrite flush_text by lia. cbn [mbind res_bind]. rewrite Hrun. cbn [mbind res_bind].
      specialize (IH [] (wrote (wrote a i p) (i + length p) (render x)) (i + length p + length (render x))%nat
        (len + Z.of_nat (length p) + Z.of_nat (length (render x))) fuel).
      cbn [app length] in IH. change (Z.of_nat 0) with 0 in IH. rewrite IH; [|simpl in Hf; lia|rewrite !length_wrote; rewrite ?length_wrote; lia..].
      rewrite (wrote_wrote a i p) by lia. rewrite <- Nat.add_assoc, <- (length_app p).
      rewrite (wrote_wrote a i (p ++ render x)) by (rewrite !length_app; simpl; lia).
      rewrite (length_app (render x)), <- app_assoc. f_equal. f_equal. lia.
    + destruct x as [t| | |]; [|by destruct Hc..]. cbn [format_of render args_of] in *.
      replace fuel with (length t + (fuel - length t))%nat by lia. rewrite text_loop by done.
      rewrite IH; [|lia|done|rewrite length_app; lia]. rewrite !length_app, <- app_assoc. by rewrite Nat.add_assoc.
Qed.

Lemma vsprintf_spec items tail a :
  Forall item_ok items → Z.of_nat (length a) < 2 ^ 31 → (length (rendering items) < length a)%nat →
  vsprintf junk a (format items ++ 0 :: tail) (items ≫= args_of) =
  Ok (Z.of_nat (length (rendering items)), wrote a 0 (rendering items ++ [0])).
Proof.
  intros Hok Ha Hl. unfold vsprintf. pose proof (vsprintf_loop_spec items tail [] a 0 0 (S (length (format items ++ 0 :: tail))) Hok) as H.
  cbn [app length] in H. change (Z.of_nat 0) with 0 in H. rewrite H; [done|rewrite length_app; simpl; lia|done|lia].
Qed.
End formats.

Lemma memcpy_overflows s1 i s2 n :
  (i <= length s1)%nat → (n <= length s2)%nat → (length s1 < i + n)%nat → memcpy s1 (Z.of_nat i) s2 n = UB.
Proof.
  revert s1 i s2. induction n as [|n IH]; intros s1 i s2 Hi H2 Hl; [lia|]. destruct s2 as [|c s2]; [simpl in *; lia|].
  cbn [memcpy]. destruct (decide (i = length s1)) as [->|Hne].
  - unfold zupdate. destruct (Z.leb_spec 0 (Z.of_nat (length s1))), (Z.ltb_spec (Z.of_nat (length s1)) (Z.of_nat (length s1))); simpl; done || lia.
  - rewrite zupdate_at by lia. cbn [ub mbind res_bind]. replace (Z.of_nat i + 1) with (Z.of_nat (S i)) by lia.
    simpl in H2. apply IH; rewrite ?length_app, ?length_take; simpl; rewrite ?length_drop; lia.
Qed.

(** ** Theorems about printf *)

(** C24: [printf] writes its format with every conversion replaced by the rendering of its
    argument, as long as that is shorter than its buffer. *)
Theorem printf_writes_the_rendering junk buf items tail :
  length junk = 32%nat → length buf = 256%nat → Forall item_ok items → (length (items ≫= render) < 256)%nat →
  ∃ buf', vfprintf junk buf ((items ≫= format_of) ++ 0 :: tail) (items ≫= args_of) = Ok (buf', items ≫= render) ∧
    length buf' = 256%nat.
Proof.
  intros Hj Hb Hok Hl. unfold vfprintf. rewrite vsprintf_spec by (done || lia). cbn [mbind res_bind].
  assert (Hlen : length (wrote buf 0 ((items ≫= render) ++ [0])) = 256%nat).
  { rewrite length_wrote; [done|]. rewrite length_app. simpl. lia. }
  rewrite Hlen. destruct (Z.ltb_spec (Z.of_nat (length (items ≫= render))) (Z.of_nat 256)); [|lia]. cbn [assert mbind res_bind].
  eexists. split; [|exact Hlen]. rewrite Nat2Z.id. unfold wrote. simpl. rewrite <- app_assoc. by rewrite take_app_length.
Qed.

Definition sample_items : list item :=
  [Lit (bytes "["); Number [] (chr "d") (-7); Lit (bytes "] "); Number (bytes "05") (chr "x") 255; Lit (bytes " ");
   Text [] (bytes "done") []; Char [] 10].

Theorem printf_writes_the_rendering_witness :
  ∃ buf', vfprintf (replicate 32 0) (replicate 256 0) (bytes "[%d] %05x %s%c" ++ [0]) [Int (-7); Int 255; Str (bytes "done" ++ [0]); Int 10] =
    Ok (buf', bytes "[-7] 000ff done" ++ [10]) ∧ length buf' = 256%nat.
Proof.
  apply (printf_writes_the_rendering (replicate 32 0) (replicate 256 0) sample_items []); [done..| |by apply Nat.ltb_lt].
  unfold sample_items. repeat apply Forall_cons_2; [..|done]; cbn [item_ok]; unfold width_ok, chars, digit; by apply (bool_decide_unpack _).
Defined.

(** Text that is too long is written behind the buffer before the length is checked. *)
Lemma long_text_overflows junk buf t rest :
  length junk = 32%nat → length buf = 256%nat → chars t → (256 < length t)%nat →
  vfprintf junk buf (bytes "%s" ++ [0]) [Str (t ++ 0 :: rest)] = UB.
Proof.
  intros Hj Hb Ht Hl. unfold vfprintf, vsprintf, conversion. simpl. unfold stringprint. rewrite strlen_spec by done.
  cbn [mbind res_bind]. unfold mcharprint. simpl. rewrite Nat2Z.id.
  rewrite (memcpy_overflows buf 0); [done|lia|rewrite length_app; lia|lia].
Qed.

Lemma numeral_length n base : 2 <= base → 0 <= n < 2 ^ 31 → (length (numeral 33 base n) <= 31)%nat.
Proof. intros Hb Hn. destruct (numeral_spec 33 base n 31) as (_ & _ & Hl & _); [done| |lia|done]. by change (2 ^ Z.of_nat 31) with (2 ^ 31). Qed.

(** What [%d] prints, as digits. *)
Lemma render_decimal n :
  - 2 ^ 31 < n < 2 ^ 31 →
  ∃ ds, render_int n 10 0 false false = (if n <? 0 then [45] else []) ++ (digit_char false <$> ds) ∧
    Forall (fun d => 0 <= d < 10) ds ∧ value 10 ds = Z.abs n ∧ (length ds <= 31)%nat.
Proof.
  intros Hn. unfold render_int. change (32 <? 0) with false. destruct (Z.eqb_spec n 0) as [->|Hne].
  - exists [0]. split_and!; [done|by repeat constructor|done|simpl; lia].
  - exists (numeral 33 10 (Z.abs n)). destruct (numeral_spec 33 10 (Z.abs n) 31) as (Hv & Hd & Hl & _); [lia| |lia|].
    { change (2 ^ Z.of_nat 31) with (2 ^ 31). lia. }
    split_and!; [|done..]. f_equal. replace (Z.to_nat (0 - _)) with 0%nat by lia. done.
Qed.

(** A number that [sprintf] has printed with [%d] is read back by [atoi] when it is not
    negative; of a negative number [atoi] makes 0, since it looks for the character -1 in
    place of a minus sign. *)
Theorem printed_numbers_are_read_back junk a n :
  length junk = 32%nat → (33 <= length a)%nat → Z.of_nat (length a) < 2 ^ 31 → - 2 ^ 31 < n < 2 ^ 31 →
  ∃ l b, vsprintf junk a (bytes "%d" ++ [0]) [Int n] = Ok (l, b) ∧ atoi b = Ok (if n <? 0 then 0 else n).
Proof.
  intros Hj Ha Ha2 Hn. destruct (render_decimal n Hn) as (ds & Hr & Hd & Hv & Hl).
  pose proof (vsprintf_spec junk Hj [Number [] (chr "d") n] [] a) as H. cbn [mbind list_bind format_of args_of app render] in H.
  rewrite app_nil_r in H. change (render_int n (if chr "d" =? chr "d" then 10 else 16) (width []) false (chr "d" =? chr "X"))
    with (render_int n 10 0 false false) in H. rewrite Hr in H.
  eexists _, _. split; [apply H|].
  - apply Forall_cons_2; [|done]. split_and!; [by split|left|lia..].
  - done.
  - rewrite length_app, length_fmap. destruct (n <? 0); simpl; lia.
  - unfold wrote. simpl take. simpl app. rewrite <- !app_assoc. simpl. destruct (Z.ltb_spec n 0); [by vm_compute|]. simpl.
    rewrite atoi_spec; [f_equal; rewrite width_value by done; lia|by apply digit_char_digits|rewrite width_value by done; lia|done|done].
Qed.

Theorem printed_numbers_are_read_back_witness :
  ∃ l b, vsprintf (replicate 32 0) (replicate 64 0) (bytes "%d" ++ [0]) [Int 2147483647] = Ok (l, b) ∧ atoi b = Ok 2147483647.
Proof.
  apply (printed_numbers_are_read_back (replicate 32 0) (replicate 64 0) 2147483647); [done|by apply Nat.leb_le|done|done].
Defined.

(** The least number cannot be printed: its negation overflows. *)
Lemma least_number_is_undefined junk a : integerprint junk (a, 0) (- 2 ^ 31) 10 0 false false = UB.
Proof.
  unfold integerprint. change ((2 <=? 10) && (10 <? 36)) with true. change (- 2 ^ 31 =? 0) with false.
  change (- 2 ^ 31 <? 0) with true. change (32 <? 0) with false. cbn [assert mbind res_bind].
  destruct (charprint (a, 0) (chr "-")) as [[k s]| | |] eqn:He; cbn [mbind res_bind];
    [by change (int (- 2 ^ 31 * -1)) with (@UB Z)|..]; unfold charprint, ub in He; by destruct (zupdate _ _ _).
Qed.

(** ** readline *)

(** The line that is typed: characters that can be printed as long as there is room, and
    a backspace takes the last one back. *)
Fixpoint edited (maxlength : nat) (line input : list Z) : option (list Z * list Z) :=
  match input with
  | [] => None
  | c :: input =>
      if c =? 10 then Some (line, input)
      else if c =? 8 then edited maxlength (removelast line) input
      else if bool_decide (32 <= c < 128) && bool_decide (S (length line) < maxlength)%nat
      then edited maxlength (line ++ [c]) input
      else edited maxlength line input
  end.

Definition printable_char (c : Z) : Prop := 32 <= c < 128.

Lemma edited_ok n line input l rest :
  edited n line input = Some (l, rest) → (length line < n)%nat → Forall printable_char line →
  (length l < n)%nat ∧ Forall printable_char l ∧ (length rest < length input)%nat.
Proof.
  revert line. induction input as [|c input IH]; intros line He Hl Hp; simpl in *; [done|].
  destruct (Z.eqb_spec c 10); [by injection He as <- <-; repeat split; try done; lia|].
  destruct (Z.eqb_spec c 8).
  { destruct (IH (removelast line) He) as (? & ? & ?); [| |split_and!; done || lia];
      (destruct line as [|x line _] using rev_ind; [done|]; rewrite removelast_last).
    - rewrite length_app in Hl. lia.
    - by apply Forall_app in Hp as [? _]. }
  destruct (bool_decide_reflect (32 <= c < 128)); simpl in He.
  - destruct (bool_decide_reflect (S (length line) < n)%nat); simpl in He.
    + destruct (IH (line ++ [c]) He) as (? & ? & ?); [rewrite length_app; simpl; lia| |split_and!; done || lia].
      apply Forall_app. split; [done|]. by apply Forall_singleton.
    + destruct (IH line He) as (? & ? & ?); [done..|]. split_and!; done || lia.
  - destruct (IH line He) as (? & ? & ?); [done..|]. split_and!; done || lia.
Qed.

Lemma take_removelast (s line : list Z) :
  line ≠ [] → (length line <= length s)%nat → take (length line) s = line → take (length line - 1) s = removelast line.
Proof.
  intros Hne Hl H. destruct line as [|x line _] using rev_ind; [done|]. rewrite removelast_last.
  rewrite length_app in *. simpl in *. replace (length line + 1 - 1)%nat with (length line) by lia.
  transitivity (take (length line) (line ++ [x])); [|by rewrite take_app_length].
  rewrite <- H, take_take. by replace (length line `min` (length line + 1))%nat with (length line) by lia.
Qed.

Lemma readline_spec s line echo input n :
  Forall (fun c => 0 <= c < 256) input → (length line < n)%nat → (n <= length s)%nat → take (length line) s = line →
  match edited n line input with
  | None => readline s (Z.of_nat n) (Z.of_nat (length line)) echo input = Ok None
  | Some (l, rest) => ∃ s' echo', readline s (Z.of_nat n) (Z.of_nat (length line)) echo input = Ok (Some (s', echo', rest)) ∧
      length s' = length s ∧ take (S (length l)) s' = l ++ [0]
  end.
Proof.
  intros Hin. revert s line echo. induction Hin as [|c input Hc Hin IH]; intros s line echo Hl Hn Ht; [done|].
  cbn [edited readline].
  assert (Hs : (s8 c =? 10) = (c =? 10) ∧ (s8 c =? 8) = (c =? 8) ∧ (s8 c <? 32) = negb (bool_decide (32 <= c < 128))).
  { unfold s8. destruct (Z.ltb_spec c 128), (bool_decide_reflect (32 <= c < 128)), (Z.ltb_spec c 32); simpl;
      repeat split; try reflexivity; try lia; try (apply Z.ltb_lt; lia); try (apply Z.ltb_ge; lia);
      try (transitivity false; [apply Z.eqb_neq; lia|symmetry; apply Z.eqb_neq; lia]). }
  destruct Hs as (-> & -> & ->). destruct (Z.eqb_spec c 10) as [->|Hc10].
  - rewrite zupdate_at by lia. cbn [ub mbind res_bind]. eexists _, _. split_and!; [done| |].
    + rewrite length_app, length_take. simpl. rewrite length_drop. lia.
    + rewrite take_snoc_app by lia. by rewrite Ht.
  - destruct (Z.eqb_spec c 8) as [->|Hc8].
    + destruct line as [|x line']; [by apply IH|]. set (line := x :: line') in *.
      destruct (Z.eqb_spec (Z.of_nat (length line)) 0); [simpl in *; lia|].
      assert (Hlr : length (removelast line) = (length line - 1)%nat).
      { destruct line as [|y l _] using rev_ind; [done|]. rewrite removelast_last, length_app. simpl. lia. }
      replace (Z.of_nat (length line) - 1) with (Z.of_nat (length (removelast line))) by (rewrite Hlr; simpl; lia).
      apply IH; [lia|done|]. rewrite Hlr. apply take_removelast; [done|lia|done].
    + destruct (bool_decide_reflect (32 <= c < 128)); simpl; [|by apply IH].
      destruct (Z.eqb_spec (Z.of_nat (length line) + 1) (Z.of_nat n)).
      * rewrite bool_decide_eq_false_2 by lia. by apply IH.
      * rewrite bool_decide_eq_true_2 by lia. rewrite zupdate_at by lia. cbn [ub mbind res_bind].
        replace (Z.of_nat (length line) + 1) with (Z.of_nat (length (line ++ [c]))) by (rewrite length_app; simpl; lia).
        set (s1 := take (length line) s ++ c :: drop (S (length line)) s).
        assert (Hl1 : length s1 = length s) by (unfold s1; rewrite length_app, length_take; simpl; rewrite length_drop; lia).
        specialize (IH s1 (line ++ [c]) (echo ++ [c])). rewrite Hl1 in IH. apply IH.
        -- rewrite length_app. simpl. lia.
        -- done.
        -- rewrite length_app. simpl. rewrite Nat.add_1_r. unfold s1. rewrite take_snoc_app by lia. by rewrite Ht.
Qed.

(** C25: [readline] never writes outside of its array: it holds the edited line and a NUL
    in the end, at most [maxlength - 1] characters, all of which can be printed; when the
    line has no end it never returns. *)
Theorem readline_stays_in_its_array s n echo input :
  Forall (fun c => 0 <= c < 256) input → (0 < n <= length s)%nat →
  match edited n [] input with
  | None => readline s (Z.of_nat n) 0 echo input = Ok None
  | Some (l, rest) => ∃ s' echo', readline s (Z.of_nat n) 0 echo input = Ok (Some (s', echo', rest)) ∧
      length s' = length s ∧ take (S (length l)) s' = l ++ [0] ∧ (length l < n)%nat ∧ Forall printable_char l
  end.
Proof.
  intros Hin Hn. pose proof (readline_spec s [] echo input n Hin ltac:(simpl; lia) ltac:(lia) eq_refl) as H.
  destruct (edited n [] input) as [[l rest]|] eqn:He; [|exact H].
  destruct H as (s' & echo' & ? & ? & ?). destruct (edited_ok _ _ _ _ _ He) as (? & ? & _); [simpl; lia|done|].
  by exists s', echo'.
Qed.

Theorem readline_stays_in_its_array_witness :
  ∃ s' echo', readline (replicate 4 0) (Z.of_nat 4) 0 [] (bytes "ax" ++ [8] ++ bytes "bcdef" ++ [10]) = Ok (Some (s', echo', [])) ∧
    length s' = 4%nat ∧ take 4 s' = bytes "abc" ++ [0] ∧ (3 < 4)%nat ∧ Forall printable_char (bytes "abc").
Proof.
  apply (readline_stays_in_its_array (replicate 4 0) 4 [] (bytes "ax" ++ [8] ++ bytes "bcdef" ++ [10])).
  - by apply (bool_decide_unpack _).
  - by split; [apply Nat.ltb_lt|apply Nat.leb_le].
Defined.
