(* ===== verification/NachosShellProps.v ===== *)
(** * Theorems about the Nachos shell *)
From Stdlib Require Import Ascii.
From S2P Require Import Prelude.
From S2P Require Import Words.
From S2P Require Import ShellParser.
From S2P Require Import NachosLib.
From S2P Require Import NachosShell.
From S2P Require Import NachosLibProps.

(** ** The words of a command

    [done]: the words before; [cur]: the word we are in; [esc] and [q]: after a backslash,
    within quotes. *)
Fixpoint words (max : nat) (done : list (list Z)) (cur : option (list Z)) (esc q : bool) (s : list Z) :
    token_error + list (list Z) :=
  match s with
  | [] =>
      if esc then inl UnmatchedBackslash
      else if q then inl UnmatchedQuote
      else inr (done ++ option_list cur)
  | c :: s =>
      let w := default [] cur in
      if esc then words max done (Some (w ++ [escaped c])) false q s
      else if q then
        if c =? backslash then words max done cur true q s
        else if c =? quote then words max done cur esc false s
        else words max done (Some (w ++ [c])) esc q s
      else if (c =? 32) || (c =? 9) || (c =? 10) then words max (done ++ option_list cur) None false false s
      else if bool_decide (cur = None) && bool_decide (length done = max) then inl TooManyTokens
      else if c =? backslash then words max done (Some w) true false s
      else if c =? quote then words max done (Some w) false true s
      else words max done (Some (w ++ [c])) false false s
  end.

Abbreviation words_of max := (words max [] None false false).

(** ** The arrays *)
Definition stored (ws : list (list Z)) : list Z := ws ≫= fun w => w ++ [0].

Fixpoint offsets (k : Z) (ws : list (list Z)) : list Z :=
  match ws with [] => [] | w :: ws => k :: offsets (k + Z.of_nat (length w) + 1) ws end.

Definition flags (esc q started : bool) : Z :=
  (if esc then 1 else 0) + (if q then 2 else 0) + (if started then 4 else 0).

Definition is_started (cur : option (list Z)) : bool := match cur with Some _ => true | None => false end.

(** What the loop has written. *)
Record holds (n m : nat) (t : tok) (done : list (list Z)) (cur : option (list Z)) (esc q : bool) : Prop := {
  h_state : state t = flags esc q (is_started cur);
  h_args : length (args t) = n;
  h_tokens : length (tokens t) = m;
  h_storage : storage t = Z.of_nat (length (stored done ++ default [] cur));
  h_written : take (length (stored done ++ default [] cur)) (args t) = stored done ++ default [] cur;
  h_count : numTokens t = Z.of_nat (length (done ++ option_list cur));
  h_offsets : take (length (done ++ option_list cur)) (tokens t) = offsets 0 (done ++ option_list cur);
  h_started : esc = true ∨ q = true → is_started cur = true;
}.

Lemma stored_app ws ws' : stored (ws ++ ws') = stored ws ++ stored ws'.
Proof. apply bind_app. Qed.

Lemma stored_one w : stored [w] = w ++ [0].
Proof. unfold stored. simpl. by rewrite app_nil_r. Qed.

Lemma offsets_app k ws w : offsets k (ws ++ [w]) = offsets k ws ++ [k + Z.of_nat (length (stored ws))].
Proof.
  revert k. induction ws as [|v ws IH]; intros k; simpl; [by rewrite Z.add_0_r|].
  rewrite IH. do 3 f_equal. unfold stored. simpl. rewrite !length_app. simpl. lia.
Qed.

Lemma offsets_last k ws w w' : offsets k (ws ++ [w]) = offsets k (ws ++ [w']).
Proof. by rewrite !offsets_app. Qed.

(** The flags. *)
Lemma is_set_flags esc q st :
  is_set (flags esc q st) quotingCharacter = esc ∧ is_set (flags esc q st) quotingString = q ∧
  is_set (flags esc q st) startedArg = st.
Proof. by destruct esc, q, st. Qed.

Lemma set_flags esc q st :
  set_flag (flags esc q st) quotingCharacter = flags true q st ∧ set_flag (flags esc q st) quotingString = flags esc true st ∧
  set_flag (flags esc q st) startedArg = flags esc q true.
Proof. by destruct esc, q, st. Qed.

Lemma clear_flags esc q st :
  clear_flag (flags esc q st) quotingCharacter = flags false q st ∧ clear_flag (flags esc q st) quotingString = flags esc false st ∧
  clear_flag (flags esc q st) startedArg = flags esc q false.
Proof. by destruct esc, q, st. Qed.

Section steps.
Context (n m : nat).

Abbreviation holds := (holds n m).

(** A character is added to the current word. *)
Lemma put_char t done w esc q c :
  holds t done (Some w) esc q → (length (stored done ++ w) < n)%nat →
  ∃ t', put t c = Ok t' ∧ state t' = state t ∧ holds t' done (Some (w ++ [c])) esc q.
Proof.
  intros [Hs Ha Hm Hst Hw Hc Ho Hq] Hl. simpl in *. unfold put. rewrite Hst, zupdate_at by lia. cbn [ub mbind res_bind].
  eexists. split_and!; [done|done|]. split; simpl; try done.
  - rewrite length_app, length_take. simpl. rewrite length_drop. lia.
  - rewrite app_assoc, (length_app (stored done ++ w)). simpl. lia.
  - rewrite (app_assoc (stored done)), (length_app (stored done ++ w)). simpl. rewrite Nat.add_1_r, take_snoc_app by lia. by rewrite Hw.
  - by rewrite !length_app in *.
  - rewrite (offsets_last 0 done (w ++ [c]) w). rewrite !length_app in *. done.
Qed.

(** The current word is ended. *)
Lemma put_end t done w esc q :
  holds t done (Some w) esc q → (length (stored done ++ w) < n)%nat → esc = false → q = false →
  ∃ t', put t 0 = Ok t' ∧ state t' = state t ∧ holds (with_state t' (flags false false false)) (done ++ [w]) None false false.
Proof.
  intros [Hs Ha Hm Hst Hw Hc Ho Hq] Hl -> ->. simpl in *. unfold put. rewrite Hst, zupdate_at by lia. cbn [ub mbind res_bind].
  eexists. split_and!; [done|done|]. split; simpl; try done; rewrite ?stored_app, ?stored_one, ?app_nil_r.
  - rewrite length_app, length_take. simpl. rewrite length_drop. lia.
  - rewrite app_assoc, (length_app (stored done ++ w)). simpl. lia.
  - rewrite (app_assoc (stored done)), (length_app (stored done ++ w)). simpl. rewrite Nat.add_1_r, take_snoc_app by lia. by rewrite Hw.
  - done.
  - done.
  - by intros [?|?].
Qed.

(** A word is begun. *)
Lemma begin_word t done :
  holds t done None false false → (length done < m)%nat →
  ∃ t', new_token t = Ok t' ∧ state t' = flags false false true ∧ holds t' done (Some []) false false.
Proof.
  intros [Hs Ha Hm Hst Hw Hc Ho Hq] Hl. simpl in *. rewrite !app_nil_r in *. unfold new_token.
  rewrite Hc, zupdate_at by lia. cbn [ub mbind res_bind].
  assert (Hf : set_flag (state t) startedArg = flags false false true) by by rewrite Hs.
  eexists. split_and!; [done|done|]. split; simpl; try done; rewrite ?app_nil_r; try done.
  - rewrite length_app, length_take. simpl. rewrite length_drop. lia.
  - rewrite length_app. simpl. lia.
  - rewrite length_app. simpl. rewrite Nat.add_1_r, take_snoc_app by lia. rewrite Ho, offsets_app. by rewrite Hst.
Qed.

Lemma change_state t done cur esc q esc' q' :
  holds t done cur esc q → (esc' = true ∨ q' = true → is_started cur = true) →
  holds (with_state t (flags esc' q' (is_started cur))) done cur esc' q'.
Proof. by intros [] ?. Qed.

(** ** The loop *)
Lemma token_end_spec max t done cur esc q :
  holds t done cur esc q → (length (stored done ++ default [] cur) < n)%nat →
  match words max done cur esc q [] with
  | inl e => token_end t = Ok (inl e)
  | inr ws => ∃ t', token_end t = Ok (inr t') ∧ holds (with_state t' 0) ws None false false
  end.
Proof.
  intros Hh Hl. destruct (is_set_flags esc q (is_started cur)) as (H1 & H2 & H3). unfold token_end.
  rewrite (h_state _ _ _ _ _ _ _ Hh), H1, H2, H3. simpl. destruct esc; [done|]. destruct q; [done|].
  destruct cur as [w|]; simpl.
  - destruct (put_end t done w false false Hh Hl eq_refl eq_refl) as (t' & -> & Ht & Hh'). by eexists.
  - rewrite app_nil_r. exists t. split; [done|]. apply (change_state t done None false false false false); [done|by intros [?|?]].
Qed.

(** A character inside of a word, when it does not end it. *)
Definition word_char (max : nat) (done : list (list Z)) (w : list Z) (c : Z) (s : list Z) : token_error + list (list Z) :=
  if c =? backslash then words max done (Some w) true false s
  else if c =? quote then words max done (Some w) false true s
  else words max done (Some (w ++ [c])) false false s.

Lemma word_char_step max t done w c s :
  holds t done (Some w) false false → (length (stored done ++ w) < n)%nat →
  ∃ t' cur esc q,
    (if c =? backslash then Ok (Some (with_state t (set_flag (state t) quotingCharacter)))
     else if c =? quote then Ok (Some (with_state t (set_flag (state t) quotingString)))
     else t ← put t c; Ok (Some t)) = Ok (Some t') ∧
    holds t' done (Some cur) esc q ∧ (length cur <= S (length w))%nat ∧ word_char max done w c s = words max done (Some cur) esc q s.
Proof.
  intros Hh Hl. destruct (set_flags false false (is_started (Some w))) as (H1 & H2 & _). rewrite (h_state _ _ _ _ _ _ _ Hh), H1, H2.
  unfold word_char. destruct (c =? backslash); [|destruct (c =? quote)].
  - eexists _, w, true, false. split_and!; [done| |lia|done]. by apply (change_state t done (Some w) false false).
  - eexists _, w, false, true. split_and!; [done| |lia|done]. by apply (change_state t done (Some w) false false).
  - destruct (put_char t done w false false c Hh Hl) as (t' & -> & _ & Hh'). cbn [mbind res_bind].
    eexists _, (w ++ [c]), false, false. split_and!; [done|done|rewrite length_app; simpl; lia|done].
Qed.

Ltac sizes := simpl in *; rewrite ?length_app in *; simpl in *; lia.

Lemma token_step_spec max t done cur esc q c s :
  holds t done cur esc q → (length (stored done ++ default [] cur) < n)%nat → (max <= m)%nat →
  (length (done ++ option_list cur) <= max)%nat →
  (token_step (Z.of_nat max) t c = Ok None ∧ words max done cur esc q (c :: s) = inl TooManyTokens) ∨
  ∃ t' done' cur' esc' q', token_step (Z.of_nat max) t c = Ok (Some t') ∧ holds t' done' cur' esc' q' ∧
    (length (stored done' ++ default [] cur') <= S (length (stored done ++ default [] cur)))%nat ∧
    (length (done' ++ option_list cur') <= max)%nat ∧
    words max done cur esc q (c :: s) = words max done' cur' esc' q' s.
Proof.
  intros Hh Hl Hmax Hlen. destruct (is_set_flags esc q (is_started cur)) as (H1 & H2 & H3).
  destruct (clear_flags esc q (is_started cur)) as (C1 & C2 & C3). destruct (set_flags esc q (is_started cur)) as (S1 & _ & _).
  unfold token_step. pose proof (h_state _ _ _ _ _ _ _ Hh) as Hst. rewrite Hst, H1, H2, H3. cbn [words].
  destruct esc.
  { destruct cur as [w|]; [|by pose proof (h_started _ _ _ _ _ _ _ Hh ltac:(by left))]. right.
    destruct (put_char t done w true q (escaped c) Hh Hl) as (t' & -> & Ht & Hh'). cbn [mbind res_bind].
    rewrite Ht, Hst, C1. eexists _, done, (Some (w ++ [escaped c])), false, q. split_and!; [done| |sizes|sizes|done].
    exact (change_state t' done (Some (w ++ [escaped c])) true q false q Hh' (fun _ => eq_refl)). }
  destruct q.
  { destruct cur as [w|]; [|by pose proof (h_started _ _ _ _ _ _ _ Hh ltac:(by right))]. right.
    destruct (c =? backslash); [|destruct (c =? quote)].
    - rewrite S1. eexists _, done, (Some w), true, true. split_and!; [done| |sizes|sizes|done]. exact (change_state t done (Some w) false true true true Hh (fun _ => eq_refl)).
    - rewrite C2. eexists _, done, (Some w), false, false. split_and!; [done| |sizes|sizes|done]. exact (change_state t done (Some w) false true false false Hh (fun _ => eq_refl)).
    - destruct (put_char t done w false true c Hh Hl) as (t' & -> & _ & Hh'). cbn [mbind res_bind].
      eexists _, done, (Some (w ++ [c])), false, true. split_and!; [done|done|sizes|sizes|done]. }
  destruct ((c =? 32) || (c =? 9) || (c =? 10)).
  { right. destruct cur as [w|]; simpl in *.
    - destruct (put_end t done w false false Hh Hl eq_refl eq_refl) as (t' & -> & Ht & Hh'). cbn [mbind res_bind].
      rewrite Ht, Hst. eexists _, (done ++ [w]), None, false, false. split_and!; [done|exact Hh'| |sizes|done].
      rewrite stored_app, stored_one. sizes.
    - rewrite !app_nil_r in *. eexists _, done, None, false, false. split_and!; [done|done|sizes|sizes|done]. }
  destruct cur as [w|]; cbn [is_started negb].
  - right. rewrite (bool_decide_eq_false_2 (Some w = None)) by done. cbn [andb default].
    destruct (word_char_step max t done w c s Hh Hl) as (t' & cur' & esc' & q' & Hrun & Hh' & Hle & Hw). rewrite Hst in Hrun. cbn [is_started] in Hrun. rewrite Hrun.
    unfold word_char in Hw. simpl in Hw |- *. rewrite Hw. eexists _, done, (Some cur'), esc', q'. split_and!; [done|done|sizes|sizes|done].
  - rewrite (h_count _ _ _ _ _ _ _ Hh). rewrite (bool_decide_eq_true_2 (None = None)) by done. cbn [andb option_list default id] in *.
    rewrite app_nil_r in *. destruct (Z.eqb_spec (Z.of_nat (length done)) (Z.of_nat max)).
    + left. split; [done|]. by rewrite bool_decide_eq_true_2 by lia.
    + right. rewrite bool_decide_eq_false_2 by lia.
      destruct (begin_word t done Hh ltac:(lia)) as (t1 & -> & Ht1 & Hh1). cbn [mbind res_bind].
      destruct (word_char_step max t1 done [] c s Hh1) as (t' & cur' & esc' & q' & -> & Hh' & Hle & Hw); [by rewrite app_nil_r|].
      unfold word_char in Hw. simpl in Hw |- *. rewrite Hw. eexists _, done, (Some cur'), esc', q'. split_and!; [done|done|sizes|sizes|done].
Qed.

Lemma token_loop_spec max t done cur esc q s rest :
  0 ∉ s → holds t done cur esc q → (length (stored done ++ default [] cur) + length s < n)%nat → (max <= m)%nat →
  (length (done ++ option_list cur) <= max)%nat →
  match words max done cur esc q s with
  | inl e => token_loop (Z.of_nat max) t (s ++ 0 :: rest) = Ok (inl e)
  | inr ws => ∃ t', token_loop (Z.of_nat max) t (s ++ 0 :: rest) = Ok (inr t') ∧ holds (with_state t' 0) ws None false false
  end.
Proof.
  revert t done cur esc q. induction s as [|c s IH]; intros t done cur esc q Hn Hh Hl Hmax Hlen.
  - apply (token_end_spec max); [done|]. simpl in Hl. lia.
  - apply not_elem_of_cons in Hn as [Hc Hn]. cbn [app token_loop]. destruct (Z.eqb_spec c 0); [congruence|]. simpl length in Hl.
    destruct (token_step_spec max t done cur esc q c s Hh ltac:(lia) Hmax Hlen) as
      [[-> ->]|(t' & done' & cur' & esc' & q' & -> & Hh' & Hle & Hlen' & ->)]; [done|]. cbn [mbind res_bind].
    apply IH; [done|done|lia|done|done].
Qed.
End steps.


(** The tokens of the caller. *)
Definition has_tokens (t : tok) (ws : list (list Z)) : Prop :=
  numTokens t = Z.of_nat (length ws) ∧
  ∀ i w, ws !! i = Some w → ∃ r, argv_at t (Z.of_nat i) = Ok (w ++ 0 :: r).

Lemma offsets_lookup k ws i w :
  ws !! i = Some w → offsets k ws !! i = Some (k + Z.of_nat (length (stored (take i ws)))).
Proof.
  revert k i. induction ws as [|v ws IH]; intros k [|i] Hi; simpl in *; [done..| |].
  - by rewrite Z.add_0_r.
  - rewrite (IH _ _ Hi). f_equal. unfold stored. simpl. rewrite !length_app. simpl. lia.
Qed.

Lemma holds_tokens n m t ws : holds n m (with_state t 0) ws None false false → has_tokens t ws.
Proof.
  intros [_ _ _ Hst Hw Hc Ho _]. simpl in *. rewrite !app_nil_r in *. split; [done|]. intros i w Hi.
  pose proof (offsets_lookup 0 ws i w Hi) as Hoff. rewrite <- Ho in Hoff. apply lookup_take_Some in Hoff as [Hoff _].
  unfold argv_at. rewrite zlookup_nat, Hoff. cbn [ub mbind res_bind]. rewrite Z.add_0_l, Nat2Z.id.
  assert (Hs : stored ws = stored (take i ws) ++ w ++ 0 :: stored (drop (S i) ws)).
  { rewrite <- (take_drop i ws) at 1. rewrite stored_app, (drop_S ws w i) by done. unfold stored at 2. simpl. by rewrite <- app_assoc. }
  exists (stored (drop (S i) ws) ++ drop (length (stored ws)) (args t)). f_equal.
  rewrite <- (take_drop (length (stored ws)) (args t)) at 1. rewrite Hw. rewrite Hs at 1. rewrite <- !app_assoc, drop_app_length.
  by simpl; rewrite <- ?app_assoc.
Qed.

Lemma tokenize_spec max s rest toks storage :
  0 ∉ s → (0 < max <= length toks)%nat → (length s < length storage)%nat →
  match words_of max s with
  | inl e => tokenizeCommand (s ++ 0 :: rest) (Z.of_nat max) toks storage = Ok (inl e)
  | inr ws => ∃ t, tokenizeCommand (s ++ 0 :: rest) (Z.of_nat max) toks storage = Ok (inr t) ∧ has_tokens t ws
  end.
Proof.
  intros Hn Hm Hl. unfold tokenizeCommand. destruct (Z.ltb_spec 0 (Z.of_nat max)); [|lia]. cbn [assert mbind res_bind].
  assert (Hh : holds (length storage) (length toks) (mkTok 0 0 storage 0 toks) [] None false false) by (by split; try done; intros [?|?]).
  pose proof (token_loop_spec _ _ max _ _ _ _ _ s rest Hn Hh ltac:(simpl; lia) ltac:(lia) ltac:(simpl; lia)) as Hrun.
  destruct (words_of max s); [done|]. destruct Hrun as (t & ? & ?). exists t. split; [done|]. by eapply holds_tokens.
Qed.

(** ** Quoting *)
Definition quote_char (c : Z) : list Z := if (c =? backslash) || (c =? quote) then [backslash; c] else [c].
Definition quote_word (w : list Z) : list Z := quote :: (w ≫= quote_char) ++ [quote].

(** Words on a line, quoted and each followed by a blank. *)
Definition quote_words (ws : list (list Z)) : list Z := ws ≫= fun w => quote_word w ++ [32].

Lemma words_quoted max done v w s :
  words max done (Some v) false true ((w ≫= quote_char) ++ quote :: s) = words max done (Some (v ++ w)) false false s.
Proof.
  revert v. induction w as [|c w IH]; intros v; simpl; [by rewrite app_nil_r|]. unfold quote_char at 1.
  destruct (Z.eqb_spec c backslash) as [->|Hb]; simpl; [by rewrite IH, <- app_assoc|].
  destruct (Z.eqb_spec c quote) as [->|Hq]; simpl; [by rewrite IH, <- app_assoc|].
  destruct (Z.eqb_spec c backslash); [done|]. destruct (Z.eqb_spec c quote); [done|]. by rewrite IH, <- app_assoc.
Qed.

Lemma words_of_quoted max ws0 ws :
  (length (ws0 ++ ws) <= max)%nat → words max ws0 None false false (quote_words ws) = inr (ws0 ++ ws).
Proof.
  revert ws0. induction ws as [|w ws IH]; intros ws0 Hl; simpl; [done|].
  assert (length ws0 ≠ max) by (rewrite length_app in Hl; simpl in Hl; lia). rewrite bool_decide_eq_false_2 by done. simpl.
  unfold quote_words in IH |- *. rewrite <- !app_assoc. simpl. rewrite words_quoted. simpl.
  rewrite IH; rewrite <- app_assoc; done.
Qed.

Lemma quote_words_no_nul ws : Forall (fun w => 0 ∉ w) ws → 0 ∉ quote_words ws.
Proof.
  intros H [w [Hin Hw]]%list_elem_of_bind. rewrite Forall_forall in H. unfold quote_word in Hin.
  apply elem_of_app in Hin as [Hin|?%list_elem_of_singleton]; [|done]. apply elem_of_cons in Hin as [?|Hin]; [done|].
  apply elem_of_app in Hin as [Hin|?%list_elem_of_singleton]; [|done].
  apply list_elem_of_bind in Hin as [c [Hc Hcw]]. unfold quote_char in Hc. destruct (_ || _).
  - apply elem_of_cons in Hc as [?|?%list_elem_of_singleton]; [done|]. subst. by apply (H w).
  - apply list_elem_of_singleton in Hc. subst. by apply (H w).
Qed.



(** Words that are quoted are read back unchanged, whatever their characters. *)
Theorem quoted_words_are_read_back max ws rest toks storage :
  Forall (fun w => 0 ∉ w) ws → (length ws <= max <= length toks)%nat → (0 < max)%nat → (length (quote_words ws) < length storage)%nat →
  ∃ t, tokenizeCommand (quote_words ws ++ 0 :: rest) (Z.of_nat max) toks storage = Ok (inr t) ∧ has_tokens t ws.
Proof.
  intros Hn Hm H0 Hl. pose proof (tokenize_spec max (quote_words ws) rest toks storage (quote_words_no_nul ws Hn) ltac:(lia) Hl) as H.
  by rewrite words_of_quoted in H by (simpl; lia).
Qed.

Theorem quoted_words_are_read_back_witness :
  ∃ t, tokenizeCommand (quote_words [bytes "a b"; []; [quote; backslash]] ++ 0 :: []) (Z.of_nat 3) (replicate 3 0) (replicate 32 0) = Ok (inr t) ∧
    has_tokens t [bytes "a b"; []; [quote; backslash]].
Proof.
  apply (quoted_words_are_read_back 3 [bytes "a b"; []; [quote; backslash]] [] (replicate 3 0) (replicate 32 0)).
  - by apply (bool_decide_unpack _).
  - by split; apply Nat.leb_le.
  - by apply Nat.ltb_lt.
  - by apply Nat.ltb_lt.
Defined.

(** ** Lines *)

(** The characters of the words are those of the line. *)
Lemma words_chars max ws0 cur esc q s ws (k : nat) :
  Forall (Forall (fun c => 0 < c < 256)) (ws0 ++ option_list cur) → Forall (fun c => 0 < c < 256) s →
  Forall (fun w => (length w + length s <= k)%nat) (ws0 ++ option_list cur) → (length s <= k)%nat →
  words max ws0 cur esc q s = inr ws → Forall (fun w => Forall (fun c => 0 < c < 256) w ∧ (length w <= k)%nat) ws.
Proof.
  revert ws0 cur esc q. induction s as [|c s IH]; intros ws0 cur esc q Hc Hs Hk Hl; simpl.
  - destruct esc; [done|]. destruct q; [done|]. intros [= <-]. apply Forall_and. split; [done|].
    eapply Forall_impl; [exact Hk|]. simpl. lia.
  - apply Forall_cons in Hs as [Hc0 Hs].
    assert (Hk' : Forall (fun w => (length w + length s <= k)%nat) (ws0 ++ option_list cur)) by (eapply Forall_impl; [exact Hk|]; simpl; lia).
    assert (Hw : ∀ c', 0 < c' < 256 → Forall (Forall (fun c => 0 < c < 256)) (ws0 ++ option_list (Some (default [] cur ++ [c']))) ∧
      Forall (fun w => (length w + length s <= k)%nat) (ws0 ++ option_list (Some (default [] cur ++ [c'])))).
    { intros c' Hc'. apply Forall_app in Hc as [H1 H2], Hk as [H3 H4], Hk' as [H5 _]. split; apply Forall_app; (split; [done|]);
        apply Forall_singleton.
      - apply Forall_app. split; [|by apply Forall_singleton]. destruct cur; simpl in *; [by inversion_clear H2|constructor].
      - rewrite length_app. destruct cur; simpl in *; [inversion_clear H4|]; lia. }
    assert (Hd : Forall (Forall (fun c => 0 < c < 256)) (ws0 ++ option_list (Some (default [] cur))) ∧
      Forall (fun w => (length w + length s <= k)%nat) (ws0 ++ option_list (Some (default [] cur)))).
    { apply Forall_app in Hc as [H1 H2], Hk' as [H5 H6]. split; apply Forall_app; (split; [done|]); apply Forall_singleton.
      - destruct cur; simpl in *; [by inversion_clear H2|constructor].
      - destruct cur; simpl in *; [by inversion_clear H6|lia]. }
    simpl in Hl. destruct Hd as [Hd1 Hd2]. assert (He : 0 < escaped c < 256) by (unfold escaped; repeat case_match; lia).
    destruct esc; [destruct (Hw _ He); apply IH; done || lia|].
    destruct q; [case_match; [apply IH; done || lia|]; case_match; [apply IH; done || lia|]; destruct (Hw _ Hc0); apply IH; done || lia|].
    case_match; [apply IH; rewrite ?app_nil_r; done || lia|]. case_match; [done|].
    case_match; [apply IH; done || lia|]. case_match; [apply IH; done || lia|]. destruct (Hw _ Hc0). apply IH; done || lia.
Qed.

Lemma words_of_chars max s ws : chars s → words_of max s = inr ws → Forall (fun w => chars w ∧ (length w <= length s)%nat) ws.
Proof.
  intros [Hs Hl] Hw. eapply Forall_impl; [apply (words_chars max [] None false false s ws (length s)); by try constructor|].
  intros w [? ?]. repeat split; [done|lia|done].
Qed.

Lemma atoi_word w rest : chars w → atoi (w ++ 0 :: rest) = atoi (w ++ [0]).
Proof.
  intros Hw. assert (Hloop : ∀ w n, chars w → atoi_loop n (w ++ 0 :: rest) = atoi_loop n (w ++ [0])).
  { clear. induction w as [|c w IH]; intros n Hw; [done|]. apply chars_cons in Hw as (_ & Hw & _). simpl. case_match; [|done].
    destruct (int (n * 10)); cbn [mbind res_bind]; try done. destruct (int _); cbn [mbind res_bind]; try done. by apply IH. }
  destruct w as [|c w]; [done|]. unfold atoi. cbn [app]. pose proof (Hloop (c :: w) 0 Hw) as Hc. cbn [app] in Hc.
  apply chars_cons in Hw as (_ & Hw & _). by rewrite Hc, (Hloop w 0 Hw).
Qed.

Lemma string_of_word w rest : chars w → string_of (w ++ 0 :: rest) = Ok w.
Proof. intros Hw. unfold string_of. rewrite strlen_spec by done. cbn [mbind res_bind]. by rewrite Nat2Z.id, take_app_length. Qed.

(** [strcmp(w, s) == 0] decides whether they are equal. *)
Lemma compared {A} w s rest (f g : res A) :
  chars w → chars (bytes s) →
  (r ← strcmp (w ++ 0 :: rest) (bytes0 s); if r =? 0 then f else g) = if bool_decide (w = bytes s) then f else g.
Proof.
  intros Hw Hs. destruct (strcmp_eq w (bytes s) rest [] Hw Hs) as (r & Hr & He). unfold bytes0. rewrite Hr. cbn [mbind res_bind].
  destruct (Z.eqb_spec r 0); case_bool_decide; tauto.
Qed.

(** ** What a line means *)
Section lines.
Context {K : Type} (exec : list Z → list (list Z) → K → Z * K) (join : Z → K → Z * Z * K) (root : bool) (junk : Z → list Z).

(** A last word [&] puts the command in the background. *)
Definition in_background (ws : list (list Z)) : bool := bool_decide (last ws = Some (bytes "&")).
Definition foreground (ws : list (list Z)) : list (list Z) := if in_background ws then take (length ws - 1) ws else ws.

(** The actions of a command of words, and the kernel after them. A number that is no [int]
    is undefined behaviour, as is the name of a program that does not fit [prog] with its
    suffix. *)
Definition act (background : bool) (ws : list (list Z)) (k : K) : res (list action * K) :=
  match ws with
  | [] => Ok ([], k)
  | w :: ops =>
      if bool_decide (w = bytes "exit") then
        match ops with
        | [] => Ok ([Exit 0], k)
        | [a] => n ← atoi (a ++ [0]); Ok ([Exit n], k)
        | _ => Ok ([Prints (bytes "exit: Expression Syntax." ++ [10]) []], k)
        end
      else if bool_decide (w = bytes "halt") then
        match ops with
        | [] => Ok (if root then [Halt] else [Halt; Prints (bytes "Not the root process!" ++ [10]) []], k)
        | _ => Ok ([Prints (bytes "halt: Expression Syntax." ++ [10]) []], k)
        end
      else if bool_decide (w = bytes "join") then
        match ops with
        | [a] => pid ← atoi (a ++ [0]); Ok (in_ground join background pid k)
        | _ => Ok ([Prints (bytes "join: Expression Syntax." ++ [10]) []], k)
        end
      else if bool_decide (58 < length w)%nat then UB
      else
        let file := w ++ bytes ".coff" in
        let '(pid, k) := exec file ws k in
        let '(l, k) := if pid =? -1 then ([Prints (bytes "%s: exec failed." ++ [10]) [Str w]], k) else in_ground join background pid k in
        Ok (Exec file (Z.of_nat (length ws)) ws :: l, k)
  end.

Definition line_act (s : list Z) (k : K) : res (list action * K) :=
  match words_of 16 s with
  | inl TooManyTokens => Ok ([], k)
  | inl UnmatchedBackslash => Ok ([Prints (bytes "Unmatched \." ++ [10]) []], k)
  | inl UnmatchedQuote => Ok ([Prints (bytes "Unmatched " ++ [quote; 46; 10]) []], k)
  | inr ws => act (in_background ws) (foreground ws) k
  end.

Hypothesis (prog_size : length (junk 1) = 64%nat) (args_size : length (junk 0) = 64%nat) (argv_size : length (junk 2) = 16%nat).

Lemma prog_name {A} w rest (k : list Z → res A) :
  chars w → (length w <= 58)%nat →
  (prog ← strcpy (junk 1) 0 (w ++ 0 :: rest); prog ← strcat prog (bytes0 ".coff"); prog ← string_of prog; k prog) = k (w ++ bytes ".coff").
Proof.
  intros Hw Hl. change 0 with (Z.of_nat 0) at 1. rewrite strcpy_fits by (done || lia). cbn [mbind res_bind]. rewrite take_0.
  unfold strcat. cbn [app]. rewrite strlen_spec by done. cbn [mbind res_bind].
  assert (Hs : chars (bytes ".coff")) by (by apply (bool_decide_unpack _); vm_compute).
  assert (Hlen : length (bytes ".coff") = 5%nat) by done.
  unfold bytes0. rewrite strcpy_fits; [|done|rewrite length_app; simpl; rewrite length_drop; lia]. cbn [mbind res_bind].
  rewrite take_app_length, app_assoc. rewrite string_of_word; [done|]. destruct Hw as [H1 H2], Hs as [H3 _]. split; [by apply Forall_app|].
  rewrite length_app, Hlen. lia.
Qed.

(** A name of more than 63 characters, or one whose suffix does not fit. *)
Lemma prog_overflows {A} w rest (k : list Z → res A) :
  chars w → (58 < length w)%nat →
  (prog ← strcpy (junk 1) 0 (w ++ 0 :: rest); prog ← strcat prog (bytes0 ".coff"); k prog) = UB.
Proof.
  intros Hw Hl. change 0 with (Z.of_nat 0) at 1. destruct (decide (length w < 64)%nat).
  - rewrite strcpy_fits by (done || lia). cbn [mbind res_bind]. rewrite take_0. unfold strcat. cbn [app].
    rewrite strlen_spec by done. cbn [mbind res_bind]. unfold bytes0.
    assert (Hs : chars (bytes ".coff")) by (by apply (bool_decide_unpack _); vm_compute).
    rewrite strcpy_overflows; [done|done|rewrite length_app; lia|]. rewrite length_app. simpl. rewrite length_drop. lia.
  - by rewrite strcpy_overflows by (done || lia).
Qed.

(** The words are at the pointers of [argv]. *)
Definition at_argv (t : tok) (ws : list (list Z)) : Prop :=
  ∀ i w, ws !! i = Some w → ∃ r, argv_at t (Z.of_nat i) = Ok (w ++ 0 :: r).

Lemma argv_strings t ws k vs :
  at_argv t ws → Forall chars ws → drop k ws = vs →
  mapM (fun i => argv_at t (Z.of_nat i) ≫= string_of) (seq k (length vs)) = Ok vs.
Proof.
  intros Ht Hw. revert k. induction vs as [|v vs IH]; intros k Hd; [done|]. simpl.
  assert (Hv : ws !! k = Some v) by (by rewrite <- (Nat.add_0_r k), <- lookup_drop, Hd).
  destruct (Ht k v Hv) as (r & ->). cbn [mbind res_bind]. rewrite string_of_word by (by eapply Forall_lookup_1). cbn [mbind res_bind].
  rewrite IH; [done|]. replace (S k) with (k + 1)%nat by lia. by rewrite <- drop_drop, Hd.
Qed.

Lemma run_program_spec t w ops background rest k :
  at_argv t (w :: ops) → Forall chars (w :: ops) → (length w <= 58)%nat →
  run_program exec join junk t (Z.of_nat (length (w :: ops))) background (w ++ 0 :: rest) k =
    (let '(pid, k) := exec (w ++ bytes ".coff") (w :: ops) k in
     let '(l, k) := if pid =? -1 then ([Prints (bytes "%s: exec failed." ++ [10]) [Str w]], k) else in_ground join background pid k in
     Ok (Exec (w ++ bytes ".coff") (Z.of_nat (length (w :: ops))) (w :: ops) :: l, k)).
Proof.
  intros Ht Hw Hl. pose proof (Forall_inv Hw) as Hc.
  unfold run_program. rewrite prog_name by done. rewrite Nat2Z.id, (argv_strings t (w :: ops) 0 (w :: ops)) by done.
  cbn [mbind res_bind]. destruct (exec _ _ _) as [pid k']. destruct (pid =? -1); [|done]. by rewrite string_of_word by done.
Qed.

Lemma run_program_long t w argc background rest k :
  chars w → (58 < length w)%nat → run_program exec join junk t argc background (w ++ 0 :: rest) k = UB.
Proof. intros Hw Hl. unfold run_program. by rewrite prog_overflows. Qed.

(** An operand: the second word. *)
Lemma second_word t w a ops : at_argv t (w :: a :: ops) → ∃ r, argv_at t 1 = Ok (a ++ 0 :: r).
Proof. intros Ht. by apply (Ht 1%nat). Qed.

Lemma second_chars w a ops : Forall chars (w :: a :: ops) → chars a.
Proof. by intros [_ [? _]%Forall_cons]%Forall_cons. Qed.

Lemma run_tokens_spec t w ops background k :
  at_argv t (w :: ops) → Forall chars (w :: ops) →
  run_tokens exec join root junk t (Z.of_nat (length (w :: ops))) background k = act background (w :: ops) k.
Proof.
  intros Ht Hw. pose proof (Forall_inv Hw) as Hc. unfold run_tokens, act.
  destruct (Ht 0%nat w eq_refl) as (r & Hr). change (Z.of_nat 0) with 0 in Hr. rewrite Hr. cbn [mbind res_bind].
  rewrite !compared by (done || by apply (bool_decide_unpack _); vm_compute).
  case_bool_decide; [|case_bool_decide; [|case_bool_decide]].
  - destruct ops as [|a [|b ops]]; simpl length; [done| |].
    + destruct (second_word _ _ _ _ Ht) as (r' & ->). cbn [mbind res_bind]. by rewrite (atoi_word a r' (second_chars _ _ _ Hw)).
    + by rewrite !(proj2 (Z.eqb_neq _ _)) by lia.
  - destruct ops as [|a ops]; simpl length; [done|]. by rewrite (proj2 (Z.eqb_neq _ _)) by lia.
  - destruct ops as [|a [|b ops]]; simpl length; [done| |].
    + destruct (second_word _ _ _ _ Ht) as (r' & ->). cbn [mbind res_bind]. by rewrite (atoi_word a r' (second_chars _ _ _ Hw)).
    + by rewrite !(proj2 (Z.eqb_neq _ _)) by lia.
  - case_bool_decide; [by apply run_program_long|]. apply run_program_spec; [done..|lia].
Qed.

Lemma runline_spec s rest k :
  chars s → (length s < 64)%nat → runline exec join root junk (s ++ 0 :: rest) k = line_act s k.
Proof.
  intros Hs Hl. unfold runline, line_act.
  assert (Hn : 0 ∉ s) by (destruct Hs as [Hs _]; rewrite Forall_forall in Hs; intros ?%Hs; lia).
  pose proof (tokenize_spec 16 s rest (junk 2) (junk 0) Hn ltac:(lia) ltac:(lia)) as Ht. change (Z.of_nat 16) with MAXARGS in Ht.
  destruct (words_of 16 s) as [e|ws] eqn:Hw; [by rewrite Ht; destruct e|]. destruct Ht as (t & -> & Hc & Ht). cbn [mbind res_bind].
  pose proof (words_of_chars _ _ _ Hs Hw) as Hws. assert (Hch : Forall chars ws) by (eapply Forall_impl; [exact Hws|by intros ? []]).
  rewrite Hc. destruct ws as [|v ws _] using rev_ind; [done|]. rewrite length_app. simpl length.
  destruct (Z.leb_spec (Z.of_nat (length ws + 1)) 0); [lia|]. unfold foreground, in_background. rewrite last_snoc.
  destruct (Ht (length ws) v) as (r & Hr); [by rewrite lookup_app_r, Nat.sub_diag by lia|].
  replace (Z.of_nat (length ws + 1) - 1) with (Z.of_nat (length ws)) by lia. rewrite Hr. cbn [mbind res_bind].
  apply Forall_app in Hch as [Hch Hv%Forall_inv].
  assert (Hfinal : ∀ b vs, at_argv t vs → Forall chars vs →
    (if 0 <? Z.of_nat (length vs) then run_tokens exec join root junk t (Z.of_nat (length vs)) b k else Ok ([], k)) = act b vs k).
  { intros b [|w ops] Hat Hcs; [done|]. destruct (Z.ltb_spec 0 (Z.of_nat (length (w :: ops)))); [|simpl in *; lia].
    by apply run_tokens_spec. }
  destruct (strcmp_eq v (bytes "&") r [] Hv ltac:(by apply (bool_decide_unpack _); vm_compute)) as (e & Hk & He). unfold bytes0. rewrite Hk. cbn [mbind res_bind].
  rewrite length_app. simpl length. rewrite Nat.add_sub, take_app_length.
  destruct (Z.eqb_spec e 0) as [Hz|Hz].
  - assert (v = bytes "&") as -> by tauto. rewrite bool_decide_eq_true_2 by done. apply Hfinal; [|done].
    intros i w Hi. apply Ht. by apply lookup_app_l_Some.
  - rewrite bool_decide_eq_false_2 by (intros [= ->]; tauto). replace (length ws + 1)%nat with (length (ws ++ [v])) by (by rewrite length_app).
    apply Hfinal; [exact Ht|]. apply Forall_app. split; [done|]. by apply Forall_singleton.
Qed.
End lines.

(** ** The session *)
Section session.
Context {K : Type} (exec : list Z → list (list Z) → K → Z * K) (join : Z → K → Z * Z * K) (root : bool) (junk : Z → list Z).

(** The lines that are typed, each as it is after editing. *)
Fixpoint typed (fuel : nat) (input : list Z) : list (list Z) :=
  match fuel with
  | O => []
  | S fuel => match edited 64 [] input with Some (l, input) => l :: typed fuel input | None => [] end
  end.

(** A prompt before each line, until one ends the shell. *)
Fixpoint serve (lines : list (list Z)) (k : K) : res (list action * K) :=
  match lines with
  | [] => Ok ([prompt], k)
  | s :: lines =>
      '(l, k) ← line_act exec join root s k;
      if stops root l then Ok (prompt :: l, k) else '(rest, k) ← serve lines k; Ok (prompt :: l ++ rest, k)
  end.

Hypothesis (prog_size : length (junk 1) = 64%nat) (args_size : length (junk 0) = 64%nat) (argv_size : length (junk 2) = 16%nat).

Lemma printable_chars l : Forall printable_char l → (length l < 64)%nat → chars l.
Proof. intros Hp Hl. split; [|lia]. eapply Forall_impl; [exact Hp|]. unfold printable_char. lia. Qed.

Lemma edited_suffix n line input l rest : edited n line input = Some (l, rest) → ∃ p, input = p ++ rest.
Proof.
  revert line. induction input as [|c input IH]; intros line; simpl; [done|].
  case_match; [intros [= _ <-]; by exists [c]|].
  repeat case_match; intros He; destruct (IH _ He) as [p ->]; by exists (c :: p).
Qed.

Lemma main_spec fuel buffer input k :
  Forall (fun c => 0 <= c < 256) input → length buffer = 64%nat → (length input < fuel)%nat →
  main exec join root junk fuel buffer input k = serve (typed fuel input) k.
Proof.
  revert buffer input k. induction fuel as [|fuel IH]; intros buffer input k Hin Hb Hf; [lia|]. cbn [main typed serve].
  pose proof (readline_spec buffer [] [] input 64 Hin ltac:(simpl; lia) ltac:(lia) eq_refl) as Hr.
  change (Z.of_nat 64) with BUFFERSIZE in Hr. change (Z.of_nat (length [])) with 0 in Hr.
  destruct (edited 64 [] input) as [[l rest]|] eqn:He; [|by rewrite Hr]. destruct Hr as (s' & echo & -> & Hs' & Ht).
  cbn [mbind res_bind]. destruct (edited_ok _ _ _ _ _ He) as (Hl & Hp & Hrest); [simpl; lia|done|].
  destruct (edited_suffix _ _ _ _ _ He) as [p ->]. apply Forall_app in Hin as [_ Hin].
  assert (Hrun : runline exec join root junk s' k = line_act exec join root l k).
  { rewrite <- (take_drop (S (length l)) s'), Ht, <- app_assoc. apply runline_spec; [done..|by apply printable_chars|done]. }
  rewrite Hrun. cbn [serve]. destruct (line_act exec join root l k) as [[a k']| | |]; cbn [mbind res_bind]; [|done..].
  destruct (stops root a); [done|]. rewrite IH; [done|done|by rewrite Hs'|lia].
Qed.

End session.

Definition sample_input : list Z :=
  ["sort a \ b"; "sort &"; "join 6"; "join 6"; "nosuch"; "exit 3"; "unread"]%string ≫= fun l => bytes l ++ [10].

(** A kernel in which [sort] can be started, as processes 5, 6, ..., and ends with 42; its
    state: the next process, and the children that can be waited for. *)
Definition sample_exec (file : list Z) (argv : list (list Z)) (k : Z * list Z) : Z * (Z * list Z) :=
  if bool_decide (file = bytes "sort.coff") then (k.1, (k.1 + 1, k.1 :: k.2)) else (-1, k).
Definition sample_join (pid : Z) (k : Z * list Z) : Z * Z * (Z * list Z) :=
  if bool_decide (pid ∈ k.2) then (1, 42, (k.1, filter (fun p => p ≠ pid) k.2)) else (-1, 0, k).


(** The name of a program of 59 characters: its suffix overflows [prog]. *)
Lemma long_program_name_overflows {K} exec join root junk (k : K) :
  length (junk 1) = 64%nat → length (junk 0) = 64%nat → length (junk 2) = 16%nat →
  runline exec join root junk (replicate 59 97 ++ [0]) k = UB.
Proof.
  intros H1 H0 H2. rewrite runline_spec; [by vm_compute|done..| |by apply Nat.ltb_lt]. by apply (bool_decide_unpack _); vm_compute.
Qed.
