(* ===== verification/NachosPrograms.v ===== *)
(** * Test programs of Nachos (src/cse120/nachos/test): sort, matmult, cp, mv, cat, rm, echo

    The file programs run on a kernel that is a parameter: [K] is its state, one operation
    per system call. The theorems about them are proved for every kernel that keeps what
    syscall.h promises. *)
From stdpp Require Import sorting.
From S2P Require Import Prelude.
From S2P Require Import Words.
From S2P Require Import ShellParser.
From S2P Require Import NachosLib.
From S2P Require Import NachosLibProps.

(** ** sort *)
Definition SORTSIZE : Z := 256.

(** [x] and [y]: pointers to elements of the array. *)
Definition swap (a : list Z) (x y : Z) : res (list Z) :=
  temp ← ub (a.[x]);
  v ← ub (a.[y]);
  a ← ub (a.[x := v]);
  ub (a.[y := temp]).

Fixpoint fill (n : nat) (a : list Z) (i : Z) : res (list Z) :=
  match n with
  | O => Ok a
  | S n => a ← ub (a.[i := (SORTSIZE - 1) - i]); fill n a (i + 1)
  end.

(** The loop over [j], [n] turns of it, and the one over [i]. *)
Fixpoint sort_inner (n : nat) (a : list Z) (i j : Z) : res (list Z) :=
  match n with
  | O => Ok a
  | S n =>
      x ← ub (a.[i]);
      y ← ub (a.[j]);
      a ← (if y <? x then swap a i j else Ok a);
      sort_inner n a i (j + 1)
  end.

Fixpoint sort_outer (n : nat) (a : list Z) (i : Z) : res (list Z) :=
  match n with
  | O => Ok a
  | S n => a ← sort_inner (Z.to_nat (SORTSIZE - i)) a i i; sort_outer n a (i + 1)
  end.

Fixpoint verify (n : nat) (a : list Z) (i : Z) : res Z :=
  match n with
  | O => Ok 0
  | S n => x ← ub (a.[i]); if negb (x =? i) then Ok 1 else verify n a (i + 1)
  end.

(** [array]: the global array. *)
Definition sort_main (array : list Z) : res Z :=
  a ← fill (Z.to_nat SORTSIZE) array 0;
  a ← sort_outer (Z.to_nat (SORTSIZE - 1)) a 0;
  verify (Z.to_nat SORTSIZE) a 0.

(** ** matmult *)
Definition Dim : Z := 20.

Definition get2 (m : list (list Z)) (i j : Z) : res Z := row ← ub (m.[i]); ub (row.[j]).
Definition set2 (m : list (list Z)) (i j x : Z) : res (list (list Z)) :=
  row ← ub (m.[i]); row ← ub (row.[j := x]); ub (m.[i := row]).

(** The global matrices. *)
Record matrices : Type := mkMatrices { A : list (list Z); B : list (list Z); C : list (list Z) }.

(** [n] turns of a loop over [i]. *)
Fixpoint turns {St} (n : nat) (i : Z) (body : Z → St → res St) (s : St) : res St :=
  match n with O => Ok s | S n => s ← body i s; turns n (i + 1) body s end.

Definition init_body (i j : Z) (m : matrices) : res matrices :=
  a ← set2 (A m) i j i; b ← set2 (B m) i j j; c ← set2 (C m) i j 0; Ok (mkMatrices a b c).

Definition mult_body (i j k : Z) (m : matrices) : res matrices :=
  x ← get2 (A m) i k; y ← get2 (B m) k j; p ← int (x * y);
  z ← get2 (C m) i j; s ← int (z + p); c ← set2 (C m) i j s; Ok (mkMatrices (A m) (B m) c).

(** What is printed, and the result. *)
Definition matmult_main (m : matrices) : res (list (list Z * list argument) * Z) :=
  let n := Z.to_nat Dim in
  m ← turns n 0 (fun i => turns n 0 (init_body i)) m;
  m ← turns n 0 (fun i => turns n 0 (fun j => turns n 0 (mult_body i j))) m;
  r ← get2 (C m) (Dim - 1) (Dim - 1);
  Ok ([(bytes "C[%d][%d] = %d" ++ [10], [Int (Dim - 1); Int (Dim - 1); Int r])], r).

(** ** File programs *)

(** The calls; [read] answers with its result and the bytes it stores. *)
Record syscalls (K : Type) : Type := {
  creat : list Z → K → Z * K;
  open : list Z → K → Z * K;
  read : Z → Z → K → Z * list Z * K;
  write : Z → list Z → K → Z * K;
  close : Z → K → Z * K;
  unlink : list Z → K → Z * K;
}.
Arguments creat {K} _.
Arguments open {K} _.
Arguments read {K} _.
Arguments write {K} _.
Arguments close {K} _.
Arguments unlink {K} _.

Definition BUFSIZE : Z := 1024.

(** What is printed: formats and arguments. *)
Definition output : Type := list (list Z * list argument).
Definition ln (s : string) : list Z := bytes s ++ [10].

Section programs.
Context {K : Type} (sys : syscalls K).

(** [while ((amount = read(src, buf, BUFSIZE))>0) write(dst, buf, amount);] *)
Fixpoint copy_loop (fuel : nat) (src dst : Z) (buf : list Z) (k : K) : res K :=
  match fuel with
  | O => OutOfFuel
  | S fuel =>
      let '(amount, bs, k) := read sys src BUFSIZE k in
      let buf := bs ++ drop (length bs) buf in
      if 0 <? amount then
        if amount <=? Z.of_nat (length buf) then
          let '(_, k) := write sys dst (take (Z.to_nat amount) buf) k in copy_loop fuel src dst buf k
        else UB
      else Ok k
  end.

(** From opening the files to closing them; [cannot]: the message when the source cannot
    be opened. *)
Definition copy_file (fuel : nat) (usage cannot : string) (argv : list (list Z)) (buf : list Z)
    (after : list Z → K → res (Z * output * K)) (k : K) : res (Z * output * K) :=
  if negb (Z.of_nat (length argv) =? 3) then Ok (1, [(ln usage, [])], k)
  else
    from ← ub (argv.[1]);
    to ← ub (argv.[2]);
    let '(src, k) := open sys from k in
    if src =? -1 then Ok (1, [(ln cannot, [Str (from ++ [0])])], k)
    else
      let '(_, k) := creat sys to k in
      let '(dst, k) := open sys to k in
      if dst =? -1 then Ok (1, [(ln "Unable to create %s", [Str (to ++ [0])])], k)
      else
        k ← copy_loop fuel src dst buf k;
        let '(_, k) := close sys src k in
        let '(_, k) := close sys dst k in
        after from k.

Definition cp_main (fuel : nat) (argv : list (list Z)) (buf : list Z) (k : K) : res (Z * output * K) :=
  copy_file fuel "Usage: cp <src> <dst>" "Unable to open %s" argv buf (fun _ k => Ok (0, [], k)) k.

Definition mv_main (fuel : nat) (argv : list (list Z)) (buf : list Z) (k : K) : res (Z * output * K) :=
  copy_file fuel "Usage: cp <src> <dst>" "Open to open %s" argv buf
    (fun from k => let '(_, k) := unlink sys from k in Ok (0, [], k)) k.

Definition cat_main (fuel : nat) (argv : list (list Z)) (buf : list Z) (k : K) : res (Z * output * K) :=
  if negb (Z.of_nat (length argv) =? 2) then Ok (1, [(ln "Usage: cat <file>", [])], k)
  else
    name ← ub (argv.[1]);
    let '(fd, k) := open sys name k in
    if fd =? -1 then Ok (1, [(ln "Unable to open %s", [Str (name ++ [0])])], k)
    else
      k ← copy_loop fuel fd 1 buf k;
      let '(_, k) := close sys fd k in
      Ok (0, [], k).

Definition rm_main (argv : list (list Z)) (k : K) : res (Z * output * K) :=
  if negb (Z.of_nat (length argv) =? 2) then Ok (1, [(ln "Usage: rm <file>", [])], k)
  else
    name ← ub (argv.[1]);
    let '(r, k) := unlink sys name k in
    if negb (r =? 0) then Ok (1, [(ln "Unable to remove %s", [Str (name ++ [0])])], k) else Ok (0, [], k).
End programs.

Definition echo_main (argv : list (list Z)) : Z * output :=
  (0, (ln "%d arguments", [Int (Z.of_nat (length argv))]) ::
      imap (fun i s => (ln "arg %d: %s", [Int (Z.of_nat i); Str (s ++ [0])])) argv).

(** ** sort *)
Lemma swapped_perm (a : list Z) i j x y :
  (i <= j)%nat → a !! i = Some x → a !! j = Some y → <[j := x]> (<[i := y]> a) ≡ₚ a.
Proof.
  intros Hij Hx Hy. destruct (decide (i = j)) as [->|Hne].
  { rewrite Hx in Hy. injection Hy as <-. by rewrite list_insert_insert_eq, list_insert_id. }
  pose proof (lookup_lt_Some _ _ _ Hx). pose proof (lookup_lt_Some _ _ _ Hy).
  pose proof (take_drop_middle a i x Hx) as Ha.
  assert (Hy' : drop (S i) a !! (j - S i)%nat = Some y) by (rewrite lookup_drop; by replace (S i + (j - S i))%nat with j by lia).
  pose proof (take_drop_middle _ _ _ Hy') as Hd. set (l1 := take i a) in *. set (l2 := take (j - S i) (drop (S i) a)) in *.
  set (l3 := drop (S (j - S i)) (drop (S i) a)) in *.
  assert (Hl1 : length l1 = i) by (unfold l1; rewrite length_take; lia).
  assert (Hl2 : length l2 = (j - S i)%nat) by (unfold l2; rewrite length_take, length_drop; lia).
  rewrite <- Ha, <- Hd.
  assert (Hmid : ∀ (l l' : list Z) k u v, length l = k → <[k := v]> (l ++ u :: l') = l ++ v :: l').
  { intros l l' k u v <-. rewrite <- (Nat.add_0_r (length l)). by rewrite insert_app_r. }
  rewrite (Hmid l1) by done. rewrite (app_comm_cons l2), (app_assoc l1 (y :: l2)), Hmid, <- app_assoc;
    [|rewrite length_app; simpl; lia]. cbn [app].
  apply Permutation_app_head. solve_Permutation.
Qed.

Lemma swap_spec a i j x y :
  a !! i = Some x → a !! j = Some y → swap a (Z.of_nat i) (Z.of_nat j) = Ok (<[j := x]> (<[i := y]> a)).
Proof.
  intros Hx Hy. pose proof (lookup_lt_Some _ _ _ Hx). pose proof (lookup_lt_Some _ _ _ Hy). unfold swap.
  rewrite !zlookup_nat, Hx, Hy. cbn [ub mbind res_bind]. rewrite zupdate_nat by done. cbn [ub mbind res_bind].
  by rewrite zupdate_nat by (by rewrite length_insert).
Qed.

(** The element at [i] is the least from there on. *)
Definition least_at (a : list Z) (i : nat) : Prop := ∀ (k : nat) (x y : Z), (i <= k)%nat → a !! i = Some x → a !! k = Some y → x <= y.

Lemma sort_inner_spec n a i j :
  (i <= j)%nat → (j + n = length a)%nat → (i < length a)%nat →
  (∀ (k : nat) (x y : Z), (i <= k < j)%nat → a !! i = Some x → a !! k = Some y → x <= y) →
  ∃ b, sort_inner n a (Z.of_nat i) (Z.of_nat j) = Ok b ∧ b ≡ₚ a ∧ take i b = take i a ∧ least_at b i.
Proof.
  revert a j. induction n as [|n IH]; intros a j Hij Hn Hi Hinv; cbn [sort_inner].
  - exists a. split_and!; try done. intros k x y Hk Hx Hy. pose proof (lookup_lt_Some _ _ _ Hy). by apply (Hinv k); [lia|..].
  - destruct (lookup_lt_is_Some_2 a i Hi) as [x Hx]. destruct (lookup_lt_is_Some_2 a j ltac:(lia)) as [y Hy].
    rewrite !zlookup_nat, Hx, Hy. cbn [ub mbind res_bind]. replace (Z.of_nat j + 1) with (Z.of_nat (S j)) by lia.
    destruct (Z.ltb_spec y x).
    + rewrite (swap_spec a i j x y Hx Hy). cbn [mbind res_bind]. set (a' := <[j := x]> (<[i := y]> a)).
      assert (Hlen : length a' = length a) by (unfold a'; by rewrite !length_insert).
      assert (i ≠ j) by (intros ->; rewrite Hx in Hy; injection Hy as ->; lia).
      destruct (IH a' (S j)) as (b & Hb & Hp & Ht & Hl); [lia|lia|lia| |].
      * intros k u v Hk Hu Hv. unfold a' in Hu, Hv. rewrite list_lookup_insert_ne, list_lookup_insert_eq in Hu by (lia || done).
        injection Hu as <-. destruct (decide (k = j)) as [->|Hkj].
        -- rewrite list_lookup_insert_eq in Hv by (rewrite length_insert; lia). injection Hv as <-. lia.
        -- rewrite list_lookup_insert_ne in Hv by lia. destruct (decide (k = i)) as [->|Hki].
           ++ rewrite list_lookup_insert_eq in Hv by lia. injection Hv as <-. lia.
           ++ rewrite list_lookup_insert_ne in Hv by lia. pose proof (Hinv k x v ltac:(lia) Hx Hv). lia.
      * exists b. split_and!; [done| | |done].
        -- rewrite Hp. by apply swapped_perm.
        -- rewrite Ht. unfold a'. by rewrite !take_insert_ge by lia.
    + cbn [mbind res_bind]. apply IH; [lia..|]. intros k u v Hk Hu Hv. destruct (decide (k = j)) as [->|Hkj]; [|].
      { rewrite Hx in Hu. rewrite Hy in Hv. injection Hu as <-. injection Hv as <-. lia. }
      apply (Hinv k); [lia|done..].
Qed.

Lemma same_tail (a b : list Z) i : b ≡ₚ a → take i b = take i a → drop i b ≡ₚ drop i a.
Proof. intros Hp Ht. apply (Permutation_app_inv_l (take i a)). rewrite <- Ht at 1. by rewrite !take_drop. Qed.

Lemma sort_outer_spec n a i :
  length a = 256%nat → (i + n <= 256)%nat → (∀ p, (p < i)%nat → least_at a p) →
  ∃ b, sort_outer n a (Z.of_nat i) = Ok b ∧ b ≡ₚ a ∧ ∀ p, (p < i + n)%nat → least_at b p.
Proof.
  revert a i. induction n as [|n IH]; intros a i Ha Hi Hp; cbn [sort_outer].
  - exists a. by rewrite Nat.add_0_r.
  - destruct (sort_inner_spec (256 - i) a i i) as (b & Hb & Hperm & Ht & Hl); [lia..|]. 
    replace (Z.to_nat (SORTSIZE - Z.of_nat i)) with (256 - i)%nat by (unfold SORTSIZE; lia). rewrite Hb. cbn [mbind res_bind].
    replace (Z.of_nat i + 1) with (Z.of_nat (S i)) by lia.
    destruct (IH b (S i)) as (c & -> & Hc & Hl'); [by rewrite Hperm|lia| |].
    + intros p Hpi. destruct (decide (p = i)) as [->|Hne]; [done|]. intros k x y Hk Hx Hy.
      assert (Hx' : a !! p = Some x) by (rewrite <- (lookup_take_lt a i p), <- Ht, lookup_take_lt; [done|lia|lia]).
      destruct (decide (k < i)%nat).
      * apply (Hp p ltac:(lia) k); [done..|]. rewrite <- (lookup_take_lt a i k), <- Ht, lookup_take_lt; [done|lia|lia].
      * assert (Hin : y ∈ drop i a).
        { rewrite <- (same_tail a b i Hperm Ht). apply list_elem_of_lookup. exists (k - i)%nat. rewrite lookup_drop.
          by replace (i + (k - i))%nat with k by lia. }
        apply list_elem_of_lookup in Hin as [q Hq]. rewrite lookup_drop in Hq. by apply (Hp p ltac:(lia) (i + q)%nat); [lia|..].
    + exists c. split_and!; [done|by rewrite Hc|]. intros p Hpn. apply Hl'. lia.
Qed.

Lemma least_sorted (a : list Z) n : (length a <= S n)%nat → (∀ p, (p < n)%nat → least_at a p) → StronglySorted Z.le a.
Proof.
  revert n. induction a as [|x a IH]; intros n Hl H; constructor.
  - destruct n as [|n]; [destruct a; [constructor|simpl in *; lia]|]. apply (IH n); [simpl in *; lia|].
    intros p Hp k u v Hk Hu Hv. apply (H (S p) ltac:(lia) (S k)); [lia|done..].
  - apply Forall_lookup. intros k y Hk. destruct n as [|n].
    { destruct a; [done|simpl in *; lia]. }
    by apply (H 0%nat ltac:(lia) (S k)); [lia|..].
Qed.

(** [seqZ 255, 254, ... 0], as it is filled. *)
Lemma fill_spec n a i :
  (i + n <= length a)%nat → fill n a (Z.of_nat i) = Ok (take i a ++ map (fun k => 255 - Z.of_nat k) (seq i n) ++ drop (i + n) a).
Proof.
  revert a i. induction n as [|n IH]; intros a i Hl; cbn [fill seq map app].
  - by rewrite Nat.add_0_r, take_drop.
  - rewrite zupdate_nat by lia. cbn [ub mbind res_bind]. replace (Z.of_nat i + 1) with (Z.of_nat (S i)) by lia.
    rewrite IH by (rewrite length_insert; lia). f_equal. change (SORTSIZE - 1 - Z.of_nat i) with (255 - Z.of_nat i).
    rewrite drop_insert_lt by lia. replace (S i + n)%nat with (i + S n)%nat by lia.
    rewrite (take_S_r _ _ (255 - Z.of_nat i)) by (apply list_lookup_insert_eq; lia). rewrite take_insert_ge by lia. by rewrite <- app_assoc.
Qed.

Lemma verify_spec n i a :
  (∀ k, (k < n)%nat → a !! (i + k)%nat = Some (Z.of_nat (i + k))) → verify n a (Z.of_nat i) = Ok 0.
Proof.
  revert i. induction n as [|n IH]; intros i H; cbn [verify]; [done|]. rewrite zlookup_nat.
  rewrite <- (Nat.add_0_r i) at 1. rewrite H by lia. cbn [ub mbind res_bind]. rewrite Nat.add_0_r, Z.eqb_refl. cbn [negb].
  replace (Z.of_nat i + 1) with (Z.of_nat (S i)) by lia. apply IH. intros k Hk. replace (S i + k)%nat with (i + S k)%nat by lia. apply H. lia.
Qed.

Lemma sort_outer_sorts a :
  length a = 256%nat → ∃ b, sort_outer 255 a 0 = Ok b ∧ b ≡ₚ a ∧ StronglySorted Z.le b.
Proof.
  intros Ha. destruct (sort_outer_spec 255 a 0 Ha ltac:(lia)) as (b & Hb & Hp & Hl); [lia|].
  exists b. split_and!; [done..|]. apply (least_sorted b 255); [rewrite Hp; lia|]. intros p ?. apply Hl. lia.
Qed.

Lemma naturals_sorted n i : StronglySorted Z.le (Z.of_nat <$> seq i n).
Proof.
  revert i. induction n as [|n IH]; intros i; simpl; constructor; [apply IH|].
  apply Forall_fmap, Forall_forall. intros k [Hk _]%elem_of_seq. simpl. lia.
Qed.

(** C27: the sort of the program sorts every array of its size, and the program, which
    checks what it has sorted, returns 0. *)
Theorem sort_program_succeeds array a :
  length array = 256%nat → length a = 256%nat →
  sort_main array = Ok 0 ∧ ∃ b, sort_outer 255 a 0 = Ok b ∧ b ≡ₚ a ∧ StronglySorted Z.le b.
Proof.
  intros Harr Ha. split; [|by apply sort_outer_sorts]. unfold sort_main, SORTSIZE.
  change (Z.to_nat 256) with 256%nat. change (Z.to_nat (256 - 1)) with 255%nat.
  pose proof (fill_spec 256 array 0 ltac:(lia)) as Hfill. change (Z.of_nat 0) with 0 in Hfill. rewrite Hfill. cbn [mbind res_bind]. rewrite take_0, drop_ge by lia. rewrite app_nil_r. cbn [app].
  set (filled := map _ _). assert (Hf : length filled = 256%nat) by done.
  destruct (sort_outer_sorts filled Hf) as (b & -> & Hp & Hs). cbn [mbind res_bind].
  assert (b = Z.of_nat <$> seq 0 256) as ->.
  { apply (StronglySorted_unique Z.le); [done|apply naturals_sorted|]. rewrite Hp.
    change (Z.of_nat <$> seq 0 256) with (rev filled). apply Permutation_rev. }
  apply (verify_spec 256 0). intros k Hk. by rewrite list_lookup_fmap, lookup_seq_lt by lia.
Qed.

Theorem sort_program_succeeds_witness :
  sort_main (replicate 256 0) = Ok 0 ∧
  ∃ b, sort_outer 255 (replicate 256 7) 0 = Ok b ∧ b ≡ₚ replicate 256 7 ∧ StronglySorted Z.le b.
Proof. by apply (sort_program_succeeds (replicate 256 0) (replicate 256 7)). Defined.

(** ** matmult *)
Definition square (m : list (list Z)) : Prop := length m = 20%nat ∧ Forall (fun row => length row = 20%nat) m.
Definition entry (m : list (list Z)) (r c : nat) : option Z := m !! r ≫= (.!! c).

Lemma get2_spec m r c x : entry m r c = Some x → get2 m (Z.of_nat r) (Z.of_nat c) = Ok x.
Proof.
  unfold entry, get2. rewrite zlookup_nat. intros (row & -> & Hx)%bind_Some. cbn [ub mbind res_bind]. by rewrite zlookup_nat, Hx.
Qed.

Lemma set2_spec m i j x :
  square m → (i < 20)%nat → (j < 20)%nat →
  ∃ m', set2 m (Z.of_nat i) (Z.of_nat j) x = Ok m' ∧ square m' ∧
    ∀ r c, entry m' r c = if decide (r = i ∧ c = j) then Some x else entry m r c.
Proof.
  intros [Hl Hr] Hi Hj. destruct (lookup_lt_is_Some_2 m i ltac:(lia)) as [row Hrow].
  pose proof (Forall_lookup_1 _ _ _ _ Hr Hrow) as Hlen. cbn beta in Hlen.
  unfold set2. rewrite zlookup_nat, Hrow. cbn [ub mbind res_bind]. rewrite zupdate_nat by lia. cbn [ub mbind res_bind].
  rewrite zupdate_nat by lia. eexists. split_and!; [done| |].
  - split; [by rewrite length_insert|]. apply Forall_insert; [done|by rewrite length_insert].
  - intros r c. unfold entry. destruct (decide (r = i)) as [->|Hne].
    + rewrite list_lookup_insert_eq by lia. cbn [mbind option_bind]. destruct (decide (c = j)) as [->|Hc].
      * rewrite decide_True by done. apply list_lookup_insert_eq. lia.
      * rewrite decide_False by tauto. rewrite list_lookup_insert_ne by done. by rewrite Hrow.
    + rewrite decide_False by tauto. by rewrite list_lookup_insert_ne by done.
Qed.

Lemma turns_inv {St} (P : nat → St → Prop) (body : Z → St → res St) n i s :
  P i s → (∀ k s, (i <= k < i + n)%nat → P k s → ∃ s', body (Z.of_nat k) s = Ok s' ∧ P (S k) s') →
  ∃ s', turns n (Z.of_nat i) body s = Ok s' ∧ P (i + n)%nat s'.
Proof.
  revert i s. induction n as [|n IH]; intros i s H0 Hb; cbn [turns]; [exists s; by rewrite Nat.add_0_r|].
  destruct (Hb i s ltac:(lia) H0) as (s1 & -> & H1). cbn [mbind res_bind]. replace (Z.of_nat i + 1) with (Z.of_nat (S i)) by lia.
  destruct (IH (S i) s1 H1) as (s2 & -> & H2); [intros k s' Hk; apply Hb; lia|]. exists s2. split; [done|].
  by replace (i + S n)%nat with (S i + n)%nat by lia.
Qed.

(** The entries before row [i], column [j]. *)
Definition before (i j r c : nat) : Prop := (r < i ∨ r = i ∧ c < j)%nat.
#[local] Instance before_dec i j r c : Decision (before i j r c).
Proof. unfold before. apply _. Defined.

Definition squares (m : matrices) : Prop := square (A m) ∧ square (B m) ∧ square (C m).

Definition initialised (i j : nat) (m : matrices) : Prop :=
  squares m ∧ ∀ r c, (r < 20)%nat → (c < 20)%nat → before i j r c →
    entry (A m) r c = Some (Z.of_nat r) ∧ entry (B m) r c = Some (Z.of_nat c) ∧ entry (C m) r c = Some 0.

(** The product so far: [k] terms of the sum of row [i], column [j]. *)
Definition term (i j k r c : nat) : Z :=
  if decide (before i j r c) then 20 * Z.of_nat r * Z.of_nat c
  else if decide (r = i ∧ c = j) then Z.of_nat k * Z.of_nat r * Z.of_nat c else 0.

Definition multiplied (i j k : nat) (m : matrices) : Prop :=
  squares m ∧ ∀ r c, (r < 20)%nat → (c < 20)%nat →
    entry (A m) r c = Some (Z.of_nat r) ∧ entry (B m) r c = Some (Z.of_nat c) ∧ entry (C m) r c = Some (term i j k r c).

Lemma init_step i j m :
  (i < 20)%nat → (j < 20)%nat → initialised i j m → ∃ m', init_body (Z.of_nat i) (Z.of_nat j) m = Ok m' ∧ initialised i (S j) m'.
Proof.
  intros Hi Hj [(HA & HB & HC) H]. unfold init_body.
  destruct (set2_spec (A m) i j (Z.of_nat i) HA Hi Hj) as (a & -> & Ha & Ea). cbn [mbind res_bind].
  destruct (set2_spec (B m) i j (Z.of_nat j) HB Hi Hj) as (b & -> & Hb & Eb). cbn [mbind res_bind].
  destruct (set2_spec (C m) i j 0 HC Hi Hj) as (c & -> & Hc & Ec). cbn [mbind res_bind].
  eexists. split; [done|]. split; [done|]. intros r c' Hr Hc' Hb'. simpl. rewrite Ea, Eb, Ec.
  case_decide as Hd; [by destruct Hd as [-> ->]|]. apply H; [done..|]. unfold before in *. lia.
Qed.

Lemma mult_step i j k m :
  (i < 20)%nat → (j < 20)%nat → (k < 20)%nat → multiplied i j k m →
  ∃ m', mult_body (Z.of_nat i) (Z.of_nat j) (Z.of_nat k) m = Ok m' ∧ multiplied i j (S k) m'.
Proof.
  intros Hi Hj Hk [(HA & HB & HC) H]. unfold mult_body.
  rewrite (get2_spec _ _ _ _ (proj1 (H i k Hi Hk))), (get2_spec _ _ _ _ (proj1 (proj2 (H k j Hk Hj)))). cbn [mbind res_bind].
  rewrite (get2_spec _ _ _ _ (proj2 (proj2 (H i j Hi Hj)))).
  assert (Ht : term i j k i j = Z.of_nat k * Z.of_nat i * Z.of_nat j).
  { unfold term. rewrite decide_False by (unfold before; lia). by rewrite decide_True. }
  assert (Hb : 0 <= Z.of_nat i * Z.of_nat j <= 19 * 19) by nia.
  assert (Hb2 : 0 <= Z.of_nat k * Z.of_nat i * Z.of_nat j <= 19 * (19 * 19)) by nia.
  rewrite Ht, int_ok by lia. cbn [mbind res_bind]. rewrite int_ok by lia. cbn [mbind res_bind].
  destruct (set2_spec (C m) i j (Z.of_nat k * Z.of_nat i * Z.of_nat j + Z.of_nat i * Z.of_nat j) HC Hi Hj) as (c & -> & Hc & Ec). cbn [mbind res_bind].
  eexists. split; [done|]. split; [done|]. intros r c' Hr Hc'. simpl. rewrite Ec. destruct (H r c' Hr Hc') as (H1 & H2 & H3).
  split_and!; [done|done|]. rewrite H3. unfold term.
  destruct (decide (r = i ∧ c' = j)) as [[-> ->]|Hd].
  - rewrite decide_False by (unfold before; lia). f_equal. lia.
  - by destruct (decide (before i j r c')).
Qed.

(** The end of a row is the start of the next one, and the end of a sum its value. *)
Lemma next_row i m : initialised i 20 m → initialised (S i) 0 m.
Proof. intros [Hs H]. split; [done|]. intros r c Hr Hc Hb. apply H; [done..|]. unfold before in *. lia. Qed.

Lemma next_sum i j m : multiplied i j 20 m → multiplied i (S j) 0 m.
Proof.
  intros [Hs H]. split; [done|]. intros r c Hr Hc. destruct (H r c Hr Hc) as (H1 & H2 & ->). split_and!; [done..|]. f_equal. unfold term, before.
  repeat case_decide; lia.
Qed.

Lemma next_product_row i m : multiplied i 20 0 m → multiplied (S i) 0 0 m.
Proof.
  intros [Hs H]. split; [done|]. intros r c Hr Hc. destruct (H r c Hr Hc) as (H1 & H2 & ->). split_and!; [done..|]. f_equal. unfold term, before.
  repeat case_decide; lia.
Qed.

(** The product is what the comment of the program says: it returns 7220, whatever the
    matrices held. *)
Theorem matmult_returns_7220 m :
  squares m → matmult_main m = Ok ([(bytes "C[%d][%d] = %d" ++ [10], [Int 19; Int 19; Int 7220])], 7220).
Proof.
  intros Hs. unfold matmult_main. change (Z.to_nat Dim) with 20%nat. change 0 with (Z.of_nat 0).
  destruct (turns_inv (fun i => initialised i 0) (fun i => turns 20 (Z.of_nat 0) (init_body i)) 20 0 m) as (m1 & -> & H1).
  { split; [done|]. unfold before. intros r c. lia. }
  { intros i s Hi H. destruct (turns_inv (initialised i) (init_body (Z.of_nat i)) 20 0 s H) as (s' & -> & H');
      [intros; apply init_step; done || lia|]. exists s'. split; [done|]. by apply next_row. }
  cbn [mbind res_bind].
  destruct (turns_inv (fun i => multiplied i 0 0) (fun i => turns 20 (Z.of_nat 0) (fun j => turns 20 (Z.of_nat 0) (mult_body i j))) 20 0 m1)
    as (m2 & -> & H2).
  { destruct H1 as [Hs1 H1]. split; [done|]. intros r c Hr Hc. destruct (H1 r c Hr Hc) as (Ha & Hb & Hc0); [unfold before; lia|].
    split_and!; [done..|]. rewrite Hc0. unfold term, before. repeat case_decide; done || lia. }
  { intros i s Hi H.
    destruct (turns_inv (fun j => multiplied i j 0) (fun j => turns 20 (Z.of_nat 0) (mult_body (Z.of_nat i) j)) 20 0 s H) as (s' & -> & H').
    { intros j t Hj Ht. destruct (turns_inv (multiplied i j) (mult_body (Z.of_nat i) (Z.of_nat j)) 20 0 t Ht) as (t' & -> & Ht');
        [intros; apply mult_step; done || lia|]. exists t'. split; [done|]. by apply next_sum. }
    exists s'. split; [done|]. by apply next_product_row. }
  cbn [mbind res_bind]. destruct H2 as [_ H2]. destruct (H2 19%nat 19%nat ltac:(lia) ltac:(lia)) as (_ & _ & H).
  change (Dim - 1) with (Z.of_nat 19). by rewrite (get2_spec _ _ _ _ H).
Qed.

(** ** Files

    What a process sees of the disk: the files, its descriptors with the name and the
    position of each, and what is on the console. *)
Record view : Type := mkView {
  files : gmap (list Z) (list Z);
  fds : gmap Z (list Z * nat);
  console : list Z;
}.

Definition with_files (f : gmap (list Z) (list Z) → gmap (list Z) (list Z)) (v : view) : view := mkView (f (files v)) (fds v) (console v).
Definition with_fds (f : gmap Z (list Z * nat) → gmap Z (list Z * nat)) (v : view) : view := mkView (files v) (f (fds v)) (console v).

(** A file with [w] written to it at [p]. *)
Definition overwrite (p : nat) (w s : list Z) : list Z := take p s ++ w ++ drop (p + length w) s.

(** The calls as [syscall.h] documents them, none of them failing: the disk is not full and
    there are descriptors left. *)
Class FaultFree {K} (sys : syscalls K) (sees : K → view) : Prop := {
  creates name k : ∃ fd k', creat sys name k = (fd, k') ∧ 2 <= fd ∧ fds (sees k) !! fd = None ∧
    sees k' = with_files (fun fs => <[name := default [] (fs !! name)]> fs) (with_fds <[fd := (name, 0%nat)]> (sees k));
  opens name k : is_Some (files (sees k) !! name) →
    ∃ fd k', open sys name k = (fd, k') ∧ 2 <= fd ∧ fds (sees k) !! fd = None ∧ sees k' = with_fds <[fd := (name, 0%nat)]> (sees k);
  opens_no name k : files (sees k) !! name = None → ∃ k', open sys name k = (-1, k') ∧ sees k' = sees k;
  reads fd n k name p bs : fds (sees k) !! fd = Some (name, p) → files (sees k) !! name = Some bs → 0 <= n →
    let r := take (Z.to_nat n) (drop p bs) in
    ∃ k', read sys fd n k = (Z.of_nat (length r), r, k') ∧ sees k' = with_fds <[fd := (name, (p + length r)%nat)]> (sees k);
  writes fd w k name p bs : fds (sees k) !! fd = Some (name, p) → files (sees k) !! name = Some bs →
    ∃ k', write sys fd w k = (Z.of_nat (length w), k') ∧
      sees k' = with_files <[name := overwrite p w bs]> (with_fds <[fd := (name, (p + length w)%nat)]> (sees k));
  displays w k : fds (sees k) !! 1 = None →
    ∃ k', write sys 1 w k = (Z.of_nat (length w), k') ∧ sees k' = mkView (files (sees k)) (fds (sees k)) (console (sees k) ++ w);
  closes fd k : is_Some (fds (sees k) !! fd) → ∃ k', close sys fd k = (0, k') ∧ sees k' = with_fds (delete fd) (sees k);
  unlinks name k : is_Some (files (sees k) !! name) → map_Forall (fun _ x => x.1 ≠ name) (fds (sees k)) →
    ∃ k', unlink sys name k = (0, k') ∧ sees k' = with_files (delete name) (sees k);
}.

Lemma overwrite_at p w s r : (p = length r)%nat → overwrite p w (r ++ s) = r ++ w ++ drop (length w) s.
Proof. intros ->. unfold overwrite. rewrite take_app_length, drop_app_ge by lia. do 3 f_equal. lia. Qed.

Ltac same_maps := apply map_eq; intros; repeat (rewrite ?lookup_insert, ?lookup_delete; try case_decide); congruence.

Lemma take_min {A} n (l : list A) : take (n `min` length l) l = take n l.
Proof. destruct (Nat.min_spec n (length l)) as [[_ ->]|[Hl ->]]; [done|]. by rewrite !take_ge by lia. Qed.

Lemma take_then_drop {A} n (l : list A) : take n l ++ drop (length (take n l)) l = l.
Proof. rewrite length_take. rewrite <- (take_min n l). apply take_drop. Qed.

Section files.
Context {K : Type} (sys : syscalls K) (sees : K → view) `{!FaultFree sys sees}.

(** The loop copies what is left of one file to another one. *)
Lemma copies n fuel src dst buf k from p bs to ds :
  src ≠ dst → from ≠ to → length buf = 1024%nat →
  fds (sees k) !! src = Some (from, p) → files (sees k) !! from = Some bs →
  fds (sees k) !! dst = Some (to, p) → files (sees k) !! to = Some (take p bs ++ ds) → (p <= length bs)%nat →
  (length bs - p <= n)%nat → (n < fuel)%nat →
  ∃ k', copy_loop sys fuel src dst buf k = Ok k' ∧
    files (sees k') = <[to := bs ++ drop (length bs - p) ds]> (files (sees k)) ∧
    fds (sees k') = <[dst := (to, length bs)]> (<[src := (from, length bs)]> (fds (sees k))) ∧
    console (sees k') = console (sees k).
Proof.
  revert n buf k p ds. induction fuel as [|fuel IH]; intros n buf k p ds Hne Hnames Hbuf Hsrc Hfrom Hdst Hto Hp Hn Hf; [lia|].
  cbn [copy_loop]. destruct (reads src BUFSIZE k from p bs Hsrc Hfrom ltac:(done)) as (k1 & -> & Hk1).
  change (Z.to_nat BUFSIZE) with 1024%nat in *. set (r := take 1024 (drop p bs)) in *.
  assert (Hr : length r = (1024 `min` (length bs - p))%nat) by (unfold r; by rewrite length_take, length_drop).
  destruct (Z.ltb_spec 0 (Z.of_nat (length r))) as [Hpos|Hzero].
  - assert (Hb : length (r ++ drop (length r) buf) = 1024%nat) by (rewrite length_app, length_drop; lia).
    rewrite Hb. destruct (Z.leb_spec (Z.of_nat (length r)) (Z.of_nat 1024)); [|lia]. rewrite Nat2Z.id, take_app_length.
    destruct (writes dst r k1 to p (take p bs ++ ds)) as (k2 & -> & Hk2);
      [by rewrite Hk1; simpl; rewrite lookup_insert_ne by done|by rewrite Hk1|].
    rewrite (overwrite_at p r ds (take p bs)) in Hk2 by (rewrite length_take; lia).
    assert (Hr2 : take p bs ++ r = take (p + length r) bs).
    { rewrite <- take_take_drop. f_equal. unfold r. by rewrite length_take, take_min. }
    rewrite app_assoc, Hr2 in Hk2.
    destruct (IH (n - length r)%nat (r ++ drop (length r) buf) k2 (p + length r)%nat (drop (length r) ds)) as (k' & Hk' & H1 & H2 & H3);
      rewrite ?Hk2, ?Hk1; simpl; rewrite ?lookup_insert_ne, ?lookup_insert_eq by done; try done; try lia.
    exists k'. split; [done|]. rewrite H1, H2, H3, Hk2, Hk1. simpl. split_and!; [|by same_maps|done].
    rewrite insert_insert_eq, drop_drop. do 3 f_equal. lia.
  - exists k1. split; [done|]. assert (length r = 0%nat) as Hr0 by lia. assert (p = length bs) as -> by lia. rewrite Hk1. simpl.
    rewrite Hr0, Nat.add_0_r, Nat.sub_diag, drop_0. split_and!; [|by same_maps|done].
    rewrite insert_id; [done|]. by rewrite Hto, take_ge by lia.
Qed.

(** Up to the calls that close the files; the descriptor of [creat] stays open. *)
Lemma copies_file prog usage cannot from to buf after k bs :
  length buf = 1024%nat → from ≠ to → files (sees k) !! from = Some bs →
  ∃ fd k', copy_file sys (S (length bs)) usage cannot [prog; from; to] buf after k = after from k' ∧
    files (sees k') = <[to := bs ++ drop (length bs) (default [] (files (sees k) !! to))]> (files (sees k)) ∧
    fds (sees k') = <[fd := (to, 0%nat)]> (fds (sees k)) ∧ fds (sees k) !! fd = None ∧ console (sees k') = console (sees k).
Proof.
  intros Hbuf Hne Hfrom. unfold copy_file. cbn [length zlookup]. change (Z.of_nat 3 =? 3) with true. cbn [negb].
  change ([prog; from; to].[1]) with (Some from). change ([prog; from; to].[2]) with (Some to). cbn [ub mbind res_bind].
  destruct (opens from k ltac:(by eexists)) as (src & k1 & -> & Hs2 & Hsf & Hk1). destruct (Z.eqb_spec src (-1)); [lia|].
  destruct (creates to k1) as (fd & k2 & -> & Hf2 & Hff & Hk2).
  assert (Hto2 : files (sees k2) !! to = Some (default [] (files (sees k) !! to))).
  { rewrite Hk2. simpl. rewrite lookup_insert_eq. by rewrite Hk1. }
  destruct (opens to k2 ltac:(by eexists)) as (dst & k3 & -> & Hd2 & Hdf & Hk3). destruct (Z.eqb_spec dst (-1)); [lia|].
  set (ds := default [] (files (sees k) !! to)) in *.
  rewrite Hk1 in Hff. rewrite Hk2, Hk1 in Hdf. simpl in Hff, Hdf.
  assert (src ≠ fd ∧ fds (sees k) !! fd = None) as [Hsf1 Hfd].
  { destruct (decide (src = fd)) as [->|]; [by rewrite lookup_insert_eq in Hff|]. by rewrite lookup_insert_ne in Hff. }
  assert (fd ≠ dst) by (intros ->; by rewrite lookup_insert_eq in Hdf). rewrite lookup_insert_ne in Hdf by done.
  assert (src ≠ dst) by (intros ->; by rewrite lookup_insert_eq in Hdf). rewrite lookup_insert_ne in Hdf by done.
  destruct (copies (length bs) (S (length bs)) src dst buf k3 from 0 bs to ds) as (k4 & -> & Hfs & Hfds & Hc);
    rewrite ?Hk3, ?Hk2, ?Hk1; simpl; rewrite ?lookup_insert_ne, ?lookup_insert_eq by done; try done; try lia.
  cbn [mbind res_bind].
  destruct (closes src k4) as (k5 & -> & Hk5); [rewrite Hfds, lookup_insert_ne, lookup_insert_eq by done; by eexists|].
  destruct (closes dst k5) as (k6 & -> & Hk6); [rewrite Hk5; simpl; rewrite Hfds, lookup_delete_ne, lookup_insert_eq by done; by eexists|].
  exists fd, k6. split; [done|]. rewrite Hk6, Hk5. simpl. rewrite Hfs, Hfds, Hc, Hk3, Hk2, Hk1. simpl.
  split_and!; [| |done|done].
  - rewrite insert_insert_eq. by rewrite Nat.sub_0_r.
  - same_maps.
Qed.

(** [cat]: the loop with the console for the destination. *)
Lemma displayed n fuel src buf k name p bs :
  src ≠ 1 → length buf = 1024%nat → fds (sees k) !! src = Some (name, p) → files (sees k) !! name = Some bs → fds (sees k) !! 1 = None →
  (p <= length bs)%nat → (length bs - p <= n)%nat → (n < fuel)%nat →
  ∃ k', copy_loop sys fuel src 1 buf k = Ok k' ∧
    sees k' = mkView (files (sees k)) (<[src := (name, length bs)]> (fds (sees k))) (console (sees k) ++ drop p bs).
Proof.
  revert n buf k p. induction fuel as [|fuel IH]; intros n buf k p Hne Hbuf Hsrc Hname H1 Hp Hn Hf; [lia|]. cbn [copy_loop].
  destruct (reads src BUFSIZE k name p bs Hsrc Hname ltac:(done)) as (k1 & -> & Hk1).
  change (Z.to_nat BUFSIZE) with 1024%nat in *. set (r := take 1024 (drop p bs)) in *.
  assert (Hr : length r = (1024 `min` (length bs - p))%nat) by (unfold r; by rewrite length_take, length_drop).
  destruct (Z.ltb_spec 0 (Z.of_nat (length r))) as [Hpos|Hzero].
  - assert (Hb : length (r ++ drop (length r) buf) = 1024%nat) by (rewrite length_app, length_drop; lia).
    rewrite Hb. destruct (Z.leb_spec (Z.of_nat (length r)) (Z.of_nat 1024)); [|lia]. rewrite Nat2Z.id, take_app_length.
    destruct (displays r k1) as (k2 & -> & Hk2); [by rewrite Hk1; simpl; rewrite lookup_insert_ne by done|].
    destruct (IH (n - length r)%nat (r ++ drop (length r) buf) k2 (p + length r)%nat) as (k' & Hk' & Hv);
      rewrite ?Hk2, ?Hk1; simpl; rewrite ?lookup_insert_ne, ?lookup_insert_eq by done; try done; try lia.
    exists k'. split; [done|]. rewrite Hv, Hk2, Hk1. simpl. rewrite insert_insert_eq. f_equal.
    rewrite <- app_assoc. f_equal. rewrite <- drop_drop. apply take_then_drop.
  - exists k1. split; [done|]. assert (p = length bs) as -> by lia. rewrite Hk1. unfold with_fds. rewrite drop_all, app_nil_r.
    do 3 f_equal. by replace (length bs + length r)%nat with (length bs) by lia.
Qed.

Lemma cat_spec prog name buf k bs :
  length buf = 1024%nat → files (sees k) !! name = Some bs → fds (sees k) !! 1 = None →
  ∃ k', cat_main sys (S (length bs)) [prog; name] buf k = Ok (0, [], k') ∧
    sees k' = mkView (files (sees k)) (fds (sees k)) (console (sees k) ++ bs).
Proof.
  intros Hbuf Hname H1. unfold cat_main. cbn [length]. change (Z.of_nat 2 =? 2) with true. cbn [negb].
  change ([prog; name].[1]) with (Some name). cbn [ub mbind res_bind].
  destruct (opens name k ltac:(by eexists)) as (fd & k1 & -> & Hf2 & Hff & Hk1). destruct (Z.eqb_spec fd (-1)); [lia|].
  destruct (displayed (length bs) (S (length bs)) fd buf k1 name 0 bs) as (k2 & -> & Hk2);
    rewrite ?Hk1; simpl; rewrite ?lookup_insert_eq, ?lookup_insert_ne by lia; try done; try lia.
  cbn [mbind res_bind]. destruct (closes fd k2) as (k3 & -> & Hk3); [rewrite Hk2; simpl; rewrite lookup_insert_eq; by eexists|].
  exists k3. split; [done|]. rewrite Hk3, Hk2, Hk1. unfold with_fds. simpl. rewrite insert_insert_eq, delete_insert_id by done. done.
Qed.

(** C26: on a disk that does not fail [cp] leaves a copy of its first operand in the second
    one, and [mv] the same with its first operand removed; of a longer file that was there
    the rest stays. [cat] puts the file on the console. *)
Theorem file_programs_keep_the_contents prog from to buf k bs :
  length buf = 1024%nat → from ≠ to → files (sees k) !! from = Some bs →
  map_Forall (fun _ x => x.1 ≠ from) (fds (sees k)) → fds (sees k) !! 1 = None →
  let copied := <[to := bs ++ drop (length bs) (default [] (files (sees k) !! to))]> (files (sees k)) in
  (∃ k', cp_main sys (S (length bs)) [prog; from; to] buf k = Ok (0, [], k') ∧ files (sees k') = copied) ∧
  (∃ k', mv_main sys (S (length bs)) [prog; from; to] buf k = Ok (0, [], k') ∧ files (sees k') = delete from copied) ∧
  (∃ k', cat_main sys (S (length bs)) [prog; from] buf k = Ok (0, [], k') ∧
     sees k' = mkView (files (sees k)) (fds (sees k)) (console (sees k) ++ bs)).
Proof.
  intros Hbuf Hne Hfrom Hfds H1. split_and!; [| |by apply cat_spec].
  - destruct (copies_file prog "Usage: cp <src> <dst>" "Unable to open %s" from to buf (fun _ k => Ok (0, [], k)) k bs Hbuf Hne Hfrom)
      as (fd & k' & Hk & Hfs & _). by exists k'.
  - destruct (copies_file prog "Usage: cp <src> <dst>" "Open to open %s" from to buf
      (fun from k => let '(_, k) := unlink sys from k in Ok (0, [], k)) k bs Hbuf Hne Hfrom) as (fd & k' & Hk & Hfs & Hds & _).
    destruct (unlinks from k') as (k2 & Hu & Hk2).
    + rewrite Hfs, lookup_insert_ne by done. by eexists.
    + rewrite Hds. apply map_Forall_insert_2; [simpl; congruence|done].
    + exists k2. split; [|by rewrite Hk2; simpl; rewrite Hfs]. unfold mv_main. rewrite Hk. by rewrite Hu.
Qed.
End files.

(** ** A disk *)
Definition next_fd (m : gmap Z (list Z * nat)) : Z := map_fold (fun fd _ n => Z.max n (fd + 1)) 2 m.

Lemma next_fd_spec m : 2 <= next_fd m ∧ ∀ fd, is_Some (m !! fd) → fd < next_fd m.
Proof.
  unfold next_fd. apply (map_fold_weak_ind (fun n m => 2 <= n ∧ ∀ fd, is_Some (m !! fd) → fd < n)).
  - split; [done|]. intros fd [? Hfd]. by rewrite lookup_empty in Hfd.
  - intros i x m' n Hi [H2 IH]. split; [lia|]. intros fd Hfd. destruct (decide (fd = i)) as [->|Hne]; [lia|].
    rewrite lookup_insert_ne in Hfd by done. specialize (IH fd Hfd). lia.
Qed.

Lemma next_fd_free m : m !! next_fd m = None.
Proof. apply eq_None_not_Some. intros H. apply next_fd_spec in H. lia. Qed.

(** The state is what is seen of it. [room]: whether it can be written. *)
Definition disk (room : bool) : syscalls view := {|
  creat name v :=
    let fd := next_fd (fds v) in
    (fd, with_files (fun fs => <[name := default [] (fs !! name)]> fs) (with_fds <[fd := (name, 0%nat)]> v));
  open name v :=
    match files v !! name with
    | Some _ => let fd := next_fd (fds v) in (fd, with_fds <[fd := (name, 0%nat)]> v)
    | None => (-1, v)
    end;
  read fd n v :=
    match fds v !! fd with
    | Some (name, p) =>
        match files v !! name with
        | Some bs =>
            let r := take (Z.to_nat n) (drop p bs) in (Z.of_nat (length r), r, with_fds <[fd := (name, (p + length r)%nat)]> v)
        | None => (-1, [], v)
        end
    | None => (-1, [], v)
    end;
  write fd w v :=
    if negb room then (-1, v)
    else match fds v !! fd with
    | Some (name, p) =>
        match files v !! name with
        | Some bs =>
            (Z.of_nat (length w), with_files <[name := overwrite p w bs]> (with_fds <[fd := (name, (p + length w)%nat)]> v))
        | None => (-1, v)
        end
    | None => if fd =? 1 then (Z.of_nat (length w), mkView (files v) (fds v) (console v ++ w)) else (-1, v)
    end;
  close fd v := match fds v !! fd with Some _ => (0, with_fds (delete fd) v) | None => (-1, v) end;
  unlink name v := match files v !! name with Some _ => (0, with_files (delete name) v) | None => (-1, v) end;
|}.

#[export] Instance disk_fault_free : FaultFree (disk true) id.
Proof.
  split; simpl; intros; unfold id in *.
  - eexists _, _. split_and!; [done|by apply next_fd_spec|apply next_fd_free|done].
  - destruct H as [? ->]. eexists _, _. split_and!; [done|by apply next_fd_spec|apply next_fd_free|done].
  - rewrite H. by eexists.
  - rewrite H, H0. by eexists.
  - rewrite H, H0. by eexists.
  - rewrite H. by eexists.
  - destruct H as [? ->]. by eexists.
  - destruct H as [? ->]. by eexists.
Qed.

Definition two_files : view := mkView {[ bytes "a" := bytes "new"; bytes "b" := bytes "older" ]} ∅ [].

Theorem file_programs_keep_the_contents_witness :
  let copied := <[bytes "b" := bytes "newer"]> (files two_files) in
  (∃ v, cp_main (disk true) 4 [bytes "x"; bytes "a"; bytes "b"] (replicate 1024 0) two_files = Ok (0, [], v) ∧ files v = copied) ∧
  (∃ v, mv_main (disk true) 4 [bytes "x"; bytes "a"; bytes "b"] (replicate 1024 0) two_files = Ok (0, [], v) ∧
     files v = delete (bytes "a") copied) ∧
  (∃ v, cat_main (disk true) 4 [bytes "x"; bytes "a"] (replicate 1024 0) two_files = Ok (0, [], v) ∧
     v = mkView (files two_files) ∅ (bytes "new")).
Proof.
  apply (file_programs_keep_the_contents (disk true) id (bytes "x") (bytes "a") (bytes "b") (replicate 1024 0) two_files (bytes "new"));
    [done|by apply (bool_decide_unpack _); vm_compute|done|apply map_Forall_empty|done].
Defined.

(** [mv] does not look at what [write] answers: on a full disk the contents are lost, and it
    reports success. *)
Lemma mv_loses_the_file :
  ∃ v, mv_main (disk false) 4 [bytes "mv"; bytes "a"; bytes "c"] (replicate 1024 0) (mkView {[bytes "a" := bytes "new"]} ∅ []) = Ok (0, [], v) ∧
    files v = {[bytes "c" := []]}.
Proof. eexists. split; by vm_compute. Qed.

(** The operands are counted before anything is opened. *)
Lemma wrong_operands {K} (sys : syscalls K) fuel argv buf k :
  (length argv ≠ 3%nat → cp_main sys fuel argv buf k = Ok (1, [(ln "Usage: cp <src> <dst>", [])], k) ∧
    mv_main sys fuel argv buf k = Ok (1, [(ln "Usage: cp <src> <dst>", [])], k)) ∧
  (length argv ≠ 2%nat → cat_main sys fuel argv buf k = Ok (1, [(ln "Usage: cat <file>", [])], k) ∧
    rm_main sys argv k = Ok (1, [(ln "Usage: rm <file>", [])], k)).
Proof.
  split; intros H; [unfold cp_main, mv_main, copy_file; destruct (Z.eqb_spec (Z.of_nat (length argv)) 3)
    |unfold cat_main, rm_main; destruct (Z.eqb_spec (Z.of_nat (length argv)) 2)]; done || lia.
Qed.
